(* ===== verification/_CoqProject ===== *)
-Q . S2P
Prelude.v
Prog.v
Safe.v
Text.v
Sha256.v
Script.v
TxBuilder.v
Backoff.v
Float.v
FloatFacts.v
Strconv.v
Json.v
JsonFacts.v
Mime.v
Metrics.v
Store.v
Heap.v
Queue.v
Engine.v
Control.v
Lane.v
Chain.v
Wake.v
Liveness.v
Bootstrap.v
Recovery.v
Frame.v
Growth.v
Restart.v
Config.v
HttpClient.v
Http.v
Arcade.v
Woc.v
Network.v
Notifier.v
Sse.v
Server.v
App.v
Lifecycle.v
Command.v
Process.v
Scenario.v
NetScenario.v
