(* ===== verification/Prelude.v ===== *)
(** * tx-gen: a verification development

    tx-gen (src/, Go) keeps a large number of chains of unconfirmed Bitcoin SV
    transactions going against the Arcade broadcast service.  From one funded
    output it makes an L1 fanout and parallel L2 fanouts into one output per
    chain; each chain then broadcasts one transaction per interval, spending its
    previous output, until the output no longer pays the fee.  Every broadcast is
    written to a BoltDB file first and committed once accepted, so that a crash
    can be recovered from.

    ** The program and its model

    - internal/txbuilder.  [Script.v] (Module [Script]) has the tagged push/drop
      lock script, [lockScriptTag] and the script hash; [TxBuilder.v] has [Mode]
      and its constructors, [BuildFanout] and [BuildSustain].  The Bitcoin SDK is
      the class [Sdk]; what is relied on of it are the classes [SdkLaws] and
      [TxidLaws] (a transaction id is not empty and determines what the
      transaction spends).  The Go library functions they call are in [Text.v]
      (UTF-8, [strings.TrimSpace], hex) and [Sha256.v].
    - internal/backoff.  [Backoff.v]: exponential delays and jitter on [int64].
    - internal/metrics.  [Metrics.v]: the collectors and their registration, every
      recording method and what /metrics serves, over the class [Prometheus], whose
      calls can panic; [Float.v] has the [float64] operations the program uses and
      [FloatFacts.v] how accurate they are.
    - internal/store.  [Store.v]: every operation, over the classes [Bolt] (a
      transaction is applied whole or not at all) and [Gob] (what is encoded
      decodes), the abstract store [StoreView], and the class [DurableStore] with
      [DurableStoreLaws], which is all that the engine knows of it; the instances
      [store_durable] and [store_durable_laws] discharge them.  [ReliableStore] is
      what theorems about success assume: a store whose operations do not fail.
    - internal/engine/queue.go.  [Heap.v] is container/heap, [Queue.v] (Module
      [Queue]) the queue of UTXOs over it and over any [DurableStore].
    - internal/engine/{engine,state,notify,persist}.go.  [Engine.v]: the record
      [Engine], [State], [New], [restore] and [replayPending], and the calls of
      the HTTP server and the tip stream.  [Control.v] has their properties.
    - internal/engine/chain.go.  [Chain.v]: [runChains], [runChain], the waits;
      [Wake.v]: the chains in [waitActive] beside the calls of [SetTPS] that wake them.
    - internal/engine/bootstrap.go.  [Bootstrap.v]: [bootstrap], [bootstrapFull],
      [bootstrapL2], [fanoutParent], [broadcastWithRetry], and [Run]; [Growth.v] has
      the properties of the bootstrap as a whole.
    - internal/safe.  [Safe.v] (Module [Safe]): goroutines that may panic anywhere
      ([mayPanic]), the deferred recovery, the runner and its wait group.
    - internal/config.  [Config.v]: the environment reader, [load], [Redacted],
      [MarshalJSON] and [String].  What it and the parts below use of Go's library is in
      [Strconv.v] (numbers, durations, [url.QueryEscape]), [Json.v] and
      [JsonFacts.v] (encoding/json: parser, printer, indentation, decoding into structs) and
      [Mime.v] (media types).
    - internal/httpclient.  [HttpClient.v]: the transports and the clients made of
      them.
    - internal/arcade, internal/woc, internal/notifier.  [Http.v] has requests,
      answers and the class [Net] (the network, the clock, the context, [select],
      random numbers); [Arcade.v], [Woc.v] and [Notifier.v] have the three clients
      over it, each a Module with the source's names.
    - internal/sse.  [Sse.v]: the line scanner, the events, the three handlers, the
      reconnecting loop and the idle watch, over the class [StreamEnv] (the sink,
      the reporter, the metrics), which is all that the streams know of the rest.
    - internal/server.  [Server.v]: routes, authentication, validation, every
      handler and the readiness checks, over the engine's calls.
    - internal/app.  [App.v]: the guard on the state file, [initialUTXOs] and the
      start of the engine; [Network.v]: the options of the Arcade and
      WhatsOnChain clients; [Process.v]: the goroutines of a process on the state
      they share, the instance of [StreamEnv] they run with included; [Lifecycle.v]:
      [Run] from its early returns to its result, with [ListenAndServe], [shutdown],
      [waitTimeout] and [closeStore], as a step function on the phases of its
      goroutines and a clock.
    - cmd/tx-gen.  [Command.v]: flags, version, configuration, the level of the
      logger and the exit code.

    ** How the code is represented

    [Prog.v]: a function of the engine is a [prog] over the state it shares with
    other goroutines, a tree of atomic actions (an action is one critical
    section, one atomic load or store, one store transaction or one call of the
    outside world).  [run] executes it, [reaches] gives every state in which it
    may be stopped, and [par] runs goroutines under a schedule, one action at a
    time.  What is outside the program (Arcade, WhatsOnChain, the clock, random
    numbers, [select], the context, the scheduler, and where a chain or a fanout
    panics) is the class [World]: its
    operations return what they like and are arguments of every theorem; a [select] with
    a timer passes the duration on.  Since a world is arbitrary, what is proved of the
    engine holds whatever the clients below it do, overlapping included.  The
    ghost field [e_log] of [Engine] is the list of what was broadcast with the
    answer, so that theorems can speak of what the network accepted.  The queue
    holds the store ([e.queue.store] and [e.store] are the same pointer).  Programs
    on a part of a larger state are lifted to it by [zoom].

    The clients' requests are answered by [Net]; the ghost fields of [Clients] and of
    [Notifier.State] list what each call sent and got.  The oracle of the engine
    ([World]) and those of the clients and of the notifier are separate.  The body of a
    stream is what it delivers before it ends or fails.

    Integers are [Z] with their wrap-around written where the code can leave the
    range ([u64], [i64]); errors are the type [err], with [Wrap] for [%w]; the
    numbers and names formatted into an error text are dropped, its constant part
    is kept.  A log line is not modelled.

    Loops that the program runs for ever take fuel: [chainLoop] and [waitInterval]
    in [runChains fuel], [pollSeed] in [bootstrap].  They then return
    [ChainRunning], [StillWaiting] or [Unfinished], which the code does not, and
    every safety theorem holds for all fuels; [chain_exhausts] gives the fuel that
    is enough for a chain to end.  The fuel of [popChains] and of the heap's
    [up], [down] and [drain] is the length of the queue, and is shown to be enough
    by their specifications; so is that of [exponential_loop].  [streamLoop] has
    fuel for its connections and [acquire] for its rounds ([Blocked] when it is used
    up); their theorems hold for all fuels.  The JSON parser's fuel is the length of
    its input, enough by [JsonFacts.parse_fuel].

    ** What is proved

    - Crash safety ([Lane.v], [Chain.v], [Bootstrap.v], [Recovery.v], [Process.v]).
      A [lane] is the part of the durable state one goroutine owns; [Lane.v] derives,
      by rely-guarantee reasoning ([rg], [par_rg] in [Prog.v]), that the
      save-broadcast-commit protocol keeps it recoverable under interference from
      all others.  [bootstrapL2_crash_safe] concludes it for the L2 fanouts,
      [process_bootstrap_crash_safe] for the bootstrap of a whole process from one
      funding output ([Growth.v]), and [process_crash_safe] for its chains, beside its
      streams and any requests, any of which may panic, at every point of every
      interleaving.  [restore_replays] and [restore_restartable] follow the state file
      through a restart, [state_belongs_to_mode] through its guard.
    - Restarts ([Restart.v], [Process.v]).  [process_restart] and
      [process_bootstrap_restart] say what a process continues from after a crash of its
      chains or of its bootstrap, lane by lane ([resumed] in [Recovery.v]), and that
      the chains can crash again; [restart_succeeds] that it does start.
    - Function of the bootstrap and of the chains: [bootstrapL2_complete],
      [bootstrapL2_errors], [l2Sizes_partition], [ceilDiv_spec],
      [exhausted_chain_is_settled], [chain_exhausts], [unknown_stage_starts_nothing],
      and the pace of the chains on [float64], [chainInterval_accurate].
    - Goroutines and their end: [panics_are_contained], [chains_counted] ([Frame.v],
      over a class of invariants that nothing in the engine breaks),
      [shutdown_in_order], [shutdown_ends], [Run_result].
    - Command: [run_spec].
    - Transactions: [BuildFanout_Ok], [BuildFanout_errors], [BuildSustain_spec], and
      [fanoutRawSize_is_wire_length] against the serialization in [Wire].
    - Store and queue: [store_refines_view] (a refinement of [StoreView] over any
      history of operations with failing writes), [CommitPending_atomic],
      [store_roundtrips], [utxoKey_injective], and [queue_invariant] (the queue and the
      effect of each of its operations under every interleaving).
    - Control: [ConfigureBootstrap_spec], [locked_parameters_are_fixed],
      [degraded_only_after_failures], [no_lost_wakeup].
    - Configuration: [load_spec], [load_wf], [MarshalJSON_redacts] (of the JSON text
      and of its indented form).
    - Clients: [concurrent_broadcasts] (slots, retries and results of broadcasts
      under every interleaving), [stopped_broadcasts] (their requests wherever they
      are stopped), [FetchUTXOs_spec], [listing_roundtrip], [reorgs_deduplicated],
      [ReportReorg_posts].
    - Streams: [stream_delivers], [reconnects_paced], [reorgHeight_spec],
      [watch_closes_idle].
    - Server: [handleConfig_spec], [unauthorized_changes_nothing],
      [handleReadyz_spec].
    - Smaller parts: [lockScriptTag_spec], [TaggedDropLockScript_spec],
      [exponential_spec], [Retry_bounds], [Reconnect_bounds]; of the metrics,
      [metrics_sound] and [SetBootstrapStage_one_hot].
    - What the code does not do as documented or meant: [runner_tags_collide],
      [partial_l2_starts_chains], [zero_value_chain_never_ends],
      [racing_SetTPS_reports_running], [pause_is_undone_by_broadcasts],
      [ceilDiv_overflow], [unknown_stage_lost], [racing_config_requests],
      [engine_panic_unnoticed], [early_shutdown_misses_server], [level_takes_offset].

    The crash theorems assume of the funding outputs what any ledger gives: the
    starting tips are distinct, and none is an output of a transaction that spends
    another ([independent], [parents_independent]); for a bootstrap from one output,
    that the transactions grown from it form a tree ([rooted]).  [Scenario.v] and
    [NetScenario.v] run the development on a toy SDK, an in-memory state file with
    scripted write failures, a scripted world and a scripted network, where these
    hypotheses hold.

    ** What is not modelled

    [Run] starts [trackTPS] beside the rest; in the model it is a goroutine of
    [Process.goroutines] instead.  In [runChains] the chains start when the popping
    loop has ended, which changes nothing since a chain does not touch the queue.
    A panic strikes between two actions of a goroutine; what is deferred under it is
    modelled where it acts on the state (the count of the chains, the zero result of
    a fanout).  The end of a process ([Lifecycle.v]) knows its workers only as
    running or ended, and requests and transactions of the state file only by their
    number; [http.Server.Shutdown] and Bolt's [Close] are what their documentation says
    they wait for.  Log records are not modelled: they only drive slog; so [logAttempt]
    of the Arcade client has no counterpart.  The reports of /status and
    /readyz and the answers of the other handlers are kept as values, not as the bytes
    [writeJSON] makes of them.  What remains of the Bitcoin SDK, BoltDB, gob,
    Prometheus and net/http are the laws of their classes.

    ** Plan

    What could be added: the stage a restarted bootstrap resumes with, which is written
    apart from the outputs; the engine over the two clients, with its log tied to their
    exchanges while broadcasts overlap. *)

From stdpp Require Export base tactics numbers list option gmap strings pretty.
From Stdlib Require Export ZArith Lia.
From Stdlib Require Export Strings.Byte.


Open Scope Z_scope.

(** ** Notations *)

(** A Go [[]byte]. *)
Abbreviation bytes := (list Byte.byte).

#[export] Instance byte_eq_dec : EqDecision Byte.byte := Byte.byte_eq_dec.

(** ** Machine integers

    Go's [uint64], [uint32] and [int] (64 bits) are kept as [Z]; an arithmetic
    operation of the source that can leave the range is wrapped explicitly. *)

Definition two32 : Z := 4294967296.
Definition two63 : Z := 9223372036854775808.
Definition two64 : Z := 18446744073709551616.

Definition u64 (z : Z) : Z := z mod two64.
Definition i64 (z : Z) : Z := (z + two63) mod two64 - two63.

Definition is_u64 (z : Z) : Prop := 0 <= z < two64.
Definition is_i64 (z : Z) : Prop := - two63 <= z < two63.

Lemma u64_small z : is_u64 z -> u64 z = z.
Proof. intros H. apply Z.mod_small, H. Qed.

Lemma u64_range z : is_u64 (u64 z).
Proof. apply Z.mod_pos_bound. reflexivity. Qed.

Lemma i64_small z : is_i64 z -> i64 z = z.
Proof.
  unfold is_i64, i64. intros H.
  rewrite Z.mod_small; unfold two63, two64 in *; lia.
Qed.

(** ** Errors

    The sentinel errors of the packages, the errors that come from code outside
    the repository, and [fmt.Errorf]'s wrapping.  The text that a wrapping adds
    is kept as its constant part; the numbers and names it formats are not. *)

Inductive err : Set :=
  (* internal/txbuilder/errors.go *)
  | ErrInstanceIDRequired | ErrPrivateKeyRequired | ErrInvalidPrivateKey
  | ErrNilMode | ErrInvalidFanoutCount | ErrTxTooLarge | ErrInsufficientValue
  | ErrZeroValueUTXO | ErrInvalidTxID
  (* internal/store/store.go *)
  | ErrPendingTxIDRequired
  (* internal/engine/errors.go *)
  | ErrModeRequired | ErrBroadcasterRequired | ErrBootstrapLocked
  | ErrInvalidBootstrap | ErrNoUTXOs | ErrManualRecovery | ErrBootstrapIncomplete
  (* internal/config/config.go *)
  | ErrAdminTokenRequired | ErrConfigInstanceIDRequired | ErrInvalidValue
  (* internal/arcade/client.go, internal/woc/client.go, internal/notifier/notifier.go *)
  | ErrRejected | ErrUnhealthy | ErrRequestFailed | ErrWebhookFailed
  (* internal/sse/sse.go, internal/server/server.go *)
  | ErrUnexpectedStatus | ErrArcadeUnavailable
  (* internal/app/app.go *)
  | ErrStateMismatch | ErrLegacyState
  (* io.EOF *)
  | EOF
  (* context.Canceled *)
  | ContextCanceled
  (* a nil dereference: a Go run-time panic *)
  | NilPanic
  (* an error value produced outside the repository *)
  | External (msg : string)
  (* fmt.Errorf("msg: %w", e) and fmt.Errorf("%w: msg", e) *)
  | Wrap (msg : string) (e : err)
  (* fmt.Errorf("%w ...: %w", e1, e2) *)
  | WrapBoth (e1 e2 : err).

#[export] Instance err_eq_dec : EqDecision err.
Proof. solve_decision. Defined.

(** [errors.Is] *)
Fixpoint errors_is (e target : err) : bool :=
  bool_decide (e = target) ||
  match e with
  | Wrap _ e' => errors_is e' target
  | WrapBoth e1 e2 => errors_is e1 target || errors_is e2 target
  | _ => false
  end.

(** [errors.Join(errs...)] *)
Definition join_errs (errs : list err) : option err :=
  match errs with [] => None | e :: es => Some (foldl WrapBoth e es) end.

(** A Go result [(A, error)]. *)
Inductive result (A : Type) : Type :=
  | Ok (a : A)
  | Err (e : err).
Arguments Ok {A} a.
Arguments Err {A} e.

#[export] Instance result_ret : MRet result := fun A a => Ok a.
#[export] Instance result_bind : MBind result := fun A B f m =>
  match m with Ok a => f a | Err e => Err e end.
#[export] Instance result_fmap : FMap result := fun A B f m =>
  match m with Ok a => Ok (f a) | Err e => Err e end.

(** [if err != nil { return fmt.Errorf("msg: %w", err) }] *)
Definition wrap {A} (msg : string) (m : result A) : result A :=
  match m with Ok a => Ok a | Err e => Err (Wrap msg e) end.

(** An error result seen as a success flag. *)
Definition is_ok {A} (m : result A) : bool :=
  match m with Ok _ => true | Err _ => false end.

Lemma result_bind_Ok {A B} (f : A -> result B) (m : result A) b :
  m ≫= f = Ok b <-> exists a, m = Ok a /\ f a = Ok b.
Proof. destruct m; simpl; split; naive_solver. Qed.

Lemma wrap_Ok {A} msg (m : result A) a : wrap msg m = Ok a <-> m = Ok a.
Proof. destruct m; simpl; split; congruence. Qed.

(** A fold over a slice that stops at the first error. *)
Fixpoint foldM {A B} (f : B -> A -> result B) (acc : B) (l : list A) : result B :=
  match l with
  | [] => Ok acc
  | x :: l' => acc' ← f acc x; foldM f acc' l'
  end.

(** ** Automation *)

(** Split the hypotheses that say a computation in [result] returned. *)
Ltac invert_ok :=
  repeat match goal with
  | H : Ok _ = Ok _ |- _ => injection H as H
  | H : Err _ = Ok _ |- _ => discriminate H
  | H : Ok _ = Err _ |- _ => discriminate H
  | H : mbind (M:=result) _ _ = Ok _ |- _ =>
      apply result_bind_Ok in H; destruct H as (? & ? & ?)
  | H : wrap _ _ = Ok _ |- _ => apply wrap_Ok in H
  | H : (if ?b then Err _ else _) = Ok _ |- _ =>
      let E := fresh "E" in destruct b eqn:E; [discriminate H|]
  | H : (if ?b then _ else Err _) = Ok _ |- _ =>
      let E := fresh "E" in destruct b eqn:E; [|discriminate H]
  end; simplify_eq.

(** Turn boolean comparisons into propositions. *)
Ltac bool_to_prop :=
  repeat match goal with
  | H : _ && _ = true |- _ => apply andb_prop in H; destruct H
  | H : _ || _ = false |- _ => apply orb_false_elim in H; destruct H
  | H : negb _ = true |- _ => apply negb_true_iff in H
  | H : negb _ = false |- _ => apply negb_false_iff in H
  | H : (_ <=? _) = true |- _ => apply Z.leb_le in H
  | H : (_ <=? _) = false |- _ => apply Z.leb_gt in H
  | H : (_ <? _) = true |- _ => apply Z.ltb_lt in H
  | H : (_ <? _) = false |- _ => apply Z.ltb_ge in H
  | H : (_ =? _) = true |- _ => apply Z.eqb_eq in H
  | H : (_ =? _) = false |- _ => apply Z.eqb_neq in H
  end.

(** Case analysis on the innermost test of the goal. *)
Ltac case_if :=
  match goal with
  | |- context [if ?b then _ else _] =>
      let E := fresh "E" in destruct b eqn:E
  end.

(** The same in a hypothesis. *)
Tactic Notation "case_if" "in" hyp(H) :=
  match type of H with
  | context [if ?b then _ else _] =>
      let E := fresh "E" in destruct b eqn:E
  end.

Create Rewrite HintDb len.
#[export] Hint Rewrite @length_app @length_replicate @length_fmap @length_seq
  @length_imap : len.

(** ** Sums over lists of integers *)

Fixpoint Zsum (l : list Z) : Z :=
  match l with [] => 0 | x :: l' => x + Zsum l' end.

Lemma Zsum_app l1 l2 : Zsum (l1 ++ l2) = Zsum l1 + Zsum l2.
Proof. induction l1; simpl; lia. Qed.

Lemma Zsum_replicate n x : Zsum (replicate n x) = Z.of_nat n * x.
Proof. induction n; simpl; lia. Qed.

Lemma Zsum_perm l1 l2 : l1 ≡ₚ l2 -> Zsum l1 = Zsum l2.
Proof. induction 1; simpl; lia. Qed.

(** ** Lists *)

Lemma foldM_app {A B} (f : B -> A -> result B) acc l1 l2 :
  foldM f acc (l1 ++ l2) = (foldM f acc l1 ≫= fun acc' => foldM f acc' l2).
Proof.
  revert acc; induction l1 as [|x l1 IH]; intros acc; simpl; [done|].
  destruct (f acc x); simpl; auto.
Qed.

(** A fold of a step that does not fail does not fail. *)
Lemma foldM_total_in {A B} (f : B -> A -> result B) acc l :
  (forall b a, a ∈ l -> exists b', f b a = Ok b') -> exists b, foldM f acc l = Ok b.
Proof.
  revert acc. induction l as [|x l IH]; intros acc Hf; simpl; [eauto|].
  destruct (Hf acc x) as [b ->]; [left|]. apply IH. intros b' a Ha. apply Hf. by right.
Qed.

Lemma foldM_total {A B} (f : B -> A -> result B) acc l :
  (forall b a, exists b', f b a = Ok b') -> exists b, foldM f acc l = Ok b.
Proof. intros Hf. apply foldM_total_in. auto. Qed.

(** An invariant carried through a successful fold. *)
Lemma foldM_inv {A B} (f : B -> A -> result B) (I : list A -> B -> Prop) l acc b :
  (forall done x acc acc', I done acc -> x ∈ l -> f acc x = Ok acc' -> I (done ++ [x]) acc') ->
  I [] acc -> foldM f acc l = Ok b -> I l b.
Proof.
  intros Hstep Hinit Hrun.
  enough (forall rest pre acc, (forall x, x ∈ rest -> x ∈ l) -> I pre acc -> foldM f acc rest = Ok b ->
    I (pre ++ rest) b) as H by (apply (H l [] acc); auto).
  induction rest as [|x rest IH]; intros pre acc' Hin HI Hf; simpl in Hf.
  - injection Hf as ->. by rewrite app_nil_r.
  - apply result_bind_Ok in Hf as (acc'' & Hx & Hf).
    rewrite (cons_middle x pre rest), (assoc_L (++)).
    apply (IH _ acc''); [set_solver| |done].
    apply (Hstep pre x acc'); [done|set_solver|done].
Qed.

(** A filter that keeps nothing, and one that keeps everything. *)
Lemma filter_none {A} (P : A -> Prop) `{forall x, Decision (P x)} (l : list A) :
  (forall x, x ∈ l -> ~ P x) -> filter P l = [].
Proof.
  induction l as [|a l IH]; intros Hl; [done|]. rewrite filter_cons_False by (apply Hl; left).
  apply IH. intros x Hx. apply Hl. by right.
Qed.

Lemma filter_all {A} (P : A -> Prop) `{forall x, Decision (P x)} (l : list A) :
  (forall x, x ∈ l -> P x) -> filter P l = l.
Proof.
  induction l as [|a l IH]; intros Hl; [done|]. rewrite filter_cons_True by (apply Hl; left).
  f_equal. apply IH. intros x Hx. apply Hl. by right.
Qed.
