(* ===== verification/Prog.v ===== *)
(** * Programs as sequences of atomic actions

    The engine's goroutines share a queue, a store and a state that are each
    guarded by a lock, so the code is a sequence of atomic actions on one shared
    state [S].  [prog S A] is such a code: it can be run to its end ([run]), it
    can be stopped after any action ([reaches], a crash), and several of them can
    be interleaved ([par]) in the order a schedule gives.

    [wpi] is a weakest precondition that also keeps an invariant after every
    single action; [rg] is its rely-guarantee form, for a goroutine whose
    environment moves between its actions. *)

From S2P Require Import Prelude.

Inductive prog (S A : Type) : Type :=
  | Ret (a : A)
  | Act {B : Type} (f : S -> B * S) (k : B -> prog S A).
Arguments Ret {S A} a.
Arguments Act {S A B} f k.

Section prog.
Context {S : Type}.

Fixpoint pbind {A B} (p : prog S A) (g : A -> prog S B) : prog S B :=
  match p with
  | Ret a => g a
  | Act f k => Act f (fun b => pbind (k b) g)
  end.

(** One atomic action. *)
Definition act {B} (f : S -> B * S) : prog S B := Act f Ret.
Definition modify (f : S -> S) : prog S unit := act (fun s => (tt, f s)).
Definition gets {B} (f : S -> B) : prog S B := act (fun s => (f s, s)).

(** Run to the end. *)
Fixpoint run {A} (p : prog S A) (s : S) : A * S :=
  match p with
  | Ret a => (a, s)
  | Act f k => let '(b, s') := f s in run (k b) s'
  end.

(** [reaches p s s']: stopping [p] after some of its actions leaves [s']. *)
Inductive reaches {A} : prog S A -> S -> S -> Prop :=
  | reaches_here p s : reaches p s s
  | reaches_act {B} (f : S -> B * S) k s b s1 s2 :
      f s = (b, s1) -> reaches (k b) s1 s2 -> reaches (Act f k) s s2.

(** Stop after [n] actions. *)
Fixpoint stop {A} (n : nat) (p : prog S A) (s : S) : S :=
  match n, p with
  | Datatypes.S n, Act f k => let '(b, s') := f s in stop n (k b) s'
  | _, _ => s
  end.

Lemma stop_reaches {A} n (p : prog S A) s : reaches p s (stop n p s).
Proof.
  revert p s. induction n as [|n IH]; intros [a|B f k] s; try apply reaches_here. simpl.
  destruct (f s) as [b s'] eqn:Hf. eapply reaches_act; [exact Hf|apply IH].
Qed.

(** *** Weakest preconditions *)

Fixpoint wpi {A} (I : S -> Prop) (p : prog S A) (Q : A -> S -> Prop) (s : S) : Prop :=
  match p with
  | Ret a => Q a s
  | Act f k => I (f s).2 /\ wpi I (k (f s).1) Q (f s).2
  end.

Lemma wpi_mono {A} (I I' : S -> Prop) (p : prog S A) (Q Q' : A -> S -> Prop) s :
  (forall s, I s -> I' s) -> (forall a s, Q a s -> Q' a s) ->
  wpi I p Q s -> wpi I' p Q' s.
Proof.
  intros HI HQ. revert s. induction p as [a|B f k IH]; simpl; intros s; [auto|].
  intros [H1 H2]. split; auto.
Qed.

Lemma wpi_bind {A B} I (p : prog S A) (g : A -> prog S B) Q s :
  wpi I p (fun a s' => wpi I (g a) Q s') s -> wpi I (pbind p g) Q s.
Proof.
  revert s. induction p as [a|C f k IH]; simpl; intros s; [auto|].
  intros [H1 H2]. auto.
Qed.

Lemma wpi_and {A} I I' (p : prog S A) Q Q' s : wpi I p Q s -> wpi I' p Q' s ->
  wpi (fun s => I s /\ I' s) p (fun a s' => Q a s' /\ Q' a s') s.
Proof. revert s. induction p as [a|B f k IH]; simpl; intros s; [auto|]. intros [H1 H2] [H1' H2']. auto. Qed.

Lemma wpi_act {B} I (f : S -> B * S) Q s :
  I (f s).2 -> Q (f s).1 (f s).2 -> wpi I (act f) Q s.
Proof. simpl. auto. Qed.

(** The invariant holds at the end too. *)
Lemma wpi_inv {A} I (p : prog S A) Q s : I s -> wpi I p Q s -> wpi I p (fun a s' => I s' /\ Q a s') s.
Proof. revert s. induction p as [a|B f k IH]; simpl; intros s HI; [done|]. intros [H1 H2]. auto. Qed.

(** Stopping anywhere satisfies the invariant. *)
Lemma wpi_reaches {A} I (p : prog S A) Q s s' :
  I s -> wpi I p Q s -> reaches p s s' -> I s'.
Proof.
  intros HI Hwp Hr. induction Hr as [|? f k s b s1 s2 Hf Hr IH]; [done|].
  simpl in Hwp. rewrite Hf in Hwp. destruct Hwp as [? ?]. auto.
Qed.

(** Running to the end satisfies the postcondition. *)
Lemma wpi_run {A} I (p : prog S A) Q s a s' :
  wpi I p Q s -> run p s = (a, s') -> Q a s'.
Proof.
  revert s. induction p as [a'|B f k IH]; simpl; intros s Hwp Hrun.
  - by simplify_eq.
  - destruct (f s) as [b s1] eqn:Hf. destruct Hwp as [_ Hwp]. eauto.
Qed.

Lemma run_wpi {A} (p : prog S A) (Q : A -> S -> Prop) s :
  Q (run p s).1 (run p s).2 -> wpi (fun _ => True) p Q s.
Proof.
  revert s. induction p as [a|B f k IH]; simpl; intros s HQ; [done|].
  split; [done|]. apply IH. by destruct (f s).
Qed.

(** From what holds wherever the program is stopped and when it has run. *)
Lemma wpi_intro {A} (I : S -> Prop) (p : prog S A) (Q : A -> S -> Prop) s :
  (forall s', reaches p s s' -> I s') -> Q (run p s).1 (run p s).2 -> wpi I p Q s.
Proof.
  revert s. induction p as [a|B f k IH]; simpl; intros s HI HQ; [done|]. destruct (f s) as [b s1] eqn:Hf. simpl. split.
  - apply HI. econstructor; [exact Hf|constructor].
  - apply IH; [|done]. intros s' Hr. apply HI. by econstructor.
Qed.

Lemma run_bind {A B} (p : prog S A) (g : A -> prog S B) s :
  run (pbind p g) s = let '(a, s') := run p s in run (g a) s'.
Proof.
  revert s. induction p as [a|C f k IH]; simpl; intros s; [done|].
  destruct (f s) as [b s1]. apply IH.
Qed.

Lemma reaches_run {A} (p : prog S A) s : reaches p s (run p s).2.
Proof.
  revert s. induction p as [a|B f k IH]; simpl; intros s; [constructor|].
  destruct (f s) as [b s1] eqn:Hf. econstructor; eauto.
Qed.

(** *** Goroutines *)

(** Run the programs one after the other. *)
Fixpoint seq_all {A} (ps : list (prog S A)) : prog S (list A) :=
  match ps with
  | [] => Ret []
  | p :: ps' => pbind p (fun a => pbind (seq_all ps') (fun l => Ret (a :: l)))
  end.

(** [go func() {...}()] for every program, then [wg.Wait()]: the schedule says
    which goroutine does its next action; what is left when the schedule ends
    runs in order.  Every finite interleaving is one of these. *)
Fixpoint par {A} (sched : list nat) (ps : list (prog S A)) : prog S (list A) :=
  match sched with
  | [] => seq_all ps
  | i :: sched' =>
      match ps !! i with
      | Some (Act f k) => Act f (fun b => par sched' (<[i := k b]> ps))
      | _ => par sched' ps
      end
  end.

(** *** Invariants of every action *)

(** No action of [p], wherever it happens, breaks [P]. *)
Fixpoint preserves {A} (P : S -> Prop) (p : prog S A) : Prop :=
  match p with
  | Ret _ => True
  | Act f k => (forall s, P s -> P (f s).2) /\ forall b, preserves P (k b)
  end.

Lemma preserves_bind {A B} P (p : prog S A) (g : A -> prog S B) :
  preserves P p -> (forall a, preserves P (g a)) -> preserves P (pbind p g).
Proof.
  intros Hp Hg. induction p as [a|C f k IH]; [apply Hg|].
  destruct Hp as [Hf Hk]. split; [done|]. intros b. by apply IH.
Qed.

Lemma preserves_seq_all {A} P (ps : list (prog S A)) :
  (forall p, p ∈ ps -> preserves P p) -> preserves P (seq_all ps).
Proof.
  induction ps as [|p ps IH]; intros Hps; [done|]. simpl.
  apply preserves_bind; [apply Hps; by left|]. intros a.
  apply preserves_bind; [|done]. apply IH. intros q Hq. apply Hps. by right.
Qed.

Lemma preserves_par {A} P sched (ps : list (prog S A)) :
  (forall p, p ∈ ps -> preserves P p) -> preserves P (par sched ps).
Proof.
  revert ps. induction sched as [|i sched IH]; intros ps Hps; [by apply preserves_seq_all|]. simpl.
  destruct (ps !! i) as [[a|B f k]|] eqn:Hi; [by apply IH| |by apply IH].
  destruct (Hps (Act f k)) as [Hf Hk]; [by eapply list_elem_of_lookup_2|].
  split; [done|]. intros b. apply IH. intros p [j Hj]%list_elem_of_lookup.
  apply list_lookup_insert_Some in Hj as [(-> & <- & _)|[_ Hj]]; [by apply Hk|].
  by eapply Hps, list_elem_of_lookup_2.
Qed.

Lemma preserves_reaches {A} P (p : prog S A) s s' : preserves P p -> P s -> reaches p s s' -> P s'.
Proof.
  intros Hp Hs Hr. induction Hr as [|B f k s b s1 s2 Hf Hr IH]; [done|].
  destruct Hp as [Hact Hk]. apply IH; [done|]. specialize (Hact s Hs). by rewrite Hf in Hact.
Qed.

(** Where [p] was stopped, the rest of it finishes the same run. *)
Lemma reaches_rest {A} (p : prog S A) s s' : reaches p s s' ->
  exists p', run p s = run p' s' /\ forall P, preserves P p -> preserves P p'.
Proof.
  induction 1 as [p s|B f k s b s1 s2 Hf Hr (p' & Hrun & Hp)]; [by exists p|].
  exists p'. split; [cbn [run]; by rewrite Hf|]. intros P [_ Hk]. by apply Hp.
Qed.

(** *** Rely-guarantee *)

(** Between two actions of [p] the other goroutines take steps of [R]; every
    action of [p] is a step of [G]. *)
Fixpoint rg {A} (R G : S -> S -> Prop) (p : prog S A) (Q : A -> S -> Prop) (s : S) : Prop :=
  match p with
  | Ret a => forall s', R s s' -> Q a s'
  | Act f k => forall s', R s s' ->
      G s' (f s').2 /\ rg R G (k (f s').1) Q (f s').2
  end.

Lemma rg_stable {A} R G (p : prog S A) Q s s' :
  transitive _ R -> R s s' -> rg R G p Q s -> rg R G p Q s'.
Proof.
  intros Htrans HR. destruct p as [a|B f k]; simpl; intros H s'' HR';
    apply H; eapply Htrans; eauto.
Qed.

Lemma rg_bind {A B} R G (p : prog S A) (g : A -> prog S B) Q s :
  reflexive _ R -> transitive _ R ->
  rg R G p (fun a s' => rg R G (g a) Q s') s -> rg R G (pbind p g) Q s.
Proof.
  intros Hrefl Htrans. revert s. induction p as [a|C f k IH]; simpl; intros s.
  - intros H. apply H, Hrefl.
  - intros H s' HR. destruct (H s' HR) as [HG Hk]. auto.
Qed.

Lemma rg_mono {A} R G (p : prog S A) (Q Q' : A -> S -> Prop) s :
  (forall a s, Q a s -> Q' a s) -> rg R G p Q s -> rg R G p Q' s.
Proof.
  intros HQ. revert s. induction p as [a|B f k IH]; simpl; intros s H s' HR; [auto|].
  destruct (H s' HR) as [HG Hk]. auto.
Qed.

Lemma rg_weaken {A} R (G G' : S -> S -> Prop) (p : prog S A) Q s :
  (forall s s', G s s' -> G' s s') -> rg R G p Q s -> rg R G' p Q s.
Proof.
  intros HG. revert s. induction p as [a|B f k IH]; simpl; intros s H s' HR; [auto|].
  destruct (H s' HR) as [HGs Hk]. auto.
Qed.

(** Less interference. *)
Lemma rg_rely {A} (R R' : S -> S -> Prop) G (p : prog S A) Q s :
  (forall s s', R' s s' -> R s s') -> rg R G p Q s -> rg R' G p Q s.
Proof.
  intros HR. revert s. induction p as [a|B f k IH]; simpl; intros s H s' HR'; [auto|].
  destruct (H s' (HR _ _ HR')) as [HGs Hk]. auto.
Qed.

Lemma rg_act {B} R G (f : S -> B * S) Q s :
  (forall s', R s s' -> G s' (f s').2 /\ forall s'', R (f s').2 s'' -> Q (f s').1 s'') ->
  rg R G (act f) Q s.
Proof. done. Qed.

(** A step that keeps an invariant. *)
Definition keeps (I : S -> Prop) (s s' : S) : Prop := I s -> I s'.

(** An invariant that the program keeps and others do not break holds after each of
    its actions, and at its end. *)
Lemma rg_assert {A} (I : S -> Prop) R G (p : prog S A) Q s :
  (forall s s', R s s' -> I s -> I s') -> (forall s s', G s s' -> I s -> I s') -> I s -> rg R G p Q s ->
  rg R (fun _ s' => I s') p (fun a s' => I s' /\ Q a s') s.
Proof.
  intros HR HG. revert s. induction p as [a|B f k IH]; simpl; intros s HI Hrg s' Hs'; pose proof (HR _ _ Hs' HI).
  - auto.
  - destruct (Hrg s' Hs') as [HGs Hk]. split; [eauto|]. apply IH; eauto.
Qed.

(** So does one that no action of the program breaks, wherever it happens. *)
Lemma rg_also {A} (P : S -> Prop) R G (p : prog S A) Q s :
  preserves P p -> (forall s s', R s s' -> P s -> P s') -> P s -> rg R G p Q s ->
  rg R (fun s1 s2 => G s1 s2 /\ P s2) p (fun a s' => Q a s' /\ P s') s.
Proof.
  intros Hp HR. revert s. induction p as [a|B f k IH]; simpl; intros s Hs Hrg s' Hs'; pose proof (HR _ _ Hs' Hs); [auto|].
  destruct Hp as [Hf Hk]. destruct (Hrg s' Hs') as [HGs Hrest]. split; [auto|]. apply IH; auto.
Qed.

(** What holds under interference holds of a program that runs alone. *)
Lemma rg_wpi {A} I R (p : prog S A) Q s : reflexive _ R -> I s -> rg R (keeps I) p Q s -> wpi I p Q s.
Proof.
  intros HR. revert s. induction p as [a|B f k IH]; simpl; intros s HI Hrg; [by apply Hrg|].
  destruct (Hrg s) as [HG Hk]; [apply HR|]. split; [by apply HG|]. apply IH; [by apply HG|done].
Qed.

(** What the program itself ensures, its environment may rely on. *)
Lemma rg_when {A} (P : S -> Prop) (R G : S -> S -> Prop) (p : prog S A) Q s : (forall s s', R s s' -> P s -> P s') ->
  (forall s s', G s s' -> P s') -> P s -> rg R G p Q s -> rg (fun s s' => P s -> R s s') G p Q s.
Proof.
  intros HR HG. revert s. induction p as [a|B f k IH]; simpl; intros s Hs Hrg s' Hs'; [auto|].
  destruct (Hrg s' (Hs' Hs)) as [HGs Hrest]. split; [done|]. apply IH; eauto.
Qed.

(** A program all of whose actions are steps of [G]. *)
Lemma preserves_rg {A} R G (p : prog S A) s : reflexive _ G -> (forall s0, preserves (G s0) p) ->
  rg R G p (fun _ _ => True) s.
Proof.
  intros HG. revert s. induction p as [a|B f k IH]; simpl; intros s Hp s' _; [done|].
  split; [apply (Hp s'), HG|]. apply IH. intros s0. by apply Hp.
Qed.

(** **** The parallel rule

    When no goroutine's guarantee, and nothing that others do, disturbs what
    another relies on, the goroutines reach their postconditions together, whatever
    the schedule, and guarantee together what each of them guarantees. *)
Section par_rule.
Context {A : Type} (R G : nat -> S -> S -> Prop) (Q : nat -> A -> S -> Prop).
Context (Rx Gx : S -> S -> Prop).
Context (HRr : forall i, reflexive _ (R i)) (HRt : forall i, transitive _ (R i)).
Context (HXr : reflexive _ Rx) (HXt : transitive _ Rx).
Context (Hcompat : forall i j s s', i <> j -> G j s s' -> R i s s').
Context (Hothers : forall i s s', Rx s s' -> R i s s').
Context (HG : forall i s s', G i s s' -> Gx s s').

(** One goroutine run to its end, the others waiting. *)
Lemma rg_solo i (p : prog S A) s :
  rg (R i) (G i) p (Q i) s ->
  rg Rx Gx p (fun a s' => rg (R i) (G i) (Ret a) (Q i) s' /\ forall j, j <> i -> R j s s') s.
Proof using HRr HRt Hcompat Hothers HG.
  revert s. induction p as [a|B f k IH]; intros s Hrg s' HX.
  - split; [|intros j _; by apply Hothers]. apply (rg_stable _ (G i) _ _ s); [apply HRt|by apply Hothers|done].
  - destruct (Hrg s') as [HGs Hk]; [by apply Hothers|]. split; [by eapply HG|].
    eapply rg_mono; [|apply IH; done]. intros a s2 [Ha Hj]. split; [done|].
    intros j Hne. eapply HRt; [by apply Hothers|]. eapply HRt; [|by apply Hj]. eauto.
Qed.

Lemma seq_all_rg ps n s :
  (forall i p, ps !! i = Some p -> rg (R (n + i)) (G (n + i)) p (Q (n + i)) s) ->
  rg Rx Gx (seq_all ps) (fun l s' => length l = length ps /\
    (forall i a, l !! i = Some a -> rg (R (n + i)) (G (n + i)) (Ret a) (Q (n + i)) s') /\
    (forall j, (j < n)%nat -> R j s s')) s.
Proof using HRr HRt HXr HXt Hcompat Hothers HG.
  revert n s. induction ps as [|p ps IH]; intros n s Hps.
  { intros s' HX. split_and!; [done|by intros|]. intros j _. by apply Hothers. }
  cbn [seq_all]. apply rg_bind; [done..|].
  eapply rg_mono; [|apply (rg_solo n)].
  2: { specialize (Hps 0%nat p eq_refl). by rewrite Nat.add_0_r in Hps. }
  intros a s1 [Ha Hrel1]. apply rg_bind; [done..|].
  eapply rg_mono; [|apply (IH (Datatypes.S n))].
  - intros l s2 (Hlen & Hl & Hrel2) s3 HX. split_and!; [simpl; lia| |].
    + intros [|i] a' Hi; simpl in Hi.
      * simplify_eq. rewrite Nat.add_0_r.
        apply (rg_stable _ (G n) _ _ s1); [apply HRt| |exact Ha].
        eapply HRt; [apply Hrel2; lia|by apply Hothers].
      * rewrite <- Nat.add_succ_comm. apply (rg_stable _ _ _ _ s2); [apply HRt|by apply Hothers|exact (Hl i a' Hi)].
    + intros j Hj. eapply HRt; [apply Hrel1; lia|]. eapply HRt; [apply Hrel2; lia|by apply Hothers].
  - intros i p' Hi. rewrite Nat.add_succ_comm.
    apply (rg_stable _ _ _ _ s); [apply HRt|apply Hrel1; lia|by apply (Hps (Datatypes.S i))].
Qed.

Lemma par_rg sched ps s :
  (forall i p, ps !! i = Some p -> rg (R i) (G i) p (Q i) s) ->
  rg Rx Gx (par sched ps) (fun l s' => length l = length ps /\
    forall i a, l !! i = Some a -> Q i a s') s.
Proof using HRr HRt HXr HXt Hcompat Hothers HG.
  revert ps s. induction sched as [|i sched IH]; intros ps s Hps; simpl.
  - eapply rg_mono; [|apply (seq_all_rg ps 0); done].
    simpl. intros l s' (Hlen & Hl & _). split; [done|].
    intros i a Hi. apply (Hl i a Hi), HRr.
  - destruct (ps !! i) as [[a|B f k]|] eqn:Hi; [by auto| |by auto].
    intros s' HX. assert (Hrg := Hps i _ Hi). destruct (Hrg s') as [HGs Hk]; [by apply Hothers|].
    split; [by eapply HG|].
    eapply rg_mono; [|apply IH].
    + simpl. intros l s2. by rewrite length_insert.
    + intros j p Hj. apply list_lookup_insert_Some in Hj as [(-> & <- & _)|[Hne Hj]]; [done|].
      apply (rg_stable _ _ _ _ s); [apply HRt| |by apply Hps].
      eapply HRt; [by apply Hothers|]. eauto.
Qed.
End par_rule.

(** *** The goroutines as a pool

    What [par] runs is a sequence of steps of the pool, each by one goroutine. *)
Inductive pool_step {A} : list (prog S A) * S -> list (prog S A) * S -> Prop :=
  | pool_act ps i {B} (f : S -> B * S) k s : ps !! i = Some (Act f k) ->
      pool_step (ps, s) (<[i := k (f s).1]> ps, (f s).2).

Lemma pool_length {A} (c c' : list (prog S A) * S) : rtc pool_step c c' -> length c'.1 = length c.1.
Proof. induction 1 as [|c c1 c2 Hs _ IH]; [done|]. rewrite IH. inversion Hs; subst. simpl. by rewrite length_insert. Qed.

Lemma solo_pool {A} c0 (l r : list (prog S A)) (p : prog S A) s : rtc pool_step c0 (l ++ p :: r, s) ->
  wpi (fun s' => exists ps', rtc pool_step c0 (ps', s')) p (fun a s' => rtc pool_step c0 (l ++ Ret a :: r, s')) s.
Proof.
  revert s. induction p as [a|B f k IH]; intros s Hc; [done|].
  assert (rtc pool_step c0 (l ++ k (f s).1 :: r, (f s).2)) as Hstep.
  { eapply rtc_r; [exact Hc|].
    assert (l ++ k (f s).1 :: r = <[length l := k (f s).1]> (l ++ Act f k :: r)) as ->.
    { rewrite insert_app_r_alt by lia. by rewrite Nat.sub_diag. }
    constructor. by rewrite list_lookup_middle. }
  split; [by eexists|by apply IH].
Qed.

Lemma seq_pool {A} c0 (ps : list (prog S A)) l s : rtc pool_step c0 (l ++ ps, s) ->
  wpi (fun s' => exists ps', rtc pool_step c0 (ps', s')) (seq_all ps) (fun rs s' => rtc pool_step c0 (l ++ (Ret <$> rs), s')) s.
Proof.
  revert l s. induction ps as [|p ps IH]; intros l s Hc; [done|]. cbn [seq_all]. apply wpi_bind.
  eapply wpi_mono; [by intros s1 H1; exact H1| |by apply solo_pool]. intros a s1 H1. apply wpi_bind.
  eapply wpi_mono; [by intros s2 H2; exact H2| |apply (IH (l ++ [Ret a])); by rewrite <- app_assoc].
  intros rs s2 H2. cbv beta in H2. cbn [wpi fmap list_fmap]. by rewrite <- app_assoc in H2.
Qed.

Lemma par_pool_from {A} c0 sched (ps : list (prog S A)) s : rtc pool_step c0 (ps, s) ->
  wpi (fun s' => exists ps', rtc pool_step c0 (ps', s')) (par sched ps) (fun rs s' => rtc pool_step c0 (Ret <$> rs, s')) s.
Proof.
  revert ps s. induction sched as [|i sched IH]; intros ps s Hc; [by apply (seq_pool c0 ps [])|]. cbn [par].
  destruct (ps !! i) as [[a|B f k]|] eqn:Hi; [by apply IH| |by apply IH].
  assert (rtc pool_step c0 (<[i := k (f s).1]> ps, (f s).2)) as Hstep by (eapply rtc_r; [exact Hc|by constructor]).
  split; [by eexists|]. by apply IH.
Qed.

Lemma par_pool {A} sched (ps : list (prog S A)) s :
  wpi (fun s' => exists ps', rtc pool_step (ps, s) (ps', s')) (par sched ps) (fun rs s' => rtc pool_step (ps, s) (Ret <$> rs, s')) s.
Proof. by apply par_pool_from. Qed.

Lemma pool_reaches {A} sched (ps : list (prog S A)) s s' : reaches (par sched ps) s s' ->
  exists ps', rtc pool_step (ps, s) (ps', s').
Proof. intros Hr. refine (wpi_reaches _ _ _ _ s' _ (par_pool sched ps s) Hr). by exists ps. Qed.

(** *** Accounts

    What programs add to a quantity [mu] of the state, whatever others do to it
    meanwhile.  The amounts form a commutative monoid. *)
Section tally.
Context {T : Type} (add : T -> T -> T) (zero : T) `{!Assoc eq add} `{!Comm eq add} `{!LeftId eq zero add}.
Context (mu : S -> T).

(** [p], which has added [acc], keeps to the amounts [may] allows and in the end will
    have added [out a]. *)
Fixpoint adds (may : T -> Prop) {A} (acc : T) (p : prog S A) (out : A -> T) : Prop :=
  may acc /\ match p with
  | Ret a => out a = acc
  | Act f k => forall s, exists d, mu (f s).2 = add (mu s) d /\ adds may (add acc d) (k (f s).1) out
  end.

Definition total (ls : list T) : T := foldr add zero ls.

Lemma adds_may may {A} acc (p : prog S A) out : adds may acc p out -> may acc.
Proof using. destruct p; by intros [? _]. Qed.

Lemma adds_bind may {A B} acc (p : prog S A) (g : A -> prog S B) out out' :
  adds may acc p out -> (forall a, adds may (out a) (g a) out') -> adds may acc (pbind p g) out'.
Proof using.
  intros Hp Hg. revert acc Hp. induction p as [a|C f k IH]; intros acc [Hm Hp]; simpl; [by subst acc|].
  split; [done|]. intros s. destruct (Hp s) as (d & Hd & Hk). exists d. auto.
Qed.

(** A program that leaves the quantity alone. *)
Lemma adds_same may {A} acc (p : prog S A) : may acc -> (forall t, preserves (fun s => mu s = t) p) -> adds may acc p (fun _ => acc).
Proof using Assoc0 Comm0 LeftId0.
  intros Hm. induction p as [a|C f k IH]; intros Hp; (split; [done|]); [done|]. intros s. exists zero.
  rewrite !(comm add _ zero), !(left_id zero add). split; [by apply (Hp (mu s))|]. apply IH. intros t. by apply Hp.
Qed.

Lemma adds_act may {B} acc (f : S -> B * S) (out : B -> T) : may acc -> (forall b, may (out b)) ->
  (forall s, exists d, mu (f s).2 = add (mu s) d /\ out (f s).1 = add acc d) -> adds may acc (act f) out.
Proof using.
  intros Hm Ho Hf. split; [done|]. intros s. destruct (Hf s) as (d & Hd & Hout). exists d. split; [done|].
  split; [by rewrite <- Hout|done].
Qed.

Lemma adds_mono may {A} acc (p : prog S A) (out out' : A -> T) : (forall a, out a = out' a) -> adds may acc p out -> adds may acc p out'.
Proof using.
  intros Ho. revert acc. induction p as [a|C f k IH]; intros acc [Hm Hp]; (split; [done|]); [by rewrite <- Ho|].
  intros s. destruct (Hp s) as (d & Hd & Hk). exists d. auto.
Qed.

Lemma total_insert ls i l d : ls !! i = Some l -> total (<[i := add l d]> ls) = add (total ls) d.
Proof using Assoc0 Comm0.
  revert i. induction ls as [|x ls IH]; intros [|i] Hi; simpl in *; simplify_eq.
  - by rewrite <- !(assoc add), (comm add d).
  - by rewrite IH, (assoc add).
Qed.

(** Of goroutines. *)
Lemma pool_adds {A} (may : nat -> T -> Prop) (out : nat -> A -> T) (ps ps' : list (prog S A)) (s s' : S) :
  (forall i p, ps !! i = Some p -> adds (may i) zero p (out i)) -> rtc pool_step (ps, s) (ps', s') ->
  exists ls, length ls = length ps' /\ mu s' = add (mu s) (total ls) /\
    forall i p l, ps' !! i = Some p -> ls !! i = Some l -> adds (may i) l p (out i).
Proof using Assoc0 Comm0 LeftId0.
  intros Hps Hrtc. remember (ps', s') as c' eqn:Hc. revert ps' s' Hc.
  refine (rtc_ind_r (fun c => forall ps' s', c = (ps', s') -> _) (ps, s) _ _ c' Hrtc); clear c' Hrtc.
  - intros ps' s' [= <- <-]. exists (replicate (length ps) zero). split; [by rewrite length_replicate|]. split.
    + assert (forall n, total (replicate n zero) = zero) as -> by (induction n as [|n IH]; [done|]; simpl; by rewrite IH, (left_id zero add)).
      by rewrite (comm add), (left_id zero add).
    + intros i p l Hp Hl. apply lookup_replicate in Hl as [-> _]. by apply Hps.
  - intros c c' _ Hstep IH ps' s' ->. inversion Hstep as [ps1 i B f k s1 Hi]; subst.
    destruct (IH _ _ eq_refl) as (ls & Hlen & Hmu & Hall).
    destruct (lookup_lt_is_Some_2 ls i) as [l Hl]; [rewrite Hlen; by eapply lookup_lt_Some|].
    destruct (Hall i _ l Hi Hl) as [_ Hact]. destruct (Hact s1) as (d & Hd & Hk).
    exists (<[i := add l d]> ls). rewrite !length_insert, (total_insert _ _ l), (assoc add), <- Hmu by done.
    split_and!; [done|done|]. intros j p x Hp Hx.
    apply list_lookup_insert_Some in Hp as [(-> & <- & _)|[Hne Hp]]; [|rewrite list_lookup_insert_ne in Hx by done; by eapply Hall].
    rewrite list_lookup_insert_eq in Hx by (by eapply lookup_lt_Some). by injection Hx as <-.
Qed.

(** When they have all ended. *)
Lemma par_adds {A} (may : nat -> T -> Prop) (out : nat -> A -> T) sched (ps : list (prog S A)) (s s' : S) rs :
  (forall i p, ps !! i = Some p -> adds (may i) zero p (out i)) -> run (par sched ps) s = (rs, s') ->
  mu s' = add (mu s) (total (imap out rs)).
Proof using Assoc0 Comm0 LeftId0.
  intros Hps Hrun. pose proof (wpi_run _ _ _ _ _ _ (par_pool sched ps s) Hrun) as Hpool. simpl in Hpool.
  destruct (pool_adds may out ps _ s s' Hps Hpool) as (ls & Hlen & -> & Hall). do 2 f_equal.
  apply list_eq. intros i. rewrite list_lookup_imap. specialize (Hall i). rewrite list_lookup_fmap in Hall.
  rewrite length_fmap in Hlen. destruct (ls !! i) as [l|] eqn:Hl.
  - destruct (lookup_lt_is_Some_2 rs i) as [a Ha]; [rewrite <- Hlen; by eapply lookup_lt_Some|].
    rewrite Ha in *. destruct (Hall _ l eq_refl eq_refl) as [_ Hout]. simpl. by rewrite Hout.
  - apply lookup_ge_None in Hl. rewrite (lookup_ge_None_2 rs i) by lia. done.
Qed.

(** At any time what each has added is something it may add. *)
Lemma par_may {A} (may : nat -> T -> Prop) (out : nat -> A -> T) sched (ps : list (prog S A)) (s s' : S) :
  (forall i p, ps !! i = Some p -> adds (may i) zero p (out i)) -> reaches (par sched ps) s s' ->
  exists ls, length ls = length ps /\ mu s' = add (mu s) (total ls) /\ forall i l, ls !! i = Some l -> may i l.
Proof using Assoc0 Comm0 LeftId0.
  intros Hps Hreach. destruct (pool_reaches sched ps s s' Hreach) as [ps' Hpool].
  destruct (pool_adds may out ps ps' s s' Hps Hpool) as (ls & Hlen & Hmu & Hall). exists ls.
  pose proof (pool_length _ _ Hpool) as Hl. simpl in Hl. split; [congruence|]. split; [done|].
  intros i l Hi.
  destruct (lookup_lt_is_Some_2 ps' i) as [p Hp]; [rewrite <- Hlen; by eapply lookup_lt_Some|].
  eapply adds_may. by eapply Hall.
Qed.
End tally.
End prog.

#[export] Instance prog_ret {S} : MRet (prog S) := fun A a => Ret a.
#[export] Instance prog_bind {S} : MBind (prog S) := fun A B g p => pbind p g.
#[global] Arguments wpi {S A} I p Q s /.

(** ** A program on a part of the state *)

Section zoom.
Context {S T : Type} (get : S -> T) (put : T -> S -> S).

Fixpoint zoom {A} (p : prog T A) : prog S A :=
  match p with
  | Ret a => Ret a
  | Act f k => Act (fun s => let '(b, t) := f (get s) in (b, put t s)) (fun b => zoom (k b))
  end.

Lemma run_zoom {A} (p : prog T A) s : put (get s) s = s ->
  (forall t, get (put t s) = t) -> (forall t t', put t' (put t s) = put t' s) ->
  run (zoom p) s = let '(a, t) := run p (get s) in (a, put t s).
Proof.
  intros Hid Hget Hput. assert (forall t, run (zoom p) (put t s) = let '(a, t') := run p t in (a, put t' s)) as Hgen.
  { induction p as [a|B f k IH]; intros t; simpl; [done|]. rewrite Hget. destruct (f t) as [b t']. by rewrite Hput. }
  by rewrite <- Hgen, Hid.
Qed.

(** Each of its actions is one of [p] on that part. *)
Lemma preserves_zoom {A} (P : S -> Prop) (step : T -> T -> Prop) (p : prog T A) :
  (forall s t, P s -> step (get s) t -> P (put t s)) ->
  (forall t0, preserves (step t0) p) -> (forall t, step t t) -> preserves P (zoom p).
Proof.
  intros HP Hp Hrefl. assert (forall p : prog T A, (forall t0, preserves (step t0) p) -> preserves P (zoom p)) as Hgen; [|by apply Hgen].
  clear p Hp. induction p as [a|B f k IH]; intros Hp; [done|]. split.
  - intros s HPs. destruct (Hp (get s)) as [Hf _]. specialize (Hf (get s) (Hrefl _)).
    destruct (f (get s)) as [b t]. by apply HP.
  - intros b. apply IH. intros t0. by apply (Hp t0).
Qed.

Lemma rg_zoom {A} (R G : T -> T -> Prop) (R' G' : S -> S -> Prop) (p : prog T A) Q s :
  (forall s s', R' s s' -> R (get s) (get s')) -> (forall s t, G (get s) t -> G' s (put t s)) ->
  (forall t s, get (put t s) = t) ->
  rg R G p Q (get s) -> rg R' G' (zoom p) (fun a s' => Q a (get s')) s.
Proof.
  intros HR HG Hget. revert s. induction p as [a|B f k IH]; intros s Hrg s' HR'.
  - apply Hrg. by apply HR.
  - destruct (Hrg (get s')) as [HGs Hk]; [by apply HR|]. destruct (f (get s')) as [b t] eqn:Hf. simpl in *.
    split; [by apply HG|]. apply IH. by rewrite Hget.
Qed.
End zoom.
