(* ===== verification/Safe.v ===== *)
(** * Panic-safe goroutines (internal/safe/safe.go)

    A function ends by returning or by panicking; a panic that nothing recovers ends
    the process.  [Go] starts a function on a goroutine that recovers, logs and
    reports its panic and is tracked by a wait group. *)

From stdpp Require Import gmultiset.
From S2P Require Import Prelude Prog.
Open Scope Z_scope.

Module Safe.

(** ** Panics *)

Inductive ended (A : Type) : Type := Returned (a : A) | Panicked (v : string).
#[global] Arguments Returned {A} a.
#[global] Arguments Panicked {A} v.

Section panics.
Context {S A : Type}.

(** [p] that panics with [v] in place of its action number [k], if it gets there. *)
Fixpoint panicAt (k : nat) (v : string) (p : prog S A) {struct p} : prog S (ended A) :=
  match p, k with
  | Ret a, _ => Ret (Returned a)
  | Act _ _, O => Ret (Panicked v)
  | Act f g, Datatypes.S k => Act f (fun b => panicAt k v (g b))
  end.

(** It may. *)
Definition mayPanic (at_ : option (nat * string)) (p : prog S A) : prog S (ended A) :=
  match at_ with None => a ← p; Ret (Returned a) | Some (k, v) => panicAt k v p end.

(** No branch of [p] ends with a panic. *)
Fixpoint never_panics (p : prog S (ended A)) : Prop :=
  match p with
  | Ret o => exists a, o = Returned a
  | Act _ g => forall b, never_panics (g b)
  end.

(** [Q] of what it returns, if it does. *)
Definition returning (Q : A -> S -> Prop) (o : ended A) (s : S) : Prop :=
  match o with Returned a => Q a s | Panicked _ => True end.

(** A function that panics has kept to what it guarantees until then. *)
Lemma rg_mayPanic R G at_ (p : prog S A) (Q : A -> S -> Prop) s : rg R G p Q s ->
  rg R G (mayPanic at_ p) (returning Q) s.
Proof.
  destruct at_ as [[k v]|]; cbn [mayPanic]; revert s.
  - revert k. induction p as [a|B f g IH]; intros k s Hp; [done|]. destruct k as [|k]; [by intros s' _|].
    intros s' HR. destruct (Hp s' HR) as [HG Hg]. split; [done|]. by apply IH.
  - induction p as [a|B f g IH]; intros s Hp; [done|]. intros s' HR. destruct (Hp s' HR) as [HG Hg]. split; [done|].
    by apply IH.
Qed.

Lemma preserves_mayPanic (P : S -> Prop) at_ (p : prog S A) : preserves P p -> preserves P (mayPanic at_ p).
Proof.
  destruct at_ as [[k v]|]; cbn [mayPanic].
  - revert k. induction p as [a|B f g IH]; intros k Hp; [done|]. destruct k as [|k]; [done|]. destruct Hp as [Hf Hg].
    split; [done|]. auto.
  - intros Hp. by apply preserves_bind.
Qed.

(** Every action of [p] keeps [P], but perhaps the last one. *)
Fixpoint keeps_until (P : S -> Prop) (p : prog S A) : Prop :=
  match p with
  | Ret _ => True
  | Act f g => forall s, P s -> (P (f s).2 /\ keeps_until P (g (f s).1)) \/ exists a, g (f s).1 = Ret a
  end.

Lemma preserves_keeps P (p : prog S A) : preserves P p -> keeps_until P p.
Proof.
  induction p as [a|B f g IH]; [done|]. intros [Hf Hg] s Hs. left. split; [by apply Hf|]. by apply IH.
Qed.

Lemma keeps_panic P k v v' (p : prog S A) s s' : keeps_until P p -> P s -> run (panicAt k v p) s = (Panicked v', s') -> P s'.
Proof.
  revert k s. induction p as [a|B f g IH]; intros k s Hp Hs; [done|]. destruct k as [|k]; [by intros [= _ <-]|]. simpl.
  specialize (Hp s Hs). destruct (f s) as [b s1]. simpl in *. destruct Hp as [[Hs1 Hg]|[a ->]]; [by apply IH|done].
Qed.

(** The first action made it so. *)
Lemma keeps_panic_S P k v v' {B} (f : S -> B * S) (g : B -> prog S A) s s' : P (f s).2 -> keeps_until P (g (f s).1) ->
  run (panicAt (Datatypes.S k) v (Act f g)) s = (Panicked v', s') -> P s'.
Proof.
  intros Hs Hg Hrun. apply (keeps_panic P k v v' (g (f s).1) (f s).2 s' Hg Hs). rewrite <- Hrun. simpl. by destruct (f s).
Qed.

(** The goroutine of [fn] as what it acts on sees it: a panic is reported, and there
    is no result. *)
Definition guard (onPanic : string -> prog S unit) (name : string) (fn : prog S (ended A)) : prog S (option A) :=
  o ← fn;
  match o with
  | Returned a => Ret (Some a)
  | Panicked _ => onPanic name;; Ret None
  end.

(** What follows a program that does not panic. *)
Lemma returns_preserves {B} P (p : prog S (ended A)) (g : ended A -> prog S B) : never_panics p ->
  preserves P p -> (forall a, preserves P (g (Returned a))) -> preserves P (p ≫= g).
Proof.
  intros Hn Hp Hg. induction p as [o|C f k IH]; [destruct Hn as [a ->]; apply Hg|]. destruct Hp as [Hf Hk].
  split; [done|]. intros b. by apply IH.
Qed.

Lemma returns_adds {B T} (add : T -> T -> T) mu may acc (p : prog S (ended A)) (g : ended A -> prog S B) out out' : never_panics p ->
  adds add mu may acc p out -> (forall a, adds add mu may (out (Returned a)) (g (Returned a)) out') ->
  adds add mu may acc (p ≫= g) out'.
Proof.
  intros Hn Hp Hg. revert acc Hp. induction p as [o|C f k IH]; intros acc [Hm Hp].
  - destruct Hn as [a ->]. subst acc. apply Hg.
  - split; [done|]. intros s. destruct (Hp s) as (d & Hd & Hk). exists d. split; [done|]. by apply IH.
Qed.
End panics.

Lemma keeps_until_bind {S A B} P (p : prog S A) (g : A -> prog S B) : preserves P p -> (forall a, keeps_until P (g a)) ->
  keeps_until P (p ≫= g).
Proof.
  induction p as [a|C f k IH]; intros Hp Hg; [apply Hg|]. destruct Hp as [Hf Hk]. intros s Hs. left.
  split; [by apply Hf|by apply IH].
Qed.

(** ** The runner *)

Section runner.
Context {S : Type}.

(** What goroutines share: the counter of their wait group, the log records of
    recovered panics, the calls of [OnPanic], whether a panic has ended the process,
    and what else they act on. *)
Record Runtime := mkRuntime {
  wg : Z; records : list (string * string); reports : list string; crashed : bool; rest : S;
}.

Abbreviation code := (prog Runtime).

Definition set_rest (x : S) (s : Runtime) : Runtime := mkRuntime (wg s) (records s) (reports s) (crashed s) x.
Definition onRest {A} (p : prog S A) : code A := zoom rest set_rest p.

Definition wgAdd (n : Z) : code unit := modify (fun s => mkRuntime (wg s + n) (records s) (reports s) (crashed s) (rest s)).
Definition logPanic (name v : string) : code unit :=
  modify (fun s => mkRuntime (wg s) (records s ++ [(name, v)]) (reports s) (crashed s) (rest s)).
Definition called (name : string) : code unit :=
  modify (fun s => mkRuntime (wg s) (records s) (reports s ++ [name]) (crashed s) (rest s)).
Definition crash : code unit := modify (fun s => mkRuntime (wg s) (records s) (reports s) true (rest s)).

Record Runner := mkRunner { OnPanic : option (string -> prog S (ended unit)) }.

(** Deferred by a goroutine that ends with [o]; what it ends with then. *)
Definition handlePanic (r : Runner) (name : string) (o : ended unit) : code (ended unit) :=
  match o with
  | Returned _ => Ret o
  | Panicked v =>
      logPanic name v;;
      match OnPanic r with
      | None => Ret (Returned tt)
      | Some f => called name;; onRest (f name)
      end
  end.

(** The goroutine of [fn], which tells how [fn] ended. *)
Definition tracked (r : Runner) (name : string) (fn : prog S (ended unit)) : code (ended unit) :=
  o ← onRest fn;
  o' ← handlePanic r name o;
  match o' with Returned _ => wgAdd (-1) | Panicked _ => crash end;;
  Ret o.

Definition Go (r : Runner) (name : string) (fn : prog S (ended unit)) : code (code (ended unit)) :=
  wgAdd 1;;
  Ret (tracked r name fn).

(** Several are started, and waited for. *)
Definition GoAll (r : Runner) (sched : list nat) (fns : list (string * prog S (ended unit))) : code (list (ended unit)) :=
  gs ← seq_all ((fun '(name, fn) => Go r name fn) <$> fns);
  par sched gs.

(** *** Accounts *)

(** What is counted: the wait group, the records and the reports. *)
Abbreviation T := (Z * gmultiset (string * string) * gmultiset string)%type.

Definition sum (x y : T) : T := (x.1.1 + y.1.1, x.1.2 ⊎ y.1.2, x.2 ⊎ y.2).
Definition nil : T := (0, ∅, ∅).

#[local] Instance sum_assoc : Assoc eq sum.
Proof. intros [[a b] c] [[a' b'] c'] [[a'' b''] c'']. unfold sum; simpl. by rewrite Z.add_assoc, !(assoc_L (⊎)). Qed.
#[local] Instance sum_comm : Comm eq sum.
Proof. intros [[a b] c] [[a' b'] c']. unfold sum; simpl. by rewrite Z.add_comm, (comm_L (⊎) b), (comm_L (⊎) c). Qed.
#[local] Instance sum_left : LeftId eq nil sum.
Proof. intros [[a b] c]. unfold sum; simpl. by rewrite !(left_id_L ∅ (⊎)). Qed.

Definition account (s : Runtime) : T := (wg s, list_to_set_disj (records s), list_to_set_disj (reports s)).

(** What a goroutine adds until it has ended, and with it. *)
Definition running (x : T) : Prop := x.1.1 = 0 \/ x.1.1 = -1.

Definition reported (r : Runner) (name : string) : gmultiset string := match OnPanic r with Some _ => {[+ name +]} | None => ∅ end.

Definition panics (r : Runner) (name : string) (o : ended unit) : T :=
  match o with Returned _ => nil | Panicked v => (0, {[+ (name, v) +]}, reported r name) end.

Definition owed (r : Runner) (name : string) (o : ended unit) : T := sum (panics r name o) (-1, ∅, ∅).

Lemma zoom_account {A} (p : prog S A) t : preserves (fun s => account s = t) (onRest p).
Proof. apply (preserves_zoom _ _ _ (fun _ _ => True)); [done|intros t0; induction p; [done|by split]|done]. Qed.

Lemma sum_nil x : sum x nil = x.
Proof. by rewrite (comm sum), (left_id nil sum). Qed.

Lemma record_added l (x : string * string) : list_to_set_disj (l ++ [x]) = (list_to_set_disj l : gmultiset _) ⊎ {[+ x +]}.
Proof. rewrite list_to_set_disj_app. simpl. multiset_solver. Qed.

Lemma report_added l (x : string) : list_to_set_disj (l ++ [x]) = (list_to_set_disj l : gmultiset _) ⊎ {[+ x +]}.
Proof. rewrite list_to_set_disj_app. simpl. multiset_solver. Qed.

Lemma handlePanic_adds r name o : adds sum account running nil (handlePanic r name o) (fun _ => panics r name o).
Proof.
  destruct o as [[]|v]; [by split; [left|]|]. cbn [handlePanic]. set (x := (0, {[+ (name, v) +]}, ∅) : T).
  apply (adds_bind sum account running nil _ _ (fun _ => x)).
  { apply adds_act; [by left|by intros _; left|]. intros s. exists x. split; [|by rewrite (left_id nil sum)].
    unfold account, sum. simpl. by rewrite record_added, Z.add_0_r, (right_id_L ∅ (⊎)). }
  intros []. destruct (OnPanic r) as [f|] eqn:Hr.
  - apply (adds_bind sum account running x _ _ (fun _ => panics r name (Panicked v))).
    { apply adds_act; [by left|by intros _; left|]. intros s. exists (0, ∅, {[+ name +]}). unfold account, sum, panics, reported. simpl.
      by rewrite Hr, report_added, Z.add_0_r, !(right_id_L ∅ (⊎)), (left_id_L ∅ (⊎)). }
    intros []. apply (adds_same sum nil); [by left|apply zoom_account].
  - split; [by left|]. unfold panics, reported. by rewrite Hr.
Qed.

Lemma crashed_onRest {A} (p : prog S A) b : preserves (fun s => crashed s = b) (onRest p).
Proof. apply (preserves_zoom _ _ _ (fun _ _ => True)); [done|intros t0; induction p; [done|by split]|done]. Qed.

Context (r : Runner) (Hr : forall f name, OnPanic r = Some f -> never_panics (f name)).

Lemma handlePanic_returns name o : never_panics (handlePanic r name o).
Proof using Hr.
  destruct o as [[]|v]; [by eexists|]. intros []. destruct (OnPanic r) as [f|]; [|by eexists]. intros [].
  specialize (Hr f name eq_refl). induction (f name) as [o|B g k IH]; [done|]. intros x. by apply IH.
Qed.

Lemma tracked_safe name fn b : preserves (fun s => crashed s = b) (tracked r name fn).
Proof using Hr.
  apply preserves_bind; [apply crashed_onRest|]. intros o. apply returns_preserves; [apply handlePanic_returns| |by split].
  destruct o as [[]|v]; [done|]. split; [done|]. intros []. destruct (OnPanic r); [|done]. split; [done|]. intros []. apply crashed_onRest.
Qed.

Lemma tracked_adds name fn : adds sum account running nil (tracked r name fn) (owed r name).
Proof using Hr.
  apply (adds_bind sum account running nil _ _ (fun _ => nil)); [apply (adds_same sum nil); [by left|apply zoom_account]|].
  intros o. apply (returns_adds sum account running nil _ _ (fun _ => panics r name o)); [apply handlePanic_returns|apply handlePanic_adds|].
  intros []. apply (adds_bind sum account running _ _ _ (fun _ => owed r name o)).
  - apply adds_act; [left|intros _; right|]; [by destruct o|by destruct o|]. intros s. exists (-1, ∅, ∅). split; [|done].
    unfold account, sum. simpl. by rewrite !(right_id_L ∅ (⊎)).
  - intros []. split; [|done]. right. by destruct o.
Qed.

(** Starting them only counts them. *)
Lemma starting fns (s : Runtime) :
  wpi (fun s' => crashed s' = crashed s /\ wg s <= wg s') (seq_all ((fun '(name, fn) => Go r name fn) <$> fns))
    (fun gs s' => gs = (fun '(name, fn) => tracked r name fn) <$> fns /\
       s' = mkRuntime (wg s + Z.of_nat (length fns)) (records s) (reports s) (crashed s) (rest s)) s.
Proof using.
  assert (forall s0 : Runtime, crashed s0 = crashed s -> wg s <= wg s0 -> wpi (fun s' => crashed s' = crashed s /\ wg s <= wg s')
    (seq_all ((fun '(name, fn) => Go r name fn) <$> fns)) (fun gs s' => gs = (fun '(name, fn) => tracked r name fn) <$> fns /\
       s' = mkRuntime (wg s0 + Z.of_nat (length fns)) (records s0) (reports s0) (crashed s0) (rest s0)) s0) as Hgen; [|by apply Hgen].
  induction fns as [|[name fn] fns IH]; intros s0 Hc Hw.
  - split; [done|]. rewrite Z.add_0_r. by destruct s0.
  - cbn [fmap list_fmap seq_all]. apply wpi_bind. split; [split; [exact Hc|simpl; lia]|].
    apply (wpi_bind _ (seq_all ((fun '(name, fn) => Go r name fn) <$> fns))).
    eapply wpi_mono; [intros s1 H1; exact H1| |apply IH; [exact Hc|simpl; lia]].
    intros gs s1 [-> ->]. split; [done|]. simpl. f_equal. lia.
Qed.

(** The panics among the ends. *)
Definition panicsOf (names : list string) (os : list (ended unit)) : list (string * string) :=
  omap (fun '(name, o) => match o with Panicked v => Some (name, v) | Returned _ => None end) (zip names os).

Lemma total_owed names os : length names = length os ->
  total sum nil (zip_with (owed r) names os) =
  (- Z.of_nat (length os), list_to_set_disj (panicsOf names os),
   if OnPanic r is Some _ then list_to_set_disj (panicsOf names os).*1 else ∅).
Proof using.
  clear Hr. intros Hlen. revert os Hlen. induction names as [|name names IH]; intros [|o os] Hlen; try done; [by destruct (OnPanic r)|].
  cbn [zip_with total foldr]. fold (total sum nil (zip_with (owed r) names os)). rewrite IH by (simpl in Hlen; lia).
  unfold owed, sum, panicsOf, panics, reported. destruct o as [[]|v]; simpl;
    (f_equal; [f_equal; [lia|]|]); destruct (OnPanic r); simpl; multiset_solver.
Qed.

Lemma set_disj_perm {A} `{Countable A} (l l' : list A) : list_to_set_disj l = (list_to_set_disj l' : gmultiset A) -> l ≡ₚ l'.
Proof using.
  assert (forall l : list A, elements (list_to_set_disj l : gmultiset A) ≡ₚ l) as Hel.
  { intros k. induction k as [|x k IH]; [done|]. cbn [list_to_set_disj].
    by rewrite gmultiset_elements_disj_union, gmultiset_elements_singleton, IH. }
  intros Heq. by rewrite <- (Hel l), Heq.
Qed.

(** Running them. *)
Lemma tracked_par sched fns (s : Runtime) :
  let gs := (fun '(name, fn) => tracked r name fn) <$> fns in
  wpi (fun s' => crashed s' = crashed s /\ wg s - Z.of_nat (length fns) <= wg s') (par sched gs)
    (fun os s' => length os = length fns /\ wg s' = wg s - Z.of_nat (length fns) /\
       records s' ≡ₚ records s ++ panicsOf fns.*1 os /\
       reports s' ≡ₚ reports s ++ (if OnPanic r is Some _ then (panicsOf fns.*1 os).*1 else [])) s.
Proof using Hr.
  intros gs. set (out := fun i => owed r (default ""%string (fns.*1 !! i))).
  assert (forall i p, gs !! i = Some p -> adds sum account running nil p (out i)) as Hadds.
  { intros i p Hi. unfold gs in Hi. apply list_lookup_fmap_Some in Hi as ([name fn] & -> & Hf).
    assert (out i = owed r name) as ->; [|apply tracked_adds]. unfold out. by rewrite list_lookup_fmap, Hf. }
  apply wpi_intro.
  - intros s' Hreach. split.
    + eapply (preserves_reaches (fun s1 => crashed s1 = crashed s)); [|done|exact Hreach].
      apply preserves_par. intros p ([name fn] & -> & _)%list_elem_of_fmap. apply tracked_safe.
    + destruct (par_may sum nil account (fun _ => running) out sched gs s s' Hadds Hreach) as (ls & Hlen & Hmu & Hall).
      apply (f_equal (fun x : T => x.1.1)) in Hmu. simpl in Hmu. rewrite Hmu. unfold gs in Hlen. rewrite length_fmap in Hlen.
      assert (Forall running ls) as Hrun by (apply Forall_forall; intros l [i Hi]%list_elem_of_lookup; by eapply Hall).
      rewrite <- Hlen. clear -Hrun. induction Hrun as [|l ls Hl _ IH]; simpl; [lia|]. destruct Hl; lia.
  - destruct (run (par sched gs) s) as [os s'] eqn:Hrun. simpl.
    assert (length os = length fns) as Hlen.
    { pose proof (wpi_run _ _ _ _ _ _ (par_pool sched gs s) Hrun) as Hpool. apply pool_length in Hpool. simpl in Hpool.
      unfold gs in Hpool. by rewrite !length_fmap in Hpool. }
    pose proof (par_adds sum nil account (fun _ => running) out sched gs s s' os Hadds Hrun) as Hmu.
    assert (imap out os = zip_with (owed r) fns.*1 os) as Himap.
    { apply list_eq. intros i. rewrite list_lookup_imap, lookup_zip_with. unfold out.
      destruct (os !! i) as [o|] eqn:Ho; simpl; [|by destruct (fns.*1 !! i)].
      destruct (lookup_lt_is_Some_2 fns.*1 i) as [n ->]; [|done]. rewrite length_fmap, <- Hlen. by eapply lookup_lt_Some. }
    rewrite Himap, total_owed in Hmu by (by rewrite length_fmap). unfold account, sum in Hmu. simpl in Hmu.
    injection Hmu as Hw Hrec Hrep. split_and!; [done|lia| |].
    + apply set_disj_perm. by rewrite list_to_set_disj_app.
    + apply set_disj_perm. rewrite list_to_set_disj_app, Hrep. by destruct (OnPanic r).
Qed.

(** C10: a panic takes down nothing but its goroutine.  Functions started with [Go]
    under one runner run together, in any order, and any of them may panic anywhere.
    At no time has a panic ended the process or the wait group fallen below where it
    was, and when all have ended it is back there; every panic is logged once, with
    the name of its goroutine and its value, and, if [OnPanic] is set (and does not
    panic itself), reported to it once. *)
Theorem panics_are_contained sched fns (s : Runtime) :
  (forall s', reaches (GoAll r sched fns) s s' -> crashed s' = crashed s /\ wg s <= wg s') /\
  let '(os, s') := run (GoAll r sched fns) s in
  length os = length fns /\ wg s' = wg s /\
  records s' ≡ₚ records s ++ panicsOf fns.*1 os /\
  reports s' ≡ₚ reports s ++ (if OnPanic r is Some _ then (panicsOf fns.*1 os).*1 else []).
Proof using Hr.
  assert (wpi (fun s' => crashed s' = crashed s /\ wg s <= wg s') (GoAll r sched fns) (fun os s' => length os = length fns /\ wg s' = wg s /\
    records s' ≡ₚ records s ++ panicsOf fns.*1 os /\
    reports s' ≡ₚ reports s ++ (if OnPanic r is Some _ then (panicsOf fns.*1 os).*1 else [])) s) as Hwp.
  { apply wpi_bind. eapply wpi_mono; [intros s1 H1; exact H1| |apply starting]. intros gs s1 [-> ->].
    eapply wpi_mono; [| |apply tracked_par]; simpl.
    - intros s2 [Hc Hw]. split; [done|lia].
    - intros os s2 (Hl & Hw & Hrec & Hrep). split_and!; [done|lia|done|done]. }
  split.
  - intros s' Hreach. by refine (wpi_reaches _ _ _ _ s' _ Hwp Hreach).
  - destruct (run (GoAll r sched fns) s) as [os s'] eqn:Hrun. exact (wpi_run _ _ _ _ _ _ Hwp Hrun).
Qed.
End runner.
End Safe.
