(* ===== verification/Text.v ===== *)
(** * The text functions of Go's standard library that tx-gen uses

    UTF-8 decoding and encoding as [for range] over a string and [string(r)] do
    them, [unicode.IsSpace], [strings.TrimSpace] and [hex.EncodeToString].  A Go
    string is the list of its bytes. *)

From S2P Require Import Prelude.
Open Scope Z_scope.

(** ** Bytes and integers *)

Definition b2z (b : Byte.byte) : Z := Z.of_N (Byte.to_N b).
Definition z2b (z : Z) : Byte.byte := default x00 (Byte.of_N (Z.to_N (z mod 256))).

Lemma b2z_range b : 0 <= b2z b < 256.
Proof.
  unfold b2z. pose proof (Byte.to_N_bounded b). lia.
Qed.

Lemma b2z_z2b z : 0 <= z < 256 -> b2z (z2b z) = z.
Proof.
  intros H. unfold b2z, z2b. rewrite Z.mod_small by done.
  destruct (Byte.of_N (Z.to_N z)) as [b|] eqn:E; simpl.
  - apply Byte.to_of_N in E. rewrite E. lia.
  - apply Byte.of_N_None_iff in E. lia.
Qed.

Lemma z2b_b2z b : z2b (b2z b) = b.
Proof. by destruct b. Qed.

(** ** UTF-8 *)

Module Utf8.

(** [utf8.RuneError], U+FFFD. *)
Definition RuneError : Z := 0xFFFD.

(** [string(r)], that is [utf8.AppendRune]. *)
Definition encode_rune (r : Z) : bytes :=
  let enc3 (r : Z) := [z2b (Z.lor 0xE0 (Z.shiftr r 12));
                       z2b (Z.lor 0x80 (Z.land (Z.shiftr r 6) 0x3F));
                       z2b (Z.lor 0x80 (Z.land r 0x3F))] in
  if (r <? 0) || (0x10FFFF <? r) then enc3 RuneError
  else if r <=? 0x7F then [z2b r]
  else if r <=? 0x7FF then
    [z2b (Z.lor 0xC0 (Z.shiftr r 6)); z2b (Z.lor 0x80 (Z.land r 0x3F))]
  else if (0xD800 <=? r) && (r <=? 0xDFFF) then enc3 RuneError
  else if r <=? 0xFFFF then enc3 r
  else [z2b (Z.lor 0xF0 (Z.shiftr r 18));
        z2b (Z.lor 0x80 (Z.land (Z.shiftr r 12) 0x3F));
        z2b (Z.lor 0x80 (Z.land (Z.shiftr r 6) 0x3F));
        z2b (Z.lor 0x80 (Z.land r 0x3F))].

(** The length of the sequence that a first byte announces, with the range its
    second byte must be in; [None] for a byte that starts no sequence. *)
Definition first_byte (b : Z) : option (nat * Z * Z) :=
  if b <? 0xC2 then None
  else if b <=? 0xDF then Some (2%nat, 0x80, 0xBF)
  else if b =? 0xE0 then Some (3%nat, 0xA0, 0xBF)
  else if b =? 0xED then Some (3%nat, 0x80, 0x9F)
  else if b <=? 0xEF then Some (3%nat, 0x80, 0xBF)
  else if b =? 0xF0 then Some (4%nat, 0x90, 0xBF)
  else if b <=? 0xF3 then Some (4%nat, 0x80, 0xBF)
  else if b =? 0xF4 then Some (4%nat, 0x80, 0x8F)
  else None.

Definition is_cont (b : Z) : bool := (0x80 <=? b) && (b <=? 0xBF).

(** [utf8.DecodeRune]: the first rune and its width; an invalid byte is
    [RuneError] of width 1. *)
Definition decode_rune (s : bytes) : Z * nat :=
  match s with
  | [] => (RuneError, 0%nat)
  | b0 :: rest =>
      let x0 := b2z b0 in
      if x0 <? 0x80 then (x0, 1%nat) else
      match first_byte x0, rest with
      | Some (2%nat, lo, hi), b1 :: _ =>
          let x1 := b2z b1 in
          if (lo <=? x1) && (x1 <=? hi)
          then (Z.lor (Z.shiftl (Z.land x0 0x1F) 6) (Z.land x1 0x3F), 2%nat)
          else (RuneError, 1%nat)
      | Some (3%nat, lo, hi), b1 :: b2 :: _ =>
          let x1 := b2z b1 in let x2 := b2z b2 in
          if (lo <=? x1) && (x1 <=? hi) && is_cont x2
          then (Z.lor (Z.lor (Z.shiftl (Z.land x0 0x0F) 12) (Z.shiftl (Z.land x1 0x3F) 6))
                      (Z.land x2 0x3F), 3%nat)
          else (RuneError, 1%nat)
      | Some (4%nat, lo, hi), b1 :: b2 :: b3 :: _ =>
          let x1 := b2z b1 in let x2 := b2z b2 in let x3 := b2z b3 in
          if (lo <=? x1) && (x1 <=? hi) && is_cont x2 && is_cont x3
          then (Z.lor (Z.lor (Z.lor (Z.shiftl (Z.land x0 0x07) 18) (Z.shiftl (Z.land x1 0x3F) 12))
                             (Z.shiftl (Z.land x2 0x3F) 6))
                      (Z.land x3 0x3F), 4%nat)
          else (RuneError, 1%nat)
      | _, _ => (RuneError, 1%nat)
      end
  end.

(** [for _, r := range s]: the runes of a string.  Every rune consumes at least
    one byte, so the length of the string is enough fuel. *)
Fixpoint runes_fuel (fuel : nat) (s : bytes) : list Z :=
  match fuel, s with
  | S fuel, _ :: _ =>
      let '(r, w) := decode_rune s in r :: runes_fuel fuel (drop w s)
  | _, _ => []
  end.
Definition runes (s : bytes) : list Z := runes_fuel (length s) s.

(** A Unicode scalar value: what a rune of a string can be. *)
Definition scalar (r : Z) : Prop := 0 <= r <= 0x10FFFF /\ ~ 0xD800 <= r <= 0xDFFF.

Definition encode (rs : list Z) : bytes := concat (encode_rune <$> rs).


(** *** Bits as arithmetic *)

Lemma land_low a n : 0 <= n -> Z.land a (Z.ones n) = a mod 2 ^ n.
Proof. intros. by apply Z.land_ones. Qed.

Lemma lor_high a b n : 0 <= n -> 0 <= b < 2 ^ n -> Z.lor (a * 2 ^ n) b = a * 2 ^ n + b.
Proof.
  intros Hn Hb.
  assert (Z.land (a * 2 ^ n) b = 0) as Hd.
  { apply Z.bits_inj'. intros i Hi. rewrite Z.land_spec, Z.bits_0.
    destruct (Z.lt_ge_cases i n).
    - by rewrite Z.mul_pow2_bits_low.
    - destruct (decide (b = 0)) as [->|]; [by rewrite Z.bits_0, andb_false_r|].
      rewrite (Z.bits_above_log2 b i), andb_false_r; [done|lia|].
      apply Z.log2_lt_pow2; [lia|].
      eapply Z.lt_le_trans; [apply Hb|]. apply Z.pow_le_mono_r; lia. }
  rewrite Z.add_nocarry_lxor by done. symmetry. by apply Z.lxor_lor.
Qed.

(** The constants of the encoding, as multiples of a power of two. *)
Lemma lor_cont x : 0 <= x < 64 -> Z.lor 0x80 x = 0x80 + x.
Proof. intros. by apply (lor_high 2 x 6). Qed.
Lemma lor_C0 x : 0 <= x < 32 -> Z.lor 0xC0 x = 0xC0 + x.
Proof. intros. by apply (lor_high 6 x 5). Qed.
Lemma lor_E0 x : 0 <= x < 16 -> Z.lor 0xE0 x = 0xE0 + x.
Proof. intros. by apply (lor_high 14 x 4). Qed.
Lemma lor_F0 x : 0 <= x < 8 -> Z.lor 0xF0 x = 0xF0 + x.
Proof. intros. by apply (lor_high 30 x 3). Qed.

Lemma land_3F x : Z.land x 0x3F = x mod 64.
Proof. apply (land_low x 6). lia. Qed.
Lemma land_1F x : Z.land x 0x1F = x mod 32.
Proof. apply (land_low x 5). lia. Qed.
Lemma land_0F x : Z.land x 0x0F = x mod 16.
Proof. apply (land_low x 4). lia. Qed.
Lemma land_07 x : Z.land x 0x07 = x mod 8.
Proof. apply (land_low x 3). lia. Qed.

Lemma shl_lor6 a x : 0 <= x < 64 -> Z.lor (Z.shiftl a 6) x = a * 64 + x.
Proof. intros. rewrite Z.shiftl_mul_pow2 by lia. by apply (lor_high a x 6). Qed.
Lemma shl_lor12 a b x : 0 <= b < 64 -> 0 <= x < 64 ->
  Z.lor (Z.lor (Z.shiftl a 12) (Z.shiftl b 6)) x = a * 4096 + b * 64 + x.
Proof.
  intros. rewrite !Z.shiftl_mul_pow2 by lia.
  rewrite (lor_high a (b * 2 ^ 6) 12) by lia.
  replace (a * 2 ^ 12 + b * 2 ^ 6) with ((a * 64 + b) * 2 ^ 6) by lia.
  rewrite (lor_high _ x 6) by lia. lia.
Qed.
Lemma shl_lor18 a b c x : 0 <= b < 64 -> 0 <= c < 64 -> 0 <= x < 64 ->
  Z.lor (Z.lor (Z.lor (Z.shiftl a 18) (Z.shiftl b 12)) (Z.shiftl c 6)) x
  = a * 262144 + b * 4096 + c * 64 + x.
Proof.
  intros. rewrite !Z.shiftl_mul_pow2 by lia.
  rewrite (lor_high a (b * 2 ^ 12) 18) by lia.
  replace (a * 2 ^ 18 + b * 2 ^ 12) with ((a * 64 + b) * 2 ^ 12) by lia.
  rewrite (lor_high _ (c * 2 ^ 6) 12) by lia.
  replace ((a * 64 + b) * 2 ^ 12 + c * 2 ^ 6) with (((a * 64 + b) * 64 + c) * 2 ^ 6) by lia.
  rewrite (lor_high _ x 6) by lia. lia.
Qed.

(** The base-64 digits of a rune, which its encoding spreads over bytes. *)
Lemma rune_digits r : 0 <= r ->
  exists r3 r2 r1 r0, r = r3 * 262144 + r2 * 4096 + r1 * 64 + r0 /\
    0 <= r3 /\ 0 <= r2 < 64 /\ 0 <= r1 < 64 /\ 0 <= r0 < 64 /\
    r mod 64 = r0 /\ Z.shiftr r 6 mod 64 = r1 /\ Z.shiftr r 12 mod 64 = r2 /\
    Z.shiftr r 6 = r3 * 4096 + r2 * 64 + r1 /\ Z.shiftr r 12 = r3 * 64 + r2 /\
    Z.shiftr r 18 = r3.
Proof.
  intros Hr. rewrite !Z.shiftr_div_pow2 by lia.
  exists (r / 2 ^ 18), (r / 2 ^ 12 mod 64), (r / 2 ^ 6 mod 64), (r mod 64).
  replace (r / 2 ^ 18) with (r / 64 / 64 / 64) by (by rewrite !Z.div_div by lia).
  replace (r / 2 ^ 12) with (r / 64 / 64) by (by rewrite Z.div_div by lia).
  change (r / 2 ^ 6) with (r / 64).
  pose proof (Z.div_mod r 64 ltac:(lia)). pose proof (Z.div_mod (r / 64) 64 ltac:(lia)).
  pose proof (Z.div_mod (r / 64 / 64) 64 ltac:(lia)).
  pose proof (Z.mod_pos_bound r 64 ltac:(lia)). pose proof (Z.mod_pos_bound (r / 64) 64 ltac:(lia)).
  pose proof (Z.mod_pos_bound (r / 64 / 64) 64 ltac:(lia)).
  split_and!; lia.
Qed.

(** *** Encoding and decoding *)

Lemma encode_rune_length r : (1 <= length (encode_rune r) <= 4)%nat.
Proof. unfold encode_rune. repeat case_if; simpl; lia. Qed.

(** What a first byte announces, by the digit it carries. *)
Lemma first_byte_2 d : 2 <= d < 32 -> first_byte (0xC0 + d) = Some (2%nat, 0x80, 0xBF).
Proof. intros. unfold first_byte. by repeat (case_if; bool_to_prop; try lia). Qed.

Lemma first_byte_3 d : 0 <= d < 16 -> first_byte (0xE0 + d) =
  Some (3%nat, if d =? 0 then 0xA0 else 0x80, if d =? 13 then 0x9F else 0xBF).
Proof. intros. unfold first_byte. by repeat (case_if; bool_to_prop; try lia). Qed.

Lemma first_byte_4 d : 0 <= d < 5 -> first_byte (0xF0 + d) =
  Some (4%nat, if d =? 0 then 0x90 else 0x80, if d =? 4 then 0x8F else 0xBF).
Proof. intros. unfold first_byte. by repeat (case_if; bool_to_prop; try lia). Qed.

(** Decide the test the goal starts with, by arithmetic. *)
Ltac decide_test b v := replace b with v by (unfold is_cont; repeat case_if; bool_to_prop; lia).
Ltac take v := match goal with |- (if ?b then _ else _) = _ => decide_test b v end.

(** Decoding what [string(r)] encodes gives [r] back. *)
Lemma decode_encode_rune r s :
  scalar r -> decode_rune (encode_rune r ++ s) = (r, length (encode_rune r)).
Proof.
  intros [Hr Hsur]. unfold encode_rune.
  decide_test ((r <? 0) || (0x10FFFF <? r)) false. rewrite !land_3F.
  destruct (rune_digits r) as (r3 & r2 & r1 & r0 & Heq & H3 & H2 & H1 & H0 & -> & -> & -> & -> & -> & ->);
    [lia|].
  case_if; bool_to_prop.
  { simpl. rewrite b2z_z2b by lia. by decide_test (r <? 0x80) true. }
  case_if; bool_to_prop.
  { assert (r3 = 0 /\ r2 = 0) as [-> ->] by lia.
    rewrite lor_C0, lor_cont by lia. simpl. rewrite !b2z_z2b, first_byte_2 by lia.
    take false. take true.
    rewrite land_1F, land_3F, shl_lor6 by (apply Z.mod_pos_bound; lia).
    f_equal. Z.div_mod_to_equations; lia. }
  decide_test ((0xD800 <=? r) && (r <=? 0xDFFF)) false.
  case_if; bool_to_prop.
  { assert (r3 = 0) as -> by lia.
    rewrite lor_E0, !lor_cont by lia. simpl. rewrite !b2z_z2b, first_byte_3 by lia.
    take false. take true.
    rewrite land_0F, !land_3F, shl_lor12 by (apply Z.mod_pos_bound; lia).
    f_equal. Z.div_mod_to_equations; lia. }
  rewrite lor_F0, !lor_cont by lia. simpl. rewrite !b2z_z2b, first_byte_4 by lia.
  take false. take true.
  rewrite land_07, !land_3F, shl_lor18 by (apply Z.mod_pos_bound; lia).
  f_equal. Z.div_mod_to_equations; lia.
Qed.

Lemma first_byte_inv b n lo hi : first_byte b = Some (n, lo, hi) ->
  (n = 2%nat /\ 0xC2 <= b <= 0xDF /\ lo = 0x80 /\ hi = 0xBF) \/
  (n = 3%nat /\ 0xE0 <= b <= 0xEF /\ (if b =? 0xE0 then lo = 0xA0 else lo = 0x80) /\
     (if b =? 0xED then hi = 0x9F else hi = 0xBF)) \/
  (n = 4%nat /\ 0xF0 <= b <= 0xF4 /\ (if b =? 0xF0 then lo = 0x90 else lo = 0x80) /\
     (if b =? 0xF4 then hi = 0x8F else hi = 0xBF)).
Proof.
  unfold first_byte.
  repeat (case_if; bool_to_prop; [intros; simplify_eq; repeat (case_if; bool_to_prop); lia|]).
  done.
Qed.

(** A decoded rune is a scalar value, and consumes some of the string. *)
Lemma decode_rune_spec s : s <> [] ->
  scalar (decode_rune s).1 /\ (1 <= (decode_rune s).2 <= length s)%nat.
Proof.
  destruct s as [|b0 s]; [done|intros _]. unfold decode_rune, scalar.
  pose proof (b2z_range b0) as Hb0. case_if; bool_to_prop; [simpl; lia|].
  destruct (first_byte (b2z b0)) as [[[n lo] hi]|] eqn:Hfb; [|unfold RuneError; simpl; lia].
  apply first_byte_inv in Hfb as
    [(-> & Hb & -> & ->)|[(-> & Hb & Hlo & Hhi)|(-> & Hb & Hlo & Hhi)]].
  - destruct s as [|b1 s]; [unfold RuneError; simpl; lia|].
    case_if; bool_to_prop; [|unfold RuneError; simpl; lia]. simpl.
    rewrite land_1F, land_3F, shl_lor6 by (apply Z.mod_pos_bound; lia).
    Z.div_mod_to_equations; lia.
  - destruct s as [|b1 [|b2 s]]; [unfold RuneError; simpl; lia..|].
    case_if; bool_to_prop; [|unfold RuneError; simpl; lia]. simpl.
    unfold is_cont in *; bool_to_prop.
    rewrite land_0F, !land_3F, shl_lor12 by (apply Z.mod_pos_bound; lia).
    destruct (Z.eqb_spec (b2z b0) 0xE0), (Z.eqb_spec (b2z b0) 0xED); Z.div_mod_to_equations; lia.
  - destruct s as [|b1 [|b2 [|b3 s]]]; [unfold RuneError; simpl; lia..|].
    case_if; bool_to_prop; [|unfold RuneError; simpl; lia]. simpl.
    unfold is_cont in *; bool_to_prop.
    rewrite land_07, !land_3F, shl_lor18 by (apply Z.mod_pos_bound; lia).
    destruct (Z.eqb_spec (b2z b0) 0xF0), (Z.eqb_spec (b2z b0) 0xF4); Z.div_mod_to_equations; lia.
Qed.

(** *** Ranging over a string *)

Lemma runes_fuel_enough fuel s :
  (length s <= fuel)%nat -> runes_fuel fuel s = runes s.
Proof.
  unfold runes. enough (forall n fuel s, (length s <= n)%nat -> (length s <= fuel)%nat ->
    runes_fuel fuel s = runes_fuel (length s) s) as H by (by apply (H (length s))).
  clear. induction n as [|n IH]; intros fuel s Hn Hf.
  { destruct s; [by destruct fuel|simpl in *; lia]. }
  destruct s as [|b s]; [by destruct fuel|].
  destruct fuel as [|fuel]; [simpl in *; lia|]. cbn [runes_fuel length].
  destruct (decode_rune (b :: s)) as [r w] eqn:Hd.
  destruct (decode_rune_spec (b :: s)) as [_ Hw]; [done|]. rewrite Hd in Hw. simpl in Hw.
  f_equal. assert (length (drop w (b :: s)) <= length s)%nat as Hl by (rewrite length_drop; simpl; lia).
  rewrite (IH fuel), (IH (length s)); [done|..]; simpl in *; lia.
Qed.

Lemma runes_cons s : s <> [] ->
  runes s = (decode_rune s).1 :: runes (drop (decode_rune s).2 s).
Proof.
  intros Hs. destruct s as [|b s]; [done|]. unfold runes at 1. cbn [runes_fuel length].
  destruct (decode_rune_spec (b :: s)) as [_ Hw]; [done|].
  destruct (decode_rune (b :: s)) as [r w]. simpl fst; simpl snd in *.
  f_equal. apply runes_fuel_enough. rewrite length_drop. simpl in *. lia.
Qed.

Lemma runes_encode rs s : Forall scalar rs -> runes (encode rs ++ s) = rs ++ runes s.
Proof.
  induction 1 as [|r rs Hr _ IH]; [done|].
  change (encode (r :: rs)) with (encode_rune r ++ encode rs). rewrite <- (assoc_L (++)).
  pose proof (encode_rune_length r).
  rewrite runes_cons; [|destruct (encode_rune r); [simpl in *; lia|done]].
  rewrite decode_encode_rune by done. cbn [fst snd app].
  by rewrite drop_app_length, IH.
Qed.

Lemma runes_scalar s : Forall scalar (runes s).
Proof.
  induction s as [s IH] using (induction_ltof1 _ (@length _)); unfold ltof in IH.
  destruct s as [|b s]; [constructor|].
  rewrite runes_cons by done.
  destruct (decode_rune_spec (b :: s)) as [Hr Hw]; [done|].
  constructor; [done|]. apply IH. rewrite length_drop. simpl in *. lia.
Qed.

(** ASCII is read and written byte by byte. *)
Lemma encode_ascii s : Forall (fun b => b2z b < 128) s -> encode (b2z <$> s) = s.
Proof.
  induction 1 as [|b s Hb _ IH]; [done|]. unfold encode in *. cbn [fmap list_fmap concat]. rewrite IH.
  unfold encode_rune. pose proof (b2z_range b). repeat (case_match; bool_to_prop; try lia). simpl. by rewrite z2b_b2z.
Qed.

Lemma runes_ascii s : Forall (fun b => b2z b < 128) s -> runes s = b2z <$> s.
Proof.
  intros Hs. rewrite <- (encode_ascii s Hs) at 1. rewrite <- (app_nil_r (encode _)), runes_encode; [by rewrite app_nil_r|].
  apply Forall_fmap. eapply Forall_impl; [exact Hs|]. intros b Hb. unfold scalar. simpl in *. pose proof (b2z_range b). lia.
Qed.

(** [utf8.Valid]: an invalid byte would be read as [RuneError], which is written as
    three. *)
Definition Valid (s : bytes) : bool := bool_decide (encode (runes s) = s).

Lemma Valid_ascii s : Forall (fun b => b2z b < 128) s -> Valid s = true.
Proof. intros Hs. apply bool_decide_eq_true. by rewrite (runes_ascii s Hs), encode_ascii. Qed.
End Utf8.

(** ** strings.TrimSpace *)

Module Strings.
Import Utf8.

(** [unicode.IsSpace] *)
Definition IsSpace (r : Z) : bool :=
  if (0 <=? r) && (r <=? 0xFF) then
    existsb (Z.eqb r) [0x09; 0x0A; 0x0B; 0x0C; 0x0D; 0x20; 0x85; 0xA0]
  else (r =? 0x1680) || ((0x2000 <=? r) && (r <=? 0x200A)) ||
       existsb (Z.eqb r) [0x2028; 0x2029; 0x202F; 0x205F; 0x3000].

(** [strings.TrimLeftFunc(s, unicode.IsSpace)] *)
Fixpoint trim_left_fuel (fuel : nat) (s : bytes) : bytes :=
  match fuel, s with
  | S fuel, _ :: _ =>
      let '(r, w) := decode_rune s in
      if IsSpace r then trim_left_fuel fuel (drop w s) else s
  | _, _ => s
  end.
Definition trim_left (s : bytes) : bytes := trim_left_fuel (length s) s.

(** [utf8.RuneStart] *)
Definition RuneStart (b : Byte.byte) : bool := negb (is_cont (b2z b)).

(** The loop of [utf8.DecodeLastRune], [for start--; start >= lim; start--]: it
    looks at no more than three bytes, since [lim] is four bytes from the end. *)
Fixpoint back_up (k : nat) (s : bytes) (lim start : Z) : Z :=
  match k with
  | O => start
  | S k =>
      if start <? lim then start
      else match s !! Z.to_nat start with
           | Some b => if RuneStart b then start else back_up k s lim (start - 1)
           | None => start
           end
  end.

(** [utf8.DecodeLastRune]: the last rune and its width. *)
Definition decode_last_rune (s : bytes) : Z * nat :=
  match last s with
  | None => (RuneError, 0%nat)
  | Some b =>
      if b2z b <? 0x80 then (b2z b, 1%nat) else
      let end_ := Z.of_nat (length s) in
      let lim := Z.max (end_ - 4) 0 in
      let start := Z.to_nat (Z.max (back_up 4 s lim (end_ - 2)) 0) in
      let '(r, w) := decode_rune (drop start s) in
      if (start + w =? length s)%nat then (r, w) else (RuneError, 1%nat)
  end.

(** [strings.TrimRightFunc(s, unicode.IsSpace)] *)
Fixpoint trim_right_fuel (fuel : nat) (s : bytes) : bytes :=
  match fuel, s with
  | S fuel, _ :: _ =>
      let '(r, w) := decode_last_rune s in
      if IsSpace r then trim_right_fuel fuel (take (length s - w) s) else s
  | _, _ => s
  end.
Definition trim_right (s : bytes) : bytes := trim_right_fuel (length s) s.

(** [strings.TrimSpace] *)
Definition TrimSpace (s : bytes) : bytes := trim_right (trim_left s).

(** [hex.EncodeToString] *)
Definition hex_digit (n : Z) : Ascii.ascii :=
  Ascii.ascii_of_nat (Z.to_nat (if n <? 10 then 48 + n else 87 + n)).
Fixpoint EncodeToString (s : bytes) : string :=
  match s with
  | [] => ""
  | b :: s' => String (hex_digit (Z.shiftr (b2z b) 4))
                 (String (hex_digit (Z.land (b2z b) 15)) (EncodeToString s'))
  end.

End Strings.
