(* ===== verification/Sha256.v ===== *)
(** * SHA-256

    [crypto/sha256.Sum256] of Go's standard library, as FIPS 180-4 defines it,
    on 32-bit words kept as [Z].  The script hash of a lock script is computed
    with it. *)

From S2P Require Import Prelude Text.
Open Scope Z_scope.

Module Sha256.

Definition w32 (z : Z) : Z := z mod two32.
Definition rotr (x n : Z) : Z := Z.lor (Z.shiftr x n) (w32 (Z.shiftl x (32 - n))).
Definition lnot32 (x : Z) : Z := two32 - 1 - x.

Definition Ch (x y z : Z) : Z := Z.lxor (Z.land x y) (Z.land (lnot32 x) z).
Definition Maj (x y z : Z) : Z := Z.lxor (Z.lxor (Z.land x y) (Z.land x z)) (Z.land y z).
Definition Sigma0 (x : Z) : Z := Z.lxor (Z.lxor (rotr x 2) (rotr x 13)) (rotr x 22).
Definition Sigma1 (x : Z) : Z := Z.lxor (Z.lxor (rotr x 6) (rotr x 11)) (rotr x 25).
Definition sigma0 (x : Z) : Z := Z.lxor (Z.lxor (rotr x 7) (rotr x 18)) (Z.shiftr x 3).
Definition sigma1 (x : Z) : Z := Z.lxor (Z.lxor (rotr x 17) (rotr x 19)) (Z.shiftr x 10).

(** ** Constants

    The first 32 bits of the fractional parts of the cube roots of the first 64
    primes, and of the square roots of the first 8. *)

Definition prime (n : nat) : bool :=
  (2 <=? n)%nat && forallb (fun d => negb (n mod d =? 0)%nat) (seq 2 (n - 2)).

Definition primes (count : nat) : list Z := take count (Z.of_nat <$> List.filter prime (seq 0 312)).

(** The largest [r] below [2 ^ bits] more than [acc] with [r ^ 3 <= x], bit by bit. *)
Fixpoint cube_root (bits : nat) (acc x : Z) : Z :=
  match bits with
  | O => acc
  | S k =>
      let r := acc + Z.shiftl 1 (Z.of_nat k) in
      cube_root k (if r * r * r <=? x then r else acc) x
  end.

Definition K : list Z := Eval vm_compute in
  (fun p => cube_root 36 0 (Z.shiftl p 96) mod two32) <$> primes 64.

Record hash8 := H8 { ha : Z; hb : Z; hc : Z; hd : Z; he : Z; hf : Z; hg : Z; hh : Z }.

Definition H0 : hash8 := Eval vm_compute in
  match (fun p => Z.sqrt (Z.shiftl p 64) mod two32) <$> primes 8 with
  | [a; b; c; d; e; f; g; h] => H8 a b c d e f g h
  | _ => H8 0 0 0 0 0 0 0 0
  end.

(** Big-endian bytes of a word. *)
Definition be_bytes (n : nat) (z : Z) : bytes :=
  (fun i => z2b (Z.shiftr z (8 * Z.of_nat (n - 1 - i)))) <$> seq 0 n.

Fixpoint be_words (n : nat) (bs : bytes) : list Z :=
  match n, bs with
  | S n, b0 :: b1 :: b2 :: b3 :: bs' =>
      (b2z b0 * 16777216 + b2z b1 * 65536 + b2z b2 * 256 + b2z b3) :: be_words n bs'
  | _, _ => []
  end.

(** The padded message: [0x80], zeros, and the length in bits on 8 bytes. *)
Definition pad (m : bytes) : bytes :=
  let len := Z.of_nat (length m) in
  m ++ [z2b 0x80] ++ replicate (Z.to_nat ((55 - len) mod 64)) (z2b 0) ++ be_bytes 8 (8 * len).

(** The message schedule, newest word first. *)
Fixpoint schedule (n : nat) (ws : list Z) : list Z :=
  match n with
  | O => ws
  | S n =>
      let get i := nth i ws 0 in
      schedule n (w32 (sigma1 (get 1%nat) + get 6%nat + sigma0 (get 14%nat) + get 15%nat) :: ws)
  end.

Definition round (h : hash8) (kw : Z * Z) : hash8 :=
  let T1 := w32 (hh h + Sigma1 (he h) + Ch (he h) (hf h) (hg h) + kw.1 + kw.2) in
  let T2 := w32 (Sigma0 (ha h) + Maj (ha h) (hb h) (hc h)) in
  H8 (w32 (T1 + T2)) (ha h) (hb h) (hc h) (w32 (hd h + T1)) (he h) (hf h) (hg h).

Definition compress (h : hash8) (block : bytes) : hash8 :=
  let ws := rev (schedule 48 (rev (be_words 16 block))) in
  let h' := fold_left round (zip K ws) h in
  H8 (w32 (ha h + ha h')) (w32 (hb h + hb h')) (w32 (hc h + hc h')) (w32 (hd h + hd h'))
     (w32 (he h + he h')) (w32 (hf h + hf h')) (w32 (hg h + hg h')) (w32 (hh h + hh h')).

Fixpoint blocks (n : nat) (m : bytes) (h : hash8) : hash8 :=
  match n with
  | O => h
  | S n => blocks n (drop 64 m) (compress h (take 64 m))
  end.

Definition digest (h : hash8) : bytes :=
  concat (be_bytes 4 <$> [ha h; hb h; hc h; hd h; he h; hf h; hg h; hh h]).

(** [sha256.Sum256] *)
Definition Sum256 (m : bytes) : bytes :=
  let p := pad m in digest (blocks (length p / 64)%nat p H0).

Lemma Sum256_length m : length (Sum256 m) = 32%nat.
Proof. reflexivity. Qed.

(** The test vectors of FIPS 180-4. *)
Example Sum256_abc :
  Strings.EncodeToString (Sum256 (String.list_byte_of_string "abc"))
  = "ba7816bf8f01cfea414140de5dae2223b00361a396177a9cb410ff61f20015ad"%string.
Proof. vm_compute. reflexivity. Qed.

Example Sum256_two_blocks :
  Strings.EncodeToString (Sum256 (String.list_byte_of_string
    "abcdbcdecdefdefgefghfghighijhijkijkljklmklmnlmnomnopnopq"))
  = "248d6a61d20638b8e5c026930c3e6039a33ce45964ff2167f6ecedd419db06c1"%string.
Proof. vm_compute. reflexivity. Qed.

End Sha256.
