(* ===== verification/Script.v ===== *)
(** * The tagged-drop lock script (internal/txbuilder/script.go, mode.go)

    [lockScriptTag] normalizes an instance id to six UTF-8 bytes; the lock script
    pushes the tag and drops it; [ScriptHash] is the key WhatsOnChain indexes the
    script by. *)

From S2P Require Import Prelude Text Sha256.
Import Utf8 Strings.
Open Scope Z_scope.

Module Script.

(** The opcodes [script.OpDROP] and [script.OpTRUE] of the Bitcoin script
    language. *)
Definition OpDROP : Byte.byte := x75.
Definition OpTRUE : Byte.byte := x51.

Definition lockScriptTagBytes : nat := 6.

Definition space : Byte.byte := x20.

(** [copy(tag[offset:], encoded)] *)
Definition copy_at (tag : bytes) (offset : nat) (encoded : bytes) : bytes :=
  take offset tag ++ encoded ++ drop (offset + length encoded) tag.

(** The loop over the runes of the trimmed id. *)
Fixpoint tag_loop (rs : list Z) (tag : bytes) (offset : nat) : bytes :=
  match rs with
  | [] => tag
  | r :: rs' =>
      let encoded := encode_rune r in
      if (length tag <? offset + length encoded)%nat then tag
      else
        let tag := copy_at tag offset encoded in
        let offset := (offset + length encoded)%nat in
        if (offset =? length tag)%nat then tag else tag_loop rs' tag offset
  end.

Definition lockScriptTag (instanceID : string) : result bytes :=
  let tag := replicate lockScriptTagBytes space in
  let value := TrimSpace (String.list_byte_of_string instanceID) in
  if bool_decide (value = []) then Err ErrInstanceIDRequired
  else Ok (tag_loop (runes value) tag 0).

Definition TaggedDropLockScript (instanceID : string) : result bytes :=
  tag ← lockScriptTag instanceID;
  Ok ([z2b (Z.of_nat lockScriptTagBytes)] ++ tag ++ [OpDROP]).

Definition opTrueScript : bytes := [OpTRUE].

(** [ScriptHash]: the SHA-256 digest, reversed, in hex. *)
Definition ScriptHash (s : bytes) : string :=
  EncodeToString (rev (Sha256.Sum256 s)).

(** The examples of the repository's own tests. *)
Example ScriptHash_OpTRUE : ScriptHash opTrueScript
  = "6032c38c0bc0e91e726f1e55e1832e434509001a7aed5cfd881b6ef07215e84a"%string.
Proof. vm_compute. reflexivity. Qed.

Example tag_runner : TaggedDropLockScript "  ab  "
  = Ok ([x06; x61; x62; x20; x20; x20; x20; x75]).
Proof. vm_compute. reflexivity. Qed.

Example tag_wide_rune : TaggedDropLockScript "abcdeé"
  = Ok ([x06; x61; x62; x63; x64; x65; x20; x75]).
Proof. vm_compute. reflexivity. Qed.

(** ** What the tag is *)

(** The runes that fit: the longest prefix whose encoding has at most [n] bytes. *)
Fixpoint fitting (n : nat) (rs : list Z) : list Z :=
  match rs with
  | [] => []
  | r :: rs' =>
      if (length (encode_rune r) <=? n)%nat
      then r :: fitting (n - length (encode_rune r)) rs' else []
  end.

Lemma fitting_length n rs : (length (encode (fitting n rs)) <= n)%nat.
Proof.
  revert n. induction rs as [|r rs IH]; intros n; simpl; [lia|].
  case_if; [|simpl; lia]. apply Nat.leb_le in E.
  change (encode (r :: ?l)) with (encode_rune r ++ encode l).
  rewrite length_app. specialize (IH (n - length (encode_rune r))%nat). lia.
Qed.

Lemma fitting_prefix n rs : exists rest, rs = fitting n rs ++ rest /\
  match rest with
  | [] => True
  | r :: _ => (n < length (encode (fitting n rs)) + length (encode_rune r))%nat
  end.
Proof.
  revert n. induction rs as [|r rs IH]; intros n; simpl; [by exists []|].
  case_if.
  - apply Nat.leb_le in E. destruct (IH (n - length (encode_rune r))%nat) as (rest & Heq & Hmax).
    exists rest. split; [simpl; congruence|].
    destruct rest as [|r' rest]; [done|].
    change (encode (r :: ?l)) with (encode_rune r ++ encode l). rewrite length_app. lia.
  - apply Nat.leb_gt in E. exists (r :: rs). split; [done|]. simpl. lia.
Qed.

(** The loop fills the free part of the tag with the runes that fit. *)
Lemma tag_loop_spec rs pre n :
  tag_loop rs (pre ++ replicate n space) (length pre) =
  pre ++ encode (fitting n rs) ++ replicate (n - length (encode (fitting n rs))) space.
Proof.
  revert pre n. induction rs as [|r rs IH]; intros pre n; simpl.
  { by rewrite Nat.sub_0_r. }
  pose proof (encode_rune_length r) as Hr. autorewrite with len.
  destruct (Nat.leb_spec (length (encode_rune r)) n) as [Hle|Hgt].
  - replace ((length pre + n <? length pre + length (encode_rune r))%nat) with false
      by (symmetry; apply Nat.ltb_ge; lia).
    assert (copy_at (pre ++ replicate n space) (length pre) (encode_rune r) =
      (pre ++ encode_rune r) ++ replicate (n - length (encode_rune r)) space) as ->.
    { unfold copy_at. rewrite take_app_length, drop_app_add, drop_replicate.
      by rewrite (assoc_L (++)). }
    change (encode (r :: ?l)) with (encode_rune r ++ encode l). autorewrite with len.
    replace (n - (length (encode_rune r) + length (encode (fitting (n - length (encode_rune r)) rs))))%nat
      with (n - length (encode_rune r) - length (encode (fitting (n - length (encode_rune r)) rs)))%nat by lia.
    case_if.
    + apply Nat.eqb_eq in E. assert (n - length (encode_rune r) = 0)%nat as Hz by lia.
      pose proof (fitting_length 0 rs) as Hf. rewrite Hz in *.
      destruct (encode (fitting 0 rs)); [by rewrite !app_nil_r|simpl in Hf; lia].
    + rewrite <- length_app, IH. by rewrite <- !(assoc_L (++)).
  - replace ((length pre + n <? length pre + length (encode_rune r))%nat) with true
      by (symmetry; apply Nat.ltb_lt; lia).
    simpl. by rewrite Nat.sub_0_r.
Qed.

Lemma encode_rune_space : encode_rune 0x20 = [space].
Proof. done. Qed.

Lemma encode_spaces n : encode (replicate n 0x20) = replicate n space.
Proof. induction n as [|n IH]; [done|]. simpl. by rewrite <- IH. Qed.

Lemma lockScriptTag_value instanceID tag : lockScriptTag instanceID = Ok tag ->
  let rs := runes (TrimSpace (String.list_byte_of_string instanceID)) in
  tag = encode (fitting 6 rs) ++ replicate (6 - length (encode (fitting 6 rs))) space.
Proof.
  unfold lockScriptTag. intros H. invert_ok. exact (tag_loop_spec _ [] 6).
Qed.

Lemma lockScriptTag_length instanceID tag : lockScriptTag instanceID = Ok tag -> length tag = 6%nat.
Proof.
  intros ->%lockScriptTag_value. simpl. autorewrite with len.
  pose proof (fitting_length 6 (runes (TrimSpace (String.list_byte_of_string instanceID)))). lia.
Qed.

(** The tag of an instance id is exactly six bytes long; read as UTF-8 it is
    a prefix of the runes of the trimmed id, padded with spaces (so a multi-byte
    character is never split); and the prefix is the longest that fits: the next
    rune, if any, would not have fitted in six bytes. *)
Theorem lockScriptTag_spec instanceID tag :
  lockScriptTag instanceID = Ok tag ->
  let rs := runes (TrimSpace (String.list_byte_of_string instanceID)) in
  exists kept rest pad,
    rs = kept ++ rest /\
    length tag = 6%nat /\
    tag = encode kept ++ replicate pad space /\
    runes tag = kept ++ replicate pad 0x20 /\
    match rest with
    | [] => True
    | r :: _ => (6 < length (encode kept) + length (encode_rune r))%nat
    end.
Proof.
  intros Htag rs. pose proof (lockScriptTag_value _ _ Htag) as Hv. simpl in Hv. fold rs in Hv.
  destruct (fitting_prefix 6 rs) as (rest & Hrs & Hmax).
  exists (fitting 6 rs), rest, (6 - length (encode (fitting 6 rs)))%nat.
  split_and!; [done|by eapply lockScriptTag_length|done| |done].
  rewrite Hv, <- encode_spaces, <- (app_nil_r (encode (replicate _ _))).
  rewrite runes_encode, runes_encode; [by rewrite app_nil_r| |].
  - apply Forall_replicate. split; lia.
  - pose proof (runes_scalar (TrimSpace (String.list_byte_of_string instanceID))) as Hs.
    fold rs in Hs. rewrite Hrs in Hs. by apply Forall_app in Hs as [? _].
Qed.

Lemma lockScriptTag_spec_witness :
  exists kept rest pad,
    runes (TrimSpace (String.list_byte_of_string " abcdeéz ")) = kept ++ rest /\
    length kept = 5%nat /\ pad = 1%nat /\
    lockScriptTag " abcdeéz " = Ok (encode kept ++ replicate pad space).
Proof.
  destruct (lockScriptTag_spec " abcdeéz " [x61; x62; x63; x64; x65; x20]) as
    (kept & rest & pad & H1 & H2 & H3 & H4 & H5); [vm_compute; reflexivity|].
  exists [0x61; 0x62; 0x63; 0x64; 0x65], [0xe9; 0x7a], 1%nat.
  split_and!; vm_compute; reflexivity.
Defined.

(** An instance id is refused exactly when nothing is left of it after
    trimming, and every accepted id yields the eight-byte script that pushes its
    six-byte tag and drops it. *)
Theorem TaggedDropLockScript_spec instanceID :
  match TaggedDropLockScript instanceID with
  | Err e => e = ErrInstanceIDRequired /\ TrimSpace (String.list_byte_of_string instanceID) = []
  | Ok s => TrimSpace (String.list_byte_of_string instanceID) <> [] /\
      exists tag, lockScriptTag instanceID = Ok tag /\ length tag = 6%nat /\
        s = [x06] ++ tag ++ [OpDROP]
  end.
Proof.
  unfold TaggedDropLockScript. destruct (lockScriptTag instanceID) as [tag|e] eqn:Htag; simpl.
  - split.
    + unfold lockScriptTag in Htag. case_bool_decide; congruence.
    + exists tag. split_and!; [done|by eapply lockScriptTag_length|done].
  - unfold lockScriptTag in Htag. case_bool_decide; simplify_eq. done.
Qed.

(** Two deployments whose ids agree on the first six bytes get the same lock
    script and the same script hash, so the tag does not keep the UTXOs of
    [runner1] and [runner2] apart. *)
Theorem runner_tags_collide :
  "runner1"%string <> "runner2"%string /\
  TaggedDropLockScript "runner1" = TaggedDropLockScript "runner2" /\
  (ScriptHash <$> TaggedDropLockScript "runner1") = (ScriptHash <$> TaggedDropLockScript "runner2").
Proof. split_and!; [done|vm_compute; reflexivity..]. Qed.

End Script.
