(* ===== verification/TxBuilder.v ===== *)
(** * Building transactions (internal/txbuilder)

    The UTXO and mode records, the size and fee arithmetic on [uint64], and the
    two builders: [BuildFanout] and [BuildSustain].

    The packages outside the repository (the BSV go-sdk and go-safe-conversion)
    are the operations of the class [Sdk]; what the builders rely on of them is
    the class [SdkLaws]. *)

From S2P Require Import Prelude Text Script.
Import Strings Script.
Open Scope Z_scope.

(** ** Data *)

(** [txbuilder.UTXO]; the index is a [uint32], the value a [uint64] and the
    height an [int64]. *)
Record UTXO := mkUTXO { TxHash : string; TxPos : N; Value : Z; Height : Z }.

#[export] Instance UTXO_eq_dec : EqDecision UTXO.
Proof. solve_decision. Defined.

#[export] Instance UTXO_countable : Countable UTXO.
Proof.
  refine (inj_countable' (fun u => (TxHash u, TxPos u, Value u, Height u))
    (fun '(h, p, v, t) => mkUTXO h p v t) _).
  by intros [].
Defined.

(** What identifies an output: the transaction that created it and its index. *)
Definition outpoint (u : UTXO) : string * N := (TxHash u, TxPos u).

Definition utxo_wf (u : UTXO) : Prop :=
  (TxPos u < 2 ^ 32)%N /\ is_u64 (Value u) /\ is_i64 (Height u).

(** [sdktx.TransactionOutput] and [sdktx.TransactionInput], with the fields the
    builders set. *)
Record TransactionOutput := mkTxOutput { Satoshis : Z; LockingScript : bytes }.

Record TransactionInput (Hash Unlocker : Type) := mkTxInput {
  SourceTXID : Hash;
  SourceTxOutIndex : N;
  SequenceNumber : Z;
  UnlockingScriptTemplate : option Unlocker;
  UnlockingScript : option bytes;
  SourceTxOutput : option TransactionOutput;
}.
Arguments mkTxInput {_ _} _ _ _ _ _ _.
Arguments SourceTXID {_ _} _.
Arguments SourceTxOutIndex {_ _} _.
Arguments SequenceNumber {_ _} _.
Arguments UnlockingScriptTemplate {_ _} _.
Arguments UnlockingScript {_ _} _.
Arguments SourceTxOutput {_ _} _.

(** ** The packages outside the repository *)

Class Sdk := {
  (* chainhash *)
  Hash : Type;
  NewHashFromHex : string -> result Hash;
  (* sdktx *)
  Unlocker : Type;
  Transaction : Type;
  NewTransaction : Transaction;
  AddInput : Transaction -> TransactionInput Hash Unlocker -> Transaction;
  AddOutput : Transaction -> TransactionOutput -> Transaction;
  Inputs : Transaction -> list (TransactionInput Hash Unlocker);
  Outputs : Transaction -> list TransactionOutput;
  SetSourceTxOutput :
    TransactionInput Hash Unlocker -> TransactionOutput -> TransactionInput Hash Unlocker;
  DefaultSequenceNumber : Z;
  Sign : Transaction -> result Transaction;
  ToEF : Transaction -> result bytes;
  TxIDString : Transaction -> string;
  EstimateLength : Unlocker -> Transaction -> Z -> Z;
  (* ec, script and p2pkh *)
  PrivateKey : Type;
  PublicKey : Type;
  AddressT : Type;
  PrivateKeyFromWif : string -> result PrivateKey;
  PrivateKeyFromHex : string -> result PrivateKey;
  PubKey : PrivateKey -> PublicKey;
  NewAddressFromPublicKey : PublicKey -> bool -> result AddressT;
  AddressString : AddressT -> string;
  Lock : AddressT -> result bytes;
  Unlock : PrivateKey -> result Unlocker;
  (* safeconversion *)
  IntToUint64 : Z -> result Z;
  Uint64ToUint32 : Z -> result Z;
}.

(** The outpoints a transaction spends. *)
Definition spends `{Sdk} (t : Transaction) : list (Hash * N) :=
  (fun i => (SourceTXID i, SourceTxOutIndex i)) <$> Inputs t.

(** What the builders rely on. *)
Class SdkLaws `{Sdk} : Prop := {
  Inputs_new : Inputs NewTransaction = [];
  Outputs_new : Outputs NewTransaction = [];
  Inputs_AddInput t i : Inputs (AddInput t i) = Inputs t ++ [i];
  Outputs_AddInput t i : Outputs (AddInput t i) = Outputs t;
  Inputs_AddOutput t o : Inputs (AddOutput t o) = Inputs t;
  Outputs_AddOutput t o : Outputs (AddOutput t o) = Outputs t ++ [o];
  SetSource_outpoint i o :
    SourceTXID (SetSourceTxOutput i o) = SourceTXID i /\
    SourceTxOutIndex (SetSourceTxOutput i o) = SourceTxOutIndex i;
  (* signing fills in the unlocking scripts and nothing else *)
  Sign_keeps t t' : Sign t = Ok t' -> spends t' = spends t /\ Outputs t' = Outputs t;
  IntToUint64_ok n : 0 <= n < two63 -> IntToUint64 n = Ok n;
  Uint64ToUint32_ok n : 0 <= n < two32 -> Uint64ToUint32 n = Ok n;
}.

(** What the engine relies on: a transaction id is a hash, written in hex,
    that commits to the outpoint the transaction spends. *)
Class TxidLaws `{Sdk} : Prop := {
  txid_nonempty t : TxIDString t <> ""%string;
  txid_binds_input t t' o o' :
    spends t = [o] -> spends t' = [o'] -> TxIDString t = TxIDString t' -> o = o';
  txid_decodes t : exists h, NewHashFromHex (TxIDString t) = Ok h;
  txid_decode_inj t t' h :
    NewHashFromHex (TxIDString t) = Ok h -> NewHashFromHex (TxIDString t') = Ok h ->
    TxIDString t = TxIDString t';
}.

(** ** Modes (mode.go) *)

Definition ModeTaggedDrop : string := "tagged_drop".
Definition ModeP2PKH : string := "p2pkh".
Definition DefaultSustainFee : Z := 7.
Definition DefaultP2PKHSustainFee : Z := 20.

Section builder.
Context `{Sdk}.

Record Mode := mkMode {
  Name : string;
  LockScript : bytes;
  UnlockerOf : option Unlocker;
  SustainFee : Z;
  Address : string;
}.

Definition WithSustainFee (m : Mode) (fee : Z) : Mode :=
  mkMode (Name m) (LockScript m) (UnlockerOf m) fee (Address m).

Definition ModeScriptHash (m : Mode) : string := ScriptHash (LockScript m).

Definition NewTaggedDropMode (instanceID : string) (sustainFee : Z) : result Mode :=
  lockScript ← TaggedDropLockScript instanceID;
  let sustainFee := if sustainFee =? 0 then DefaultSustainFee else sustainFee in
  Ok (mkMode ModeTaggedDrop lockScript None sustainFee "").

(** [strings.TrimSpace] on a Go string. *)
Definition trim (s : string) : string :=
  String.string_of_list_byte (TrimSpace (String.list_byte_of_string s)).

Definition parsePrivateKey (privateKey : string) : result PrivateKey :=
  let key := trim privateKey in
  if bool_decide (key = ""%string) then Err ErrPrivateKeyRequired
  else match PrivateKeyFromWif key with
       | Ok priv => Ok priv
       | Err _ =>
           match PrivateKeyFromHex key with
           | Ok priv => Ok priv
           | Err _ => Err ErrInvalidPrivateKey
           end
       end.

Definition NewP2PKHMode (privateKey : string) (sustainFee : Z) : result Mode :=
  priv ← parsePrivateKey privateKey;
  address ← wrap "derive P2PKH address" (NewAddressFromPublicKey (PubKey priv) true);
  lockScript ← wrap "build P2PKH lock script" (Lock address);
  unlocker ← wrap "build P2PKH unlocker" (Unlock priv);
  let sustainFee := if sustainFee =? 0 then DefaultP2PKHSustainFee else sustainFee in
  Ok (mkMode ModeP2PKH lockScript (Some unlocker) sustainFee (AddressString address)).

Definition NewMode (privateKey instanceID : string) (sustainFee : Z) : result Mode :=
  if bool_decide (trim privateKey <> ""%string) then NewP2PKHMode privateKey sustainFee
  else NewTaggedDropMode instanceID sustainFee.

Definition varIntSize (n : Z) : Z :=
  if n <? 0xfd then 1
  else if n <=? 0xffff then 3
  else if n <=? 0xffffffff then 5
  else 9.

(** The length of the unlocking script of one input. *)
Definition unlockLen (m : Mode) : Z :=
  match UnlockerOf m with
  | Some u => EstimateLength u NewTransaction 0
  | None => Z.of_nat (length opTrueScript)
  end.

Definition inputSize (m : Mode) : Z :=
  let scriptLen := unlockLen m in
  u64 (32 + 4 + varIntSize scriptLen + scriptLen + 4).

(** ** Builders (builder.go) *)

Definition MaxTxBytes : Z := 100000000.
Definition feeRateSatsPerKB : Z := 100.
Definition outputValueBytes : Z := 8.
Definition txFrameBytes : Z := 8.

(** [txbuilder.Tx] *)
Record Tx := mkTx { TxID : string; EF : bytes }.

Definition outputSize (m : Mode) : Z :=
  let lockScriptLen := Z.of_nat (length (LockScript m)) in
  u64 (outputValueBytes + varIntSize lockScriptLen + lockScriptLen).

(** The serialized size of a fanout to [count] outputs, on [uint64]. *)
Definition fanoutRawSize (m : Mode) (count : Z) : Z :=
  u64 (txFrameBytes + varIntSize 1 + inputSize m + varIntSize count + count * outputSize m).

Definition fanoutFee (m : Mode) (count : Z) : Z :=
  u64 (fanoutRawSize m count * feeRateSatsPerKB + 999) / 1000.

Definition newInput (utxo : UTXO) (m : Mode) : result (TransactionInput Hash Unlocker) :=
  match NewHashFromHex (TxHash utxo) with
  | Err e => Err (WrapBoth ErrInvalidTxID e)
  | Ok txid =>
      let input := mkTxInput txid (TxPos utxo) DefaultSequenceNumber
        (UnlockerOf m)
        (match UnlockerOf m with Some _ => None | None => Some opTrueScript end) None in
      Ok (SetSourceTxOutput input (mkTxOutput (Value utxo) (LockScript m)))
  end.

Definition finalize (tx : Transaction) (m : Mode) (kind : string) : result Tx :=
  tx ← match UnlockerOf m with
       | Some _ => wrap (String.append "sign " kind) (Sign tx)
       | None => Ok tx
       end;
  ef ← wrap (String.append "EF encode " kind) (ToEF tx);
  Ok (mkTx (TxIDString tx) ef).

(** [for range count { tx.AddOutput(out) }] *)
Definition addOutputs (count : nat) (out : TransactionOutput) (tx : Transaction) : Transaction :=
  Nat.iter count (fun t => AddOutput t out) tx.

Definition BuildFanout (utxo : UTXO) (n : Z) (mode : option Mode) : result (Tx * list UTXO) :=
  match mode with
  | None => Err ErrNilMode
  | Some mode =>
      if n <=? 0 then Err ErrInvalidFanoutCount else
      count ← wrap "fanout count" (IntToUint64 n);
      if MaxTxBytes <? count then Err (Wrap "outputs exceed" ErrTxTooLarge) else
      vouts ← wrap "fanout count" (Uint64ToUint32 count);
      let rawSize := fanoutRawSize mode count in
      if MaxTxBytes <? rawSize then Err (Wrap "fanout size" ErrTxTooLarge) else
      let fee := fanoutFee mode count in
      if Value utxo <=? fee then Err (Wrap "cannot pay fanout fee" ErrInsufficientValue) else
      let perOutput := (Value utxo - fee) / count in
      if perOutput =? 0 then Err (Wrap "leaves 0 sats" ErrInsufficientValue) else
      input ← newInput utxo mode;
      let tx := addOutputs (Z.to_nat count) (mkTxOutput perOutput (LockScript mode))
                  (AddInput NewTransaction input) in
      built ← finalize tx mode "fanout";
      Ok (built, (fun vout => mkUTXO (TxID built) (N.of_nat vout) perOutput 0)
                   <$> seq 0 (Z.to_nat vouts))
  end.

Definition BuildSustain (utxo : UTXO) (mode : option Mode) : result (Tx * UTXO) :=
  match mode with
  | None => Err ErrNilMode
  | Some mode =>
      if Value utxo =? 0 then Err ErrZeroValueUTXO else
      let outValue := if SustainFee mode <? Value utxo then Value utxo - SustainFee mode else 0 in
      input ← newInput utxo mode;
      let tx := AddOutput (AddInput NewTransaction input)
                  (mkTxOutput outValue (LockScript mode)) in
      built ← finalize tx mode "sustain";
      Ok (built, mkUTXO (TxID built) 0%N outValue 0)
  end.
End builder.

(** ** The Bitcoin wire format, as a reference for the size arithmetic *)

Module Wire.

(** Little-endian bytes. *)
Definition le_bytes (n : nat) (z : Z) : bytes :=
  (fun i => z2b (Z.shiftr z (8 * Z.of_nat i))) <$> seq 0 n.

Definition varint (n : Z) : bytes :=
  if n <? 0xfd then le_bytes 1 n
  else if n <=? 0xffff then xfd :: le_bytes 2 n
  else if n <=? 0xffffffff then xfe :: le_bytes 4 n
  else xff :: le_bytes 8 n.

Definition input (txid : bytes) (vout : Z) (unlock : bytes) (sequence : Z) : bytes :=
  txid ++ le_bytes 4 vout ++ varint (Z.of_nat (length unlock)) ++ unlock ++ le_bytes 4 sequence.

Definition output (value : Z) (lock : bytes) : bytes :=
  le_bytes 8 value ++ varint (Z.of_nat (length lock)) ++ lock.

(** A transaction with one input. *)
Definition transaction (version locktime : Z) (input : bytes) (outputs : list bytes) : bytes :=
  le_bytes 4 version ++ varint 1 ++ input ++
  varint (Z.of_nat (length outputs)) ++ concat outputs ++ le_bytes 4 locktime.

Lemma le_bytes_length n z : length (le_bytes n z) = n.
Proof. unfold le_bytes. by autorewrite with len. Qed.

Lemma varint_length n : Z.of_nat (length (varint n)) = varIntSize n.
Proof. unfold varint, varIntSize. by repeat case_if. Qed.

Lemma concat_replicate_length {A} n (l : list A) :
  length (concat (replicate n l)) = (n * length l)%nat.
Proof. induction n; simpl; [done|]. rewrite length_app. lia. Qed.
End Wire.

(** ** Lemmas *)

Section lemmas.
Context `{SdkLaws}.
Implicit Types (m : Mode) (u : UTXO) (t : Transaction).

Lemma varIntSize_range n : 1 <= varIntSize n <= 9.
Proof. unfold varIntSize. repeat case_if; lia. Qed.

Lemma addOutputs_Outputs n out t :
  Outputs (addOutputs n out t) = Outputs t ++ replicate n out.
Proof.
  induction n as [|n IH]; simpl; [by rewrite app_nil_r|].
  change (Nat.iter n _ t) with (addOutputs n out t).
  rewrite Outputs_AddOutput, IH, <- (assoc_L (++)). f_equal.
  symmetry. apply (replicate_S_end n).
Qed.

Lemma addOutputs_Inputs n out t : Inputs (addOutputs n out t) = Inputs t.
Proof. induction n as [|n IH]; simpl; [done|]. rewrite Inputs_AddOutput. exact IH. Qed.

Lemma newInput_Ok u m i : newInput u m = Ok i ->
  exists h, NewHashFromHex (TxHash u) = Ok h /\ SourceTXID i = h /\ SourceTxOutIndex i = TxPos u.
Proof.
  unfold newInput. destruct (NewHashFromHex (TxHash u)) as [h|] eqn:Hh; intros Hi; [|done].
  injection Hi as <-. exists h. rewrite !(proj1 (SetSource_outpoint _ _)),
    (proj2 (SetSource_outpoint _ _)). done.
Qed.

(** The transaction that [finalize] encodes has the outputs and spends the
    outpoints of the one it is given. *)
Lemma finalize_Ok t m kind b : finalize t m kind = Ok b ->
  exists t', TxIDString t' = TxID b /\ ToEF t' = Ok (EF b) /\
    spends t' = spends t /\ Outputs t' = Outputs t.
Proof.
  unfold finalize. intros Hf. invert_ok. exists x. simpl. split_and!; [done..| |];
    destruct (UnlockerOf m); invert_ok; try done; by apply Sign_keeps.
Qed.

(** What a built transaction spends, and the ids of its outputs. *)
Definition links (u : UTXO) (tx : Tx) (outs : list UTXO) : Prop :=
  exists t h, TxIDString t = TxID tx /\ NewHashFromHex (TxHash u) = Ok h /\
    spends t = [(h, TxPos u)] /\ Forall (fun w => TxHash w = TxID tx) outs.

Lemma built_links u m i t outs kind b :
  newInput u m = Ok i -> Inputs t = [i] -> finalize t m kind = Ok b ->
  Forall (fun w => TxHash w = TxID b) outs -> links u b outs.
Proof.
  intros (h & Hh & Hi1 & Hi2)%newInput_Ok Hin (t' & Ht1 & _ & Ht3 & _)%finalize_Ok Houts.
  exists t', h. split_and!; [done|done| |done]. rewrite Ht3. unfold spends. rewrite Hin. simpl.
  by rewrite Hi1, Hi2.
Qed.

Lemma BuildSustain_links u m tx next :
  BuildSustain u (Some m) = Ok (tx, next) -> links u tx [next] /\ TxPos next = 0%N.
Proof.
  unfold BuildSustain. intros Hb. invert_ok. split; [|done].
  eapply built_links; [done| |done|by constructor].
  by rewrite Inputs_AddOutput, Inputs_AddInput, Inputs_new.
Qed.

Lemma BuildFanout_links u n m tx outs : BuildFanout u n (Some m) = Ok (tx, outs) -> links u tx outs.
Proof.
  unfold BuildFanout. intros Hb. invert_ok. eapply built_links; [done| |done|].
  - by rewrite addOutputs_Inputs, Inputs_AddInput, Inputs_new.
  - apply Forall_fmap, Forall_forall. done.
Qed.

(** The outputs of a fanout are numbered from 0 and worth the same, not zero. *)
Lemma BuildFanout_outputs u n m tx outs : BuildFanout u n (Some m) = Ok (tx, outs) -> n < two63 ->
  exists per, per <> 0 /\ outs = (fun i => mkUTXO (TxID tx) (N.of_nat i) per 0) <$> seq 0 (Z.to_nat n).
Proof.
  unfold BuildFanout. intros Hb Hn63. destruct (n <=? 0) eqn:Hn; [done|]. bool_to_prop.
  rewrite IntToUint64_ok in Hb by lia. simpl in Hb.
  destruct (MaxTxBytes <? n) eqn:Hmax; [done|]. bool_to_prop.
  rewrite Uint64ToUint32_ok in Hb by (unfold two32, MaxTxBytes in *; lia). simpl in Hb.
  invert_ok. bool_to_prop. eauto.
Qed.
End lemmas.

Lemma varIntSize_mono a b : a <= b -> varIntSize a <= varIntSize b.
Proof. intros Hab. unfold varIntSize. repeat case_match; bool_to_prop; lia. Qed.

Section size.
Context `{Sdk}.

(** A mode whose scripts are of a sane length, so that sizes do not wrap. *)
Definition mode_sized (m : Mode) : Prop :=
  Z.of_nat (length (LockScript m)) < 2 ^ 32 /\ 0 <= unlockLen m < 2 ^ 32.

Lemma outputSize_value m : mode_sized m ->
  outputSize m = 8 + varIntSize (Z.of_nat (length (LockScript m))) + Z.of_nat (length (LockScript m)).
Proof.
  intros [Hl _]. unfold outputSize. pose proof (varIntSize_range (Z.of_nat (length (LockScript m)))).
  apply u64_small. unfold is_u64, outputValueBytes, two64. lia.
Qed.

Lemma inputSize_value m : mode_sized m ->
  inputSize m = 40 + varIntSize (unlockLen m) + unlockLen m.
Proof.
  intros [_ Hl]. unfold inputSize. pose proof (varIntSize_range (unlockLen m)).
  rewrite u64_small; [lia|]. unfold is_u64, two64. lia.
Qed.

Lemma fanoutRawSize_value m count : mode_sized m -> 0 <= count <= MaxTxBytes ->
  fanoutRawSize m count =
    9 + inputSize m + varIntSize count + count * outputSize m.
Proof.
  intros Hm Hc. unfold fanoutRawSize.
  pose proof (inputSize_value m Hm). pose proof (outputSize_value m Hm).
  pose proof (varIntSize_range (unlockLen m)).
  pose proof (varIntSize_range (Z.of_nat (length (LockScript m)))).
  pose proof (varIntSize_range count). destruct Hm.
  unfold MaxTxBytes, txFrameBytes in *. change (varIntSize 1) with 1.
  rewrite u64_small; [lia|]. unfold is_u64, two64. nia.
Qed.

Lemma fanoutRawSize_bounds m count : 0 <= fanoutRawSize m count < two64.
Proof. apply u64_range. Qed.

(** Once the size is accepted, the fee is its exact ceiling. *)
Lemma fanoutFee_value m count : fanoutRawSize m count <= MaxTxBytes ->
  fanoutFee m count = (fanoutRawSize m count * 100 + 999) / 1000 /\
  0 <= fanoutFee m count <= 10000000.
Proof.
  intros Hr. pose proof (fanoutRawSize_bounds m count). unfold fanoutFee, feeRateSatsPerKB, MaxTxBytes in *.
  rewrite u64_small by (unfold is_u64, two64 in *; lia).
  split; [done|]. Z.div_mod_to_equations; lia.
Qed.
End size.

(** ** A concrete SDK

    It shows that the laws of [SdkLaws] can hold together, and runs the examples:
    a transaction is the list of its inputs and outputs, and its id spells the
    outpoints it spends. *)

Module ToySdk.

Definition spell (i : TransactionInput string unit) : string :=
  String.append (SourceTXID i) (String.append ":" (pretty (SourceTxOutIndex i))).

Definition txid (t : list (TransactionInput string unit) * list TransactionOutput) : string :=
  match t.1 with [i] => spell i | _ => "multi" end.

Definition set_source (i : TransactionInput string unit) (o : TransactionOutput) :=
  mkTxInput (SourceTXID i) (SourceTxOutIndex i) (SequenceNumber i)
    (UnlockingScriptTemplate i) (UnlockingScript i) (Some o).

#[export] Instance toy_sdk : Sdk := {|
  Hash := string;
  NewHashFromHex s :=
    if (String.length s =? 0)%nat then Err (External "empty hash") else Ok s;
  Unlocker := unit;
  Transaction := list (TransactionInput string unit) * list TransactionOutput;
  NewTransaction := ([], []);
  AddInput t i := (t.1 ++ [i], t.2);
  AddOutput t o := (t.1, t.2 ++ [o]);
  Inputs := fst;
  Outputs := snd;
  SetSourceTxOutput := set_source;
  DefaultSequenceNumber := 0xffffffff;
  Sign t := Ok t;
  ToEF t := Ok (String.list_byte_of_string (txid t));
  TxIDString := txid;
  EstimateLength _ _ _ := 106;
  PrivateKey := string;
  PublicKey := string;
  AddressT := string;
  PrivateKeyFromWif s := Err (External "not a WIF");
  PrivateKeyFromHex s := Ok s;
  PubKey k := k;
  NewAddressFromPublicKey k _ := Ok k;
  AddressString a := a;
  Lock a := Ok (String.list_byte_of_string a);
  Unlock k := Ok tt;
  IntToUint64 n := if n <? 0 then Err (External "negative") else Ok n;
  Uint64ToUint32 n := if two32 <=? n then Err (External "overflow") else Ok n;
|}.

#[export] Instance toy_sdk_laws : SdkLaws.
Proof.
  split; try done.
  - intros t t' Ht. injection Ht as <-. done.
  - intros n Hn. simpl. by replace (n <? 0) with false by lia.
  - intros n Hn. simpl. by replace (two32 <=? n) with false by lia.
Qed.

Definition drop_mode : Mode :=
  mkMode ModeTaggedDrop ([x06] ++ String.list_byte_of_string "runner" ++ [OpDROP]) None 7 "".

Definition seed : UTXO := mkUTXO "aa" 0 1000 5.

End ToySdk.

(** ** Properties of the builders *)

Section properties.
Context `{SdkLaws}.

(** C22: the size on which [BuildFanout] computes its fee is, on [uint64] and
    without wrapping, the length of the Bitcoin serialization of the transaction
    with one input and [n] outputs with the mode's lock script, but for the
    unlocking script, of which it takes the estimated length: the two differ by
    exactly what that script and its length prefix differ from the estimate.  So
    the size is exact for an input that is unlocked by OP_TRUE, as those of the
    tagged-drop mode are, and whenever a signed script has its estimated length; a
    shorter script makes the transaction no larger than the size its fee is for. *)
Theorem fanoutRawSize_is_wire_length (m : Mode) (n : Z) (version locktime vout sequence value : Z) (txid unlock : bytes) :
  mode_sized m -> 1 <= n <= MaxTxBytes -> length txid = 32%nat ->
  let wire := Z.of_nat (length (Wire.transaction version locktime
    (Wire.input txid vout unlock sequence)
    (replicate (Z.to_nat n) (Wire.output value (LockScript m))))) in
  let len := Z.of_nat (length unlock) in
  wire - fanoutRawSize m n = (varIntSize len + len) - (varIntSize (unlockLen m) + unlockLen m) /\
  (UnlockerOf m = None -> unlock = opTrueScript -> fanoutRawSize m n = wire) /\
  (len = unlockLen m -> fanoutRawSize m n = wire) /\
  (len <= unlockLen m -> wire <= fanoutRawSize m n).
Proof.
  intros Hm Hn Htx wire len.
  assert (wire - fanoutRawSize m n = (varIntSize len + len) - (varIntSize (unlockLen m) + unlockLen m)) as Hd.
  { unfold wire. rewrite fanoutRawSize_value by (done || lia).
    rewrite inputSize_value, outputSize_value by done.
    unfold Wire.transaction, Wire.input, Wire.output.
    rewrite !length_app, Wire.concat_replicate_length, !length_app, !Wire.le_bytes_length, Htx.
    rewrite !Nat2Z.inj_add, Nat2Z.inj_mul, !Nat2Z.inj_add, !Wire.varint_length, length_replicate.
    change (varIntSize 1) with 1. rewrite Z2Nat.id by lia. unfold len. lia. }
  assert (len = unlockLen m -> fanoutRawSize m n = wire) as Heq by (intros Hl; rewrite Hl in Hd; lia).
  split_and!; [done| |done|].
  - intros Hu ->. apply Heq. unfold len, unlockLen. by rewrite Hu.
  - intros Hl. pose proof (varIntSize_mono _ _ Hl). lia.
Qed.

(** C21: a successful fanout splits its input without creating value: it has
    exactly [n] outputs, numbered from 0, each worth the same positive amount
    and carrying the id of the built transaction; the outputs and the fee of
    100 sat/KB do not exceed the input, and what is left over for the miner is
    less than one satoshi per output.  The transaction behind the returned id
    and bytes spends the UTXO it was given and has exactly those outputs. *)
Theorem BuildFanout_Ok (u : UTXO) (n : Z) (m : Mode) (tx : Tx) (outs : list UTXO) :
  utxo_wf u -> n < two63 -> BuildFanout u n (Some m) = Ok (tx, outs) ->
  exists per t h,
    let fee := (fanoutRawSize m n * 100 + 999) / 1000 in
    1 <= n <= MaxTxBytes /\ 0 < per /\
    outs = (fun i => mkUTXO (TxID tx) (N.of_nat i) per 0) <$> seq 0 (Z.to_nat n) /\
    n * per + fee <= Value u < n * per + fee + n /\
    TxIDString t = TxID tx /\ ToEF t = Ok (EF tx) /\
    NewHashFromHex (TxHash u) = Ok h /\ spends t = [(h, TxPos u)] /\
    Outputs t = replicate (Z.to_nat n) (mkTxOutput per (LockScript m)).
Proof.
  intros Hu Hn63 Hb. unfold BuildFanout in Hb.
  destruct (n <=? 0) eqn:Hn; [done|]. bool_to_prop.
  rewrite IntToUint64_ok in Hb by lia. simpl in Hb.
  destruct (MaxTxBytes <? n) eqn:Hmax; [done|]. bool_to_prop.
  rewrite Uint64ToUint32_ok in Hb by (unfold two32, MaxTxBytes in *; lia). simpl in Hb.
  invert_ok. bool_to_prop.
  destruct (fanoutFee_value m n) as [Hfee Hfeeb]; [lia|].
  match goal with Hi : newInput _ _ = Ok _ |- _ => apply newInput_Ok in Hi as (h & Hh & Hi1 & Hi2) end.
  match goal with Hf : finalize _ _ _ = Ok _ |- _ => apply finalize_Ok in Hf as (t & Ht1 & Ht2 & Ht3 & Ht4) end.
  exists ((Value u - fanoutFee m n) / n), t, h. rewrite Hfee in *.
  split_and!; try done; try lia.
  - destruct Hu as (_ & Hv & _). unfold is_u64 in Hv.
    assert (0 <= (Value u - (fanoutRawSize m n * 100 + 999) / 1000) / n); [apply Z.div_pos; lia|lia].
  - Z.div_mod_to_equations. nia.
  - Z.div_mod_to_equations. nia.
  - rewrite Ht3. unfold spends. rewrite addOutputs_Inputs, Inputs_AddInput, Inputs_new. simpl.
    by rewrite Hi1, Hi2.
  - rewrite Ht4, addOutputs_Outputs, Outputs_AddInput, Outputs_new. done.
Qed.

(** Why a fanout of a well-formed UTXO fails: a non-positive count, a
    transaction over [MaxTxBytes], a value that does not leave one satoshi per
    output after the fee, or a hash that is not a txid are each reported as the
    documented error, in this order, and when none of them holds only signing
    or encoding can fail. *)
Theorem BuildFanout_errors (u : UTXO) (n : Z) (m : Mode) :
  utxo_wf u -> n < two63 ->
  let fee := (fanoutRawSize m n * 100 + 999) / 1000 in
  match BuildFanout u n (Some m) with
  | Ok _ => 0 < n /\ n <= MaxTxBytes /\ fanoutRawSize m n <= MaxTxBytes /\ n <= Value u - fee
  | Err e =>
      if n <=? 0 then e = ErrInvalidFanoutCount
      else if (MaxTxBytes <? n) || (MaxTxBytes <? fanoutRawSize m n) then errors_is e ErrTxTooLarge
      else if Value u - fee <? n then errors_is e ErrInsufficientValue
      else if negb (is_ok (NewHashFromHex (TxHash u))) then errors_is e ErrInvalidTxID
      else exists t, Outputs t = replicate (Z.to_nat n)
             (mkTxOutput ((Value u - fee) / n) (LockScript m)) /\
           finalize t m "fanout" = Err e
  end.
Proof.
  intros Hu Hn63 fee. unfold BuildFanout.
  destruct (n <=? 0) eqn:Hn; [done|]. bool_to_prop.
  rewrite IntToUint64_ok by lia. simpl.
  destruct (MaxTxBytes <? n) eqn:Hmax; [done|]. bool_to_prop.
  rewrite Uint64ToUint32_ok by (unfold two32, MaxTxBytes in *; lia). simpl.
  destruct (MaxTxBytes <? fanoutRawSize m n) eqn:Hraw; [done|]. bool_to_prop.
  destruct (fanoutFee_value m n) as [Hfee Hfeeb]; [lia|]. rewrite Hfee in *. fold fee in Hfee, Hfeeb |- *.
  destruct Hu as (_ & [Hv _] & _).
  destruct (Value u <=? fee) eqn:Hpay; bool_to_prop.
  { replace (Value u - fee <? n) with true by lia. done. }
  destruct ((Value u - fee) / n =? 0) eqn:Hper; bool_to_prop.
  { replace (Value u - fee <? n) with true; [done|].
    symmetry. apply Z.ltb_lt. Z.div_mod_to_equations. nia. }
  assert (n <= Value u - fee) as Hle.
  { destruct (Z.lt_ge_cases (Value u - fee) n); [|done]. rewrite Z.div_small in Hper; lia. }
  replace (Value u - fee <? n) with false by lia.
  unfold newInput. destruct (NewHashFromHex (TxHash u)) as [h|eh]; [|done]. cbn [mbind result_bind is_ok negb].
  destruct (finalize _ _ _) as [b|e] eqn:Hf; simpl; [done|].
  eexists; split; [|exact Hf]. by rewrite addOutputs_Outputs, Outputs_AddInput, Outputs_new.
Qed.

(** C23: a sustain hop of a well-formed UTXO spends exactly that UTXO into one
    output of the mode's lock script, worth the value less the fee, or zero at
    the end of the chain; it never creates value, and its only own failures are
    a zero-value UTXO and a hash that is not a txid. *)
Theorem BuildSustain_spec (u : UTXO) (m : Mode) :
  utxo_wf u -> 0 <= SustainFee m ->
  match BuildSustain u (Some m) with
  | Ok (tx, next) =>
      Value u <> 0 /\
      next = mkUTXO (TxID tx) 0 (Z.max 0 (Value u - SustainFee m)) 0 /\
      utxo_wf next /\ Value next <= Value u /\
      exists t h, TxIDString t = TxID tx /\ ToEF t = Ok (EF tx) /\
        NewHashFromHex (TxHash u) = Ok h /\ spends t = [(h, TxPos u)] /\
        Outputs t = [mkTxOutput (Value next) (LockScript m)]
  | Err e =>
      if Value u =? 0 then e = ErrZeroValueUTXO
      else if negb (is_ok (NewHashFromHex (TxHash u))) then errors_is e ErrInvalidTxID
      else exists t, finalize t m "sustain" = Err e
  end.
Proof.
  intros (_ & Hv & _) Hfee. unfold BuildSustain.
  destruct (Value u =? 0) eqn:Hz; [done|]. bool_to_prop.
  destruct (newInput u m) as [i|ei] eqn:Hi; simpl.
  2: { unfold newInput in Hi. destruct (NewHashFromHex (TxHash u)); simplify_eq. done. }
  apply newInput_Ok in Hi as (h & Hh & Hi1 & Hi2). rewrite Hh. simpl.
  assert ((if SustainFee m <? Value u then Value u - SustainFee m else 0)
    = Z.max 0 (Value u - SustainFee m)) as -> by (case_if; bool_to_prop; lia).
  destruct (finalize _ _ _) as [b|e] eqn:Hf; simpl; [|by eauto].
  apply finalize_Ok in Hf as (t & Ht1 & Ht2 & Ht3 & Ht4).
  unfold is_u64 in Hv. split_and!; [done|done| |simpl; lia|].
  { split_and!; simpl; [done|unfold is_u64; lia|split; by vm_compute]. }
  exists t, h. split_and!; try done.
  - rewrite Ht3. unfold spends. rewrite Inputs_AddOutput, Inputs_AddInput, Inputs_new. simpl.
    by rewrite Hi1, Hi2.
  - by rewrite Ht4, Outputs_AddOutput, Outputs_AddInput, Outputs_new.
Qed.
End properties.

(** ** Witnesses *)

Module TxBuilderWitness.
Import ToySdk.

Lemma drop_mode_sized : mode_sized drop_mode.
Proof. split; [|split]; by vm_compute. Qed.

Lemma fanoutRawSize_is_wire_length_witness :
  fanoutRawSize drop_mode 100 = 1752 /\
  fanoutRawSize drop_mode 100 = Z.of_nat (length (Wire.transaction 1 0
    (Wire.input (replicate 32 x00) 0 opTrueScript 0xffffffff)
    (replicate 100 (Wire.output 8 (LockScript drop_mode))))).
Proof.
  split; [vm_compute; reflexivity|].
  destruct (fanoutRawSize_is_wire_length drop_mode 100 1 0 0 0xffffffff 8 (replicate 32 x00) opTrueScript)
    as (_ & Hdrop & _); [apply drop_mode_sized|unfold MaxTxBytes; lia|reflexivity|]. apply Hdrop; reflexivity.
Defined.

Lemma seed_wf : utxo_wf seed.
Proof. split; [done|]. split; split; by vm_compute. Qed.

Lemma BuildFanout_Ok_witness :
  exists tx outs, BuildFanout seed 3 (Some drop_mode) = Ok (tx, outs) /\
    exists per, 0 < per /\ 3 * per + 11 <= 1000 < 3 * per + 11 + 3 /\
      outs = (fun i => mkUTXO (TxID tx) (N.of_nat i) per 0) <$> seq 0 3.
Proof.
  destruct (BuildFanout seed 3 (Some drop_mode)) as [[tx outs]|] eqn:Hb; [|vm_compute in Hb; discriminate].
  exists tx, outs. split; [reflexivity|].
  destruct (BuildFanout_Ok seed 3 drop_mode tx outs seed_wf ltac:(unfold two63; lia) Hb)
    as (per & t & h & Hn & Hper & Houts & Hval & _).
  exists per. split; [exact Hper|]. split; [exact Hval|exact Houts].
Defined.

Lemma BuildFanout_errors_witness :
  exists e, BuildFanout seed 500 (Some drop_mode) = Err e /\ errors_is e ErrInsufficientValue.
Proof.
  pose proof (BuildFanout_errors seed 500 drop_mode seed_wf ltac:(unfold two63; lia)) as Hspec.
  destruct (BuildFanout seed 500 (Some drop_mode)) as [[tx outs]|e] eqn:Hb; [vm_compute in Hb; discriminate|].
  exists e. split; [reflexivity|]. exact Hspec.
Defined.

Lemma BuildSustain_spec_witness :
  exists tx next, BuildSustain seed (Some drop_mode) = Ok (tx, next) /\ Value next = 993 /\
    Value next <= Value seed.
Proof.
  pose proof (BuildSustain_spec seed drop_mode seed_wf ltac:(vm_compute; discriminate)) as Hspec.
  destruct (BuildSustain seed (Some drop_mode)) as [[tx next]|e] eqn:Hb; [|vm_compute in Hb; discriminate].
  exists tx, next. destruct Hspec as (_ & Hnext & _ & Hle & _).
  split; [reflexivity|]. split; [rewrite Hnext; reflexivity|exact Hle].
Defined.

End TxBuilderWitness.
