(* ===== verification/Backoff.v ===== *)
(** * Delays (internal/backoff/backoff.go)

    The exponential retry and reconnect delays and their jitter, on [int64]
    nanoseconds.  The random source is the argument [rand]: [rand n] stands for
    [rand.Int64N(n)]. *)

From S2P Require Import Prelude.
Open Scope Z_scope.

Module Backoff.

Definition Millisecond : Z := 1000000.
Definition Second : Z := 1000000000.
Definition MaxInt64 : Z := two63 - 1.

Definition retryBase : Z := 100 * Millisecond.
Definition retryCap : Z := 5 * Second.

(** The loop [for i := 1; i < attempt; i++].  It leaves as soon as the delay
    reaches half of the limit, so 64 rounds are always enough on [int64]. *)
Fixpoint exponential_loop (fuel : nat) (i attempt delay limit : Z) : Z :=
  match fuel with
  | O => delay
  | S fuel =>
      if i <? attempt then
        if limit ÷ 2 <=? delay then limit
        else exponential_loop fuel (i + 1) attempt (i64 (delay * 2)) limit
      else delay
  end.

Definition exponential (base limit attempt : Z) : Z :=
  let attempt := if attempt <? 1 then 1 else attempt in
  if (base <=? 0) || (limit <=? base) then limit
  else exponential_loop 64 1 attempt base limit.

Definition Jitter (rand : Z -> Z) (maxJitter : Z) : Z :=
  if maxJitter <=? 0 then 0
  else
    let maxJitter := if maxJitter =? MaxInt64 then maxJitter - 1 else maxJitter in
    rand (i64 (maxJitter + 1)).

Definition Retry (rand : Z -> Z) (attempt : Z) : Z :=
  let delay := exponential retryBase retryCap attempt in
  i64 (delay + Jitter rand (delay ÷ 2)).

Definition Reconnect (rand : Z -> Z) (minDelay maxDelay attempt : Z) : Z :=
  let maxDelay := if maxDelay <=? 0 then minDelay else maxDelay in
  let delay := exponential minDelay maxDelay attempt in
  if delay <=? 0 then minDelay
  else i64 (delay + Jitter rand (delay ÷ 2)).

(** What [rand.Int64N] promises. *)
Definition uniform (rand : Z -> Z) : Prop := forall n, 0 < n -> 0 <= rand n < n.

(** ** Lemmas *)

(** The value the loop computes, without fuel and without wrapping: [d] doubled
    [k] times, or the limit once that reaches [2 * (limit / 2)]. *)
Definition doubled (d limit k : Z) : Z :=
  if (k =? 0) || (d * 2 ^ k <? 2 * (limit / 2)) then d * 2 ^ k else limit.

Lemma doubled_step d limit k : 0 < d -> 0 < k -> d < limit / 2 ->
  doubled d limit k = doubled (d * 2) limit (k - 1).
Proof.
  intros Hd Hk Hhalf. unfold doubled.
  replace (d * 2 ^ k) with (d * 2 * 2 ^ (k - 1)).
  2: { replace k with (k - 1 + 1) at 2 by lia. rewrite Z.pow_add_r by lia. lia. }
  destruct (Z.eqb_spec k 0), (Z.eqb_spec (k - 1) 0) as [E|]; simpl; try done; [lia..|].
  rewrite E, Z.pow_0_r. replace (d * 2 * 1 <? 2 * (limit / 2)) with true by lia. done.
Qed.

Lemma doubled_limit d limit k : 0 < d -> 0 < k -> limit / 2 <= d -> doubled d limit k = limit.
Proof.
  intros Hd Hk Hhalf. unfold doubled.
  assert (2 <= 2 ^ k) by (change 2 with (2 ^ 1) at 1; apply Z.pow_le_mono_r; lia).
  replace (k =? 0) with false by lia.
  replace (d * 2 ^ k <? 2 * (limit / 2)) with false; [done|].
  symmetry. apply Z.ltb_ge. nia.
Qed.

(** The fuel bound: while the loop runs, the delay is at least [2 ^ (64 - fuel)]. *)
Lemma exponential_loop_spec fuel i attempt delay limit :
  0 < delay -> limit < two63 -> i <= attempt ->
  two63 <= delay * 2 ^ Z.of_nat fuel -> delay < limit ->
  exponential_loop fuel i attempt delay limit = doubled delay limit (attempt - i).
Proof.
  revert i delay. induction fuel as [|fuel IH]; intros i delay Hd Hlim Hi Hfuel Hlt.
  { simpl in Hfuel. unfold two63 in *. lia. }
  simpl. rewrite Z.quot_div_nonneg by lia.
  destruct (Z.ltb_spec i attempt) as [Hia|Hia].
  - destruct (Z.leb_spec (limit / 2) delay) as [Hh|Hh].
    + symmetry. apply doubled_limit; lia.
    + rewrite i64_small by (unfold is_i64, two63 in *; Z.div_mod_to_equations; lia).
      rewrite (doubled_step delay limit (attempt - i)) by lia.
      replace (attempt - i - 1) with (attempt - (i + 1)) by lia.
      apply IH; try lia.
      * rewrite Nat2Z.inj_succ, Z.pow_succ_r in Hfuel by lia. lia.
      * Z.div_mod_to_equations; lia.
  - unfold doubled. replace (attempt - i) with 0 by lia. simpl. lia.
Qed.

Lemma exponential_value base limit attempt :
  0 < base < limit -> limit < two63 ->
  exponential base limit attempt = doubled base limit (Z.max 1 attempt - 1).
Proof.
  intros Hb Hl. unfold exponential.
  replace ((base <=? 0) || (limit <=? base)) with false by lia.
  replace (if attempt <? 1 then 1 else attempt) with (Z.max 1 attempt) by (case_if; bool_to_prop; lia).
  apply exponential_loop_spec; try lia.
  transitivity (1 * 2 ^ Z.of_nat 64); [by vm_compute|]. apply Z.mul_le_mono_nonneg_r; [lia|lia].
Qed.

(** An even limit caps exactly. *)
Lemma doubled_even d limit k : 0 < d < limit -> 0 <= k -> limit mod 2 = 0 ->
  doubled d limit k = Z.min (d * 2 ^ k) limit.
Proof.
  intros Hd Hk Hev. unfold doubled. pose proof (Z.div_mod limit 2 ltac:(lia)).
  destruct (Z.eqb_spec k 0) as [->|]; simpl; [rewrite Z.pow_0_r; lia|].
  case_if; bool_to_prop; lia.
Qed.

Lemma doubled_range d limit k : 0 < d < limit -> 0 <= k -> d <= doubled d limit k <= limit.
Proof.
  intros Hd Hk. unfold doubled. pose proof (Z.div_mod limit 2 ltac:(lia)).
  pose proof (Z.mod_pos_bound limit 2 ltac:(lia)).
  assert (1 <= 2 ^ k) by (change 1 with (2 ^ 0); apply Z.pow_le_mono_r; lia).
  destruct (Z.eqb_spec k 0) as [->|]; simpl; [rewrite Z.pow_0_r; lia|].
  case_if; bool_to_prop; nia.
Qed.

Lemma Jitter_range rand m : uniform rand -> m < two63 -> 0 <= Jitter rand m <= Z.max 0 m.
Proof.
  intros Hr Hm. unfold Jitter. destruct (Z.leb_spec m 0); [lia|].
  destruct (Z.eqb_spec m MaxInt64) as [->|].
  - rewrite i64_small by (unfold is_i64, MaxInt64, two63; lia).
    specialize (Hr (MaxInt64 - 1 + 1)). unfold MaxInt64, two63 in *. lia.
  - rewrite i64_small by (unfold is_i64, MaxInt64, two63 in *; lia). specialize (Hr (m + 1)). lia.
Qed.

(** A delay with its jitter, when the sum fits. *)
Lemma jittered_range rand d : uniform rand -> 0 < d -> d <= 2 ^ 62 ->
  d <= i64 (d + Jitter rand (d ÷ 2)) <= d + d / 2.
Proof.
  intros Hr Hd Hfit. rewrite Z.quot_div_nonneg by lia.
  pose proof (Jitter_range rand (d / 2) Hr ltac:(unfold two63; Z.div_mod_to_equations; lia)) as Hj.
  assert (0 <= d / 2) by (apply Z.div_pos; lia).
  rewrite i64_small; [lia|]. unfold is_i64, two63. Z.div_mod_to_equations. lia.
Qed.

(** ** Properties *)

(** However large or negative the attempt, the delay is the base doubled once
    per earlier attempt, or the limit once that reaches it (for an odd limit, once
    it reaches the limit less one), and nothing wraps on [int64]. *)
Theorem exponential_spec base limit attempt :
  0 < base < limit -> limit < two63 ->
  let ideal := base * 2 ^ (Z.max 1 attempt - 1) in
  exponential base limit attempt =
    (if (attempt <=? 1) || (ideal <? 2 * (limit / 2)) then ideal else limit) /\
  (limit mod 2 = 0 -> exponential base limit attempt = Z.min ideal limit) /\
  base <= exponential base limit attempt <= limit.
Proof.
  intros Hb Hl ideal. rewrite exponential_value by done. split; [|split].
  - unfold doubled. fold ideal.
    destruct (Z.eqb_spec (Z.max 1 attempt - 1) 0), (Z.leb_spec attempt 1); simpl; done || lia.
  - intros Hev. rewrite doubled_even by lia. done.
  - apply doubled_range; lia.
Qed.

(** A retry waits between the capped exponential delay and one and a half
    times that, so never less than 100ms and never more than 7.5s, whatever the
    attempt number. *)
Theorem Retry_bounds rand attempt :
  uniform rand ->
  let delay := Z.min (retryBase * 2 ^ (Z.max 1 attempt - 1)) retryCap in
  delay <= Retry rand attempt <= delay + delay / 2 /\
  100 * Millisecond <= Retry rand attempt <= 7500 * Millisecond.
Proof.
  intros Hr delay. unfold Retry.
  rewrite exponential_value, doubled_even by (done || (split; done) || lia).
  fold delay.
  assert (retryBase <= delay <= retryCap) as Hd.
  { pose proof (doubled_range retryBase retryCap (Z.max 1 attempt - 1)) as Hrange.
    rewrite doubled_even in Hrange by (done || (split; done) || lia).
    apply Hrange; [split; done|lia]. }
  unfold retryBase, retryCap, Millisecond, Second in Hd.
  pose proof (jittered_range rand delay Hr ltac:(lia) ltac:(lia)) as Hj.
  unfold Millisecond. split; [done|]. Z.div_mod_to_equations. lia.
Qed.

(** For a configuration with a positive minimum no larger than the maximum
    (and a maximum that leaves room for the jitter), every reconnect waits at
    least the minimum and at most one and a half times the maximum; the first
    waits at most one and a half times the minimum. *)
Theorem Reconnect_bounds rand minDelay maxDelay attempt :
  uniform rand -> 0 < minDelay <= maxDelay -> maxDelay <= 2 ^ 62 ->
  minDelay <= Reconnect rand minDelay maxDelay attempt <= maxDelay + maxDelay / 2 /\
  (attempt <= 1 -> Reconnect rand minDelay maxDelay attempt <= minDelay + minDelay / 2).
Proof.
  intros Hr Hmin Hmax. unfold Reconnect. replace (maxDelay <=? 0) with false by lia.
  assert (minDelay <= exponential minDelay maxDelay attempt <= maxDelay /\
    (attempt <= 1 -> exponential minDelay maxDelay attempt = minDelay)) as [Hd Hone].
  { destruct (decide (minDelay = maxDelay)) as [->|].
    - unfold exponential. replace ((maxDelay <=? 0) || (maxDelay <=? maxDelay)) with true by lia. lia.
    - rewrite exponential_value by (unfold two63; lia).
      split; [apply doubled_range; lia|]. intros Ha.
      replace (Z.max 1 attempt - 1) with 0 by lia. unfold doubled. simpl. lia. }
  replace (exponential minDelay maxDelay attempt <=? 0) with false by lia.
  pose proof (jittered_range rand (exponential minDelay maxDelay attempt) Hr ltac:(lia) ltac:(lia)) as Hj.
  split; [Z.div_mod_to_equations; lia|]. intros Ha. rewrite Hone in * by done. lia.
Qed.

(** The witnesses draw the smallest and the largest value. *)
Definition rand_high (n : Z) : Z := n - 1.

Lemma rand_high_uniform : uniform rand_high.
Proof. intros n Hn. unfold rand_high. lia. Qed.

Lemma exponential_spec_witness :
  exponential (1 * Second) (30 * Second) 5 = 16 * Second /\
  exponential (1 * Second) (30 * Second) 2147483647 = 30 * Second.
Proof.
  split; [|vm_compute; reflexivity].
  destruct (exponential_spec (1 * Second) (30 * Second) 5) as (_ & Heven & _);
    [split; reflexivity|reflexivity|].
  rewrite Heven by reflexivity. vm_compute. reflexivity.
Defined.

Lemma Retry_bounds_witness :
  Retry rand_high 3 = 600 * Millisecond /\ Retry rand_high 64 <= 7500 * Millisecond.
Proof.
  split; [vm_compute; reflexivity|].
  destruct (Retry_bounds rand_high 64 rand_high_uniform) as [_ [_ H]]. exact H.
Defined.

Lemma Reconnect_bounds_witness :
  1 * Second <= Reconnect rand_high (1 * Second) (30 * Second) 100 <= 45 * Second.
Proof.
  destruct (Reconnect_bounds rand_high (1 * Second) (30 * Second) 100 rand_high_uniform) as [H _];
    [split; vm_compute; discriminate || reflexivity|vm_compute; discriminate|]. exact H.
Defined.

End Backoff.
