(* ===== verification/Float.v ===== *)
(** * Go's float64

    The conversions and operations on [float64] that the engine and the metrics
    use, as IEEE 754 binary64 with rounding to nearest even (the Standard
    Library's [SpecFloat]). *)

From Stdlib Require Import SpecFloat.
From S2P Require Import Prelude.
Open Scope Z_scope.

Definition float64 : Type := spec_float.

(** [float64(n)] for an integer [n] *)
Definition of_int (n : Z) : float64 := binary_normalize 53 1024 n 0 false.

Definition fdiv (a b : float64) : float64 := SFdiv 53 1024 a b.
Definition fmul (a b : float64) : float64 := SFmul 53 1024 a b.

(** [int64(f)]: truncation toward zero.  What Go does with an infinity, a NaN or
    a value out of the range of [int64] depends on the machine: it is [other]. *)
Definition to_int64 (other : Z) (f : float64) : Z :=
  match f with
  | S754_zero _ => 0
  | S754_finite s m e =>
      let t := Z.shiftl (Zpos m) e in
      let z := if s then - t else t in
      if (- two63 <=? z) && (z <? two63) then z else other
  | _ => other
  end.

Example of_int_exact : to_int64 0 (of_int (-9007199254740992)) = -9007199254740992.
Proof. vm_compute. reflexivity. Qed.

Example div_mul : to_int64 0 (fmul (fdiv (of_int 10000) (of_int 3)) (of_int 1000000000)) = 3333333333333.
Proof. vm_compute. reflexivity. Qed.
