(* ===== verification/FloatFacts.v ===== *)
(** * How accurate the float64 operations are

    The rounding of [SpecFloat] at 53 bits, and from it the error of converting an
    integer, of a quotient of two integers, of a product with an integer and of the
    truncation to [int64]: [int64(float64(a) / float64(b) * float64(c))] is the
    quotient [a * c / b] but for one unit and a relative error of [2 ^ -50]. *)

From Stdlib Require Import SpecFloat.
From S2P Require Import Prelude Float.
Open Scope Z_scope.

(** ** The accuracy of one operation *)

(** A value [m * 2 ^ e] is compared at the scale [2 ^ (e + scale)], where every
    exponent that occurs is positive. *)
Definition scale : Z := 2000.

Definition scaled (m e : Z) : Z := m * 2 ^ (e + scale).

(** [f] is [num / den] at the scale, but for a relative error of at most [2 ^ -52]. *)
Definition near (f : float64) (lo hi num den : Z) : Prop := exists m e,
  f = S754_finite false m e /\ 2 ^ 52 <= Zpos m < 2 ^ 53 /\ lo <= e <= hi /\
  Z.abs (scaled (Zpos m) e * den - num) * 2 ^ 52 <= num.

Lemma digits2_spec p : 2 ^ (Zpos (digits2_pos p) - 1) <= Zpos p < 2 ^ Zpos (digits2_pos p).
Proof.
  induction p as [p IH|p IH|]; simpl digits2_pos; [..|done]; rewrite Pos2Z.inj_succ;
    replace (Z.succ (Zpos (digits2_pos p)) - 1) with (Z.succ (Zpos (digits2_pos p) - 1)) by lia;
    rewrite !Z.pow_succ_r by lia; lia.
Qed.

Lemma digits2_unique p d : 0 < d -> 2 ^ (d - 1) <= Zpos p < 2 ^ d -> Zpos (digits2_pos p) = d.
Proof.
  intros Hd [Hlo Hhi]. destruct (digits2_spec p) as [Hlo' Hhi']. pose proof (Pos2Z.is_pos (digits2_pos p)).
  assert (2 ^ (d - 1) < 2 ^ Zpos (digits2_pos p)) as H1 by lia. assert (2 ^ (Zpos (digits2_pos p) - 1) < 2 ^ d) as H2 by lia.
  apply Z.pow_lt_mono_r_iff in H1, H2; lia.
Qed.

Lemma shr_1_m mrs : 0 <= shr_m mrs -> shr_m (shr_1 mrs) = shr_m mrs / 2.
Proof.
  destruct mrs as [m r s]. simpl. intros Hm. destruct m as [|[p|p|]|p]; simpl; [done|..|done|lia].
  - rewrite (Pos2Z.inj_xI p), Z.add_comm, Z.mul_comm, Z.div_add by done. done.
  - rewrite (Pos2Z.inj_xO p), Z.mul_comm, Z.div_mul by done. done.
Qed.

Lemma iter_shr n mrs : 0 <= shr_m mrs -> shr_m (SpecFloat.iter_pos shr_1 n mrs) = shr_m mrs / 2 ^ Zpos n.
Proof.
  revert mrs. induction n as [n IH|n IH|]; intros mrs Hm; cbn [SpecFloat.iter_pos].
  - assert (0 <= shr_m (shr_1 mrs)) as H1 by (rewrite shr_1_m by done; apply Z.div_pos; lia).
    assert (0 < 2 ^ Zpos n) by (apply Z.pow_pos_nonneg; lia).
    rewrite IH, IH, shr_1_m by (done || (rewrite IH by done; apply Z.div_pos; lia)).
    rewrite !Z.div_div by lia. f_equal. rewrite (Pos2Z.inj_xI n), Z.pow_add_r, Z.mul_comm, <- (Z.mul_comm 2) by lia.
    replace (2 * Zpos n) with (Zpos n + Zpos n) by lia. rewrite Z.pow_add_r by lia. lia.
  - assert (0 < 2 ^ Zpos n) by (apply Z.pow_pos_nonneg; lia).
    rewrite IH, IH by (done || (rewrite IH by done; apply Z.div_pos; lia)). rewrite Z.div_div by lia. f_equal.
    rewrite (Pos2Z.inj_xO n). replace (2 * Zpos n) with (Zpos n + Zpos n) by lia. by rewrite Z.pow_add_r by lia.
  - by apply shr_1_m.
Qed.

Lemma shr_spec m l e k : 0 <= m -> 0 <= k -> let '(mrs, e') := shr (shr_record_of_loc m l) e k in shr_m mrs = m / 2 ^ k /\ e' = e + k.
Proof.
  intros Hm Hk. assert (shr_m (shr_record_of_loc m l) = m) as Hl by (by destruct l as [|[]]).
  destruct k as [|k|k]; [|..|lia]; simpl.
  - rewrite Hl, Z.div_1_r. lia.
  - rewrite iter_shr by (by rewrite Hl). by rewrite Hl.
Qed.

Lemma round_even_spec m l : round_nearest_even m l = m \/ round_nearest_even m l = m + 1.
Proof. destruct l as [|[]]; simpl; auto. destruct (Z.even m); auto. Qed.

Lemma fexp_normal e : -1021 <= e -> fexp 53 1024 e = e - 53.
Proof. unfold fexp, emin. lia. Qed.

(** The 53 leading bits of [p] and their successor are both within one unit of
    what [p] and [p + 1] enclose. *)
Lemma leading_bits p d ex num den : Zpos (digits2_pos p) = d -> 53 <= d -> 0 < den ->
  0 <= ex + scale -> scaled (Zpos p) ex * den <= num <= scaled (Zpos p + 1) ex * den ->
  let m0 := Zpos p / 2 ^ (d - 53) in 2 ^ 52 <= m0 < 2 ^ 53 /\
  forall m1, m1 = m0 \/ m1 = m0 + 1 -> Z.abs (scaled m1 (ex + (d - 53)) * den - num) * 2 ^ 52 <= num.
Proof.
  intros Hd Hd53 Hden Hs [Hlo Hhi]. pose proof (digits2_spec p) as Hp. rewrite Hd in Hp. cbn zeta.
  set (k := d - 53). set (m0 := Zpos p / 2 ^ k).
  assert (0 < 2 ^ k) as H2k by (apply Z.pow_pos_nonneg; lia).
  assert (2 ^ 52 <= m0 < 2 ^ 53) as Hm0.
  { subst m0. split; [apply Z.div_le_lower_bound; [done|]|apply Z.div_lt_upper_bound; [done|]]; rewrite <- Z.pow_add_r by lia;
      [replace (k + 52) with (d - 1) by lia|replace (k + 53) with d by lia]; lia. }
  assert (m0 * 2 ^ k <= Zpos p < (m0 + 1) * 2 ^ k) as Hdiv.
  { subst m0. pose proof (Z.div_mod (Zpos p) (2 ^ k)). pose proof (Z.mod_pos_bound (Zpos p) (2 ^ k)). lia. }
  split; [done|]. intros m1 Hm1. unfold scaled in *.
  set (V := 2 ^ (ex + scale) * den). assert (0 < V) as HV by (apply Z.mul_pos_pos; [apply Z.pow_pos_nonneg; lia|done]).
  set (U := 2 ^ k * V). assert (0 < U) as HU by (by apply Z.mul_pos_pos).
  replace (m1 * 2 ^ (ex + k + scale) * den) with (m1 * U)
    by (subst U V; replace (ex + k + scale) with (k + (ex + scale)) by lia; rewrite (Z.pow_add_r 2 k) by lia; ring).
  assert (m0 * U <= num <= (m0 + 1) * U) as HX.
  { assert (Zpos p * V <= num <= (Zpos p + 1) * V) as HXV by (subst V; lia). clear -HXV Hdiv HV. subst U. nia. }
  assert (Z.abs (m1 * U - num) <= U) as Hu by (destruct Hm1 as [-> | ->]; lia).
  assert (2 ^ 52 * U <= m0 * U) as Hbig by (apply Z.mul_le_mono_nonneg_r; lia). clear -Hu Hbig HX. lia.
Qed.

(** Rounding what is at least 53 bits long. *)
Lemma round_near p d ex lx num den : Zpos (digits2_pos p) = d -> 53 <= d -> -1021 <= d + ex <= 1023 -> 0 < den ->
  0 <= ex + scale -> scaled (Zpos p) ex * den <= num <= scaled (Zpos p + 1) ex * den ->
  near (binary_round_aux 53 1024 false (Zpos p) ex lx) (ex + d - 53) (ex + d - 52) num den.
Proof.
  intros Hd Hd53 Hr Hden Hs Hnum. destruct (leading_bits p d ex num den Hd Hd53 Hden Hs Hnum) as [Hm0 Hround].
  set (k := d - 53) in *. set (m0 := Zpos p / 2 ^ k) in *.
  unfold binary_round_aux, shr_fexp at 1. cbn [Zdigits2]. rewrite Hd, fexp_normal by lia.
  replace (d + ex - 53 - ex) with k by lia. pose proof (shr_spec (Zpos p) lx ex k ltac:(lia) ltac:(lia)) as Hsh.
  destruct (shr (shr_record_of_loc (Zpos p) lx) ex k) as [mrs e']. destruct Hsh as [Hmrs ->]. fold m0 in Hmrs. rewrite Hmrs.
  set (m1 := round_nearest_even m0 (loc_of_shr_record mrs)).
  assert (m1 = m0 \/ m1 = m0 + 1) as Hm1 by apply round_even_spec. pose proof (Hround m1 Hm1) as Herr.
  assert (exists q1, m1 = Zpos q1) as [q1 Hq1] by (destruct m1 as [|q1|q1]; [lia|by exists q1|lia]).
  unfold shr_fexp. rewrite Hq1. cbn [Zdigits2]. destruct (decide (m1 = 2 ^ 53)) as [Htop|Hnt].
  - assert (Zpos (digits2_pos q1) = 54) as -> by (apply digits2_unique; [done|]; rewrite <- Hq1, Htop; done).
    rewrite fexp_normal by lia. replace (54 + (ex + k) - 53 - (ex + k)) with 1 by lia.
    pose proof (shr_spec (Zpos q1) loc_Exact (ex + k) 1 ltac:(lia) ltac:(lia)) as Hsh2.
    destruct (shr (shr_record_of_loc (Zpos q1) loc_Exact) (ex + k) 1) as [mrs2 e2]. destruct Hsh2 as [Hm2 ->]. rewrite Hm2, <- Hq1, Htop.
    change (2 ^ 53 / 2 ^ 1) with (Zpos 4503599627370496). cbv iota. rewrite (proj2 (Z.leb_le _ _)) by lia.
    exists 4503599627370496%positive, (ex + k + 1). split_and!; [done|done|done|lia|lia|].
    replace (scaled 4503599627370496 (ex + k + 1)) with (scaled m1 (ex + k)); [done|]. rewrite Htop. unfold scaled.
    replace (ex + k + 1 + scale) with (1 + (ex + k + scale)) by lia. rewrite (Z.pow_add_r 2 1) by lia.
    change (2 ^ 53) with (4503599627370496 * 2 ^ 1). ring.
  - assert (Zpos (digits2_pos q1) = 53) as -> by (apply digits2_unique; [done|]; change (53 - 1) with 52; lia).
    rewrite fexp_normal by lia. replace (53 + (ex + k) - 53 - (ex + k)) with 0 by lia.
    cbn [shr shr_record_of_loc shr_m]. rewrite (proj2 (Z.leb_le _ _)) by lia.
    exists q1, (ex + k). rewrite <- Hq1. split_and!; [done|lia|lia|lia|lia|done].
Qed.

(** ** The operations *)

(** An integer of at most 53 bits is represented exactly. *)
Lemma of_int_53 n : 0 < n < 2 ^ 53 -> exists m e, of_int n = S754_finite false m e /\ 2 ^ 52 <= Zpos m < 2 ^ 53 /\
  -52 <= e <= 0 /\ Zpos m = n * 2 ^ (- e).
Proof.
  intros Hn. destruct n as [|p|p]; [lia| |lia]. set (d := Zpos (digits2_pos p)).
  pose proof (digits2_spec p) as Hp. fold d in Hp.
  assert (1 <= d <= 53) as Hd.
  { assert (2 ^ (d - 1) < 2 ^ 53) as H1 by lia. apply Z.pow_lt_mono_r_iff in H1; [|lia..]. subst d. lia. }
  assert (exists q, shl_align p 0 (d - 53) = (q, d - 53) /\ Zpos q = Zpos p * 2 ^ (53 - d)) as (q & Hshl & Hq).
  { unfold shl_align. destruct (d - 53 - 0) as [|x|x] eqn:Hx; [|lia|].
    - exists p. split; [f_equal; lia|]. replace (53 - d) with 0 by lia. lia.
    - exists (Pos.iter xO p x). split; [done|]. replace (53 - d) with (Zpos x) by lia. clear.
      induction x as [|x IH] using Pos.peano_ind; [simpl; lia|]. rewrite Pos.iter_succ, Pos2Z.inj_succ, Z.pow_succ_r by lia.
      rewrite (Pos2Z.inj_xO (Pos.iter _ _ _)). lia. }
  assert (2 ^ 52 <= Zpos q < 2 ^ 53) as Hqr.
  { rewrite Hq. assert (0 < 2 ^ (53 - d)) by (apply Z.pow_pos_nonneg; lia).
    replace (2 ^ 52) with (2 ^ (d - 1) * 2 ^ (53 - d)) by (rewrite <- Z.pow_add_r by lia; f_equal; lia).
    replace (2 ^ 53) with (2 ^ d * 2 ^ (53 - d)) by (rewrite <- Z.pow_add_r by lia; f_equal; lia). nia. }
  exists q, (d - 53). split_and!; [|lia|lia|lia|lia|rewrite Hq; do 2 f_equal; lia].
  unfold of_int, binary_normalize, binary_round. fold d. rewrite Z.add_0_r, fexp_normal, Hshl by lia.
  unfold binary_round_aux, shr_fexp. cbn [Zdigits2]. rewrite (digits2_unique q 53) by (done || lia). rewrite fexp_normal by lia.
  replace (53 + (d - 53) - 53 - (d - 53)) with 0 by lia. cbn [shr shr_record_of_loc shr_m loc_of_shr_record round_nearest_even Zdigits2].
  rewrite (digits2_unique q 53) by (done || lia). rewrite fexp_normal by lia. replace (53 + (d - 53) - 53 - (d - 53)) with 0 by lia.
  cbn [shr shr_record_of_loc shr_m]. by rewrite (proj2 (Z.leb_le _ _)) by lia.
Qed.

(** A quotient of two integers. *)
Lemma fdiv_near a b : 0 < a < 2 ^ 53 -> 0 < b < 2 ^ 53 -> near (fdiv (of_int a) (of_int b)) (-105) 1 (a * 2 ^ scale) b.
Proof.
  intros Ha Hb. destruct (of_int_53 a Ha) as (m1 & e1 & -> & Hm1 & He1 & Hv1), (of_int_53 b Hb) as (m2 & e2 & -> & Hm2 & He2 & Hv2).
  unfold fdiv, SFdiv, SFdiv_core_binary. cbn [Zdigits2 xorb].
  rewrite (digits2_unique m1 53), (digits2_unique m2 53) by (done || lia).
  rewrite fexp_normal by lia. rewrite Z.min_l by lia. replace (e1 - e2 - (53 + e1 - (53 + e2) - 53)) with 53 by lia.
  replace (53 + e1 - (53 + e2) - 53) with (e1 - e2 - 53) by lia. rewrite Z.shiftl_mul_pow2 by lia.
  pose proof (Z.div_eucl_eq (Zpos m1 * 2 ^ 53) (Zpos m2) ltac:(lia)) as Hdm.
  pose proof (Z.mod_pos_bound (Zpos m1 * 2 ^ 53) (Zpos m2) ltac:(lia)) as Hmod. unfold Z.modulo in Hmod.
  destruct (Z.div_eucl (Zpos m1 * 2 ^ 53) (Zpos m2)) as [q r].
  assert (2 ^ 52 <= q < 2 ^ 54) as Hq by nia. destruct q as [|q|q]; [lia| |lia].
  assert (exists d, Zpos (digits2_pos q) = d /\ 53 <= d <= 54) as (d & Hd & Hd53).
  { destruct (decide (Zpos q < 2 ^ 53)); [exists 53|exists 54]; (split; [apply digits2_unique; [done|]|done]).
    - change (2 ^ (53 - 1)) with (2 ^ 52). lia.
    - change (2 ^ (54 - 1)) with (2 ^ 53). lia. }
  pose proof (round_near q d (e1 - e2 - 53) (new_location (Zpos m2) r) (Zpos m1 * 2 ^ (e1 - e2 + scale)) (Zpos m2) Hd) as (m & e & Hf & Hm & He & Herr);
    [lia|lia|lia|unfold scale; lia| |].
  { unfold scaled. assert (0 < 2 ^ (e1 - e2 - 53 + scale)) as H53 by (apply Z.pow_pos_nonneg; unfold scale; lia).
    replace (e1 - e2 + scale) with (53 + (e1 - e2 - 53 + scale)) by lia. rewrite (Z.pow_add_r 2 53) by (unfold scale; lia).
    set (X := 2 ^ (e1 - e2 - 53 + scale)) in *. rewrite Z.mul_assoc, Hdm. nia. }
  exists m, e. split_and!; [exact Hf|lia|lia|lia|lia|].
  assert (0 < 2 ^ (- e2)) as H2 by (apply Z.pow_pos_nonneg; lia).
  assert (Zpos m1 * 2 ^ (e1 - e2 + scale) = a * 2 ^ scale * 2 ^ (- e2)) as Hnum.
  { rewrite Hv1. replace (e1 - e2 + scale) with (- e2 + (e1 + scale)) by lia.
    rewrite (Z.pow_add_r 2 (- e2)) by (unfold scale; lia). replace (2 ^ scale) with (2 ^ (- e1) * 2 ^ (e1 + scale)); [ring|].
    rewrite <- Z.pow_add_r by (unfold scale; lia). f_equal. lia. }
  rewrite Hnum, Hv2 in Herr. set (Y := 2 ^ (- e2)) in *. set (S := 2 ^ scale) in *. set (F := scaled (Zpos m) e) in *.
  replace (F * (b * Y) - a * S * Y) with ((F * b - a * S) * Y) in Herr by ring. rewrite Z.abs_mul, (Z.abs_eq Y) in Herr by lia.
  apply (Z.mul_le_mono_pos_r _ _ Y); [done|]. lia.
Qed.

(** A product with an integer. *)
Lemma fmul_near m1 e1 c : 2 ^ 52 <= Zpos m1 < 2 ^ 53 -> -500 <= e1 <= 500 -> 0 < c < 2 ^ 53 ->
  near (fmul (S754_finite false m1 e1) (of_int c)) (e1 - 1) (e1 + 54) (c * scaled (Zpos m1) e1) 1.
Proof.
  intros Hm1 He1 Hc. destruct (of_int_53 c Hc) as (m2 & e2 & -> & Hm2 & He2 & Hv2).
  unfold fmul, SFmul. cbn [xorb].
  assert (2 ^ 104 <= Zpos (m1 * m2) < 2 ^ 106) as Hprod.
  { rewrite Pos2Z.inj_mul. change (2 ^ 104) with (2 ^ 52 * 2 ^ 52). change (2 ^ 106) with (2 ^ 53 * 2 ^ 53). nia. }
  assert (exists d, Zpos (digits2_pos (m1 * m2)) = d /\ 105 <= d <= 106) as (d & Hd & Hd105).
  { destruct (decide (Zpos (m1 * m2) < 2 ^ 105)); [exists 105|exists 106]; (split; [apply digits2_unique; [done|]|done]).
    - change (2 ^ (105 - 1)) with (2 ^ 104). lia.
    - change (2 ^ (106 - 1)) with (2 ^ 105). lia. }
  assert (scaled (Zpos (m1 * m2)) (e1 + e2) = c * scaled (Zpos m1) e1) as Hval.
  { unfold scaled. rewrite Pos2Z.inj_mul, Hv2. replace (2 ^ (e1 + scale)) with (2 ^ (- e2) * 2 ^ (e1 + e2 + scale)); [ring|].
    rewrite <- Z.pow_add_r by (unfold scale; lia). f_equal. lia. }
  pose proof (round_near (m1 * m2) d (e1 + e2) loc_Exact (c * scaled (Zpos m1) e1) 1 Hd) as (m & e & Hf & Hm & He & Herr);
    [lia|lia|lia|unfold scale; lia| |].
  { rewrite <- Hval. assert (0 < 2 ^ (e1 + e2 + scale)) by (apply Z.pow_pos_nonneg; unfold scale; lia). unfold scaled. lia. }
  exists m, e. split_and!; [exact Hf|lia|lia|lia|lia|done].
Qed.

(** Truncation. *)
Lemma to_int64_floor other m e : -1000 <= e <= 1000 -> scaled (Zpos m) e < 2 ^ 63 * 2 ^ scale ->
  let t := to_int64 other (S754_finite false m e) in 0 <= t /\ t * 2 ^ scale <= scaled (Zpos m) e < (t + 1) * 2 ^ scale.
Proof.
  intros He Hlt. assert (0 < 2 ^ scale) as Hs by (apply Z.pow_pos_nonneg; unfold scale; lia).
  assert (exists t, Z.shiftl (Zpos m) e = t /\ 0 <= t /\ t * 2 ^ scale <= scaled (Zpos m) e < (t + 1) * 2 ^ scale) as (t & Ht & Ht0 & Hb).
  { unfold scaled. destruct (Z.le_gt_cases 0 e).
    - exists (Zpos m * 2 ^ e). rewrite Z.shiftl_mul_pow2 by done. assert (0 < 2 ^ e) by (apply Z.pow_pos_nonneg; lia).
      rewrite Z.pow_add_r by (done || (unfold scale; lia)). split; [done|]. nia.
    - exists (Zpos m / 2 ^ (- e)). rewrite Z.shiftl_div_pow2 by lia. assert (0 < 2 ^ (- e)) as He2 by (apply Z.pow_pos_nonneg; lia).
      split; [done|]. split; [apply Z.div_pos; lia|]. replace (2 ^ scale) with (2 ^ (- e) * 2 ^ (e + scale)) by (rewrite <- Z.pow_add_r by (unfold scale; lia); f_equal; lia).
      assert (0 < 2 ^ (e + scale)) by (apply Z.pow_pos_nonneg; unfold scale; lia).
      pose proof (Z.div_mod (Zpos m) (2 ^ (- e))). pose proof (Z.mod_pos_bound (Zpos m) (2 ^ (- e))). nia. }
  cbn zeta. unfold to_int64. rewrite Ht. assert (t < 2 ^ 63) by nia. unfold two63.
  rewrite (proj2 (Z.leb_le _ _)), (proj2 (Z.ltb_lt _ _)) by lia. cbn [andb]. done.
Qed.

(** [int64(float64(a) / float64(b) * float64(c))] is [a * c / b] but for one and a
    relative error of at most [2 ^ -50]. *)
Lemma scaled_quotient_near other a b c : 0 < a < 2 ^ 53 -> 0 < b < 2 ^ 53 -> 0 < c < 2 ^ 53 -> a * c < 2 ^ 62 * b ->
  let t := to_int64 other (fmul (fdiv (of_int a) (of_int b)) (of_int c)) in
  0 <= t /\ 2 ^ 50 * Z.abs (t * b - a * c) <= 2 ^ 50 * b + a * c.
Proof.
  intros Ha Hb Hc Hbig. destruct (fdiv_near a b Ha Hb) as (m1 & e1 & -> & Hm1 & He1 & Herr1).
  destruct (fmul_near m1 e1 c Hm1 ltac:(lia) Hc) as (m2 & e2 & -> & Hm2 & He2 & Herr2). rewrite Z.mul_1_r in Herr2.
  assert (0 < 2 ^ scale) as Hs by (apply Z.pow_pos_nonneg; unfold scale; lia).
  set (S := 2 ^ scale) in *. set (F1 := scaled (Zpos m1) e1) in *.
  assert (0 <= F1) as HF1 by (apply Z.mul_nonneg_nonneg; [lia|apply Z.pow_nonneg; lia]).
  assert (scaled (Zpos m2) e2 < 2 ^ 63 * S) as Hlt.
  { apply (Z.mul_lt_mono_pos_r b); [lia|]. set (F2 := scaled (Zpos m2) e2) in *.
    assert (F2 * b * 2 ^ 52 <= c * (F1 * b) * (2 ^ 52 + 1)) by nia.
    assert (F1 * b * 2 ^ 52 <= a * S * (2 ^ 52 + 1)) by lia.
    assert (c * (F1 * b) * 2 ^ 52 <= (c * (a * S)) * (2 ^ 52 + 1)) by nia.
    assert (c * (a * S) < 2 ^ 62 * b * S) by (clear -Hbig Hs; nia). lia. }
  destruct (to_int64_floor other m2 e2 ltac:(lia) Hlt) as [Ht0 Ht]. cbn zeta in *.
  set (t := to_int64 other (S754_finite false m2 e2)) in *. set (F2 := scaled (Zpos m2) e2) in *. split; [done|].
  fold S in Ht.
  assert (Z.abs (F2 * b - c * (F1 * b)) * 2 ^ 52 <= c * (F1 * b)) as H2.
  { replace (F2 * b - c * (F1 * b)) with ((F2 - c * F1) * b) by ring. rewrite Z.abs_mul, (Z.abs_eq b) by lia. clear -Herr2 Hb. nia. }
  assert (Z.abs (c * (F1 * b) - c * (a * S)) * 2 ^ 52 <= c * (a * S)) as H1.
  { replace (c * (F1 * b) - c * (a * S)) with (c * (F1 * b - a * S)) by ring. rewrite Z.abs_mul, (Z.abs_eq c) by lia. clear -Herr1 Hc. nia. }
  assert (t * b * S <= F2 * b < t * b * S + b * S) as H3 by (clear -Ht Hb; nia).
  assert (2 ^ 50 * Z.abs (t * b * S - a * c * S) <= (2 ^ 50 * b + a * c) * S) as Hall.
  { replace (c * (a * S)) with (a * c * S) in H1 by ring.
    set (P := a * c * S) in *. set (Q := c * (F1 * b)) in *. set (R := F2 * b) in *. set (T := t * b * S) in *.
    replace ((2 ^ 50 * b + a * c) * S) with (2 ^ 50 * (b * S) + P) by (subst P; ring). set (B := b * S) in *.
    assert (0 <= P) by (subst P; nia). clear -H1 H2 H3 H. lia. }
  apply (Z.mul_le_mono_pos_r _ _ S); [done|]. rewrite <- Z.mul_assoc, <- (Z.abs_eq S) at 1 by lia. rewrite <- Z.abs_mul.
  replace ((t * b - a * c) * S) with (t * b * S - a * c * S) by ring. exact Hall.
Qed.
