(* ===== verification/Strconv.v ===== *)
(** * Numbers and durations in text

    [strconv.Atoi], [strconv.ParseUint], [time.ParseDuration], [strings.ToLower]
    and [strings.CutPrefix] of Go's standard library, as the configuration and the
    HTTP API use them.  A failed parse is [None]: every caller replaces the error. *)

From S2P Require Import Prelude Text Float.
From Stdlib Require Import SpecFloat.
Open Scope Z_scope.

(** A Go string as its bytes, and back. *)
Abbreviation to_bytes := String.list_byte_of_string.
Abbreviation of_bytes := String.string_of_list_byte.

Module Strconv.
Import Utf8.

(** ** Digits *)

Definition digit (b : Byte.byte) : option Z :=
  if (48 <=? b2z b) && (b2z b <=? 57) then Some (b2z b - 48) else None.

Fixpoint digits (acc : Z) (s : bytes) : option Z :=
  match s with
  | [] => Some acc
  | b :: s' => d ← digit b; digits (acc * 10 + d) s'
  end.

(** The magnitude of a decimal integer: at least one digit. *)
Definition magnitude (s : bytes) : option Z := match s with [] => None | _ => digits 0 s end.

(** [strconv.ParseUint(s, 10, bits)] *)
Definition ParseUint (bits : Z) (s : bytes) : option Z :=
  n ← magnitude s; if n <? 2 ^ bits then Some n else None.

(** [strconv.ParseInt(s, 10, bits)] *)
Definition ParseInt (bits : Z) (s : bytes) : option Z :=
  match s with
  | x2d :: s' => n ← magnitude s'; if n <=? 2 ^ (bits - 1) then Some (- n) else None
  | x2b :: s' => n ← magnitude s'; if n <? 2 ^ (bits - 1) then Some n else None
  | _ => n ← magnitude s; if n <? 2 ^ (bits - 1) then Some n else None
  end.

(** [strconv.Atoi]; [int] has 64 bits. *)
Definition Atoi (s : bytes) : option Z := ParseInt 64 s.

(** ** Strings *)

(** [unicode.ToLower].  Of the runes beyond ASCII only the two whose lower case is
    an ASCII letter are mapped: results are only compared with ASCII strings. *)
Definition lower (r : Z) : Z :=
  if (65 <=? r) && (r <=? 90) then r + 32
  else if r =? 0x130 then 105 else if r =? 0x212A then 107 else r.

(** [strings.ToLower] *)
Definition ToLower (s : bytes) : bytes := encode (lower <$> runes s).

(** [strings.CutPrefix] *)
Fixpoint CutPrefix (s prefix : bytes) : option bytes :=
  match prefix, s with
  | [], _ => Some s
  | p :: ps, b :: s' => if bool_decide (b = p) then CutPrefix s' ps else None
  | _ :: _, [] => None
  end.

(** [strings.TrimRight(s, "/")] *)
Definition trim_slashes (s : bytes) : bytes :=
  reverse ((fix go (s : bytes) := match s with x2f :: s' => go s' | _ => s end) (reverse s)).

(** [url.QueryEscape]: letters, digits and [-_.~] stay, a space becomes a plus sign,
    any other byte its two hexadecimal digits. *)
Definition unreserved (z : Z) : bool :=
  ((48 <=? z) && (z <=? 57)) || ((65 <=? z) && (z <=? 90)) || ((97 <=? z) && (z <=? 122))
  || existsb (Z.eqb z) [45; 95; 46; 126].
Definition upper_hex (n : Z) : Byte.byte := z2b (if n <? 10 then 48 + n else 55 + n).
Definition escape_byte (b : Byte.byte) : bytes :=
  if unreserved (b2z b) then [b] else if b2z b =? 32 then [x2b]
  else [x25; upper_hex (b2z b / 16); upper_hex (b2z b mod 16)].
Definition QueryEscape (s : bytes) : bytes := concat (escape_byte <$> s).

(** ** Durations *)

(** [leadingInt]: the digits at the front; [None] on overflow. *)
Fixpoint leadingInt (x : Z) (s : bytes) : option (Z * bytes) :=
  match s with
  | [] => Some (x, [])
  | b :: s' =>
      match digit b with
      | None => Some (x, s)
      | Some d =>
          if two63 / 10 <? x then None else
          let x := x * 10 + d in
          if two63 <? x then None else leadingInt x s'
      end
  end.

(** [leadingFraction]: the digits after the point, as an integer and the power of
    ten it is to be divided by; digits that do not fit are dropped. *)
Fixpoint leadingFraction (x : Z) (scale : float64) (overflow : bool) (s : bytes) : Z * float64 * bytes :=
  match s with
  | [] => (x, scale, [])
  | b :: s' =>
      match digit b with
      | None => (x, scale, s)
      | Some d =>
          if overflow then leadingFraction x scale true s' else
          if (two63 - 1) / 10 <? x then leadingFraction x scale true s' else
          let y := x * 10 + d in
          if two63 <? y then leadingFraction x scale true s' else
          leadingFraction y (fmul scale (of_int 10)) false s'
      end
  end.

(** [unitMap] *)
Definition unitMap (u : bytes) : option Z :=
  if bool_decide (u = to_bytes "ns") then Some 1
  else if bool_decide (u = to_bytes "us") then Some 1000
  else if bool_decide (u = [xc2; xb5; x73]) then Some 1000
  else if bool_decide (u = [xce; xbc; x73]) then Some 1000
  else if bool_decide (u = to_bytes "ms") then Some 1000000
  else if bool_decide (u = to_bytes "s") then Some 1000000000
  else if bool_decide (u = to_bytes "m") then Some 60000000000
  else if bool_decide (u = to_bytes "h") then Some 3600000000000
  else None.

Definition starts_number (b : Byte.byte) : bool := bool_decide (b = x2e) || bool_decide (is_Some (digit b)).

(** The unit: everything up to the next digit or point. *)
Fixpoint takeUnit (s : bytes) : bytes * bytes :=
  match s with
  | [] => ([], [])
  | b :: s' => if starts_number b then ([], s) else let '(u, rest) := takeUnit s' in (b :: u, rest)
  end.

(** One number with its unit, on [uint64]; the fraction is computed in [float64]. *)
Definition durationTerm (s : bytes) : option (Z * bytes) :=
  match s with
  | [] => None
  | b :: _ =>
      if negb (starts_number b) then None else
      '(v, s1) ← leadingInt 0 s;
      let pre := negb (length s1 =? length s)%nat in
      let '(f, scale, s2, post) :=
        match s1 with
        | x2e :: s1' =>
            let '(f, scale, s2) := leadingFraction 0 (of_int 1) false s1' in
            (f, scale, s2, negb (length s2 =? length s1')%nat)
        | _ => (0, of_int 1, s1, false)
        end in
      if negb pre && negb post then None else
      let '(u, rest) := takeUnit s2 in
      unit ← unitMap u;
      if two63 / unit <? v then None else
      let v := v * unit in
      let v := if 0 <? f then u64 (v + to_int64 0 (fmul (of_int f) (fdiv (of_int unit) scale))) else v in
      if two63 <? v then None else Some (v, rest)
  end.

(** The loop of [ParseDuration]; a term consumes at least one byte. *)
Fixpoint durationTerms (fuel : nat) (d : Z) (s : bytes) : option Z :=
  match s, fuel with
  | [], _ => Some d
  | _, O => None
  | _, S fuel =>
      '(v, rest) ← durationTerm s;
      let d := u64 (d + v) in
      if two63 <? d then None else durationTerms fuel d rest
  end.

(** [time.ParseDuration] *)
Definition ParseDuration (s : bytes) : option Z :=
  let '(neg, s) := match s with x2d :: s' => (true, s') | x2b :: s' => (false, s') | _ => (false, s) end in
  if bool_decide (s = to_bytes "0") then Some 0 else
  match s with
  | [] => None
  | _ =>
      d ← durationTerms (length s) 0 s;
      if neg then Some (i64 (- d)) else if two63 - 1 <? d then None else Some d
  end.

Example duration_mixed : ParseDuration (to_bytes "1h1.5m30s250ms") = Some 3720250000000.
Proof. vm_compute. reflexivity. Qed.
Example duration_forms : (fun s => ParseDuration (to_bytes s)) <$> ["30s"; ".5h"; "-1us"; "0"; "5"; ".s"; "1d"; "9223372036854775808ns"]%string
  = [Some 30000000000; Some 1800000000000; Some (-1000); Some 0; None; None; None; None].
Proof. vm_compute. reflexivity. Qed.

(** ** Lemmas *)

Lemma to_bytes_cons c s : to_bytes (String c s) = Ascii.byte_of_ascii c :: to_bytes s.
Proof. done. Qed.

Lemma digit_pretty (n : N) : (n < 10)%N -> digit (Ascii.byte_of_ascii (pretty_N_char n)) = Some (Z.of_N n).
Proof.
  intros Hn. assert (exists i, (i < 10)%nat /\ n = N.of_nat i) as (i & Hi & ->) by (exists (N.to_nat n); lia).
  do 10 (destruct i as [|i]; [reflexivity|]). lia.
Qed.

Lemma digits_pretty_go n s : digits 0 (to_bytes (pretty_N_go n s)) = digits (Z.of_N n) (to_bytes s).
Proof.
  revert s. induction (N.lt_wf_0 n) as [n _ IH]; intros s.
  destruct (decide (n = 0)%N) as [->|]; [done|].
  rewrite pretty_N_go_step by lia. rewrite IH by (apply N.div_lt; lia).
  rewrite to_bytes_cons. cbn [digits]. rewrite digit_pretty by (apply N.mod_lt; done). cbn [mbind option_bind].
  f_equal. pose proof (N.div_mod n 10). lia.
Qed.

Lemma CutPrefix_Some s p r : CutPrefix s p = Some r <-> s = p ++ r.
Proof.
  revert s. induction p as [|b p IH]; intros s; [destruct s; simpl; naive_solver|].
  destruct s as [|c s]; [done|]. cbn [CutPrefix]. case_bool_decide as Hb; [|naive_solver].
  subst c. rewrite IH. simpl. naive_solver.
Qed.

(** What [strconv.Itoa] prints is read back. *)
Lemma magnitude_pretty (n : N) : magnitude (to_bytes (pretty n)) = Some (Z.of_N n).
Proof.
  unfold pretty, pretty_N. case_decide as Hn; [by subst|].
  assert (to_bytes (pretty_N_go n "") <> []) as Hne.
  { rewrite pretty_N_go_step by lia.
    assert (forall m s, s <> ""%string -> to_bytes (pretty_N_go m s) <> []) as Hgo; [|by apply Hgo].
    clear. intros m. induction (N.lt_wf_0 m) as [m _ IH]; intros s Hs.
    destruct (decide (m = 0)%N) as [->|]; [by destruct s|].
    rewrite pretty_N_go_step by lia. apply IH; [apply N.div_lt; lia|done]. }
  unfold magnitude. destruct (to_bytes (pretty_N_go n "")) eqn:Heq; [done|]. rewrite <- Heq. apply digits_pretty_go.
Qed.

Lemma digits_bytes acc s n : digits acc s = Some n -> Forall (fun b => 48 <= b2z b <= 57) s.
Proof.
  revert acc. induction s as [|b s IH]; intros acc; [constructor|]. simpl. unfold digit.
  destruct ((48 <=? b2z b) && (b2z b <=? 57)) eqn:Hb; [|done]. intros Hd. simpl in Hd. constructor; [|by eapply IH].
  bool_to_prop. lia.
Qed.

Lemma pretty_ascii (z : Z) : Forall (fun b => b2z b < 128) (to_bytes (pretty z)).
Proof.
  assert (forall n : N, Forall (fun b => b2z b < 128) (to_bytes (pretty n))) as Hn.
  { intros n. pose proof (magnitude_pretty n) as Hm. unfold magnitude in Hm. destruct (to_bytes (pretty n)) as [|b s]; [done|].
    eapply Forall_impl; [by eapply digits_bytes|]. simpl. lia. }
  destruct z as [|p|p]; [repeat constructor|exact (Hn (Npos p))|].
  change (pretty (Zneg p)) with (String (Ascii.ascii_of_nat 45) (pretty (Npos p))). rewrite to_bytes_cons. constructor; [by vm_compute|apply Hn].
Qed.

Lemma magnitude_sign (b : Byte.byte) s n : magnitude (b :: s) = Some n -> b <> x2d /\ b <> x2b.
Proof.
  intros Hm. split; intros ->; cbn [magnitude digits] in Hm;
    [change (digit x2d) with (@None Z) in Hm|change (digit x2b) with (@None Z) in Hm]; done.
Qed.

Lemma ParseInt_unsigned bits s n : magnitude s = Some n -> n < 2 ^ (bits - 1) -> ParseInt bits s = Some n.
Proof.
  intros Hm Hn. destruct s as [|b s]; [done|]. destruct (magnitude_sign b s n Hm) as [H1 H2].
  unfold ParseInt. rewrite Hm. cbn [mbind option_bind]. rewrite (proj2 (Z.ltb_lt _ _) Hn). by destruct b.
Qed.

Lemma pretty_nonneg (z : Z) : 0 <= z -> pretty z = pretty (Z.to_N z).
Proof. intros Hz. by destruct z; [..|lia]. Qed.

Lemma ParseUint_pretty bits (z : Z) : 0 <= z < 2 ^ bits -> ParseUint bits (to_bytes (pretty z)) = Some z.
Proof.
  intros Hz. rewrite pretty_nonneg by lia. unfold ParseUint. rewrite magnitude_pretty. cbn [mbind option_bind].
  rewrite Z2N.id by lia. by rewrite (proj2 (Z.ltb_lt _ _)) by lia.
Qed.

Lemma ParseInt_pretty bits (z : Z) : - 2 ^ (bits - 1) <= z < 2 ^ (bits - 1) -> ParseInt bits (to_bytes (pretty z)) = Some z.
Proof.
  intros Hz. destruct (Z.lt_ge_cases z 0) as [Hneg|Hpos].
  - destruct z as [|p|p]; try lia. change (to_bytes (pretty (Z.neg p))) with (x2d :: to_bytes (pretty (Npos p))).
    unfold ParseInt. rewrite magnitude_pretty. cbn [mbind option_bind].
    rewrite (proj2 (Z.leb_le _ _)) by (simpl; lia). done.
  - rewrite pretty_nonneg by lia. apply ParseInt_unsigned; [rewrite magnitude_pretty; f_equal; lia|lia].
Qed.

Lemma Atoi_pretty (n : Z) : 0 <= n < two63 -> Atoi (to_bytes (pretty n)) = Some n.
Proof.
  intros Hn. apply ParseInt_pretty. change (2 ^ (64 - 1)) with two63. lia.
Qed.

Lemma digits_range acc s n : 0 <= acc -> digits acc s = Some n -> 0 <= n.
Proof.
  revert acc. induction s as [|b s IH]; intros acc Ha Hd; [by simplify_eq/=|].
  cbn [digits] in Hd. unfold digit in Hd. destruct ((48 <=? b2z b) && (b2z b <=? 57)) eqn:Hb; [|done].
  cbn [mbind option_bind] in Hd. apply (IH _) in Hd; [done|]. bool_to_prop. lia.
Qed.

Lemma magnitude_range s n : magnitude s = Some n -> 0 <= n.
Proof. destruct s; [done|]. by apply digits_range. Qed.

Lemma ParseUint_range bits s n : ParseUint bits s = Some n -> 0 <= n < 2 ^ bits.
Proof.
  unfold ParseUint. intros (m & Hm & Hn)%bind_Some. apply magnitude_range in Hm.
  destruct (Z.ltb_spec m (2 ^ bits)); by simplify_eq.
Qed.

Lemma ParseInt_range bits s n : ParseInt bits s = Some n -> - 2 ^ (bits - 1) <= n < 2 ^ (bits - 1) \/ 2 ^ (bits - 1) <= 0.
Proof.
  assert (forall s, (m ← magnitude s; if m <? 2 ^ (bits - 1) then Some m else None) = Some n ->
    - 2 ^ (bits - 1) <= n < 2 ^ (bits - 1) \/ 2 ^ (bits - 1) <= 0) as Hpos.
  { intros t (m & Hm & Hn)%bind_Some. apply magnitude_range in Hm.
    destruct (Z.ltb_spec m (2 ^ (bits - 1))); simplify_eq. lia. }
  intros Hp. unfold ParseInt in Hp. destruct s as [|b s]; [done|].
  destruct (decide (b = x2d)) as [->|]; [|by destruct b; first [done|apply Hpos in Hp]].
  apply bind_Some in Hp as (m & Hm & Hn). apply magnitude_range in Hm.
  destruct (Z.leb_spec m (2 ^ (bits - 1))); simplify_eq. lia.
Qed.

Lemma Atoi_range s n : Atoi s = Some n -> is_i64 n.
Proof. intros [Hr|Hr]%ParseInt_range; [exact Hr|done]. Qed.

(** *** The fuel of [ParseDuration] is enough *)

Lemma leadingInt_shorter x s y r : leadingInt x s = Some (y, r) -> (length r <= length s)%nat.
Proof.
  revert x. induction s as [|b s IH]; intros x Hl; [by simplify_eq/=|]. cbn [leadingInt] in Hl.
  destruct (digit b); [|by simplify_eq]. repeat case_match; try done. apply IH in Hl. simpl. lia.
Qed.

Lemma leadingFraction_shorter x sc o s : (length (leadingFraction x sc o s).2 <= length s)%nat.
Proof.
  revert x sc o. induction s as [|b s IH]; intros x sc o; [done|]. cbn [leadingFraction].
  destruct (digit b); [|done]. repeat case_if; etrans; try apply IH; simpl; lia.
Qed.

Lemma takeUnit_shorter s u r : takeUnit s = (u, r) -> (length u + length r = length s)%nat.
Proof.
  revert u r. induction s as [|b s IH]; intros u r Ht; [by simplify_eq/=|]. cbn [takeUnit] in Ht.
  case_if in Ht; [by simplify_eq|]. destruct (takeUnit s) as [u' r'] eqn:Hs. simplify_eq. simpl. by rewrite <- (IH u' r).
Qed.

Lemma durationTerm_shorter s v r : durationTerm s = Some (v, r) -> (length r < length s)%nat.
Proof.
  unfold durationTerm. destruct s as [|b s]; [done|]. case_if; [done|].
  intros ([w s1] & Hl & Hrest)%bind_Some. apply leadingInt_shorter in Hl.
  set (q := match s1 with x2e :: s1' => _ | _ => _ end) in Hrest.
  assert (length q.1.2 <= length s1)%nat as Hq.
  { subst q. destruct s1 as [|c s1]; [done|]. destruct (decide (c = x2e)) as [->|]; [|by destruct c].
    pose proof (leadingFraction_shorter 0 (of_int 1) false s1) as Hf.
    destruct (leadingFraction 0 (of_int 1) false s1) as [[f sc] s2]. simpl in *. lia. }
  destruct q as [[[f sc] s2] post]. simpl in Hq. case_if in Hrest; [done|].
  destruct (takeUnit s2) as [u rest] eqn:Hu. apply takeUnit_shorter in Hu.
  apply bind_Some in Hrest as (unit & Hunit & Hrest). assert (u <> []) as Hne by (by intros ->).
  repeat case_if in Hrest; simplify_eq; (destruct u; [done|]); simpl in *; lia.
Qed.

Lemma durationTerms_fuel fuel d s : (length s <= fuel)%nat -> durationTerms fuel d s = durationTerms (length s) d s.
Proof.
  remember (length s) as n eqn:Hn. revert s d fuel Hn.
  induction (lt_wf n) as [n _ IH]; intros s d fuel -> Hf.
  destruct s as [|b s]; [by destruct fuel|]. destruct fuel as [|fuel]; [simpl in Hf; lia|].
  cbn [durationTerms length]. destruct (durationTerm (b :: s)) as [[v r]|] eqn:Ht; [|done]. cbn [mbind option_bind].
  apply durationTerm_shorter in Ht. simpl in Ht, Hf. case_if; [done|].
  rewrite (IH (length r)) by (simpl; lia || done).
  symmetry. apply IH; simpl; try lia; done.
Qed.

Lemma ParseDuration_range s d : ParseDuration s = Some d -> is_i64 d.
Proof.
  assert (forall fuel acc s d, 0 <= acc <= two63 -> durationTerms fuel acc s = Some d -> 0 <= d <= two63) as Hterms.
  { clear. intros fuel. induction fuel as [|fuel IH]; intros acc s d Ha Ht; destruct s as [|b s]; try by simplify_eq/=.
    cbn [durationTerms] in Ht. apply bind_Some in Ht as ([v r] & _ & Ht).
    destruct (Z.ltb_spec two63 (u64 (acc + v))); [done|]. apply (IH _ _ _) in Ht; [done|].
    pose proof (u64_range (acc + v)) as [? ?]. lia. }
  unfold ParseDuration. set (q := match s with x2d :: s' => _ | x2b :: s' => _ | _ => _ end). destruct q as [neg s'].
  case_if; [intros [= <-]; by split|]. destruct s' as [|b s']; [done|].
  intros (d' & Ht & Hd)%bind_Some. apply Hterms in Ht; [|by unfold two63].
  destruct neg; [simplify_eq|case_if in Hd; [done|]; simplify_eq; bool_to_prop; unfold is_i64; lia].
  unfold is_i64, i64. pose proof (Z.mod_pos_bound (- d' + two63) two64 eq_refl). unfold two63, two64 in *. lia.
Qed.

End Strconv.
