(* ===== verification/Json.v ===== *)
(** * JSON (encoding/json of Go's standard library)

    The values, the parser, the printer and the typed decoding that the HTTP API,
    the event streams, the clients and the notifier use.  [Unmarshal] takes a whole
    text, [Decode] the first value of a stream.  A parse or type error is [None]:
    every caller only tests for it.

    A string is the list of its bytes.  As in Go, invalid UTF-8 and unpaired
    surrogates become U+FFFD, so a decoded string is always valid. *)

From S2P Require Import Prelude Text Strconv.
Open Scope Z_scope.

Inductive json :=
  | JNull
  | JBool (b : bool)
  | JNum (lit : bytes)
  | JStr (s : bytes)
  | JArr (js : list json)
  | JObj (ms : list (bytes * json)).

Module Json.
Import Utf8 Strconv.

(** ** Scanning *)

Definition is_space (b : Byte.byte) : bool :=
  match b with x20 | x09 | x0a | x0d => true | _ => false end.

Fixpoint skip_ws (s : bytes) : bytes :=
  match s with b :: s' => if is_space b then skip_ws s' else s | [] => [] end.

(** The digits at the front. *)
Fixpoint span_digits (s : bytes) : bytes * bytes :=
  match s with
  | [] => ([], [])
  | b :: s' =>
      match digit b with
      | Some _ => let '(d, r) := span_digits s' in (b :: d, r)
      | None => ([], s)
      end
  end.

(** At least one digit. *)
Definition digits1 (s : bytes) : option (bytes * bytes) :=
  match span_digits s with ([], _) => None | p => Some p end.

Definition minus_part (s : bytes) : bytes * bytes :=
  match s with x2d :: s' => ([x2d], s') | _ => ([], s) end.

Definition int_part (s : bytes) : option (bytes * bytes) :=
  match s with x30 :: s' => Some ([x30], s') | _ => digits1 s end.

Definition frac_part (s : bytes) : option (bytes * bytes) :=
  match s with
  | x2e :: s' => '(d, r) ← digits1 s'; Some (x2e :: d, r)
  | _ => Some ([], s)
  end.

Definition sign_part (s : bytes) : bytes * bytes :=
  match s with x2b :: s' => ([x2b], s') | x2d :: s' => ([x2d], s') | _ => ([], s) end.

Definition exp_part (s : bytes) : option (bytes * bytes) :=
  match s with
  | x65 :: s' => let '(g, s1) := sign_part s' in '(d, r) ← digits1 s1; Some (x65 :: g ++ d, r)
  | x45 :: s' => let '(g, s1) := sign_part s' in '(d, r) ← digits1 s1; Some (x45 :: g ++ d, r)
  | _ => Some ([], s)
  end.

(** A number literal; as the scanner does, it commits to a part it has begun. *)
Definition number (s : bytes) : option (bytes * bytes) :=
  let '(m, s0) := minus_part s in
  '(i, s1) ← int_part s0;
  '(f, s2) ← frac_part s1;
  '(e, s3) ← exp_part s2;
  Some (m ++ i ++ f ++ e, s3).

Definition hex_val (b : Byte.byte) : option Z :=
  let z := b2z b in
  if (48 <=? z) && (z <=? 57) then Some (z - 48)
  else if (97 <=? z) && (z <=? 102) then Some (z - 87)
  else if (65 <=? z) && (z <=? 70) then Some (z - 55)
  else None.

Definition hex4 (a b c d : Byte.byte) : option Z :=
  a ← hex_val a; b ← hex_val b; c ← hex_val c; d ← hex_val d;
  Some (a * 4096 + b * 256 + c * 16 + d).

(** The character of a one-letter escape. *)
Definition escape (c : Byte.byte) : option Byte.byte :=
  match c with
  | x22 => Some x22 | x5c => Some x5c | x2f => Some x2f
  | x62 => Some x08 | x66 => Some x0c | x6e => Some x0a | x72 => Some x0d | x74 => Some x09
  | _ => None
  end.

(** The contents of a string literal, still escaped, up to its closing quote. *)
Fixpoint scan_string (s : bytes) : option (bytes * bytes) :=
  match s with
  | [] => None
  | b :: r =>
      if bool_decide (b = x22) then Some ([], r)
      else if b2z b <? 0x20 then None
      else if bool_decide (b = x5c) then
        match r with
        | [] => None
        | c :: r1 =>
            if bool_decide (c = x75) then
              match r1 with
              | h1 :: h2 :: h3 :: h4 :: r2 =>
                  _ ← hex4 h1 h2 h3 h4;
                  '(raw, rest) ← scan_string r2; Some (b :: c :: h1 :: h2 :: h3 :: h4 :: raw, rest)
              | _ => None
              end
            else
              _ ← escape c; '(raw, rest) ← scan_string r1; Some (b :: c :: raw, rest)
        end
      else '(raw, rest) ← scan_string r; Some (b :: raw, rest)
  end.

Definition is_surrogate (r : Z) : bool := (0xD800 <=? r) && (r <=? 0xDFFF).

(** [utf16.DecodeRune] *)
Definition utf16_pair (hi lo : Z) : option Z :=
  if (0xD800 <=? hi) && (hi <=? 0xDBFF) && (0xDC00 <=? lo) && (lo <=? 0xDFFF)
  then Some ((hi - 0xD800) * 1024 + (lo - 0xDC00) + 0x10000) else None.

(** The code unit of an escape [\uXXXX] at the front. *)
Definition u_escape (s : bytes) : option (Z * bytes) :=
  match s with
  | b :: c :: h1 :: h2 :: h3 :: h4 :: r =>
      if bool_decide (b = x5c) && bool_decide (c = x75) then u ← hex4 h1 h2 h3 h4; Some (u, r) else None
  | _ => None
  end.

(** The first rune of the contents of a literal. *)
Definition unquote_rune (s : bytes) : Z * bytes :=
  match u_escape s with
  | Some (u, r) =>
      if is_surrogate u then
        match '(lo, r') ← u_escape r; p ← utf16_pair u lo; Some (p, r') with
        | Some (p, r') => (p, r')
        | None => (RuneError, r)
        end
      else (u, r)
  | None =>
      let '(r, w) := decode_rune s in
      match drop w s with
      | c :: rest => if r =? 0x5C then (default RuneError (b2z <$> escape c), rest) else (r, c :: rest)
      | [] => (r, [])
      end
  end.

Fixpoint unquote_fuel (fuel : nat) (s : bytes) : bytes :=
  match fuel, s with
  | S fuel, _ :: _ => let '(r, rest) := unquote_rune s in encode_rune r ++ unquote_fuel fuel rest
  | _, _ => []
  end.

(** [unquote]; every rune consumes at least one byte. *)
Definition unquote (s : bytes) : bytes := unquote_fuel (length s) s.

Definition string_lit (s : bytes) : option (bytes * bytes) :=
  '(raw, rest) ← scan_string s; Some (unquote raw, rest).

(** ** Values *)

Definition maxNestingDepth : Z := 10000.

(** What the first byte of a value announces. *)
Inductive token :=
  | TStr (r : bytes)
  | TObj (r : bytes)
  | TArr (r : bytes)
  | TLit (j : json) (r : bytes)
  | TNum (s : bytes).

Definition token_of (s : bytes) : token :=
  match s with
  | x22 :: r => TStr r
  | x7b :: r => TObj r
  | x5b :: r => TArr r
  | _ =>
      match CutPrefix s (to_bytes "null"), CutPrefix s (to_bytes "true"), CutPrefix s (to_bytes "false") with
      | Some r, _, _ => TLit JNull r
      | _, Some r, _ => TLit (JBool true) r
      | _, _, Some r => TLit (JBool false) r
      | _, _, _ => TNum s
      end
  end.

(** What follows the byte [b], when that is next. *)
Definition next (b : Byte.byte) (s : bytes) : option bytes :=
  match skip_ws s with c :: r => if bool_decide (c = b) then Some r else None | [] => None end.

(** A value at the front, inside [depth] arrays and objects. *)
Fixpoint value (fuel : nat) (depth : Z) (s : bytes) {struct fuel} : option (json * bytes) :=
  match fuel with
  | O => None
  | S fuel =>
      match token_of (skip_ws s) with
      | TStr r => '(str, rest) ← string_lit r; Some (JStr str, rest)
      | TObj r =>
          if maxNestingDepth <=? depth then None else
          match next x7d r with
          | Some rest => Some (JObj [], rest)
          | None => '(ms, rest) ← members fuel (depth + 1) r; Some (JObj ms, rest)
          end
      | TArr r =>
          if maxNestingDepth <=? depth then None else
          match next x5d r with
          | Some rest => Some (JArr [], rest)
          | None => '(js, rest) ← elements fuel (depth + 1) r; Some (JArr js, rest)
          end
      | TLit j rest => Some (j, rest)
      | TNum s' => '(lit, rest) ← number s'; Some (JNum lit, rest)
      end
  end
with elements (fuel : nat) (depth : Z) (s : bytes) {struct fuel} : option (list json * bytes) :=
  match fuel with
  | O => None
  | S fuel =>
      '(j, r) ← value fuel depth s;
      match next x2c r with
      | Some r' => '(js, rest) ← elements fuel depth r'; Some (j :: js, rest)
      | None => rest ← next x5d r; Some ([j], rest)
      end
  end
with members (fuel : nat) (depth : Z) (s : bytes) {struct fuel} : option (list (bytes * json) * bytes) :=
  match fuel with
  | O => None
  | S fuel =>
      r ← next x22 s;
      '(k, r1) ← string_lit r;
      r2 ← next x3a r1;
      '(j, r3) ← value fuel depth r2;
      match next x2c r3 with
      | Some r4 => '(ms, rest) ← members fuel depth r4; Some ((k, j) :: ms, rest)
      | None => rest ← next x7d r3; Some ([(k, j)], rest)
      end
  end.

(** A value and what follows it; [parse_fuel] shows that the fuel is enough. *)
Definition parse (s : bytes) : option (json * bytes) := value (2 * length s + 1) 0 s.

(** The syntax check and the value of [json.Unmarshal] (and [json.Valid]). *)
Definition Unmarshal (s : bytes) : option json :=
  '(j, rest) ← parse s; match skip_ws rest with [] => Some j | _ => None end.

Definition Valid (s : bytes) : bool := bool_decide (is_Some (Unmarshal s)).

(** An array or an object ends with its last byte; anything else ends before the
    next byte, or at the end of the stream. *)
Definition self_delimited (j : json) : bool := match j with JArr _ | JObj _ => true | _ => false end.

(** [json.NewDecoder(r).Decode]: the first value of a stream, whatever follows it.
    [clean] says whether the stream ends with [io.EOF] or with another error. *)
Definition Decode (s : bytes) (clean : bool) : option json :=
  '(j, rest) ← parse s;
  match rest with
  | [] => if clean || self_delimited j then Some j else None
  | _ => Some j
  end.

(** ** Printing *)

Definition hex_byte (n : Z) : Byte.byte := z2b (if n <? 10 then 48 + n else 87 + n).

Definition u_print (r : Z) : bytes :=
  [x5c; x75; hex_byte (r / 4096); hex_byte (r / 256 mod 16); hex_byte (r / 16 mod 16); hex_byte (r mod 16)].

(** A byte that needs no escape, with [escapeHTML]. *)
Definition html_safe (r : Z) : bool := (0x20 <=? r) && negb (existsb (Z.eqb r) [0x22; 0x5C; 0x3C; 0x3E; 0x26]).

(** One rune inside a literal; [bad] marks a byte that is not UTF-8. *)
Definition quote_rune (r : Z) (bad : bool) : bytes :=
  if bad then to_bytes "\ufffd"
  else if r <? 0x80 then
    if html_safe r then [z2b r]
    else if r =? 0x22 then [x5c; x22] else if r =? 0x5C then [x5c; x5c]
    else if r =? 0x08 then [x5c; x62] else if r =? 0x0C then [x5c; x66]
    else if r =? 0x0A then [x5c; x6e] else if r =? 0x0D then [x5c; x72]
    else if r =? 0x09 then [x5c; x74]
    else u_print r
  else if (r =? 0x2028) || (r =? 0x2029) then u_print r
  else encode_rune r.

Fixpoint quote_fuel (fuel : nat) (s : bytes) : bytes :=
  match fuel, s with
  | S fuel, _ :: _ =>
      let '(r, w) := decode_rune s in
      quote_rune r ((r =? RuneError) && (w =? 1)%nat) ++ quote_fuel fuel (drop w s)
  | _, _ => []
  end.

(** [appendString(s, escapeHTML)] *)
Definition quote (s : bytes) : bytes := x22 :: quote_fuel (length s) s ++ [x22].

Definition sep (first : bool) : bytes := if first then [] else [x2c].

(** What [json.Marshal] writes for a value that holds this tree. *)
Fixpoint print (j : json) : bytes :=
  match j with
  | JNull => to_bytes "null"
  | JBool b => to_bytes (if b then "true" else "false")%string
  | JNum lit => lit
  | JStr s => quote s
  | JArr js =>
      x5b :: (fix go (first : bool) (js : list json) : bytes :=
                match js with [] => [x5d] | j :: js' => sep first ++ print j ++ go false js' end) true js
  | JObj ms =>
      x7b :: (fix go (first : bool) (ms : list (bytes * json)) : bytes :=
                match ms with
                | [] => [x7d]
                | (k, j) :: ms' => sep first ++ quote k ++ x3a :: print j ++ go false ms'
                end) true ms
  end.

(** ** Indentation *)

(** Where a byte stands: outside of a string literal, in one, or after a backslash. *)
Inductive quoting := Outside | Inside | Escaped.

Definition after_quoted (c : Byte.byte) : quoting :=
  if bool_decide (c = x22) then Outside else if bool_decide (c = x5c) then Escaped else Inside.

(** [appendNewline] *)
Definition newline (prefix indent : bytes) (depth : nat) : bytes := x0a :: prefix ++ concat (replicate depth indent).

(** The loop of [appendIndent], on a valid text: [need] is [needIndent]. *)
Fixpoint indent_bytes (prefix indent : bytes) (q : quoting) (need : bool) (depth : nat) (s : bytes) : bytes :=
  match s with
  | [] => []
  | c :: s' =>
      match q with
      | Inside => c :: indent_bytes prefix indent (after_quoted c) need depth s'
      | Escaped => c :: indent_bytes prefix indent Inside need depth s'
      | Outside =>
          if is_space c then indent_bytes prefix indent Outside need depth s' else
          let closes := bool_decide (c = x7d) || bool_decide (c = x5d) in
          let opens := need && negb closes in
          let need := if opens then false else need in
          let depth := if opens then S depth else depth in
          (if opens then newline prefix indent depth else []) ++
          match c with
          | x7b | x5b => c :: indent_bytes prefix indent Outside true depth s'
          | x2c => c :: newline prefix indent depth ++ indent_bytes prefix indent Outside need depth s'
          | x3a => c :: x20 :: indent_bytes prefix indent Outside need depth s'
          | x7d | x5d =>
              if need then c :: indent_bytes prefix indent Outside false depth s'
              else newline prefix indent (pred depth) ++ c :: indent_bytes prefix indent Outside need (pred depth) s'
          | x22 => c :: indent_bytes prefix indent Inside need depth s'
          | _ => c :: indent_bytes prefix indent Outside need depth s'
          end
      end
  end.

(** [json.Indent]: an invalid text is an error. *)
Definition Indent (prefix indent s : bytes) : option bytes :=
  if Valid s then Some (indent_bytes prefix indent Outside false 0 s) else None.

(** ** Typed decoding

    A decoder takes the value already in place, as Go decodes into a variable:
    null leaves it, a member of an object replaces its field. *)

Definition dec (A : Type) : Type := json -> A -> option A.

Definition decString : dec string := fun j v =>
  match j with JNull => Some v | JStr s => Some (of_bytes s) | _ => None end.

Definition decInt (bits : Z) : dec Z := fun j v =>
  match j with JNull => Some v | JNum lit => ParseInt bits lit | _ => None end.

Definition decUint (bits : Z) : dec Z := fun j v =>
  match j with JNull => Some v | JNum lit => ParseUint bits lit | _ => None end.

(** A pointer: null sets it to nil, anything else decodes into what it points to,
    a new zero value when it is nil. *)
Definition decPtr {A} (zero : A) (d : dec A) : dec (option A) := fun j v =>
  match j with JNull => Some None | _ => Some <$> d j (default zero v) end.

(** A slice: null sets it to nil, an array replaces it. *)
Definition decSlice {A} (zero : A) (d : dec A) : dec (list A) := fun j v =>
  match j with
  | JNull => Some []
  | JArr js => mapM (fun j => d j zero) js
  | _ => None
  end.

(** [foldName], on the runes that fold to an ASCII character: field names are ASCII. *)
Definition fold_rune (r : Z) : Z :=
  if (97 <=? r) && (r <=? 122) then r - 32 else if r =? 0x17F then 83 else if r =? 0x212A then 75 else r.
Definition foldName (s : bytes) : list Z := fold_rune <$> runes s.

(** The fields of a struct: the JSON name of each and how a value is put into it. *)
Definition fields (A : Type) : Type := list (string * (json -> A -> option A)).

(** The field a member is for; a name that matches none is skipped. *)
Definition field {A} (fs : fields A) (k : bytes) : json -> A -> option A :=
  match List.find (fun f => bool_decide (foldName (to_bytes f.1) = foldName k)) fs with
  | Some f => f.2
  | None => fun _ v => Some v
  end.

Fixpoint decMembers {A} (fs : fields A) (ms : list (bytes * json)) (v : A) : option A :=
  match ms with [] => Some v | (k, j) :: ms' => v' ← field fs k j v; decMembers fs ms' v' end.

Definition decStruct {A} (fs : fields A) : dec A := fun j v =>
  match j with JNull => Some v | JObj ms => decMembers fs ms v | _ => None end.

(** [json.Unmarshal(s, &v)] *)
Definition UnmarshalInto {A} (d : dec A) (s : bytes) (v : A) : option A := j ← Unmarshal s; d j v.

(** [any]: what an interface holds; a number must fit a [float64]. *)

(** The exponent a literal ends with, and its significant digits without the point,
    as [m * 10 ^ e]. *)
Definition decimal (lit : bytes) : Z * Z :=
  let '(_, s0) := minus_part lit in
  let '(i, s1) := span_digits s0 in
  let '(f, s2) := match s1 with x2e :: r => span_digits r | _ => ([], s1) end in
  let e := match s2 with
           | [] => 0
           | _ :: r => match r with
                       | x2d :: r' => - default 0 (magnitude r')
                       | x2b :: r' => default 0 (magnitude r')
                       | _ => default 0 (magnitude r)
                       end
           end in
  (default 0 (digits 0 (i ++ f)), e - Z.of_nat (length f)).

(** Half a unit in the last place above the largest [float64]. *)
Definition float_limit : Z := 2 ^ 1024 - 2 ^ 970.

(** Whether [strconv.ParseFloat] reports a range error.  The decimal exponent decides
    unless the value is near the limit. *)
Definition out_of_range (lit : bytes) : bool :=
  let '(m, e) := decimal lit in
  if m =? 0 then false else
  let magnitude10 := Z.of_nat (String.length (pretty m)) + e in
  if 310 <? magnitude10 then true
  else if magnitude10 <? 309 then false
  else if 0 <=? e then float_limit <=? m * 10 ^ e else float_limit * 10 ^ (- e) <=? m.

Fixpoint any_ok (j : json) : bool :=
  match j with
  | JNum lit => negb (out_of_range lit)
  | JArr js => forallb any_ok js
  | JObj ms => forallb (fun m => any_ok m.2) ms
  | _ => true
  end.

(** [var m map[string]any; json.Unmarshal(s, &m)]; null gives the nil map. *)
Definition UnmarshalMap (s : bytes) : option (list (bytes * json)) :=
  j ← Unmarshal s;
  if any_ok j then match j with JObj ms => Some ms | JNull => Some [] | _ => None end else None.

(** [m[key]]: of two members of one name the last one counts. *)
Definition lookup_any (ms : list (bytes * json)) (key : string) : option json :=
  snd <$> List.find (fun m => bool_decide (m.1 = to_bytes key)) (reverse ms).

(** [m[key].(string)] *)
Definition lookup_string (ms : list (bytes * json)) (key : string) : option bytes :=
  match lookup_any ms key with Some (JStr s) => Some s | _ => None end.

(** A JSON text, written here with single quotes. *)
Definition text (s : string) : bytes := (fun b => if bool_decide (b = x27) then x22 else b) <$> to_bytes s.

Example parse_mixed :
  Unmarshal (text " {'a':[1,-0.5e+3,null , true],'b':'x\u00e9\n','c':{}} ") =
  Some (JObj [(to_bytes "a", JArr [JNum (to_bytes "1"); JNum (to_bytes "-0.5e+3"); JNull; JBool true]);
              (to_bytes "b", JStr [x78; xc3; xa9; x0a]); (to_bytes "c", JObj [])]).
Proof. vm_compute. reflexivity. Qed.

Example indent_mixed : of_bytes <$> Indent [] (to_bytes "  ") (text "{'a':[1,{} ],'b{':'\'[,','c':[]}") =
  Some (of_bytes (text "{
  'a': [
    1,
    {}
  ],
  'b{': '\'[,',
  'c': []
}")).
Proof. vm_compute. reflexivity. Qed.

Example parse_rejects : (fun s => Unmarshal (to_bytes s)) <$> ["01"; "1."; "[1,]"; "{1:2}"; "nul"; "1 2"; ""; "-"]%string
  = replicate 8 None.
Proof. vm_compute. reflexivity. Qed.

Example limits : (fun s => out_of_range (to_bytes s)) <$>
  ["1e308"; "1.7976931348623157e308"; "1.7976931348623159e308"; "-1e309"; "0e999999"; "1e99999999999"]%string
  = [false; false; true; true; false; true].
Proof. vm_compute. reflexivity. Qed.

End Json.
