(* ===== verification/JsonFacts.v ===== *)
(** * JSON: what is printed is parsed back

    The fuel of the parser is enough ([parse_fuel]), and parsing what the printer
    writes gives the same tree, with strings made valid UTF-8 ([Unmarshal_print]),
    with any white space between the tokens ([Unmarshal_render]) and so after
    [json.Indent] too ([Indent_print]). *)

From S2P Require Import Prelude Text Strconv Json.
Open Scope Z_scope.

Module JsonFacts.
Import Utf8 Strconv Json.

(** ** Every parser consumes *)

Lemma skip_ws_shorter s : (length (skip_ws s) <= length s)%nat.
Proof. induction s as [|b s IH]; [done|]. cbn [skip_ws]. case_if; simpl; lia. Qed.

Lemma span_digits_app s d r : span_digits s = (d, r) -> s = d ++ r.
Proof.
  revert d r. induction s as [|b s IH]; intros d r Hs; cbn [span_digits] in Hs; [by simplify_eq|].
  destruct (digit b); [|by simplify_eq]. destruct (span_digits s) as [d' r'] eqn:E. simplify_eq.
  simpl. by rewrite <- (IH d' r).
Qed.

Lemma digits1_app s d r : digits1 s = Some (d, r) -> s = d ++ r /\ d <> [].
Proof.
  unfold digits1. destruct (span_digits s) as [d' r'] eqn:E. destruct d' as [|b d']; [done|].
  intros [= <- <-]. by split; [apply span_digits_app|].
Qed.

Lemma int_part_app s i r : int_part s = Some (i, r) -> s = i ++ r /\ i <> [].
Proof.
  unfold int_part. destruct s as [|b s]; [by intros ?%digits1_app|].
  destruct b; first [by intros ?%digits1_app|by intros [= <- <-]].
Qed.

Lemma frac_part_app s f r : frac_part s = Some (f, r) -> s = f ++ r.
Proof.
  unfold frac_part. destruct s as [|b s]; [by intros [= <- <-]|].
  destruct b; try (by intros [= <- <-]). intros ([d r'] & Hd & Hr)%bind_Some. simplify_eq.
  apply digits1_app in Hd as [-> _]. done.
Qed.

Lemma sign_part_app s : (sign_part s).1 ++ (sign_part s).2 = s.
Proof. destruct s as [|b s]; [done|]. by destruct b. Qed.

Lemma minus_part_app s : (minus_part s).1 ++ (minus_part s).2 = s.
Proof. destruct s as [|b s]; [done|]. by destruct b. Qed.

Lemma exp_part_app s e r : exp_part s = Some (e, r) -> s = e ++ r.
Proof.
  unfold exp_part. destruct s as [|b s]; [by intros [= <- <-]|].
  destruct b; try (by intros [= <- <-]); pose proof (sign_part_app s) as Hs; destruct (sign_part s) as [g s1];
    intros ([d r'] & Hd & Hr)%bind_Some; simplify_eq; apply digits1_app in Hd as [-> _]; simpl in *; f_equal;
    by rewrite <- (assoc_L (++)).
Qed.

Lemma number_app s l r : number s = Some (l, r) -> s = l ++ r /\ l <> [].
Proof.
  unfold number. pose proof (minus_part_app s) as Hm. destruct (minus_part s) as [m s0]. simpl in Hm.
  intros ([i s1] & Hi & Hr)%bind_Some. apply bind_Some in Hr as ([f s2] & Hf & Hr).
  apply bind_Some in Hr as ([e s3] & He & Hr). simplify_eq.
  apply int_part_app in Hi as [-> Hne]. apply frac_part_app in Hf as ->. apply exp_part_app in He as ->.
  split; [by rewrite <- !(assoc_L (++))|]. destruct m; [|done]. by destruct i.
Qed.

(** The literal is what stands before its closing quote. *)
Lemma scan_string_app s raw r : scan_string s = Some (raw, r) -> s = raw ++ x22 :: r.
Proof.
  revert raw r. induction s as [s IH] using (induction_ltof1 _ (@length _)); unfold ltof in IH.
  intros raw r Hs. destruct s as [|b s]; [done|]. cbn [scan_string] in Hs.
  case_bool_decide as Hq; [by simplify_eq/=|]. case_if in Hs; [done|]. case_bool_decide as Hb.
  - destruct s as [|c s]; [done|]. case_bool_decide as Hc.
    + destruct s as [|h1 [|h2 [|h3 [|h4 s]]]]; [done..|].
      apply bind_Some in Hs as (u & _ & Hs). apply bind_Some in Hs as ([raw' r'] & Hs & [= <- <-]).
      apply IH in Hs as ->; [done|simpl; lia].
    + apply bind_Some in Hs as (u & _ & Hs). apply bind_Some in Hs as ([raw' r'] & Hs & [= <- <-]).
      apply IH in Hs as ->; [done|simpl; lia].
  - apply bind_Some in Hs as ([raw' r'] & Hs & [= <- <-]). apply IH in Hs as ->; [done|simpl; lia].
Qed.

Lemma string_lit_shorter s str r : string_lit s = Some (str, r) -> (length r < length s)%nat.
Proof.
  intros ([raw r'] & Hs & ?)%bind_Some. simplify_eq. apply scan_string_app in Hs as ->.
  rewrite length_app. simpl. lia.
Qed.

Lemma next_shorter b s r : next b s = Some r -> (length r < length s)%nat.
Proof.
  unfold next. pose proof (skip_ws_shorter s). destruct (skip_ws s) as [|c s']; [done|].
  case_bool_decide; [|done]. intros [= <-]. simpl in *. lia.
Qed.

(** A literal or a bracket is consumed; a number still is to be. *)
Lemma token_of_shorter s :
  match token_of s with
  | TNum s' => s' = s
  | TStr r | TObj r | TArr r | TLit _ r => (length r < length s)%nat
  end.
Proof.
  set (rest := match CutPrefix s (to_bytes "null"), CutPrefix s (to_bytes "true"), CutPrefix s (to_bytes "false") with
    | Some r, _, _ => TLit JNull r | _, Some r, _ => TLit (JBool true) r
    | _, _, Some r => TLit (JBool false) r | _, _, _ => TNum s end).
  assert (match rest with TNum s' => s' = s | TStr r | TObj r | TArr r | TLit _ r => (length r < length s)%nat end) as Hr.
  { subst rest. repeat case_match; simplify_eq; try done;
      match goal with H : CutPrefix _ _ = Some _ |- _ => apply CutPrefix_Some in H; apply (f_equal length) in H end;
      rewrite length_app in *; simpl in *; lia. }
  destruct s as [|b s]; [done|]. unfold token_of. fold rest. destruct b; first [exact Hr|simpl; lia].
Qed.

Lemma number_shorter s l r : number s = Some (l, r) -> (length r < length s)%nat.
Proof. intros [-> Hne]%number_app. rewrite length_app. destruct l; [done|]. simpl. lia. Qed.

(** Split hypotheses about computations in [option] that returned. *)
Ltac invert_some :=
  repeat match goal with
  | H : mbind _ _ = Some _ |- _ => apply bind_Some in H as (? & ? & ?)
  | H : (let '(_, _) := ?p in _) = Some _ |- _ => destruct p
  | H : Some _ = Some _ |- _ => injection H as H; subst
  end.

(** What each parser leaves is shorter than what it was given. *)
Ltac shorter :=
  repeat match goal with
  | H : next _ _ = Some _ |- _ => apply next_shorter in H
  | H : string_lit _ = Some _ |- _ => apply string_lit_shorter in H
  | H : number _ = Some _ |- _ => apply number_shorter in H
  end; simpl in *; lia.

Lemma value_shorter fuel :
  (forall d s j r, value fuel d s = Some (j, r) -> (length r < length s)%nat) /\
  (forall d s js r, elements fuel d s = Some (js, r) -> (length r < length s)%nat) /\
  (forall d s ms r, members fuel d s = Some (ms, r) -> (length r < length s)%nat).
Proof.
  induction fuel as [|fuel (IHv & IHe & IHm)]; [done|]. split_and!; intros d s x r Hs.
  - cbn [value] in Hs. pose proof (skip_ws_shorter s) as Hw. pose proof (token_of_shorter (skip_ws s)) as Ht.
    destruct (token_of (skip_ws s)) as [t|t|t|j t|t]; simpl in Ht.
    + invert_some. shorter.
    + case_if in Hs; [done|]. destruct (next x7d t) eqn:Hn; invert_some; [shorter|].
      match goal with H : members _ _ _ = _ |- _ => apply IHm in H end. lia.
    + case_if in Hs; [done|]. destruct (next x5d t) eqn:Hn; invert_some; [shorter|].
      match goal with H : elements _ _ _ = _ |- _ => apply IHe in H end. lia.
    + invert_some. lia.
    + subst t. invert_some. shorter.
  - cbn [elements] in Hs. invert_some. match goal with H : value _ _ _ = _ |- _ => apply IHv in H end.
    case_match; invert_some; [match goal with H : elements _ _ _ = _ |- _ => apply IHe in H end|]; shorter.
  - cbn [members] in Hs. invert_some. match goal with H : value _ _ _ = _ |- _ => apply IHv in H end.
    case_match; invert_some; [match goal with H : members _ _ _ = _ |- _ => apply IHm in H end|]; shorter.
Qed.

(** *** The fuel is enough *)

Lemma option_bind_ext_in {A B} (f g : A -> option B) (m : option A) :
  (forall a, m = Some a -> f a = g a) -> m ≫= f = m ≫= g.
Proof. destruct m; simpl; auto. Qed.

(** More fuel than twice the length of the text changes nothing. *)
Lemma value_fuel n :
  (forall d s f g, (length s <= n)%nat -> (2 * length s < f)%nat -> (2 * length s < g)%nat -> value f d s = value g d s) /\
  (forall d s f g, (length s <= n)%nat -> (2 * length s + 1 < f)%nat -> (2 * length s + 1 < g)%nat ->
     elements f d s = elements g d s) /\
  (forall d s f g, (length s <= n)%nat -> (2 * length s < f)%nat -> (2 * length s < g)%nat -> members f d s = members g d s).
Proof.
  induction n as [n IH] using lt_wf_ind.
  assert (forall d s f g, (length s <= n)%nat -> (2 * length s < f)%nat -> (2 * length s < g)%nat ->
    value f d s = value g d s) as Hv.
  { intros d s [|f] [|g] Hn Hf Hg; try lia. cbn [value].
    pose proof (skip_ws_shorter s) as Hw. pose proof (token_of_shorter (skip_ws s)) as Ht.
    destruct (token_of (skip_ws s)) as [t|t|t|j t|t]; simpl in Ht; try done.
    - case_if; [done|]. destruct (next x7d t); [done|].
      destruct (IH (length t)) as (_ & _ & Hm); [lia|]. by rewrite (Hm _ t f g) by lia.
    - case_if; [done|]. destruct (next x5d t); [done|].
      destruct (IH (length t)) as (_ & He & _); [lia|]. by rewrite (He _ t f g) by lia. }
  split_and!; [done| |].
  - intros d s [|f] [|g] Hn Hf Hg; try lia. cbn [elements]. rewrite (Hv d s f g) by lia.
    apply option_bind_ext_in. intros [j r] Hj. apply (proj1 (value_shorter g)) in Hj.
    destruct (next x2c r) as [r'|] eqn:Hr; [|done]. apply next_shorter in Hr.
    destruct (IH (length r')) as (_ & He & _); [lia|]. by rewrite (He _ r' f g) by lia.
  - intros d s [|f] [|g] Hn Hf Hg; try lia. cbn [members].
    apply option_bind_ext_in. intros r Hr%next_shorter.
    apply option_bind_ext_in. intros [k r1] Hk%string_lit_shorter.
    apply option_bind_ext_in. intros r2 Hr2%next_shorter.
    rewrite (Hv d r2 f g) by lia.
    apply option_bind_ext_in. intros [j r3] Hj. apply (proj1 (value_shorter g)) in Hj.
    destruct (next x2c r3) as [r4|] eqn:Hr4; [|done]. apply next_shorter in Hr4.
    destruct (IH (length r4)) as (_ & _ & Hm); [lia|]. by rewrite (Hm _ r4 f g) by lia.
Qed.

Lemma parse_fuel fuel s : (2 * length s < fuel)%nat -> value fuel 0 s = parse s.
Proof. intros Hf. by apply (value_fuel (length s)); lia. Qed.

(** ** Strings *)

(** A string with everything that is not UTF-8 replaced by U+FFFD. *)
Definition sanitize (s : bytes) : bytes := encode (runes s).

Lemma sanitize_idem s : sanitize (sanitize s) = sanitize s.
Proof.
  unfold sanitize. f_equal. rewrite <- (app_nil_r (encode (runes s))).
  rewrite runes_encode by apply runes_scalar. apply app_nil_r.
Qed.

Lemma hex_val_byte n : 0 <= n < 16 -> hex_val (hex_byte n) = Some n.
Proof.
  intros Hn. unfold hex_val, hex_byte. destruct (Z.ltb_spec n 10); rewrite b2z_z2b by lia;
    repeat (case_if; bool_to_prop; try lia); f_equal; lia.
Qed.

Lemma hex4_print r h1 h2 h3 h4 : 0 <= r < 65536 -> u_print r = [x5c; x75; h1; h2; h3; h4] -> hex4 h1 h2 h3 h4 = Some r.
Proof.
  intros Hr Hp. unfold u_print in Hp. injection Hp as <- <- <- <-. unfold hex4.
  rewrite !hex_val_byte by (Z.div_mod_to_equations; lia). cbn [mbind option_bind]. f_equal. Z.div_mod_to_equations. lia.
Qed.

(** A rune that is printed as it is: its first byte is neither a quote, nor a
    backslash, nor a control character. *)
Definition plain (r : Z) : Prop := scalar r /\ 0x20 <= r /\ r <> 0x22 /\ r <> 0x5C.

Lemma encode_rune_plain r : plain r ->
  Forall (fun b => 0x20 <= b2z b /\ b <> x22 /\ b <> x5c) (encode_rune r).
Proof.
  intros ((Hr & Hsur) & H20 & Hq & Hb).
  assert (forall x, 0x20 <= x < 256 -> x <> 0x22 -> x <> 0x5C -> 0x20 <= b2z (z2b x) /\ z2b x <> x22 /\ z2b x <> x5c) as Hz.
  { intros x Hx H1 H2. rewrite b2z_z2b by lia. split_and!; [lia|..]; intros E; apply (f_equal b2z) in E;
      rewrite b2z_z2b in E by lia; vm_compute in E; lia. }
  unfold encode_rune. decide_test ((r <? 0) || (0x10FFFF <? r)) false. rewrite !land_3F.
  destruct (rune_digits r) as (r3 & r2 & r1 & r0 & Heq & H3 & H2 & H1 & H0 & -> & -> & -> & -> & -> & ->); [lia|].
  case_if; bool_to_prop; [repeat constructor; apply Hz; lia|].
  case_if; bool_to_prop.
  { rewrite lor_C0, lor_cont by lia. repeat constructor; apply Hz; lia. }
  decide_test ((0xD800 <=? r) && (r <=? 0xDFFF)) false.
  case_if; bool_to_prop.
  { rewrite lor_E0, !lor_cont by lia. repeat constructor; apply Hz; lia. }
  rewrite lor_F0, !lor_cont by lia. repeat constructor; apply Hz; lia.
Qed.

Lemma scan_plain bs t : Forall (fun b => 0x20 <= b2z b /\ b <> x22 /\ b <> x5c) bs ->
  scan_string (bs ++ t) = (fun p => (bs ++ p.1, p.2)) <$> scan_string t.
Proof.
  induction 1 as [|b bs (H20 & Hq & Hb) _ IH]; simpl; [by destruct (scan_string t) as [[]|]|].
  rewrite !bool_decide_eq_false_2 by done. decide_test (b2z b <? 32) false.
  rewrite IH. by destruct (scan_string t) as [[]|].
Qed.

(** How one rune of a literal is written: as it is, by a letter, or by its code. *)
Inductive spelling (r : Z) : bytes -> Prop :=
  | spell_plain : plain r -> spelling r (encode_rune r)
  | spell_letter c b : escape c = Some b -> c <> x75 -> b2z b = r -> spelling r [x5c; c]
  | spell_code : 0 <= r < 65536 -> is_surrogate r = false -> spelling r (u_print r).

Lemma quote_rune_spelling r bad : scalar r -> (bad = true -> r = RuneError) -> spelling r (quote_rune r bad).
Proof.
  intros Hr Hbad. unfold quote_rune. destruct bad.
  { rewrite Hbad by done. by apply (spell_code 0xFFFD). }
  pose proof Hr as [Hrange Hsur].
  case_if; bool_to_prop.
  - case_if.
    + assert (plain r) as Hp.
      { unfold html_safe in E0. simpl in E0. bool_to_prop. split_and!; [done|lia..]. }
      assert (encode_rune r = [z2b r]) as <-; [|by constructor].
      unfold encode_rune. decide_test ((r <? 0) || (0x10FFFF <? r)) false. by decide_test (r <=? 127) true.
    + repeat (case_if; bool_to_prop; [subst r; by eapply spell_letter|]).
      constructor; [lia|]. unfold is_surrogate. by decide_test (55296 <=? r) false.
  - case_if.
    + apply orb_prop in E0 as [->%Z.eqb_eq| ->%Z.eqb_eq]; by constructor.
    + constructor. split_and!; [done|lia..].
Qed.

Lemma scan_spelling r w t : spelling r w -> scan_string (w ++ t) = (fun p => (w ++ p.1, p.2)) <$> scan_string t.
Proof.
  destruct 1 as [Hp|c b He Hc Hb|Hr Hs].
  - by apply scan_plain, encode_rune_plain.
  - cbn [app scan_string]. rewrite (bool_decide_eq_false_2 (c = x75)) by done. simpl. rewrite He. simpl.
    by destruct (scan_string t) as [[]|].
  - pose proof (hex4_print r _ _ _ _ Hr eq_refl) as Hh. cbn [u_print app scan_string]. simpl. rewrite Hh. simpl.
    by destruct (scan_string t) as [[]|].
Qed.

Lemma u_escape_other b s : b <> x5c \/ head s <> Some x75 -> u_escape (b :: s) = None.
Proof.
  intros Hb. destruct s as [|c [|h1 [|h2 [|h3 [|h4 s]]]]]; try done. simpl in *.
  destruct Hb as [Hb|Hc]; [by rewrite (bool_decide_eq_false_2 _ Hb)|].
  rewrite (bool_decide_eq_false_2 (c = x75)), andb_false_r by congruence. done.
Qed.

Lemma unquote_spelling r w t : scalar r -> spelling r w -> unquote_rune (w ++ t) = (r, t).
Proof.
  intros Hsc. destruct 1 as [Hp|c b He Hc Hb|Hr Hs].
  - unfold unquote_rune. rewrite decode_encode_rune, drop_app_length by done.
    pose proof (encode_rune_plain r Hp) as Hpl. pose proof (encode_rune_length r) as Hlen.
    assert (u_escape (encode_rune r ++ t) = None) as ->.
    { destruct (encode_rune r) as [|b bs]; [simpl in *; lia|]. apply Forall_cons in Hpl as [(_ & _ & Hb) _].
      apply u_escape_other. tauto. }
    destruct Hp as (_ & _ & _ & Hb). destruct t as [|c t]; [done|]. by rewrite (proj2 (Z.eqb_neq _ _) Hb).
  - unfold unquote_rune. cbn [app].
    assert (u_escape (x5c :: c :: t) = None) as ->.
    { apply u_escape_other. right. by intros [= ->]. }
    simpl. rewrite He. simpl. by rewrite Hb.
  - pose proof (hex4_print r _ _ _ _ Hr eq_refl) as Hh. unfold unquote_rune. cbn [u_print app u_escape]. simpl.
    rewrite Hh. simpl. by rewrite Hs.
Qed.

Lemma spelling_nonempty r w : spelling r w -> (1 <= length w)%nat.
Proof. destruct 1; simpl; try lia. pose proof (encode_rune_length r). lia. Qed.

(** A literal is a sequence of spelled runes. *)
Lemma quote_fuel_spells fuel s : (length s <= fuel)%nat ->
  exists ws, quote_fuel fuel s = concat ws /\ Forall2 spelling (runes s) ws.
Proof.
  revert s. induction fuel as [|fuel IH]; intros s Hf.
  { destruct s; [|simpl in *; lia]. by exists []. }
  destruct s as [|b s]; [by exists []|]. cbn [quote_fuel].
  destruct (decode_rune_spec (b :: s)) as [Hsc Hw]; [done|]. rewrite (runes_cons (b :: s)) by done.
  destruct (decode_rune (b :: s)) as [r w]. cbn [fst snd] in *.
  destruct (IH (drop w (b :: s))) as (ws & -> & Hws); [rewrite length_drop; simpl in *; lia|].
  exists (quote_rune r ((r =? RuneError) && (w =? 1)%nat) :: ws). split; [done|]. constructor; [|done].
  apply quote_rune_spelling; [done|]. intros Hbad. bool_to_prop. done.
Qed.

Lemma scan_spells rs ws t : Forall2 spelling rs ws ->
  scan_string (concat ws ++ x22 :: t) = Some (concat ws, t).
Proof.
  induction 1 as [|r w rs ws Hw _ IH]; [done|]. simpl. rewrite <- (assoc_L (++)).
  by rewrite (scan_spelling r w _ Hw), IH.
Qed.

Lemma unquote_spells fuel rs ws : Forall scalar rs -> Forall2 spelling rs ws -> (length (concat ws) <= fuel)%nat ->
  unquote_fuel fuel (concat ws) = encode rs.
Proof.
  intros Hsc Hws. revert fuel. induction Hws as [|r w rs ws Hw _ IH]; intros fuel Hf; [by destruct fuel|].
  apply Forall_cons in Hsc as [Hr Hrs]. simpl in Hf |- *. rewrite length_app in Hf.
  pose proof (spelling_nonempty r w Hw). destruct fuel as [|fuel]; [lia|].
  pose proof (unquote_spelling r w (concat ws) Hr Hw) as Hq.
  destruct (w ++ concat ws) as [|b s] eqn:Hs; [apply (f_equal length) in Hs; rewrite length_app in Hs; simpl in Hs; lia|].
  cbn [unquote_fuel]. rewrite Hq. change (encode (r :: rs)) with (encode_rune r ++ encode rs). f_equal.
  apply IH; [done|lia].
Qed.

Lemma string_lit_quote s t : string_lit (quote_fuel (length s) s ++ x22 :: t) = Some (sanitize s, t).
Proof.
  destruct (quote_fuel_spells (length s) s) as (ws & Hq & Hws); [done|].
  unfold string_lit. rewrite Hq, (scan_spells _ _ _ Hws).
  cbn [mbind option_bind]. unfold unquote. by rewrite (unquote_spells _ _ _ (runes_scalar s) Hws).
Qed.

Lemma quote_app s t : quote s ++ t = x22 :: quote_fuel (length s) s ++ x22 :: t.
Proof. unfold quote. cbn [app]. by rewrite <- (assoc_L (++)). Qed.

(** ** Numbers *)

(** What may follow a number: no byte that would continue it. *)
Definition stops (s : bytes) : Prop :=
  match s with [] => True | b :: _ => digit b = None /\ b <> x2e /\ b <> x65 /\ b <> x45 end.

Lemma stops_app r s : r <> [] \/ stops s -> stops r -> stops (r ++ s).
Proof. intros [?|?] ?; by destruct r. Qed.

Lemma span_digits_ext a d r s : span_digits a = (d, r) -> (r = [] -> stops s) -> span_digits (a ++ s) = (d, r ++ s).
Proof.
  revert d r. induction a as [|b a IH]; intros d r Ha Hs.
  - simplify_eq/=. specialize (Hs eq_refl). destruct s as [|c s]; [done|]. simpl in *. destruct Hs as [-> _]. done.
  - cbn [app span_digits] in *. destruct (digit b); [|by simplify_eq].
    destruct (span_digits a) as [d' r']. simplify_eq. by rewrite (IH d' r).
Qed.

Lemma digits1_ext a d r s : digits1 a = Some (d, r) -> (r = [] -> stops s) -> digits1 (a ++ s) = Some (d, r ++ s).
Proof.
  unfold digits1. destruct (span_digits a) as [d' r'] eqn:E. intros Hd Hs.
  assert (r' = r) as -> by (by destruct d'; simplify_eq). rewrite (span_digits_ext _ _ _ _ E Hs).
  destruct d'; by simplify_eq.
Qed.

Lemma int_part_ext a i r s : int_part a = Some (i, r) -> (r = [] -> stops s) -> int_part (a ++ s) = Some (i, r ++ s).
Proof.
  unfold int_part. destruct a as [|b a]; [done|]. cbn [app].
  destruct (decide (b = x30)) as [->|Hb]; [by intros [= <- <-]|].
  intros Hd Hs. assert (digits1 (b :: a) = Some (i, r)) as Hd' by (by destruct b).
  pose proof (digits1_ext _ _ _ _ Hd' Hs) as He. cbn [app] in He. by destruct b.
Qed.

Lemma frac_part_ext a f r s : frac_part a = Some (f, r) -> (r = [] -> stops s) -> frac_part (a ++ s) = Some (f, r ++ s).
Proof.
  intros Ha Hs. destruct a as [|b a].
  { simpl in Ha. simplify_eq. specialize (Hs eq_refl). destruct s as [|c s]; [done|]. destruct Hs as (_ & Hc & _). by destruct c. }
  destruct (decide (b = x2e)) as [->|Hb]; [|destruct b; by simplify_eq/=].
  simpl in Ha |- *. apply bind_Some in Ha as ([d r'] & Hd & [= <- <-]). by rewrite (digits1_ext _ _ _ _ Hd Hs).
Qed.

Lemma sign_part_ext a s : a <> [] -> sign_part (a ++ s) = ((sign_part a).1, (sign_part a).2 ++ s).
Proof. destruct a as [|b a]; [done|]. by destruct b. Qed.

Lemma minus_part_ext a s : a <> [] -> minus_part (a ++ s) = ((minus_part a).1, (minus_part a).2 ++ s).
Proof. destruct a as [|b a]; [done|]. by destruct b. Qed.

Lemma exp_part_ext a e r s : exp_part a = Some (e, r) -> (r = [] -> stops s) -> exp_part (a ++ s) = Some (e, r ++ s).
Proof.
  assert (forall c a e r, (let '(g, s1) := sign_part a in '(d, r) ← digits1 s1; Some (c :: g ++ d, r)) = Some (e, r) ->
    (r = [] -> stops s) ->
    (let '(g, s1) := sign_part (a ++ s) in '(d, r) ← digits1 s1; Some (c :: g ++ d, r)) = Some (e, r ++ s)) as Hexp.
  { clear. intros c a e r Ha Hs. destruct a as [|b a]; [done|]. rewrite sign_part_ext by done.
    destruct (sign_part (b :: a)) as [g s1]. cbn [fst snd]. apply bind_Some in Ha as ([d r'] & Hd & [= <- <-]).
    by rewrite (digits1_ext _ _ _ _ Hd Hs). }
  intros Ha Hs. destruct a as [|b a].
  { simpl in Ha. simplify_eq. specialize (Hs eq_refl). destruct s as [|c s]; [done|].
    destruct Hs as (_ & _ & H1 & H2). by destruct c. }
  destruct (decide (b = x65)) as [->|Hb]; [by apply Hexp|]. destruct (decide (b = x45)) as [->|Hb']; [by apply Hexp|].
  destruct b; by simplify_eq/=.
Qed.

(** A number literal. *)
Definition is_number (lit : bytes) : Prop := number lit = Some (lit, []).

Lemma number_ext lit s : is_number lit -> stops s -> number (lit ++ s) = Some (lit, s).
Proof.
  unfold is_number, number. intros Hn Hs. destruct lit as [|b lit]; [done|]. rewrite minus_part_ext by done.
  destruct (minus_part (b :: lit)) as [m s0]. cbn [fst snd].
  apply bind_Some in Hn as ([i s1] & Hi & Hn). apply bind_Some in Hn as ([f s2] & Hf & Hn).
  apply bind_Some in Hn as ([e s3] & He & Hn). injection Hn as Hl ->.
  rewrite (int_part_ext _ _ _ _ Hi) by done. cbn [mbind option_bind].
  rewrite (frac_part_ext _ _ _ _ Hf) by done. cbn [mbind option_bind].
  rewrite (exp_part_ext _ _ _ _ He) by done. cbn [mbind option_bind]. by rewrite Hl.
Qed.

Lemma pretty_go_digits n s : (0 < n)%N -> exists b ds,
  to_bytes (pretty_N_go n s) = b :: ds ++ to_bytes s /\ b <> x30 /\ Forall (fun b => is_Some (digit b)) (b :: ds).
Proof.
  revert s. induction (N.lt_wf_0 n) as [n _ IH]; intros s Hn. rewrite pretty_N_go_step by done.
  pose proof (N.mod_lt n 10 ltac:(done)) as Hm. pose proof (N.div_mod n 10 ltac:(done)) as Hd.
  pose proof (digit_pretty (n mod 10) Hm) as Hdig.
  destruct (decide (n / 10 = 0)%N) as [Hz|Hz].
  - rewrite Hz. exists (Ascii.byte_of_ascii (pretty_N_char (n mod 10))), [].
    split_and!; [done| |by repeat constructor].
    intros E. rewrite E in Hdig. change (digit x30) with (Some 0) in Hdig. injection Hdig as Hdig. lia.
  - destruct (IH (n / 10)%N) with (s := String (pretty_N_char (n mod 10)) s) as (b & ds & -> & Hb & Hds); [apply N.div_lt; lia|lia|].
    exists b, (ds ++ [Ascii.byte_of_ascii (pretty_N_char (n mod 10))]).
    split_and!; [rewrite to_bytes_cons, <- (assoc_L (++)); done|done|].
    apply Forall_cons in Hds as [? ?]. constructor; [done|]. apply Forall_app_2; [done|by repeat constructor].
Qed.

Lemma span_all_digits ds : Forall (fun b => is_Some (digit b)) ds -> span_digits ds = (ds, []).
Proof. induction 1 as [|b ds [d Hd] _ IH]; [done|]. cbn [span_digits]. by rewrite Hd, IH. Qed.

(** Integers are printed as numbers. *)
Lemma is_number_pretty (z : Z) : is_number (to_bytes (pretty z)).
Proof.
  assert (forall p : positive, exists b ds, to_bytes (pretty (Npos p)) = b :: ds /\ b <> x30 /\
    Forall (fun b => is_Some (digit b)) (b :: ds)) as Hpos.
  { intros p. destruct (pretty_go_digits (Npos p) "") as (b & ds & Hgo & Hb & Hds); [lia|].
    exists b, ds. split_and!; [|done..]. unfold pretty, pretty_N. rewrite decide_False by done. rewrite Hgo. cbn. by rewrite app_nil_r. }
  assert (forall b ds, b <> x30 -> Forall (fun b => is_Some (digit b)) (b :: ds) ->
    int_part (b :: ds) = Some (b :: ds, []) /\ minus_part (b :: ds) = ([], b :: ds)) as Hint.
  { intros b ds Hb Hds. assert (digits1 (b :: ds) = Some (b :: ds, [])) as Hd
      by (unfold digits1; by rewrite span_all_digits).
    apply Forall_cons in Hds as [[k Hk] _]. unfold int_part.
    split; [by destruct b|]. destruct (decide (b = x2d)) as [->|]; [by vm_compute in Hk|by destruct b]. }
  destruct z as [|p|p]; [done|..]; destruct (Hpos p) as (b & ds & Hp & Hb & Hds); destruct (Hint b ds Hb Hds) as [Hi Hm].
  - change (pretty (Z.pos p)) with (pretty (Npos p)). rewrite Hp. unfold is_number, number. rewrite Hm, Hi. simpl.
    by rewrite app_nil_r.
  - change (to_bytes (pretty (Z.neg p))) with (x2d :: to_bytes (pretty (Npos p))). rewrite Hp.
    unfold is_number, number. cbn [minus_part]. rewrite Hi. simpl. by rewrite app_nil_r.
Qed.

(** ** Values *)

(** Induction over a tree and its parts. *)
Lemma json_induction (P : json -> Prop) :
  P JNull -> (forall b, P (JBool b)) -> (forall lit, P (JNum lit)) -> (forall s, P (JStr s)) ->
  (forall js, Forall P js -> P (JArr js)) -> (forall ms, Forall (fun m => P m.2) ms -> P (JObj ms)) ->
  forall j, P j.
Proof.
  intros Hnull Hbool Hnum Hstr Harr Hobj. fix IH 1. intros [|b|lit|s|js|ms]; [done|apply Hbool|apply Hnum|apply Hstr| |].
  - apply Harr. induction js as [|j js IHjs]; constructor; [apply IH|exact IHjs].
  - apply Hobj. induction ms as [|[k j] ms IHms]; constructor; [apply IH|exact IHms].
Qed.

(** How deep arrays and objects are nested. *)
Fixpoint nesting (j : json) : Z :=
  match j with
  | JArr js => 1 + foldr (fun j n => Z.max (nesting j) n) 0 js
  | JObj ms => 1 + foldr (fun m n => Z.max (nesting m.2) n) 0 ms
  | _ => 0
  end.

(** Every number is a literal of the grammar. *)
Fixpoint numbers_ok (j : json) : Prop :=
  match j with
  | JNum lit => is_number lit
  | JArr js => foldr (fun j P => numbers_ok j /\ P) True js
  | JObj ms => foldr (fun m P => numbers_ok m.2 /\ P) True ms
  | _ => True
  end.

(** The tree with every string made valid UTF-8. *)
Fixpoint valid_tree (j : json) : json :=
  match j with
  | JStr s => JStr (sanitize s)
  | JArr js => JArr (valid_tree <$> js)
  | JObj ms => JObj ((fun m => (sanitize m.1, valid_tree m.2)) <$> ms)
  | _ => j
  end.

(** A text of a value: a new line [nl depth] in front of every element, every member
    and every closing bracket but that of an empty array or object, and [sp] after
    every colon. *)
Section render.
Context (nl : nat -> bytes) (sp : bytes).

Fixpoint render (depth : nat) (j : json) : bytes :=
  match j with
  | JNull => to_bytes "null"
  | JBool b => to_bytes (if b then "true" else "false")%string
  | JNum lit => lit
  | JStr s => quote s
  | JArr js =>
      x5b :: (fix go (first : bool) (js : list json) : bytes :=
                match js with
                | [] => (if first then [] else nl depth) ++ [x5d]
                | j :: js' => sep first ++ nl (S depth) ++ render (S depth) j ++ go false js'
                end) true js
  | JObj ms =>
      x7b :: (fix go (first : bool) (ms : list (bytes * json)) : bytes :=
                match ms with
                | [] => (if first then [] else nl depth) ++ [x7d]
                | (k, j) :: ms' => sep first ++ nl (S depth) ++ quote k ++ x3a :: sp ++ render (S depth) j ++ go false ms'
                end) true ms
  end.

(** The part of an array after its bracket, and of an object. *)
Fixpoint render_elems (depth : nat) (first : bool) (js : list json) : bytes :=
  match js with
  | [] => (if first then [] else nl depth) ++ [x5d]
  | j :: js' => sep first ++ nl (S depth) ++ render (S depth) j ++ render_elems depth false js'
  end.
Fixpoint render_members (depth : nat) (first : bool) (ms : list (bytes * json)) : bytes :=
  match ms with
  | [] => (if first then [] else nl depth) ++ [x7d]
  | (k, j) :: ms' =>
      sep first ++ nl (S depth) ++ quote k ++ x3a :: sp ++ render (S depth) j ++ render_members depth false ms'
  end.

Lemma render_JArr depth js : render depth (JArr js) = x5b :: render_elems depth true js.
Proof. cbn [render]. f_equal. generalize true. induction js as [|j js IH]; intros first; [done|]. cbn [render_elems]. by rewrite IH. Qed.

Lemma render_JObj depth ms : render depth (JObj ms) = x7b :: render_members depth true ms.
Proof. cbn [render]. f_equal. generalize true. induction ms as [|[k j] ms IH]; intros first; [done|]. cbn [render_members]. by rewrite IH. Qed.
End render.

Lemma skip_ws_none b s : is_space b = false -> skip_ws (b :: s) = b :: s.
Proof. intros Hb. cbn [skip_ws]. by rewrite Hb. Qed.

Lemma next_hit b s : is_space b = false -> next b (b :: s) = Some s.
Proof. intros Hb. unfold next. rewrite skip_ws_none by done. by rewrite bool_decide_eq_true_2. Qed.

Lemma next_miss b c s : is_space c = false -> c <> b -> next b (c :: s) = None.
Proof. intros Hc Hne. unfold next. rewrite skip_ws_none by done. by rewrite bool_decide_eq_false_2. Qed.

(** A number starts with a minus sign or a digit. *)
Lemma number_starts lit : is_number lit -> exists b l, lit = b :: l /\ (b = x2d \/ is_Some (digit b)).
Proof.
  unfold is_number. destruct lit as [|b l]; [done|]. intros Hn. exists b, l. split; [done|].
  destruct (decide (b = x2d)) as [->|Hb]; [by left|right]. unfold number in Hn.
  assert (minus_part (b :: l) = ([], b :: l)) as Hm by (by destruct b). rewrite Hm in Hn.
  apply bind_Some in Hn as ([i s1] & Hi & _).
  destruct (decide (b = x30)) as [->|Hz]; [by eexists|].
  assert (digits1 (b :: l) = Some (i, s1)) as Hd by (by destruct b). unfold digits1 in Hd. cbn [span_digits] in Hd.
  destruct (digit b); [by eexists|done].
Qed.

Lemma number_token b l s : b = x2d \/ is_Some (digit b) ->
  is_space b = false /\ token_of (b :: l ++ s) = TNum (b :: l ++ s) /\ b <> x5d /\ b <> x7d.
Proof.
  intros [->|[d Hd]]; [done|]. assert (48 <= b2z b <= 57) as Hr.
  { unfold digit in Hd. case_if in Hd; [|done]. bool_to_prop. lia. }
  destruct b; first [done|vm_compute in Hr; exfalso; destruct Hr as [Hr1 Hr2]; by (apply Hr1 || apply Hr2)].
Qed.

(** Any amount of white space in front. *)
Definition blank (w : bytes) : Prop := Forall (fun b => is_space b = true) w.

Lemma skip_ws_blank w s : blank w -> skip_ws (w ++ s) = skip_ws s.
Proof. induction 1 as [|b w Hb _ IH]; [done|]. cbn [app skip_ws]. by rewrite Hb. Qed.

Lemma next_blank b w s : blank w -> next b (w ++ s) = next b s.
Proof. intros Hw. unfold next. by rewrite skip_ws_blank. Qed.

Lemma stops_blank w b s : blank w -> stops [b] -> stops (w ++ b :: s).
Proof. intros [|c w' Hc _]; [done|]. intros _. by destruct c. Qed.

Section rendered.
Context (nl : nat -> bytes) (sp : bytes) (Hnl : forall k, blank (nl k)) (Hsp : blank sp).

(** What a rendered value starts with: no space, and no closing bracket. *)
Lemma render_starts k j : numbers_ok j -> exists b l, render nl sp k j = b :: l /\ is_space b = false /\ b <> x5d /\ b <> x7d.
Proof.
  destruct j as [|[]|lit|s|js|ms]; intros Hn; try by eexists _, _.
  destruct (number_starts lit Hn) as (b & l & -> & Hb). exists b, l.
  destruct (number_token b l [] Hb) as (? & _ & ? & ?). done.
Qed.

Lemma elems_stop k js s : stops (render_elems nl sp k false js ++ s).
Proof. destruct js; cbn [render_elems]; [rewrite <- (assoc_L (++)); by apply stops_blank|done]. Qed.

Lemma members_stop k ms s : stops (render_members nl sp k false ms ++ s).
Proof. destruct ms as [|[]]; cbn [render_members]; [rewrite <- (assoc_L (++)); by apply stops_blank|done]. Qed.

Definition parses (j : json) : Prop := forall fuel d k w s,
  numbers_ok j -> d + nesting j <= maxNestingDepth -> stops s -> blank w -> (2 * length (render nl sp k j ++ s) < fuel)%nat ->
  value fuel d (w ++ render nl sp k j ++ s) = Some (valid_tree j, s).

Lemma elements_render js fuel d k s : js <> [] -> Forall parses js ->
  numbers_ok (JArr js) -> d + foldr (fun j n => Z.max (nesting j) n) 0 js <= maxNestingDepth ->
  (2 * length (render_elems nl sp k true js ++ s) + 1 < fuel)%nat ->
  elements fuel d (render_elems nl sp k true js ++ s) = Some (valid_tree <$> js, s).
Proof.
  intros Hne Hjs. revert fuel. induction Hjs as [|j js Hj Hjs IH]; intros fuel Hn Hd Hf; [done|].
  destruct fuel as [|fuel]; [lia|]. destruct Hn as [Hn Hns]. cbn [foldr] in Hd.
  cbn [render_elems sep app] in Hf |- *. rewrite <- !(assoc_L (++)) in Hf |- *. rewrite length_app in Hf. cbn [elements].
  rewrite Hj; [|done|lia|apply elems_stop|done|lia]. cbn [mbind option_bind]. rewrite length_app in Hf.
  destruct js as [|j' js].
  - cbn [render_elems]. rewrite <- !(assoc_L (++)). cbn [app]. rewrite !next_blank by done. by rewrite next_miss, next_hit by done.
  - change (render_elems nl sp k false (j' :: js) ++ s) with (x2c :: render_elems nl sp k true (j' :: js) ++ s) in *.
    rewrite next_hit by done. rewrite IH; [done|done|done|cbn [foldr] in *; lia|]. cbn [length] in Hf. lia.
Qed.

Lemma members_render ms fuel d k s : ms <> [] -> Forall (fun m => parses m.2) ms ->
  numbers_ok (JObj ms) -> d + foldr (fun m n => Z.max (nesting m.2) n) 0 ms <= maxNestingDepth ->
  (2 * length (render_members nl sp k true ms ++ s) < fuel)%nat ->
  members fuel d (render_members nl sp k true ms ++ s) = Some ((fun m => (sanitize m.1, valid_tree m.2)) <$> ms, s).
Proof.
  intros Hne Hms. revert fuel. induction Hms as [|[key j] ms Hj Hms IH]; intros fuel Hn Hd Hf; [done|].
  destruct fuel as [|fuel]; [lia|]. destruct Hn as [Hn Hns]. cbn [foldr fst snd] in *.
  cbn [render_members sep app] in Hf |- *. rewrite <- !(assoc_L (++)) in Hf |- *. cbn [app] in Hf |- *.
  rewrite <- !(assoc_L (++)) in Hf |- *. cbn [members]. rewrite next_blank, quote_app, next_hit by done. cbn [mbind option_bind].
  rewrite string_lit_quote. cbn [mbind option_bind]. rewrite next_hit by done. cbn [mbind option_bind].
  rewrite 2!length_app in Hf. cbn [length] in Hf. rewrite length_app in Hf.
  rewrite Hj; [|done|lia|apply members_stop|done|lia]. cbn [mbind option_bind]. rewrite length_app in Hf.
  destruct ms as [|[key' j'] ms].
  - cbn [render_members]. rewrite <- !(assoc_L (++)). cbn [app]. rewrite !next_blank by done. by rewrite next_miss, next_hit by done.
  - change (render_members nl sp k false ((key', j') :: ms) ++ s) with (x2c :: render_members nl sp k true ((key', j') :: ms) ++ s) in *.
    rewrite next_hit by done. rewrite IH; [done|done|done|cbn [foldr snd] in *; lia|]. cbn [length] in Hf. lia.
Qed.
End rendered.

Lemma nesting_nonneg j : 0 <= nesting j.
Proof.
  assert (forall A (f : A -> Z) l, 0 <= foldr (fun x n => Z.max (f x) n) 0 l) as H
    by (intros A f l; induction l; simpl; lia).
  destruct j as [|?|?|?|js|ms]; cbn [nesting]; try lia; [pose proof (H _ nesting js)|pose proof (H _ (fun m => nesting m.2) ms)]; lia.
Qed.

Lemma token_of_lit s :
  token_of (to_bytes "null" ++ s) = TLit JNull s /\ token_of (to_bytes "true" ++ s) = TLit (JBool true) s /\
  token_of (to_bytes "false" ++ s) = TLit (JBool false) s.
Proof.
  assert (forall b c p s, b <> c -> CutPrefix (b :: s) (c :: p) = None) as Hne.
  { intros b c p t Hb. cbn [CutPrefix]. by rewrite bool_decide_eq_false_2. }
  assert (forall p, CutPrefix (p ++ s) p = Some s) as Hp by (intros p; by apply CutPrefix_Some).
  pose proof (Hp (to_bytes "null")) as H1. pose proof (Hp (to_bytes "true")) as H2. pose proof (Hp (to_bytes "false")) as H3.
  change (to_bytes "null") with [x6e; x75; x6c; x6c] in *. change (to_bytes "true") with [x74; x72; x75; x65] in *.
  change (to_bytes "false") with [x66; x61; x6c; x73; x65] in *. cbn [app] in *. unfold token_of.
  change (to_bytes "null") with [x6e; x75; x6c; x6c]. change (to_bytes "true") with [x74; x72; x75; x65].
  change (to_bytes "false") with [x66; x61; x6c; x73; x65].
  split_and!; [by rewrite H1|rewrite Hne by done; by rewrite H2|rewrite !Hne by done; by rewrite H3].
Qed.

(** Parsing what is rendered gives the tree back. *)
Lemma value_render nl sp (Hnl : forall k, blank (nl k)) (Hsp : blank sp) j : parses nl sp j.
Proof.
  induction j as [|b|lit|str|js IH|ms IH] using json_induction; intros fuel d k w s Hn Hd Hs Hw Hf;
    (destruct fuel as [|fuel]; [lia|]); cbn [value]; rewrite skip_ws_blank by done.
  - change (skip_ws (render nl sp k JNull ++ s)) with (to_bytes "null" ++ s). by rewrite (proj1 (token_of_lit s)).
  - assert (skip_ws (render nl sp k (JBool b) ++ s) = to_bytes (if b then "true" else "false")%string ++ s) as -> by (by destruct b).
    destruct b; [by rewrite (proj1 (proj2 (token_of_lit s)))|by rewrite (proj2 (proj2 (token_of_lit s)))].
  - destruct (number_starts lit Hn) as (b & l & -> & Hb). destruct (number_token b l s Hb) as (Hsp' & Htok & _).
    cbn [render app]. rewrite skip_ws_none, Htok by done. change (b :: l ++ s) with ((b :: l) ++ s).
    by rewrite number_ext.
  - cbn [render]. rewrite quote_app. cbn [skip_ws is_space token_of]. by rewrite string_lit_quote.
  - rewrite render_JArr in *. cbn [app skip_ws is_space token_of].
    pose proof (nesting_nonneg (JArr js)). cbn [nesting] in *.
    assert (0 <= foldr (fun j n => Z.max (nesting j) n) 0 js) by (clear; induction js; simpl; lia).
    rewrite (proj2 (Z.leb_gt _ _)) by lia.
    destruct js as [|j js]; [done|].
    assert (next x5d (render_elems nl sp k true (j :: js) ++ s) = None) as ->.
    { destruct (render_starts nl sp (S k) j) as (b & l & Hp & Hsp' & Hb & _); [apply Hn|].
      cbn [render_elems sep app]. rewrite <- !(assoc_L (++)), next_blank, Hp by done. by apply next_miss. }
    rewrite (elements_render nl sp Hnl); [done|done|done|done|lia|]. cbn [length app] in Hf. lia.
  - rewrite render_JObj in *. cbn [app skip_ws is_space token_of].
    cbn [nesting] in *.
    assert (0 <= foldr (fun m n => Z.max (nesting m.2) n) 0 ms) by (clear; induction ms; simpl; lia).
    rewrite (proj2 (Z.leb_gt _ _)) by lia.
    destruct ms as [|[key j] ms]; [done|].
    assert (next x7d (render_members nl sp k true ((key, j) :: ms) ++ s) = None) as ->.
    { cbn [render_members sep app]. rewrite <- !(assoc_L (++)), next_blank, quote_app by done. by apply next_miss. }
    rewrite (members_render nl sp Hnl Hsp); [done|done|done|done|lia|]. cbn [length app] in Hf. lia.
Qed.

(** [print] puts no white space anywhere. *)
Lemma print_render k j : print j = render (fun _ => []) [] k j.
Proof.
  revert k. induction j as [|b|lit|str|js IH|ms IH] using json_induction; intros k; try done.
  - rewrite render_JArr. cbn [print]. f_equal. generalize true. induction IH as [|j js Hj _ IH]; intros first; [by destruct first|].
    cbn [render_elems app]. by rewrite (Hj (S k)), IH.
  - rewrite render_JObj. cbn [print]. f_equal. generalize true. induction IH as [|[key j] ms Hj _ IH]; intros first; [by destruct first|].
    cbn [render_members app]. cbn [snd] in Hj. by rewrite (Hj (S k)), IH.
Qed.

Lemma parse_render nl sp j s : (forall k, blank (nl k)) -> blank sp ->
  numbers_ok j -> nesting j <= maxNestingDepth -> stops s -> parse (render nl sp 0 j ++ s) = Some (valid_tree j, s).
Proof. intros Hnl Hsp Hn Hd Hs. apply (value_render nl sp Hnl Hsp j _ 0 0%nat []); [done|done|done|constructor|lia]. Qed.

Lemma Unmarshal_render nl sp j : (forall k, blank (nl k)) -> blank sp ->
  numbers_ok j -> nesting j <= maxNestingDepth -> Unmarshal (render nl sp 0 j) = Some (valid_tree j).
Proof. intros Hnl Hsp Hn Hd. unfold Unmarshal. by rewrite <- (app_nil_r (render nl sp 0 j)), parse_render. Qed.

(** The whole text is the value. *)
Lemma Unmarshal_print j : numbers_ok j -> nesting j <= maxNestingDepth -> Unmarshal (print j) = Some (valid_tree j).
Proof. rewrite (print_render 0). apply Unmarshal_render; [intros _|]; constructor. Qed.

(** The value at the front of a stream, whatever follows an object. *)
Lemma Decode_print ms s clean : numbers_ok (JObj ms) -> nesting (JObj ms) <= maxNestingDepth ->
  stops s -> Decode (print (JObj ms) ++ s) clean = Some (valid_tree (JObj ms)).
Proof.
  intros Hn Hd Hs. unfold Decode. rewrite (print_render 0), parse_render by (done || (intros; constructor)).
  cbn [mbind option_bind]. destruct s; [|done]. cbn [valid_tree self_delimited]. by rewrite orb_true_r.
Qed.

(** ** Indentation *)

(** A byte that is neither white space nor punctuation. *)
Definition ordinary (b : Byte.byte) : bool :=
  match b with x20 | x09 | x0a | x0d | x7b | x5b | x2c | x3a | x7d | x5d | x22 => false | _ => true end.

Lemma span_digits_ordinary s d r : span_digits s = (d, r) -> Forall ordinary d.
Proof.
  revert d r. induction s as [|b s IH]; intros d r Hs; cbn [span_digits] in Hs; [by simplify_eq|].
  destruct (digit b) eqn:Hb; [|by simplify_eq]. destruct (span_digits s) as [d' r'] eqn:E. simplify_eq.
  constructor; [by destruct b|by eapply IH].
Qed.

Lemma digits1_ordinary s d r : digits1 s = Some (d, r) -> Forall ordinary d.
Proof. unfold digits1. destruct (span_digits s) as [d' r'] eqn:E. destruct d'; [done|]. intros [= <- <-]. by eapply span_digits_ordinary. Qed.

Lemma number_ordinary s l r : number s = Some (l, r) -> Forall ordinary l.
Proof.
  unfold number. assert (Forall ordinary (minus_part s).1) as Hm by (destruct s as [|[]]; repeat constructor).
  destruct (minus_part s) as [m s0]. intros Hn. invert_some. repeat (apply Forall_app; split).
  - done.
  - destruct s0 as [|[] s0]; first [by eapply digits1_ordinary|simplify_eq/=; by repeat constructor].
  - match goal with H : frac_part ?x = _ |- _ => destruct x as [|[] ?]; cbn [frac_part] in H; invert_some; try constructor end; [done|].
    by eapply digits1_ordinary.
  - match goal with H : exp_part ?x = _ |- _ => destruct x as [|[] y]; cbn [exp_part] in H; try (simplify_eq; constructor) end;
      (assert (Forall ordinary (sign_part y).1) as Hg by (destruct y as [|[]]; repeat constructor));
      destruct (sign_part y) as [g y1]; invert_some; (constructor; [done|]); apply Forall_app; (split; [done|by eapply digits1_ordinary]).
Qed.

Section indent.
Context (prefix indent : bytes).
#[local] Abbreviation go := (indent_bytes prefix indent).
#[local] Abbreviation nl := (newline prefix indent).

(** What is written in front of the first element of an array, and its depth. *)
Definition lead (need : bool) (depth : nat) : bytes := if need then nl (S depth) else [].
Definition deeper (need : bool) (depth : nat) : nat := if need then S depth else depth.

Lemma indent_ordinary w need d s : w <> [] -> Forall ordinary w ->
  go Outside need d (w ++ s) = lead need d ++ w ++ go Outside false (deeper need d) s.
Proof.
  intros Hne Hw. revert need d Hne. induction Hw as [|b w Hb Hw IH]; intros need d Hne; [done|].
  assert (go Outside need d ((b :: w) ++ s) = lead need d ++ b :: go Outside false (deeper need d) (w ++ s)) as ->
    by (destruct b; (done || by destruct need)).
  destruct w as [|c w]; [done|]. by rewrite IH.
Qed.

Lemma indent_inside bs need d s : Forall (fun b => b <> x22 /\ b <> x5c) bs -> go Inside need d (bs ++ s) = bs ++ go Inside need d s.
Proof.
  induction 1 as [|b bs [Hq Hb] _ IH]; [done|]. cbn [app indent_bytes]. unfold after_quoted at 1.
  by rewrite !bool_decide_eq_false_2, IH by done.
Qed.

Lemma hex_byte_plain n : 0 <= n < 16 -> hex_byte n <> x22 /\ hex_byte n <> x5c.
Proof. intros Hn. pose proof (hex_val_byte n Hn) as Hh. split; intros E; by rewrite E in Hh. Qed.

Lemma indent_spelling r w need d s : spelling r w -> go Inside need d (w ++ s) = w ++ go Inside need d s.
Proof.
  assert (forall c t, go Inside need d (x5c :: c :: t) = x5c :: c :: go Inside need d t) as Hesc by done.
  destruct 1 as [Hp|c b He Hc Hb|Hr Hs]; [|apply Hesc|].
  - apply indent_inside. eapply Forall_impl; [by apply encode_rune_plain|]. naive_solver.
  - unfold u_print. cbn [app]. rewrite Hesc. do 2 f_equal.
    apply (indent_inside [hex_byte (r / 4096); hex_byte (r / 256 mod 16); hex_byte (r / 16 mod 16); hex_byte (r mod 16)]).
    repeat constructor; apply hex_byte_plain; Z.div_mod_to_equations; lia.
Qed.

(** A string literal is copied, whatever it holds. *)
Lemma indent_quote k need d s : go Outside need d (quote k ++ s) = lead need d ++ quote k ++ go Outside false (deeper need d) s.
Proof.
  assert (forall bs, go Outside need d (x22 :: bs) = lead need d ++ x22 :: go Inside false (deeper need d) bs) as Hq by (by destruct need).
  rewrite !quote_app, Hq. do 2 f_equal. destruct (quote_fuel_spells (length k) k) as (ws & -> & Hws); [done|].
  induction Hws as [|r w rs ws Hw _ IH]; [done|]. cbn [concat]. rewrite <- !(assoc_L (++)), (indent_spelling r w) by done. by rewrite IH.
Qed.

(** [Indent] of a printed value is its rendering with new lines and a space after
    each colon. *)
Definition indents (j : json) : Prop := forall need d s, numbers_ok j ->
  go Outside need d (print j ++ s) = lead need d ++ render nl [x20] (deeper need d) j ++ go Outside false (deeper need d) s.

Lemma indent_elems js first d s : Forall indents js -> numbers_ok (JArr js) ->
  go Outside first (deeper (negb first) d) (render_elems (fun _ => []) [] 0 first js ++ s) =
  render_elems nl [x20] d first js ++ go Outside false d s.
Proof.
  intros Hjs. revert first. induction Hjs as [|j js Hj _ IH]; intros first Hn.
  { destruct first; [done|]. cbn [render_elems]. by rewrite <- !(assoc_L (++)). }
  destruct Hn as [Hnj Hnjs]. cbn [render_elems app]. rewrite <- !(assoc_L (++)), <- print_render.
  destruct first; cbn [sep negb app].
  - rewrite Hj by done. cbn [lead deeper]. do 2 f_equal. by apply (IH false).
  - assert (forall t, go Outside false (deeper true d) (x2c :: t) = x2c :: nl (S d) ++ go Outside false (S d) t) as -> by done.
    rewrite Hj by done. cbn [lead deeper app]. do 3 f_equal. by apply (IH false).
Qed.

Lemma indent_members ms first d s : Forall (fun m => indents m.2) ms -> numbers_ok (JObj ms) ->
  go Outside first (deeper (negb first) d) (render_members (fun _ => []) [] 0 first ms ++ s) =
  render_members nl [x20] d first ms ++ go Outside false d s.
Proof.
  intros Hms. revert first. induction Hms as [|[k j] ms Hj _ IH]; intros first Hn.
  { destruct first; [done|]. cbn [render_members]. by rewrite <- !(assoc_L (++)). }
  destruct Hn as [Hnj Hnms]. cbn [snd] in *. cbn [render_members app]. rewrite <- !(assoc_L (++)). cbn [app].
  rewrite <- !(assoc_L (++)), <- print_render.
  assert (forall t, go Outside false (S d) (x3a :: t) = x3a :: x20 :: go Outside false (S d) t) as Hcolon by done.
  assert (go Outside first (deeper (negb first) d) (sep first ++ quote k ++ x3a :: print j ++ render_members (fun _ => []) [] 0 false ms ++ s) =
    sep first ++ nl (S d) ++ quote k ++ x3a :: x20 :: go Outside false (S d) (print j ++ render_members (fun _ => []) [] 0 false ms ++ s)) as ->.
  { rewrite <- Hcolon. destruct first; cbn [sep negb app]; [by rewrite indent_quote|].
    assert (forall t, go Outside false (deeper true d) (x2c :: t) = x2c :: nl (S d) ++ go Outside false (S d) t) as -> by done.
    by rewrite indent_quote. }
  rewrite Hj by done. cbn [lead deeper app]. do 6 f_equal. by apply (IH false).
Qed.

Lemma indent_print j : indents j.
Proof.
  induction j as [|b|lit|str|js IH|ms IH] using json_induction; intros need d s Hn.
  - by apply indent_ordinary; [|repeat constructor].
  - by destruct b; apply indent_ordinary; [|repeat constructor| |repeat constructor].
  - cbn [print render]. apply indent_ordinary; [by apply number_app in Hn as []|by eapply number_ordinary].
  - apply indent_quote.
  - rewrite (print_render 0), !render_JArr. cbn [app].
    assert (forall t, go Outside need d (x5b :: t) = lead need d ++ x5b :: go Outside true (deeper need d) t) as -> by (by destruct need).
    do 2 f_equal. by apply (indent_elems js true).
  - rewrite (print_render 0), !render_JObj. cbn [app].
    assert (forall t, go Outside need d (x7b :: t) = lead need d ++ x7b :: go Outside true (deeper need d) t) as -> by (by destruct need).
    do 2 f_equal. by apply (indent_members ms true).
Qed.

(** Indentation by white space changes nothing of what a printed text says. *)
Lemma Indent_print j : blank prefix -> blank indent -> numbers_ok j -> nesting j <= maxNestingDepth ->
  exists t, Indent prefix indent (print j) = Some t /\ Unmarshal t = Some (valid_tree j).
Proof.
  intros Hp Hi Hn Hd. unfold Indent, Valid. rewrite Unmarshal_print by done. rewrite bool_decide_eq_true_2 by done.
  eexists. split; [done|]. rewrite <- (app_nil_r (print j)), indent_print by done. cbn [lead deeper app indent_bytes]. rewrite app_nil_r.
  apply Unmarshal_render; [|by repeat constructor|done|done]. intros k. constructor; [done|]. apply Forall_app. split; [done|].
  induction k as [|k IH]; [constructor|]. cbn [replicate concat]. by apply Forall_app.
Qed.
End indent.

(** ** Decoding a struct *)

(** Names that do not fold together. *)
Definition distinct_names {A} (fs : fields A) : Prop := NoDup ((fun f => foldName (to_bytes f.1)) <$> fs).

Lemma field_hit {A} (fs : fields A) n (d : dec A) :
  distinct_names fs -> (n, d) ∈ fs -> field fs (to_bytes n) = d.
Proof.
  unfold distinct_names, field. induction fs as [|[n' d'] fs IH]; intros Hnd Hin; [by apply not_elem_of_nil in Hin|].
  apply NoDup_cons in Hnd as [Hn Hnd]. cbn [List.find fst snd]. case_bool_decide as Hf.
  - apply elem_of_cons in Hin as [[= -> ->]|Hin]; [done|]. destruct Hn. apply list_elem_of_fmap. by exists (n, d).
  - apply elem_of_cons in Hin as [[= -> ->]|Hin]; [done|]. by apply IH.
Qed.

(** The decoders of the fields, one value each, in order. *)
Fixpoint decFields {A} (fs : fields A) (js : list json) (v : A) : option A :=
  match fs, js with
  | f :: fs', j :: js' => v' ← f.2 j v; decFields fs' js' v'
  | _, _ => Some v
  end.

Lemma decMembers_in_order {A} (all fs : fields A) (ms : list (bytes * json)) v :
  distinct_names all -> (forall f, f ∈ fs -> f ∈ all) -> ms.*1 = (fun f => to_bytes f.1) <$> fs ->
  decMembers all ms v = decFields fs ms.*2 v.
Proof.
  intros Hnd. revert ms v. induction fs as [|[n d] fs IH]; intros ms v Hin Hms; destruct ms as [|[k j] ms]; try done.
  injection Hms as -> Hms. cbn [decMembers decFields fmap list_fmap fst snd].
  rewrite (field_hit all n d); [|done|apply Hin; by left].
  destruct (d j v) as [v'|]; [|done]. apply IH; [|done]. intros f Hf. apply Hin. by right.
Qed.

(** A struct written in the order of its fields is decoded field by field. *)
Lemma decStruct_print {A} (fs : fields A) (ms : list (bytes * json)) v :
  distinct_names fs -> ms.*1 = (fun f => to_bytes f.1) <$> fs ->
  Forall (fun f => sanitize (to_bytes f.1) = to_bytes f.1) fs ->
  decStruct fs (valid_tree (JObj ms)) v = decFields fs (valid_tree <$> ms.*2) v.
Proof.
  intros Hnd Hms Hv. cbn [valid_tree decStruct].
  assert (((fun m => (sanitize m.1, valid_tree m.2)) <$> ms).*1 = (fun f => to_bytes f.1) <$> fs) as Hn.
  { clear Hnd. revert ms Hms. induction Hv as [|f fs Hf _ IH]; intros ms Hms; destruct ms as [|m ms]; try done.
    injection Hms as Hm Hms. cbn [fmap list_fmap fst]. rewrite Hm, Hf. f_equal. by apply IH. }
  rewrite (decMembers_in_order fs fs) by done. f_equal. clear.
  induction ms as [|m ms IH]; [done|]. cbn [fmap list_fmap snd]. by f_equal.
Qed.

End JsonFacts.
