(* ===== verification/Mime.v ===== *)
(** * Media types (mime.ParseMediaType of Go's standard library)

    [ParseMediaType] as the HTTP API uses it: the media type of a header value, or
    [None] when the value is malformed.  The parameters are only checked. *)

From S2P Require Import Prelude Text Strconv.
Open Scope Z_scope.

Module Mime.
Import Strings Strconv.

(** The characters a token may not hold: ()<>@,;:\/[]?= and the double quote. *)
Definition isTSpecial (z : Z) : bool :=
  existsb (Z.eqb z) [0x28; 0x29; 0x3C; 0x3E; 0x40; 0x2C; 0x3B; 0x3A; 0x5C; 0x22; 0x2F; 0x5B; 0x5D; 0x3F; 0x3D].

Definition isTokenChar (b : Byte.byte) : bool :=
  (0x20 <? b2z b) && (b2z b <? 0x7F) && negb (isTSpecial (b2z b)).

Fixpoint consumeToken (s : bytes) : bytes * bytes :=
  match s with
  | b :: s' => if isTokenChar b then let '(t, r) := consumeToken s' in (b :: t, r) else ([], s)
  | [] => ([], [])
  end.

(** The rest of a quoted string; [None] when it does not end. *)
Fixpoint quoted (s : bytes) : option (bytes * bytes) :=
  match s with
  | [] => None
  | b :: s' =>
      let plain :=
        if bool_decide (b = x0d) || bool_decide (b = x0a) then None
        else '(v, r) ← quoted s'; Some (b :: v, r) in
      if bool_decide (b = x22) then Some ([], s') else
      match s' with
      | c :: s'' =>
          if bool_decide (b = x5c) && isTSpecial (b2z c) then '(v, r) ← quoted s''; Some (c :: v, r) else plain
      | [] => plain
      end
  end.

(** [consumeValue]; [None] stands for an empty value that consumes nothing. *)
Definition consumeValue (s : bytes) : option (bytes * bytes) :=
  match s with
  | x22 :: s' => quoted s'
  | _ => match consumeToken s with ([], _) => None | p => Some p end
  end.

(** [consumeMediaParam]: the name, the value and the rest. *)
Definition consumeMediaParam (s : bytes) : option (bytes * bytes * bytes) :=
  r ← CutPrefix (trim_left s) [x3b];
  let '(param, r) := consumeToken (trim_left r) in
  match param with
  | [] => None
  | _ =>
      r ← CutPrefix (trim_left r) [x3d];
      '(v, rest) ← consumeValue (trim_left r);
      Some (ToLower param, v, rest)
  end.

(** The loop over the parameters, [seen] so far; each consumes some of the text. *)
Fixpoint mediaParams (fuel : nat) (seen : list (bytes * bytes)) (s : bytes) : bool :=
  match fuel with
  | O => false
  | S fuel =>
      match trim_left s with
      | [] => true
      | s' =>
          match consumeMediaParam s' with
          | None => bool_decide (TrimSpace s' = [x3b])
          | Some (key, v, rest) =>
              if existsb (fun kv => bool_decide (kv.1 = key) && negb (bool_decide (kv.2 = v))) seen then false
              else mediaParams fuel ((key, v) :: seen) rest
          end
      end
  end.

(** [strings.Cut(v, ";")] *)
Fixpoint cutSemicolon (s : bytes) : bytes * bytes :=
  match s with
  | b :: s' => if bool_decide (b = x3b) then ([], s) else let '(t, r) := cutSemicolon s' in (b :: t, r)
  | [] => ([], [])
  end.

(** [checkMediaTypeDisposition] *)
Definition wellFormed (s : bytes) : bool :=
  match consumeToken s with
  | ([], _) => false
  | (_, []) => true
  | (_, x2f :: r) => match consumeToken r with ([], _) => false | (_, []) => true | _ => false end
  | _ => false
  end.

Definition ParseMediaType (v : bytes) : option bytes :=
  let '(base, params) := cutSemicolon v in
  let mediatype := TrimSpace (ToLower base) in
  if wellFormed mediatype && mediaParams (S (length v)) [] params then Some mediatype else None.

Definition json_type : bytes := to_bytes "application/json".

Example media_types : (fun s => bool_decide (ParseMediaType (to_bytes s) = Some json_type)) <$>
  ["application/json"; " Application/JSON ; charset=utf-8"; "application/json;"; "application/json; a=b; a=b";
   "application/json; a=b; a=c"; "application/json; charset"; "text/plain"; ""; "application/json/x"; "application/json, text/plain"]%string
  = [true; true; true; true; false; false; false; false; false; false].
Proof. vm_compute. reflexivity. Qed.

(** Every parameter consumes text, so the fuel is enough. *)
Lemma consumeToken_app s : (consumeToken s).1 ++ (consumeToken s).2 = s.
Proof.
  induction s as [|b s IH]; [done|]. cbn [consumeToken]. case_if; [|done].
  destruct (consumeToken s) as [t r]. simpl in *. by f_equal.
Qed.

Lemma quoted_shorter s v r : quoted s = Some (v, r) -> (length r < length s)%nat.
Proof.
  revert v r. induction s as [s IH] using (induction_ltof1 _ (@length _)); unfold ltof in IH. intros v r Hq.
  destruct s as [|b s]; [done|]. cbn [quoted] in Hq. case_bool_decide as Hb; [simplify_eq; simpl; lia|].
  assert (forall v r, (if bool_decide (b = x0d) || bool_decide (b = x0a) then None
    else '(v, r) ← quoted s; Some (b :: v, r)) = Some (v, r) -> (length r < length (b :: s))%nat) as Hplain.
  { clear Hq. intros v0 r0 Hq. case_if in Hq; [done|]. apply bind_Some in Hq as ([v' r'] & Hq & [= <- <-]).
    apply IH in Hq; simpl in *; lia. }
  destruct s as [|c s2]; [by apply (Hplain v)|]. case_if in Hq; [|by apply (Hplain v)].
  apply bind_Some in Hq as ([v' r'] & Hq & [= <- <-]). apply IH in Hq; simpl in *; lia.
Qed.

Lemma consumeValue_shorter s v r : consumeValue s = Some (v, r) -> (length r <= length s)%nat.
Proof.
  intros Hc. destruct s as [|b s]; [done|]. destruct (decide (b = x22)) as [->|Hb].
  - apply quoted_shorter in Hc. simpl. lia.
  - assert (match consumeToken (b :: s) with ([], _) => None | p => Some p end = Some (v, r)) as Ht by (by destruct b).
    pose proof (consumeToken_app (b :: s)) as Happ. destruct (consumeToken (b :: s)) as [t r'].
    destruct t; [done|]. simplify_eq. simpl fst in Happ. rewrite <- Happ, length_app. simpl. lia.
Qed.

Lemma trim_left_shorter s : (length (trim_left s) <= length s)%nat.
Proof.
  unfold trim_left. generalize (length s) at 1. intros fuel. revert s. induction fuel as [|fuel IH]; intros s; [done|].
  destruct s as [|b s]; [done|]. cbn [trim_left_fuel]. destruct (Utf8.decode_rune (b :: s)) as [r w]. case_if; [|done].
  etrans; [apply IH|]. rewrite length_drop. lia.
Qed.

Lemma consumeMediaParam_shorter s k v r : consumeMediaParam s = Some (k, v, r) -> (length r < length s)%nat.
Proof.
  intros (r1 & H1 & Hr)%bind_Some. apply CutPrefix_Some in H1. pose proof (trim_left_shorter s) as L1.
  pose proof (trim_left_shorter r1) as L2. pose proof (consumeToken_app (trim_left r1)) as Happ.
  destruct (consumeToken (trim_left r1)) as [param r2]. destruct param as [|b param]; [done|].
  apply bind_Some in Hr as (r3 & H3 & Hr). apply CutPrefix_Some in H3. pose proof (trim_left_shorter r2) as L3.
  apply bind_Some in Hr as ([v' rest] & Hv & [= <- <- <-]). apply consumeValue_shorter in Hv.
  pose proof (trim_left_shorter r3) as L4.
  apply (f_equal length) in H1, H3, Happ. rewrite ?length_app in *. simpl in *. lia.
Qed.

Lemma mediaParams_fuel fuel fuel' seen s : (length s < fuel)%nat -> (length s < fuel')%nat ->
  mediaParams fuel seen s = mediaParams fuel' seen s.
Proof.
  revert fuel' seen s. induction fuel as [|fuel IH]; intros [|fuel'] seen s Hf Hf'; try lia. cbn [mediaParams].
  pose proof (trim_left_shorter s) as Hl. destruct (trim_left s) as [|b s']; [done|].
  destruct (consumeMediaParam (b :: s')) as [[[k v] rest]|] eqn:Hp; [|done]. apply consumeMediaParam_shorter in Hp.
  case_if; [done|]. apply IH; lia.
Qed.

End Mime.
