(* ===== verification/Metrics.v ===== *)
(** * The Prometheus metrics (internal/metrics/metrics.go)

    The Prometheus client library is outside the repository: it is the class
    [Prometheus], a registry with what is registered there and the series that were
    recorded.  Its calls can panic; [panicked] tells whether one did, and
    [PrometheusLaws] says when they do not.  A nil [*Metrics] is [None], on which
    every method does nothing. *)

From S2P Require Import Prelude Text Float Strconv.
Open Scope Z_scope.

(** ** The library *)

Inductive Kind := CounterKind | GaugeKind | HistogramKind.

#[export] Instance Kind_eq_dec : EqDecision Kind.
Proof. solve_decision. Defined.

Record Collector := mkCollector { cKind : Kind; cName : string; cHelp : string; cLabels : list string }.

(** What is registered: the collectors of the Go runtime and of the process, and the
    program's own. *)
Inductive Registered := GoCollector | ProcessCollector | Own (c : Collector).

Class Prometheus := {
  Registry : Type;
  NewRegistry : Registry;
  MustRegister : list Registered -> Registry -> Registry;
  registered : Registry -> list Registered;
  panicked : Registry -> bool;
  (* the value of a series; [None] when the series does not exist *)
  series : Registry -> string -> list string -> option float64;
  (* [c.WithLabelValues(labels...).Set(v)] and so on *)
  GaugeSet : Collector -> list string -> float64 -> Registry -> Registry;
  CounterInc : Collector -> list string -> Registry -> Registry;
  HistogramObserve : Collector -> list string -> Z -> Registry -> Registry;
  (* what [promhttp] writes of a registry *)
  Gather : Registry -> result bytes;
}.

(** The names that [MustRegister] requires to be new. *)
Definition names (rs : list Registered) : list string := omap (fun r => match r with Own c => Some (cName c) | _ => None end) rs.

(** [labels] are values for the labels of [c]: one each, in UTF-8. *)
Definition fits (c : Collector) (labels : list string) : Prop :=
  length labels = length (cLabels c) /\ Forall (fun l => Utf8.Valid (to_bytes l) = true) labels.

(** A call on the collector [c] does not panic if the labels fit, leaves what is
    registered, and changes only one series. *)
Definition records `{Prometheus} (c : Collector) (labels : list string) (op : Registry -> Registry) : Prop := forall r,
  (fits c labels -> panicked r = false -> panicked (op r) = false) /\ registered (op r) = registered r /\
  forall name labels', (cName c, labels) <> (name, labels') -> series (op r) name labels' = series r name labels'.

Class PrometheusLaws `{Prometheus} : Prop := {
  NewRegistry_empty : registered NewRegistry = [] /\ panicked NewRegistry = false /\ forall name labels, series NewRegistry name labels = None;
  MustRegister_new cs r : NoDup (names (registered r ++ cs)) ->
    registered (MustRegister cs r) = registered r ++ cs /\ panicked (MustRegister cs r) = panicked r /\
    forall name labels, series (MustRegister cs r) name labels = series r name labels;
  GaugeSet_records c labels v : records c labels (GaugeSet c labels v);
  CounterInc_records c labels : records c labels (CounterInc c labels);
  HistogramObserve_records c labels d : records c labels (HistogramObserve c labels d);
  series_GaugeSet c labels v r : fits c labels -> series (GaugeSet c labels v r) (cName c) labels = Some v;
}.

Module Metrics.

(** ** The collectors *)

Definition unknownLabel : string := "unknown".

Definition bootstrapStages : list string := ["none"; "l1_done"; "l2_partial"; "l2_done"; "unknown"]%string.

Definition broadcastTotal : Collector :=
  mkCollector CounterKind "txgen_broadcast_total" "Total broadcasts by kind and result" ["kind"; "result"]%string.
Definition broadcastLatency : Collector := mkCollector HistogramKind "txgen_broadcast_latency_seconds" "Broadcast latency" ["kind"%string].
Definition queueDepth : Collector := mkCollector GaugeKind "txgen_queue_depth" "Current queue depth" [].
Definition chainsActive : Collector := mkCollector GaugeKind "txgen_chains_active" "Active chains" [].
Definition tpsTarget : Collector := mkCollector GaugeKind "txgen_tps_target" "Target TPS" [].
Definition sseConnected : Collector := mkCollector GaugeKind "txgen_sse_connected" "SSE connected" ["stream"%string].
Definition sseEventTotal : Collector := mkCollector CounterKind "txgen_sse_event_total" "SSE events by stream" ["stream"%string].
Definition sseDisconnectTotal : Collector :=
  mkCollector CounterKind "txgen_sse_disconnect_total" "SSE disconnects by stream" ["stream"%string].
Definition reorgTotal : Collector := mkCollector CounterKind "txgen_reorg_total" "Reorg events by depth" ["depth"%string].
Definition bootstrapStage : Collector := mkCollector GaugeKind "txgen_bootstrap_stage" "Bootstrap stage" ["stage"%string].
Definition panicTotal : Collector := mkCollector CounterKind "txgen_panic_total" "Panics by goroutine" ["goroutine"%string].
Definition authFailTotal : Collector := mkCollector CounterKind "txgen_auth_fail_total" "Auth failures" [].
Definition chainTerminatedTotal : Collector := mkCollector CounterKind "txgen_chain_terminated_total" "Chains terminated" ["reason"%string].

(** The arguments of [MustRegister], in its order. *)
Definition collectors : list Registered :=
  GoCollector :: ProcessCollector :: (Own <$> [broadcastTotal; broadcastLatency; queueDepth; chainsActive; tpsTarget; sseConnected;
    sseEventTotal; sseDisconnectTotal; reorgTotal; bootstrapStage; panicTotal; authFailTotal; chainTerminatedTotal]).

(** [labelOrUnknown] *)
Definition labelOrUnknown (value : string) : string :=
  if bool_decide (value = ""%string) then unknownLabel else value.

Section metrics.
Context `{Prometheus}.

(** ** The methods *)

(** A [*Metrics] *)
Definition t : Type := option Registry.

Definition New : t := Some (MustRegister collectors NewRegistry).

(** [if m == nil { return }] *)
Definition record (f : Registry -> Registry) (m : t) : t := f <$> m.

Definition IncBroadcast (kind result : string) : t -> t := record (CounterInc broadcastTotal [kind; result]).
Definition ObserveBroadcastLatency (kind : string) (d : Z) : t -> t := record (HistogramObserve broadcastLatency [kind] d).
Definition SetChainsActive (n : Z) : t -> t := record (GaugeSet chainsActive [] (of_int n)).
Definition SetTPSTarget (n : Z) : t -> t := record (GaugeSet tpsTarget [] (of_int n)).
Definition SetQueueDepth (n : Z) : t -> t := record (GaugeSet queueDepth [] (of_int n)).
Definition SetSSEConnected (connected : bool) (stream : string) : t -> t :=
  record (GaugeSet sseConnected [labelOrUnknown stream] (if connected then of_int 1 else of_int 0)).
Definition IncSSEEvent (stream : string) : t -> t := record (CounterInc sseEventTotal [labelOrUnknown stream]).
Definition IncSSEDisconnect (stream : string) : t -> t := record (CounterInc sseDisconnectTotal [labelOrUnknown stream]).
Definition IncReorg (depth : Z) : t -> t := record (CounterInc reorgTotal [pretty depth]).
Definition IncAuthFail : t -> t := record (CounterInc authFailTotal []).
Definition IncChainTerminated (reason : string) : t -> t := record (CounterInc chainTerminatedTotal [labelOrUnknown reason]).
Definition IncPanic (goroutine : string) : t -> t := record (CounterInc panicTotal [goroutine]).

(** The gauge of one stage. *)
Definition stageGauge (stage : string) (v : Z) : Registry -> Registry := GaugeSet bootstrapStage [stage] (of_int v).

Definition SetBootstrapStage (stage : string) : t -> t :=
  record (fun r => stageGauge (labelOrUnknown stage) 1
                     (foldl (fun r known => stageGauge known 0 r) r bootstrapStages)).

(** [Handler]: the status and the text of an answer.  [promhttp] keeps a counter of
    its own errors in the registry too, which the program does not read. *)
Definition Handler (m : t) : Z * option bytes :=
  match m with
  | None => (404, None)
  | Some r => match Gather r with Ok text => (200, Some text) | Err _ => (500, None) end
  end.

(** [Registry] *)
Definition registry (m : t) : option Registry := m.

(** The methods that record, each with text that is UTF-8. *)
Inductive call : (t -> t) -> Prop :=
  | call_broadcast kind result : Utf8.Valid (to_bytes kind) = true -> Utf8.Valid (to_bytes result) = true -> call (IncBroadcast kind result)
  | call_latency kind d : Utf8.Valid (to_bytes kind) = true -> call (ObserveBroadcastLatency kind d)
  | call_chains n : call (SetChainsActive n)
  | call_tps n : call (SetTPSTarget n)
  | call_queue n : call (SetQueueDepth n)
  | call_connected b stream : Utf8.Valid (to_bytes stream) = true -> call (SetSSEConnected b stream)
  | call_event stream : Utf8.Valid (to_bytes stream) = true -> call (IncSSEEvent stream)
  | call_disconnect stream : Utf8.Valid (to_bytes stream) = true -> call (IncSSEDisconnect stream)
  | call_reorg depth : call (IncReorg depth)
  | call_auth : call IncAuthFail
  | call_terminated reason : Utf8.Valid (to_bytes reason) = true -> call (IncChainTerminated reason)
  | call_stage stage : Utf8.Valid (to_bytes stage) = true -> call (SetBootstrapStage stage)
  | call_panic goroutine : Utf8.Valid (to_bytes goroutine) = true -> call (IncPanic goroutine).

Section laws.
Context `{!PrometheusLaws}.

(** ** What is recorded *)

Lemma series_GaugeSet_ne c labels name labels' v r : (cName c, labels) <> (name, labels') ->
  series (GaugeSet c labels v r) name labels' = series r name labels'.
Proof. apply (GaugeSet_records c labels v r). Qed.

(** Nothing panicked, all is registered, and every series is of what is registered. *)
Record sound (r : Registry) : Prop := {
  sound_calm : panicked r = false;
  sound_registered : registered r = collectors;
  sound_series name labels : series r name labels <> None -> name ∈ names collectors;
}.

Lemma New_sound : sound (MustRegister collectors NewRegistry).
Proof.
  destruct NewRegistry_empty as (Hr & Hp & Hs). destruct (MustRegister_new collectors NewRegistry) as (Hr' & Hp' & Hs').
  - rewrite Hr. apply (bool_decide_eq_true _). vm_compute. reflexivity.
  - split; [congruence|by rewrite Hr', Hr|]. intros name labels. by rewrite Hs', Hs.
Qed.

Lemma records_sound c labels op r : records c labels op -> Own c ∈ collectors -> fits c labels -> sound r -> sound (op r).
Proof.
  intros Hop Hin Hfit [Hp Hr Hs]. destruct (Hop r) as (Hp' & Hr' & Hs'). split; [by apply Hp'|congruence|].
  intros name labels' Hx. destruct (decide ((cName c, labels) = (name, labels'))) as [[= <- _]|Hne].
  - apply list_elem_of_omap. by exists (Own c).
  - rewrite Hs' in Hx by done. by eapply Hs.
Qed.

Lemma Valid_label s : Utf8.Valid (to_bytes s) = true -> Utf8.Valid (to_bytes (labelOrUnknown s)) = true.
Proof. intros Hs. unfold labelOrUnknown. by case_bool_decide. Qed.

Lemma stage_sound stage v r : Utf8.Valid (to_bytes stage) = true -> sound r -> sound (stageGauge stage v r).
Proof.
  intros Hs. apply (records_sound bootstrapStage [stage]); [apply GaugeSet_records|by repeat constructor|]. split; [done|by constructor].
Qed.

#[local] Hint Resolve GaugeSet_records CounterInc_records HistogramObserve_records Valid_label : core.

Lemma call_sound f r : call f -> sound r -> exists r', f (Some r) = Some r' /\ sound r'.
Proof.
  assert (forall c labels op, records c labels op -> Own c ∈ collectors -> length labels = length (cLabels c) ->
    Forall (fun l => Utf8.Valid (to_bytes l) = true) labels -> sound r -> exists r', record op (Some r) = Some r' /\ sound r') as Hone.
  { intros c labels op Hop Hin Hl Hv Hr. exists (op r). split; [done|]. by eapply records_sound. }
  intros Hf Hr. destruct Hf; [..|eexists|]; [eapply Hone; [auto|by repeat constructor|done| |done]..| |eapply Hone; [auto|by repeat constructor|done| |done]];
    try by (repeat constructor; auto).
  - repeat constructor. apply Utf8.Valid_ascii, Strconv.pretty_ascii.
  - split; [done|]. apply stage_sound; [auto|]. cbn [foldl bootstrapStages]. repeat (apply stage_sound; [by vm_compute|]). done.
Qed.

(** C34: recording never panics and is never lost.  After any sequence of calls on new
    metrics no call into Prometheus has panicked, for a collector registered twice or for
    labels that do not fit; everything is still registered, and every series that was
    recorded belongs to something registered, so that it is served. *)
Theorem metrics_sound fs : Forall call fs -> exists r,
  foldl (fun m f => f m) New fs = Some r /\ panicked r = false /\ registered r = collectors /\
  forall name labels, series r name labels <> None -> name ∈ names (registered r).
Proof.
  intros Hfs. assert (exists r, foldl (fun m f => f m) New fs = Some r /\ sound r) as (r & Hr & [Hp Hreg Hs]).
  { unfold New. generalize New_sound. generalize (MustRegister collectors NewRegistry). induction Hfs as [|f fs Hf _ IH]; intros r0 Hr0; [by exists r0|].
    destruct (call_sound f r0 Hf Hr0) as (r1 & Hf1 & Hr1). cbn [foldl]. rewrite Hf1. by apply IH. }
  exists r. split_and!; [done|done|done|]. rewrite Hreg. exact Hs.
Qed.

Lemma stage_fits s : Utf8.Valid (to_bytes s) = true -> fits bootstrapStage [s].
Proof. intros Hs. split; [done|by constructor]. Qed.

Lemma reset_stages (l : list string) r s : Forall (fun s => Utf8.Valid (to_bytes s) = true) l ->
  series (foldl (fun r known => stageGauge known 0 r) r l) "txgen_bootstrap_stage" [s] =
  if bool_decide (s ∈ l) then Some (of_int 0) else series r "txgen_bootstrap_stage" [s].
Proof.
  intros Hl. revert r. induction Hl as [|known l Hk _ IH]; intros r; [done|]. simpl foldl. rewrite IH.
  destruct (decide (s ∈ l)); [by rewrite !bool_decide_eq_true_2 by set_solver|].
  rewrite bool_decide_eq_false_2 by done. destruct (decide (s = known)) as [->|Hne].
  - rewrite bool_decide_eq_true_2 by set_solver. by apply (series_GaugeSet bootstrapStage), stage_fits.
  - rewrite bool_decide_eq_false_2 by set_solver. apply (series_GaugeSet_ne bootstrapStage). simpl. congruence.
Qed.

(** After the stage is reported, its series is 1 and every other known
    stage has a series at 0, whatever was reported before, so an alert on the
    stage always has a series to test; a nil metrics records nothing. *)
Theorem SetBootstrapStage_one_hot (stage : string) : Utf8.Valid (to_bytes stage) = true ->
  (forall (r : Registry) (s : string), exists r', SetBootstrapStage stage (Some r) = Some r' /\
    series r' "txgen_bootstrap_stage" [s] =
      if bool_decide (s = labelOrUnknown stage) then Some (of_int 1)
      else if bool_decide (s ∈ bootstrapStages) then Some (of_int 0)
      else series r "txgen_bootstrap_stage" [s]) /\
  SetBootstrapStage stage None = None.
Proof.
  intros Hv. split; [|done]. intros r s. eexists; split; [done|].
  unfold stageGauge at 1. case_bool_decide as Hs.
  - subst s. by apply (series_GaugeSet bootstrapStage), stage_fits, Valid_label.
  - rewrite series_GaugeSet_ne by (simpl; congruence). apply reset_stages. repeat constructor.
Qed.
End laws.
End metrics.
End Metrics.

(** ** A concrete registry *)

Module MemMetrics.

Record mem_registry := mkMemRegistry {
  m_registered : list Registered; m_panicked : bool; m_series : gmap (string * list string) float64 }.

Definition fit (c : Collector) (labels : list string) : bool :=
  bool_decide (length labels = length (cLabels c)) && forallb (fun l => Utf8.Valid (to_bytes l)) labels.

Lemma fit_fits c labels : fits c labels -> fit c labels = true.
Proof.
  intros [Hl Hv]. unfold fit. rewrite bool_decide_eq_true_2 by done. apply Is_true_eq_true, forallb_True. eapply Forall_impl; [exact Hv|]. by intros l ->.
Qed.

(** A call that panics changes nothing else. *)
Definition mem_call (c : Collector) (labels : list string) (f : option float64 -> option float64) (r : mem_registry) : mem_registry :=
  if fit c labels then mkMemRegistry (m_registered r) (m_panicked r) (partial_alter f (cName c, labels) (m_series r))
  else mkMemRegistry (m_registered r) true (m_series r).

#[export] Instance mem_prometheus : Prometheus := {|
  Registry := mem_registry;
  NewRegistry := mkMemRegistry [] false ∅;
  MustRegister cs r :=
    if bool_decide (NoDup (names (m_registered r ++ cs))) then mkMemRegistry (m_registered r ++ cs) (m_panicked r) (m_series r)
    else mkMemRegistry (m_registered r) true (m_series r);
  registered := m_registered;
  panicked := m_panicked;
  series r name labels := m_series r !! (name, labels);
  GaugeSet c labels v r := mem_call c labels (fun _ => Some v) r;
  CounterInc c labels r := mem_call c labels (fun o => Some match o with
    | Some v => SpecFloat.SFadd 53 1024 v (of_int 1) | None => of_int 1 end) r;
  HistogramObserve c labels d r := mem_call c labels (fun o => Some (default (of_int d) o)) r;
  Gather r := Ok [];
|}.

Lemma mem_call_records c labels f : records c labels (mem_call c labels f).
Proof.
  intros r. unfold mem_call. simpl. destruct (fit c labels) eqn:Hfit; split_and!; simpl; try done.
  - intros name labels' Hne. by apply lookup_partial_alter_ne.
  - intros Hf%fit_fits. congruence.
Qed.

#[export] Instance mem_prometheus_laws : PrometheusLaws.
Proof.
  split; try (intros; apply mem_call_records).
  - by split_and!.
  - intros cs r Hnd. simpl in *. by rewrite bool_decide_eq_true_2 by done.
  - intros c labels v r Hf%fit_fits. simpl. unfold mem_call. rewrite Hf. simpl. apply lookup_partial_alter_eq.
Qed.

Lemma SetBootstrapStage_one_hot_witness :
  exists r', Metrics.SetBootstrapStage "l2_done" (Metrics.SetBootstrapStage "none" Metrics.New) = Some r' /\
    series r' "txgen_bootstrap_stage" ["none"%string] = Some (of_int 0).
Proof.
  destruct (Metrics.SetBootstrapStage "none" Metrics.New) as [r|] eqn:Hr; [|discriminate].
  destruct (proj1 (Metrics.SetBootstrapStage_one_hot "l2_done" eq_refl) r "none"%string) as (r' & Hr' & Hs).
  exists r'. split; [exact Hr'|]. rewrite Hs. reflexivity.
Defined.

Lemma metrics_sound_witness : exists r,
  Metrics.IncReorg (-3) (Metrics.IncBroadcast "tx" "ok" Metrics.New) = Some r /\ panicked r = false /\
  series r "txgen_reorg_total" ["-3"%string] = Some (of_int 1).
Proof.
  destruct (Metrics.metrics_sound [Metrics.IncBroadcast "tx" "ok"; Metrics.IncReorg (-3)]) as (r & Hr & Hp & _).
  - constructor; [apply Metrics.call_broadcast; vm_compute; reflexivity|]. constructor; [apply Metrics.call_reorg|constructor].
  - exists r. split; [exact Hr|]. split; [exact Hp|]. vm_compute in Hr. injection Hr as <-. vm_compute. reflexivity.
Defined.

End MemMetrics.
