(* ===== verification/Store.v ===== *)
(** * The durable state (internal/store/store.go)

    The BoltDB file with its three buckets, and the operations on it.

    bbolt is outside the repository: it is the class [Bolt], and [BoltLaws] says
    what the store relies on, namely that an update is atomic.  The gob codec is
    the class [Gob]; the store relies on its round trip only.

    [StoreView] is the abstract specification of the store (the tips, the
    settings and the pending broadcasts it holds); the class [DurableStore] is the
    interface that the engine is written against, and [store_durable] proves that
    this store implements it. *)

From S2P Require Import Prelude TxBuilder.
Open Scope Z_scope.

(** ** bbolt *)

Abbreviation bucket := (gmap string bytes).
Abbreviation buckets := (gmap string (gmap string bytes)).

Class Bolt := {
  DB : Type;
  (* the last committed contents of the file *)
  contents : DB -> buckets;
  BoltOpen : string -> result DB;
  BoltClose : DB -> option err;
  (* [db.Update(fn)] and [db.View(fn)] *)
  Update : DB -> (buckets -> result buckets) -> option err * DB;
  View : forall {A}, DB -> (buckets -> result A) -> result A;
  CreateBucketIfNotExists : buckets -> string -> result buckets;
  Put : bucket -> string -> bytes -> result bucket;
  Delete : bucket -> string -> result bucket;
  (* the entries [ForEach] visits, in its order *)
  Entries : bucket -> list (string * bytes);
}.

Class BoltLaws `{Bolt} : Prop := {
  Update_commits db f db' : Update db f = (None, db') -> f (contents db) = Ok (contents db');
  Update_rolls_back db f e db' : Update db f = (Some e, db') -> contents db' = contents db;
  View_reads A db (f : buckets -> result A) a : View db f = Ok a -> f (contents db) = Ok a;
  CreateBucket_Ok bs name bs' : CreateBucketIfNotExists bs name = Ok bs' ->
    bs' = match bs !! name with Some _ => bs | None => <[name := ∅]> bs end;
  Put_Ok b k v b' : Put b k v = Ok b' -> b' = <[k := v]> b;
  Delete_Ok b k b' : Delete b k = Ok b' -> b' = delete k b;
  Entries_perm b : Entries b ≡ₚ map_to_list b;
}.

(** ** gob *)

Class Gob (A : Type) := {
  gob_encode : A -> result bytes;
  gob_decode : bytes -> result A;
}.

Class GobLaws (A : Type) `{Gob A} : Prop := {
  gob_roundtrip a v : gob_encode a = Ok v -> gob_decode v = Ok a;
}.

(** [encodeGob] *)
Definition encodeGob {A} `{Gob A} (a : A) : result bytes := wrap "encode" (gob_encode a).

(** ** Data *)

Definition MetaBootstrapStage : string := "bootstrap_stage".
Definition MetaLockScriptHash : string := "lock_script_hash".
Definition MetaTxMode : string := "tx_mode".

Definition bucketUTXOs : string := "utxos".
Definition bucketMeta : string := "meta".
Definition bucketPending : string := "pending".

(** [store.PendingBroadcast]; the zero [time.Time] is 0. *)
Record PendingBroadcast := mkPending {
  pTxID : string;
  pEF : bytes;
  pSpent : list UTXO;
  pCreated : list UTXO;
  pStage : string;
  pSavedAt : Z;
}.

#[export] Instance PendingBroadcast_eq_dec : EqDecision PendingBroadcast.
Proof. solve_decision. Defined.

(** The bucket key [txid:vout]. *)
Definition utxoKey (txid : string) (vout : N) : string :=
  String.append txid (String.append ":" (pretty vout)).

Abbreviation keyOf u := (utxoKey (TxHash u) (TxPos u)).

(** ** Operations *)

Section store.
Context `{Bolt} `{Gob UTXO} `{Gob PendingBroadcast}.

(** [f] on [tx.Bucket(name)], which is nil when the bucket does not exist. *)
Definition with_bucket (name : string) (f : bucket -> result bucket) (tx : buckets) : result buckets :=
  match tx !! name with
  | None => Err NilPanic
  | Some b => b' ← f b; Ok (<[name := b']> tx)
  end.

(** [Open]; [mkdir] is what [os.MkdirAll] returns. *)
Definition Open (mkdir : string -> option err) (path : string) : result DB :=
  match mkdir path with
  | Some e => Err (Wrap "create state directory" e)
  | None =>
      db ← wrap "open state file" (BoltOpen path);
      match Update db (fun tx => foldM (fun tx name =>
               wrap "create bucket" (CreateBucketIfNotExists tx name)) tx
               [bucketUTXOs; bucketMeta; bucketPending]) with
      | (None, db) => Ok db
      | (Some e, db) =>
          Err (match BoltClose db with Some e' => WrapBoth e e' | None => e end)
      end
  end.

Definition SaveUTXO (u : UTXO) (db : DB) : option err * DB :=
  match encodeGob u with
  | Err e => (Some e, db)
  | Ok encoded => Update db (with_bucket bucketUTXOs (fun b => Put b (keyOf u) encoded))
  end.

Definition DeleteUTXO (txid : string) (vout : N) (db : DB) : option err * DB :=
  Update db (with_bucket bucketUTXOs (fun b => Delete b (utxoKey txid vout))).

Definition LoadAll (db : DB) : result (list UTXO) :=
  View db (fun tx =>
    match tx !! bucketUTXOs with
    | None => Err NilPanic
    | Some b => foldM (fun utxos kv =>
        u ← wrap "decode UTXO" (gob_decode kv.2); Ok (utxos ++ [u])) [] (Entries b)
    end).

Definition GetMeta (key : string) (db : DB) : result string :=
  View db (fun tx =>
    match tx !! bucketMeta with
    | None => Err NilPanic
    | Some b => Ok (match b !! key with
                    | Some v => String.string_of_list_byte v
                    | None => ""%string
                    end)
    end).

Definition SetMeta (key value : string) (db : DB) : option err * DB :=
  Update db (with_bucket bucketMeta (fun b => Put b key (String.list_byte_of_string value))).

(** [SavePending]; [now] is [time.Now().UTC()]. *)
Definition SavePending (now : Z) (p : PendingBroadcast) (db : DB) : option err * DB :=
  if bool_decide (pTxID p = ""%string) then (Some ErrPendingTxIDRequired, db) else
  let p := if pSavedAt p =? 0
           then mkPending (pTxID p) (pEF p) (pSpent p) (pCreated p) (pStage p) now else p in
  match encodeGob p with
  | Err e => (Some e, db)
  | Ok encoded => Update db (with_bucket bucketPending (fun b => Put b (pTxID p) encoded))
  end.

Definition ClearPending (txid : string) (db : DB) : option err * DB :=
  Update db (with_bucket bucketPending (fun b => Delete b txid)).

(** What [LoadPending] makes of one record. *)
Definition loadRecord (key : string) (value : bytes) : PendingBroadcast :=
  let p := match gob_decode value with
           | Ok p => p
           | Err _ => mkPending key value [] [] "" 0
           end in
  if bool_decide (pTxID p = ""%string)
  then mkPending key (pEF p) (pSpent p) (pCreated p) (pStage p) (pSavedAt p) else p.

Definition LoadPending (db : DB) : result (gmap string PendingBroadcast) :=
  View db (fun tx =>
    match tx !! bucketPending with
    | None => Err NilPanic
    | Some b => foldM (fun pending kv => Ok (<[kv.1 := loadRecord kv.1 kv.2]> pending)) ∅ (Entries b)
    end).

(** The encoding of the created outputs; a zero-value output has none. *)
Definition encodeCreated (created : list UTXO) : result (list (UTXO * option bytes)) :=
  foldM (fun acc u =>
    if Value u =? 0 then Ok (acc ++ [(u, None)])
    else v ← encodeGob u; Ok (acc ++ [(u, Some v)])) [] created.

Definition CommitPending (txid : string) (spent created : list UTXO) (db : DB) : option err * DB :=
  match encodeCreated created with
  | Err e => (Some e, db)
  | Ok encoded =>
      Update db (fun tx =>
        tx ← (if bool_decide (txid <> ""%string)
              then with_bucket bucketPending (fun b => Delete b txid) tx else Ok tx);
        with_bucket bucketUTXOs (fun utxos =>
          utxos ← foldM (fun b u => Delete b (keyOf u)) utxos spent;
          foldM (fun b '(u, enc) =>
            match enc with None => Ok b | Some v => Put b (keyOf u) v end) utxos encoded) tx)
  end.
End store.

(** ** The abstract store *)

Record StoreView := mkView {
  v_utxos : gmap string UTXO;
  v_meta : gmap string string;
  v_pending : gmap string PendingBroadcast;
}.

Definition saveUTXO_view (u : UTXO) (s : StoreView) : StoreView :=
  mkView (<[keyOf u := u]> (v_utxos s)) (v_meta s) (v_pending s).

Definition setMeta_view (key value : string) (s : StoreView) : StoreView :=
  mkView (v_utxos s) (<[key := value]> (v_meta s)) (v_pending s).

Definition savePending_view (p : PendingBroadcast) (s : StoreView) : StoreView :=
  mkView (v_utxos s) (v_meta s) (<[pTxID p := p]> (v_pending s)).

Definition clearPending_view (txid : string) (s : StoreView) : StoreView :=
  mkView (v_utxos s) (v_meta s) (delete txid (v_pending s)).

(** The tips after a transition: the spent ones go, the created ones that are
    worth something come. *)
Definition apply_tips (spent created : list UTXO) (m : gmap string UTXO) : gmap string UTXO :=
  foldl (fun m u => if Value u =? 0 then m else <[keyOf u := u]> m)
    (foldl (fun m u => delete (keyOf u) m) m spent) created.

Definition commit_view (txid : string) (spent created : list UTXO) (s : StoreView) : StoreView :=
  mkView (apply_tips spent created (v_utxos s)) (v_meta s) (delete txid (v_pending s)).

(** The record [SavePending] writes: it is stamped when it has no time yet. *)
Definition stamp (now : Z) (p : PendingBroadcast) : PendingBroadcast :=
  if pSavedAt p =? 0 then mkPending (pTxID p) (pEF p) (pSpent p) (pCreated p) (pStage p) now else p.

(** ** The interface the engine relies on *)

Class DurableStore (D : Type) := {
  ds_SaveUTXO : UTXO -> D -> option err * D;
  ds_LoadAll : D -> result (list UTXO);
  ds_GetMeta : string -> D -> result string;
  ds_SetMeta : string -> string -> D -> option err * D;
  ds_SavePending : Z -> PendingBroadcast -> D -> option err * D;
  ds_ClearPending : string -> D -> option err * D;
  ds_LoadPending : D -> result (gmap string PendingBroadcast);
  ds_CommitPending : string -> list UTXO -> list UTXO -> D -> option err * D;
  (* what the store holds, and its representation invariant *)
  ds_view : D -> StoreView;
  ds_wf : D -> Prop;
}.

(** An operation that either applies [f] to the abstract state or leaves it. *)
Definition implements {D} `{DurableStore D} (op : D -> option err * D) (f : StoreView -> StoreView) : Prop :=
  forall d r d', ds_wf d -> op d = (r, d') ->
    ds_wf d' /\ ds_view d' = match r with None => f (ds_view d) | Some _ => ds_view d end.

Class DurableStoreLaws (D : Type) `{DurableStore D} : Prop := {
  SaveUTXO_law u : implements (ds_SaveUTXO u) (saveUTXO_view u);
  SetMeta_law k v : implements (ds_SetMeta k v) (setMeta_view k v);
  SavePending_law now p : implements (ds_SavePending now p) (savePending_view (stamp now p));
  SavePending_nonempty now p d d' : ds_SavePending now p d = (None, d') -> pTxID p <> ""%string;
  ClearPending_law txid : implements (ds_ClearPending txid) (clearPending_view txid);
  CommitPending_law txid spent created : txid <> ""%string ->
    implements (ds_CommitPending txid spent created) (commit_view txid spent created);
  CommitPending_noid spent created :
    implements (ds_CommitPending "" spent created)
      (fun s => mkView (apply_tips spent created (v_utxos s)) (v_meta s) (v_pending s));
  LoadAll_law d l : ds_wf d -> ds_LoadAll d = Ok l -> l ≡ₚ (map_to_list (v_utxos (ds_view d))).*2;
  GetMeta_law k d v : ds_wf d -> ds_GetMeta k d = Ok v ->
    v = default ""%string (v_meta (ds_view d) !! k);
  LoadPending_law d m : ds_wf d -> ds_LoadPending d = Ok m -> m = v_pending (ds_view d);
  utxos_keyed d k u : ds_wf d -> v_utxos (ds_view d) !! k = Some u -> k = keyOf u;
}.

(** A store that is [fine] does what it is asked to, and stays so. *)
Class ReliableStore {D : Type} `{DurableStore D} (fine : D -> Prop) : Prop := {
  fine_wf d : fine d -> ds_wf d;
  fine_SaveUTXO u d : fine d -> exists d', ds_SaveUTXO u d = (None, d') /\ fine d';
  fine_SetMeta k v d : fine d -> k <> ""%string -> exists d', ds_SetMeta k v d = (None, d') /\ fine d';
  fine_SavePending t p d : fine d -> pTxID p <> ""%string -> exists d', ds_SavePending t p d = (None, d') /\ fine d';
  fine_CommitPending txid spent created d : fine d -> txid <> ""%string ->
    exists d', ds_CommitPending txid spent created d = (None, d') /\ fine d';
  fine_LoadAll d : fine d -> exists us, ds_LoadAll d = Ok us;
  fine_GetMeta k d : fine d -> exists v, ds_GetMeta k d = Ok v;
  fine_LoadPending d : fine d -> exists ps, ds_LoadPending d = Ok ps;
}.

(** ** Keys *)

Definition colon : Ascii.ascii := Ascii.ascii_of_nat 58.

Fixpoint no_colon (s : string) : Prop :=
  match s with
  | EmptyString => True
  | String c s' => c <> colon /\ no_colon s'
  end.

Lemma no_colon_app pre post : ~ no_colon (String.append pre (String.append ":" post)).
Proof. induction pre; simpl; [by intros [? _]|tauto]. Qed.

Lemma pretty_no_colon (n : N) : no_colon (pretty n).
Proof.
  unfold pretty, pretty_N. case_decide; [simpl; split; [by vm_compute|done]|].
  assert (no_colon "") as Hs by done. revert Hs. generalize ""%string.
  clear. induction (N.lt_wf_0 n) as [n _ IH]; intros s Hs.
  destruct (decide (n = 0)%N) as [->|]; [done|].
  rewrite pretty_N_go_step by lia. apply IH; [apply N.div_lt; lia|].
  simpl. split; [|done]. unfold pretty_N_char. by repeat case_match.
Qed.

Lemma split_at_colon a b d1 d2 : no_colon d1 -> no_colon d2 ->
  String.append a (String.append ":" d1) = String.append b (String.append ":" d2) -> a = b /\ d1 = d2.
Proof.
  intros H1 H2. revert b. induction a as [|c a IH]; intros [|c' b]; intros Heq.
  - injection Heq as Heq. change (d1 = d2) in Heq. by subst.
  - injection Heq as <- Heq. change (d1 = String.append b (String.append ":" d2)) in Heq.
    rewrite Heq in H1. by apply no_colon_app in H1.
  - injection Heq as -> Heq. change (String.append a (String.append ":" d1) = d2) in Heq.
    rewrite <- Heq in H2. by apply no_colon_app in H2.
  - injection Heq as -> Heq. destruct (IH b Heq) as [-> ->]. done.
Qed.

Lemma utxoKey_inj_pair a m b n : utxoKey a m = utxoKey b n -> a = b /\ m = n.
Proof.
  intros Heq. apply split_at_colon in Heq as [-> Hp]; [|apply pretty_no_colon..].
  split; [done|]. by apply (inj pretty) in Hp.
Qed.

Lemma keyOf_outpoint u w : keyOf u = keyOf w <-> outpoint u = outpoint w.
Proof.
  unfold outpoint. split.
  - intros [-> ->]%utxoKey_inj_pair. done.
  - intros [= -> ->]. done.
Qed.

(** ** Transitions *)

Lemma apply_spent_lookup spent (m : gmap string UTXO) k :
  foldl (fun m u => delete (keyOf u) m) m spent !! k =
  if decide (k ∈ (fun u => keyOf u) <$> spent) then None else m !! k.
Proof.
  revert m. induction spent as [|u spent IH]; intros m; [done|]. cbn [foldl].
  rewrite IH. destruct (decide (k = keyOf u)) as [->|Hne].
  - rewrite lookup_delete_eq. rewrite (decide_True (P := keyOf u ∈ (fun u => keyOf u) <$> u :: spent)) by set_solver.
    by case_decide.
  - rewrite lookup_delete_ne by done. destruct (decide (k ∈ (fun u => keyOf u) <$> spent)).
    + by rewrite decide_True by set_solver.
    + by rewrite decide_False by set_solver.
Qed.

(** A created tip with a value is there afterwards. *)
Lemma apply_created_in created (m : gmap string UTXO) u :
  u ∈ created -> Value u <> 0 -> NoDup (outpoint <$> created) ->
  foldl (fun m u => if Value u =? 0 then m else <[keyOf u := u]> m) m created !! keyOf u = Some u.
Proof.
  revert m. induction created as [|w created IH]; intros m Hin Hv Hnd; simpl; [set_solver|].
  simpl in Hnd. apply NoDup_cons in Hnd as [Hw Hnd].
  apply elem_of_cons in Hin as [<-|Hin]; [|by apply IH].
  replace (Value u =? 0) with false by lia.
  clear IH. assert (<[keyOf u:=u]> m !! keyOf u = Some u) as Hu by apply lookup_insert_eq.
  revert Hu. generalize (<[keyOf u:=u]> m). induction created as [|w created IH]; intros m' Hu; simpl; [done|].
  rewrite fmap_cons, not_elem_of_cons in Hw. destruct Hw as [Hw Hws].
  apply IH; [done|by apply NoDup_cons in Hnd as [_ ?]|].
  case_if; [done|]. rewrite lookup_insert_ne; [done|].
  intros Heq%keyOf_outpoint. congruence.
Qed.

(** A key that is neither created nor spent is untouched. *)
Lemma apply_created_other created (m : gmap string UTXO) k :
  (forall u, u ∈ created -> Value u <> 0 -> keyOf u <> k) ->
  foldl (fun m u => if Value u =? 0 then m else <[keyOf u := u]> m) m created !! k = m !! k.
Proof.
  revert m. induction created as [|w created IH]; intros m Hk; simpl; [done|].
  rewrite IH by set_solver. case_if; bool_to_prop; [done|].
  rewrite lookup_insert_ne; [done|]. apply Hk; set_solver.
Qed.

Lemma apply_tips_created spent created m u :
  u ∈ created -> Value u <> 0 -> NoDup (outpoint <$> created) ->
  apply_tips spent created m !! keyOf u = Some u.
Proof. apply apply_created_in. Qed.

Lemma apply_tips_spent spent created m u :
  u ∈ spent -> (forall w, w ∈ created -> Value w <> 0 -> outpoint w <> outpoint u) ->
  apply_tips spent created m !! keyOf u = None.
Proof.
  intros Hin Hk. unfold apply_tips. rewrite apply_created_other.
  - rewrite apply_spent_lookup, decide_True; [done|]. apply list_elem_of_fmap. eauto.
  - intros w Hw Hv Heq%keyOf_outpoint. by eapply Hk.
Qed.

Lemma apply_tips_other spent created m k :
  (forall u, u ∈ spent -> keyOf u <> k) ->
  (forall u, u ∈ created -> Value u <> 0 -> keyOf u <> k) ->
  apply_tips spent created m !! k = m !! k.
Proof.
  intros Hs Hc. unfold apply_tips. rewrite apply_created_other by done.
  rewrite apply_spent_lookup, decide_False; [done|].
  intros (u & -> & Hu)%list_elem_of_fmap. by eapply Hs.
Qed.

(** ** The BoltDB store implements the interface *)

Section refinement.
Context `{BoltLaws} `{GobLaws UTXO} `{GobLaws PendingBroadcast}.

Definition gob_option {A} `{Gob A} (v : bytes) : option A :=
  match gob_decode v with Ok a => Some a | Err _ => None end.

Definition bucketOf (name : string) (bs : buckets) : bucket := default ∅ (bs !! name).

Definition view_of (bs : buckets) : StoreView :=
  mkView (omap gob_option (bucketOf bucketUTXOs bs))
    (String.string_of_list_byte <$> bucketOf bucketMeta bs)
    (map_imap (fun k v => Some (loadRecord k v)) (bucketOf bucketPending bs)).

(** The three buckets exist, and every UTXO record decodes to a UTXO that is
    stored under its own key. *)
Definition wf_of (bs : buckets) : Prop :=
  is_Some (bs !! bucketUTXOs) /\ is_Some (bs !! bucketMeta) /\ is_Some (bs !! bucketPending) /\
  map_Forall (fun k v => exists u, gob_decode v = Ok u /\ k = keyOf u) (bucketOf bucketUTXOs bs).

#[export] Instance store_durable : DurableStore DB := {|
  ds_SaveUTXO := SaveUTXO;
  ds_LoadAll := LoadAll;
  ds_GetMeta := GetMeta;
  ds_SetMeta := SetMeta;
  ds_SavePending := SavePending;
  ds_ClearPending := ClearPending;
  ds_LoadPending := LoadPending;
  ds_CommitPending := CommitPending;
  ds_view db := view_of (contents db);
  ds_wf db := wf_of (contents db);
|}.

Lemma with_bucket_Ok name f tx tx' : with_bucket name f tx = Ok tx' ->
  exists b b', tx !! name = Some b /\ f b = Ok b' /\ tx' = <[name := b']> tx.
Proof.
  unfold with_bucket. destruct (tx !! name) as [b|] eqn:Hb; intros Hf; [|done].
  invert_ok. eauto.
Qed.

Lemma bucketOf_insert name b tx : bucketOf name (<[name := b]> tx) = b.
Proof. unfold bucketOf. by rewrite lookup_insert_eq. Qed.

Lemma bucketOf_insert_ne name name' b tx : name <> name' ->
  bucketOf name' (<[name := b]> tx) = bucketOf name' tx.
Proof. intros. unfold bucketOf. by rewrite lookup_insert_ne. Qed.

Lemma bucketOf_Some name b bs : bs !! name = Some b -> bucketOf name bs = b.
Proof. intros Hb. unfold bucketOf. by rewrite Hb. Qed.

(** An operation is implemented by what its transaction does to the buckets. *)
Lemma update_implements (op : DB -> option err * DB) (fn : buckets -> result buckets) g :
  (forall db, op db = Update db fn) ->
  (forall bs bs', wf_of bs -> fn bs = Ok bs' -> wf_of bs' /\ view_of bs' = g (view_of bs)) ->
  implements op g.
Proof.
  intros Hop Hfn db r db' Hwf Hrun. rewrite Hop in Hrun. simpl in *. destruct r as [e|].
  - apply Update_rolls_back in Hrun. by rewrite Hrun.
  - apply Update_commits in Hrun. by apply Hfn.
Qed.

(** An operation that fails before it touches the file. *)
Lemma refused_implements (op : DB -> option err * DB) e g :
  (forall db, op db = (Some e, db)) -> implements op g.
Proof. intros Hop db r db' Hwf Hrun. rewrite Hop in Hrun. by simplify_eq. Qed.

Lemma foldM_foldl {A B} (f : B -> A -> result B) (g : B -> A -> B) acc l r :
  (forall acc x acc', x ∈ l -> f acc x = Ok acc' -> acc' = g acc x) ->
  foldM f acc l = Ok r -> r = foldl g acc l.
Proof.
  intros Hg. revert acc. induction l as [|x l IH]; intros acc Hr; simpl in *; [by invert_ok|].
  apply result_bind_Ok in Hr as (acc' & Hx & Hr).
  rewrite <- (Hg acc x acc' ltac:(left) Hx). apply IH; [|done].
  intros ???? ?. apply Hg; [by right|done].
Qed.

Lemma encodeGob_decodes {A} `{GobLaws A} (a : A) v : encodeGob a = Ok v -> gob_decode v = Ok a.
Proof. unfold encodeGob. intros Hv. invert_ok. by apply gob_roundtrip. Qed.

Lemma SaveUTXO_implements u : implements (SaveUTXO u) (saveUTXO_view u).
Proof.
  unfold SaveUTXO. destruct (encodeGob u) as [v|e] eqn:Hv; [|by apply refused_implements with e].
  apply encodeGob_decodes in Hv.
  eapply update_implements; [done|].
  intros bs bs' (Hu & Hm & Hp & Hk) (b & b' & Hb & ->%Put_Ok & ->)%with_bucket_Ok.
  unfold wf_of, view_of, saveUTXO_view. rewrite bucketOf_insert, !bucketOf_insert_ne by done.
  rewrite (bucketOf_Some _ _ _ Hb) in *. split.
  - split_and!; [rewrite lookup_insert_eq; by eauto|by rewrite lookup_insert_ne..|].
    apply map_Forall_insert_2; eauto.
  - simpl. f_equal. apply omap_insert_Some. unfold gob_option. by rewrite Hv.
Qed.

Lemma SetMeta_implements k value : implements (SetMeta k value) (setMeta_view k value).
Proof.
  eapply update_implements; [done|].
  intros bs bs' (Hu & Hm & Hp & Hk) (b & b' & Hb & ->%Put_Ok & ->)%with_bucket_Ok.
  unfold wf_of, view_of, setMeta_view. rewrite bucketOf_insert, !bucketOf_insert_ne by done.
  split; [split_and!; [by rewrite lookup_insert_ne|rewrite lookup_insert_eq; by eauto|by rewrite lookup_insert_ne|done]|].
  simpl. rewrite fmap_insert, String.string_of_list_byte_of_string, (bucketOf_Some _ _ _ Hb). done.
Qed.

(** An operation on the pending bucket keeps the rest. *)
Lemma pending_step bs b b' : wf_of bs -> bs !! bucketPending = Some b ->
  wf_of (<[bucketPending := b']> bs) /\
  view_of (<[bucketPending := b']> bs) =
    mkView (v_utxos (view_of bs)) (v_meta (view_of bs)) (map_imap (fun k v => Some (loadRecord k v)) b').
Proof.
  intros (Hu & Hm & Hp & Hk) Hb. unfold wf_of, view_of.
  rewrite bucketOf_insert, !bucketOf_insert_ne by done.
  split; [|done]. split_and!; [by rewrite lookup_insert_ne..|rewrite lookup_insert_eq; by eauto|done].
Qed.

Lemma pending_of bs b : bs !! bucketPending = Some b ->
  v_pending (view_of bs) = map_imap (fun k v => Some (loadRecord k v)) b.
Proof. intros Hb. simpl. by rewrite (bucketOf_Some _ _ _ Hb). Qed.

Lemma loadRecord_saved p v : pTxID p <> ""%string -> gob_decode v = Ok p -> loadRecord (pTxID p) v = p.
Proof. intros Hne Hv. unfold loadRecord. rewrite Hv. by rewrite bool_decide_eq_false_2. Qed.

Lemma stamp_TxID now p : pTxID (stamp now p) = pTxID p.
Proof. unfold stamp. by case_if. Qed.

Lemma SavePending_implements now p : implements (SavePending now p) (savePending_view (stamp now p)).
Proof.
  unfold SavePending. case_bool_decide as Hne; [by eapply refused_implements|].
  fold (stamp now p).
  destruct (encodeGob (stamp now p)) as [v|e] eqn:Hv; [|by apply refused_implements with e].
  apply encodeGob_decodes in Hv.
  eapply update_implements; [done|].
  intros bs bs' Hwf (b & b' & Hb & ->%Put_Ok & ->)%with_bucket_Ok.
  destruct (pending_step bs b (<[pTxID (stamp now p) := v]> b) Hwf Hb) as [Hwf' ->].
  split; [done|]. unfold savePending_view. rewrite (pending_of bs b Hb). f_equal.
  apply map_imap_insert_Some. f_equal. apply loadRecord_saved; [by rewrite stamp_TxID|done].
Qed.

Lemma ClearPending_implements txid : implements (ClearPending txid) (clearPending_view txid).
Proof.
  eapply update_implements; [done|].
  intros bs bs' Hwf (b & b' & Hb & ->%Delete_Ok & ->)%with_bucket_Ok.
  destruct (pending_step bs b (delete txid b) Hwf Hb) as [Hwf' ->].
  split; [done|]. unfold clearPending_view. rewrite (pending_of bs b Hb). f_equal.
  apply map_imap_delete.
Qed.

(** *** Committing *)

Lemma encodeCreated_Ok created enc : encodeCreated created = Ok enc ->
  enc.*1 = created /\
  Forall (fun ue => if Value ue.1 =? 0 then ue.2 = None
                    else exists v, ue.2 = Some v /\ gob_decode v = Ok ue.1) enc.
Proof.
  unfold encodeCreated. intros He.
  apply (foldM_inv _ (fun seen acc => acc.*1 = seen /\
    Forall (fun ue => if Value ue.1 =? 0 then ue.2 = None
                      else exists v, ue.2 = Some v /\ gob_decode v = Ok ue.1) acc)) in He; [done| |done].
  intros seen u acc acc' [Hseen Hacc] _ Hstep.
  destruct (Value u =? 0) eqn:Hz; invert_ok; rewrite fmap_app; split; try done;
    apply Forall_app; split; try done; apply Forall_singleton; simpl; rewrite Hz; [done|].
  eexists; split; [done|]. by apply encodeGob_decodes.
Qed.

(** The bucket after the deletions and the puts of a commit. *)
Definition commit_bucket (spent : list UTXO) (enc : list (UTXO * option bytes)) (b : bucket) : bucket :=
  foldl (fun b ue => match ue.2 with None => b | Some v => <[keyOf ue.1 := v]> b end)
    (foldl (fun b u => delete (keyOf u) b) b spent) enc.

Lemma commit_bucket_view spent enc b :
  Forall (fun ue => if Value ue.1 =? 0 then ue.2 = None
                    else exists v, ue.2 = Some v /\ gob_decode v = Ok ue.1) enc ->
  omap gob_option (commit_bucket spent enc b) = apply_tips spent enc.*1 (omap gob_option b).
Proof.
  intros Henc. unfold commit_bucket, apply_tips.
  assert (forall l c, omap (gob_option (A := UTXO)) (foldl (fun (b : bucket) u => delete (keyOf u) b) c l) =
    foldl (fun m u => delete (keyOf u) m) (omap (gob_option (A := UTXO)) c) l) as Hdel.
  { induction l as [|u l IH]; intros c; simpl; [done|]. by rewrite IH, omap_delete. }
  rewrite <- Hdel. generalize (foldl (fun (b : bucket) u => delete (keyOf u) b) b spent).
  induction Henc as [|[u e] enc Hue _ IH]; intros c; simpl; [done|]. rewrite IH. f_equal.
  simpl in Hue. destruct (Value u =? 0); [by subst e|]. destruct Hue as (v & -> & Hv).
  apply omap_insert_Some. unfold gob_option. by rewrite Hv.
Qed.

Lemma commit_bucket_keyed spent enc b :
  Forall (fun ue => if Value ue.1 =? 0 then ue.2 = None
                    else exists v, ue.2 = Some v /\ gob_decode v = Ok ue.1) enc ->
  map_Forall (fun k v => exists u, gob_decode v = Ok u /\ k = keyOf u) b ->
  map_Forall (fun k v => exists u, gob_decode v = Ok u /\ k = keyOf u) (commit_bucket spent enc b).
Proof.
  intros Henc Hb. unfold commit_bucket.
  assert (forall l c, map_Forall (fun k v => exists u, gob_decode v = Ok u /\ k = keyOf u) c ->
    map_Forall (fun k v => exists u, gob_decode v = Ok u /\ k = keyOf u)
      (foldl (fun (b : bucket) u => delete (keyOf u) b) c l)) as Hdel.
  { induction l as [|u l IH]; intros c Hc; simpl; [done|]. by apply IH, map_Forall_delete. }
  apply (Hdel spent) in Hb. revert Hb.
  generalize (foldl (fun (b : bucket) u => delete (keyOf u) b) b spent).
  induction Henc as [|[u e] enc Hue _ IH]; intros c Hc; simpl; [done|]. apply IH.
  simpl in Hue. destruct (Value u =? 0); [by subst e|]. destruct Hue as (v & -> & Hv).
  apply map_Forall_insert_2; eauto.
Qed.

Lemma commit_fold_Ok spent enc b b' :
  (utxos ← foldM (fun b u => Delete b (keyOf u)) b spent;
   foldM (fun b '(u, enc) =>
     match enc with None => Ok b | Some v => Put b (keyOf u) v end) utxos enc) = Ok b' ->
  b' = commit_bucket spent enc b.
Proof.
  intros Hf. invert_ok. unfold commit_bucket.
  match goal with Hd : foldM (fun b u => Delete b _) _ _ = Ok ?x |- _ =>
    apply (foldM_foldl _ (fun b u => delete (keyOf u) b)) in Hd as ->; [|intros; by apply Delete_Ok] end.
  match goal with Hp : foldM _ _ enc = Ok _ |- _ =>
    apply (foldM_foldl _ (fun b ue => match ue.2 with None => b | Some v => <[keyOf ue.1 := v]> b end)) in Hp;
    [done|] end.
  intros acc [u [v|]] acc' _ Hs; [by apply Put_Ok|by invert_ok].
Qed.

Lemma CommitPending_implements txid spent created : txid <> ""%string ->
  implements (CommitPending txid spent created) (commit_view txid spent created).
Proof.
  intros Hne. unfold CommitPending.
  destruct (encodeCreated created) as [enc|e] eqn:He; [|by apply refused_implements with e].
  apply encodeCreated_Ok in He as [<- Henc].
  eapply update_implements; [done|].
  intros bs bs' Hwf Hrun. rewrite bool_decide_eq_true_2 in Hrun by done.
  apply result_bind_Ok in Hrun as (bs1 & (bp & bp' & Hbp & ->%Delete_Ok & ->)%with_bucket_Ok & Hrun).
  destruct (pending_step bs bp (delete txid bp) Hwf Hbp) as [Hwf1 Hv1].
  apply with_bucket_Ok in Hrun as (bu & bu' & Hbu & ->%commit_fold_Ok & ->).
  unfold commit_view. rewrite (pending_of bs bp Hbp), <- map_imap_delete.
  destruct Hwf1 as (Hu & Hm & Hp & Hk). injection Hv1 as Hv1 Hv2 _.
  unfold wf_of. rewrite bucketOf_insert. rewrite (bucketOf_Some _ _ _ Hbu) in Hk.
  split.
  - split_and!; [rewrite lookup_insert_eq; by eauto|by rewrite lookup_insert_ne..|].
    by apply commit_bucket_keyed.
  - unfold view_of at 1. rewrite bucketOf_insert, !(bucketOf_insert_ne bucketUTXOs) by done.
    rewrite bucketOf_insert, commit_bucket_view by done.
    f_equal; [|exact Hv2]. cbn [v_utxos view_of]. by rewrite <- Hv1, (bucketOf_Some _ _ _ Hbu).
Qed.

Lemma CommitPending_empty_implements spent created :
  implements (CommitPending "" spent created)
    (fun s => mkView (apply_tips spent created (v_utxos s)) (v_meta s) (v_pending s)).
Proof.
  unfold CommitPending.
  destruct (encodeCreated created) as [enc|e] eqn:He; [|by apply refused_implements with e].
  apply encodeCreated_Ok in He as [<- Henc].
  eapply update_implements; [done|].
  intros bs bs' (Hu & Hm & Hp & Hk) (bu & bu' & Hbu & ->%commit_fold_Ok & ->)%with_bucket_Ok.
  unfold wf_of, view_of. rewrite bucketOf_insert, !bucketOf_insert_ne by done.
  rewrite (bucketOf_Some _ _ _ Hbu) in Hk. split.
  - split_and!; [rewrite lookup_insert_eq; by eauto|by rewrite lookup_insert_ne..|].
    by apply commit_bucket_keyed.
  - simpl. rewrite commit_bucket_view by done. by rewrite (bucketOf_Some _ _ _ Hbu).
Qed.

(** *** Loading *)

Lemma LoadAll_reads db l : wf_of (contents db) -> LoadAll db = Ok l ->
  l ≡ₚ (map_to_list (v_utxos (view_of (contents db)))).*2.
Proof.
  intros (_ & _ & _ & Hk) Hl%View_reads.
  destruct (contents db !! bucketUTXOs) as [b|] eqn:Hb; [|done]. simpl.
  rewrite (bucketOf_Some _ _ _ Hb) in *.
  assert (Forall2 (fun kv u => gob_option kv.2 = Some u) (Entries b) l) as Hl2.
  { apply (foldM_inv _ (fun seen acc => Forall2 (fun kv u => gob_option kv.2 = Some u) seen acc)) in Hl;
      [done| |constructor].
    intros seen kv acc acc' Hacc _ Hs. invert_ok. apply Forall2_app; [done|].
    constructor; [|constructor]. unfold gob_option. by rewrite H5. }
  assert (l = omap (fun kv => gob_option kv.2) (Entries b)) as ->.
  { clear Hl. induction Hl2 as [|kv u es l Hkv _ IH]; [done|]. simpl. rewrite Hkv. f_equal. exact IH. }
  rewrite (Entries_perm b). clear -Hk.
  induction b as [|k v b Hnone Hfst IH] using map_first_key_ind; [done|].
  rewrite map_to_list_insert_first_key by done. simpl.
  apply map_Forall_insert in Hk as [(u & Hv & ->) Hk]; [|done].
  assert (gob_option v = Some u) as Hgv by (unfold gob_option; by rewrite Hv).
  rewrite Hgv, (omap_insert_Some _ _ _ v u) by done.
  rewrite map_to_list_insert by (by rewrite lookup_omap, Hnone). simpl. f_equiv. by apply IH.
Qed.

Lemma GetMeta_reads k db v : GetMeta k db = Ok v ->
  v = default ""%string (v_meta (view_of (contents db)) !! k).
Proof.
  intros Hv%View_reads. destruct (contents db !! bucketMeta) as [b|] eqn:Hb; [|done].
  invert_ok. simpl. rewrite (bucketOf_Some _ _ _ Hb), lookup_fmap. by destruct (b !! k).
Qed.

Lemma LoadPending_reads db m : LoadPending db = Ok m -> m = v_pending (view_of (contents db)).
Proof.
  intros Hm%View_reads. destruct (contents db !! bucketPending) as [b|] eqn:Hb; [|done].
  rewrite (pending_of _ _ Hb).
  apply (foldM_foldl _ (fun pending kv => <[kv.1 := loadRecord kv.1 kv.2]> pending)) in Hm;
    [|intros; by invert_ok]. subst m.
  assert (forall es (acc : gmap string PendingBroadcast),
    foldl (fun pending kv => <[kv.1 := loadRecord kv.1 kv.2]> pending) acc es =
    foldr (fun kv pending => <[kv.1 := loadRecord kv.1 kv.2]> pending) acc (reverse es)) as ->.
  { induction es as [|kv es IH]; intros acc; simpl; [done|].
    by rewrite IH, reverse_cons, foldr_app. }
  assert (forall es, foldr (fun kv (pending : gmap string PendingBroadcast) =>
      <[kv.1 := loadRecord kv.1 kv.2]> pending) ∅ es =
    list_to_map ((fun kv => (kv.1, loadRecord kv.1 kv.2)) <$> es)) as ->.
  { induction es as [|kv es IH]; simpl; [done|]. by rewrite IH. }
  apply map_eq. intros k. rewrite map_lookup_imap.
  assert (NoDup (((fun kv => (kv.1, loadRecord kv.1 kv.2)) <$> reverse (Entries b)).*1)) as Hnd.
  { rewrite <- list_fmap_compose. unfold compose. simpl.
    rewrite reverse_Permutation, Entries_perm. apply NoDup_fst_map_to_list. }
  destruct (b !! k) as [v|] eqn:Hk; simpl.
  - apply elem_of_list_to_map; [done|]. apply list_elem_of_fmap. exists (k, v). split; [done|].
    rewrite elem_of_reverse, Entries_perm. by apply elem_of_map_to_list.
  - apply not_elem_of_list_to_map. rewrite <- list_fmap_compose. unfold compose. simpl.
    rewrite list_elem_of_fmap. intros ([k' v] & -> & Hin).
    rewrite elem_of_reverse, Entries_perm, elem_of_map_to_list in Hin. simpl in Hk. congruence.
Qed.

#[export] Instance store_durable_laws : DurableStoreLaws DB.
Proof.
  split.
  - apply SaveUTXO_implements.
  - apply SetMeta_implements.
  - apply SavePending_implements.
  - intros now p d d'. simpl. unfold SavePending. by case_bool_decide.
  - apply ClearPending_implements.
  - apply CommitPending_implements.
  - apply CommitPending_empty_implements.
  - apply LoadAll_reads.
  - intros k d v _. apply GetMeta_reads.
  - intros d m _. apply LoadPending_reads.
  - intros d k u (_ & _ & _ & Hk) Hu. simpl in Hu. rewrite lookup_omap in Hu.
    destruct (bucketOf bucketUTXOs (contents d) !! k) as [v|] eqn:Hv; [|done]. simpl in Hu.
    destruct (Hk k v Hv) as (u' & Hv' & ->). unfold gob_option in Hu. rewrite Hv' in Hu. by simplify_eq.
Qed.

(** *** Opening *)

Lemma Open_wf mkdir path db : Open mkdir path = Ok db ->
  exists db0, BoltOpen path = Ok db0 /\
    (wf_of (contents db0) -> contents db = contents db0) /\
    (contents db0 = ∅ -> wf_of (contents db) /\ view_of (contents db) = mkView ∅ ∅ ∅).
Proof.
  unfold Open. destruct (mkdir path); [done|]. intros Ho. invert_ok.
  exists x. split; [done|].
  destruct (Update x _) as [[e|] db1] eqn:Hup; [done|]. invert_ok.
  apply Update_commits in Hup. cbn [foldM] in Hup.
  apply result_bind_Ok in Hup as (b1 & Hb1%wrap_Ok%CreateBucket_Ok & Hup).
  apply result_bind_Ok in Hup as (b2 & Hb2%wrap_Ok%CreateBucket_Ok & Hup).
  apply result_bind_Ok in Hup as (b3 & Hb3%wrap_Ok%CreateBucket_Ok & Hup).
  injection Hup as <-. split.
  - intros ([bu Hu] & [bm Hm] & [bp Hp] & _).
    rewrite Hu in Hb1. subst b1. rewrite Hm in Hb2. subst b2. by rewrite Hp in Hb3.
  - intros Hempty. rewrite Hempty, lookup_empty in Hb1. subst b1.
    rewrite lookup_insert_ne, lookup_empty in Hb2 by done. subst b2.
    rewrite !lookup_insert_ne, lookup_empty in Hb3 by done. subst b3.
    unfold wf_of, view_of, bucketOf.
    rewrite lookup_insert_eq, !(lookup_insert_ne _ bucketPending) by done.
    rewrite lookup_insert_eq, (lookup_insert_ne _ bucketMeta), lookup_insert_eq by done.
    split; [|done]. split_and!; eauto. simpl. apply map_Forall_empty.
Qed.
End refinement.

(** ** Properties *)

(** Two outpoints have the same bucket key only when they are the same
    outpoint, even for a hash that contains a colon, so a UTXO never overwrites or
    deletes another one. *)
Theorem utxoKey_injective (a b : string) (m n : N) :
  utxoKey a m = utxoKey b n <-> a = b /\ m = n.
Proof. split; [apply utxoKey_inj_pair|by intros [-> ->]]. Qed.

(** The operations that change the store, and what each does to the abstract
    state. *)
Inductive store_op : Type :=
  | OpSaveUTXO (u : UTXO)
  | OpDeleteUTXO (txid : string) (vout : N)
  | OpSetMeta (key value : string)
  | OpSavePending (now : Z) (p : PendingBroadcast)
  | OpClearPending (txid : string)
  | OpCommitPending (txid : string) (spent created : list UTXO).

Definition op_view (op : store_op) (s : StoreView) : StoreView :=
  match op with
  | OpSaveUTXO u => saveUTXO_view u s
  | OpDeleteUTXO txid vout => mkView (delete (utxoKey txid vout) (v_utxos s)) (v_meta s) (v_pending s)
  | OpSetMeta k v => setMeta_view k v s
  | OpSavePending now p => savePending_view (stamp now p) s
  | OpClearPending txid => clearPending_view txid s
  | OpCommitPending txid spent created =>
      if bool_decide (txid = ""%string)
      then mkView (apply_tips spent created (v_utxos s)) (v_meta s) (v_pending s)
      else commit_view txid spent created s
  end.

Section properties.
Context `{BoltLaws} `{GobLaws UTXO} `{GobLaws PendingBroadcast}.

Definition run_op (op : store_op) : DB -> option err * DB :=
  match op with
  | OpSaveUTXO u => SaveUTXO u
  | OpDeleteUTXO txid vout => DeleteUTXO txid vout
  | OpSetMeta k v => SetMeta k v
  | OpSavePending now p => SavePending now p
  | OpClearPending txid => ClearPending txid
  | OpCommitPending txid spent created => CommitPending txid spent created
  end.

(** Run a history of operations, keeping what each returned. *)
Fixpoint run_ops (ops : list store_op) (db : DB) : list (option err) * DB :=
  match ops with
  | [] => ([], db)
  | op :: ops' =>
      let '(r, db) := run_op op db in
      let '(rs, db) := run_ops ops' db in (r :: rs, db)
  end.

(** The same history on the abstract state: a failed operation does nothing. *)
Fixpoint run_views (ops : list store_op) (rs : list (option err)) (s : StoreView) : StoreView :=
  match ops, rs with
  | op :: ops', r :: rs' =>
      run_views ops' rs' (match r with None => op_view op s | Some _ => s end)
  | _, _ => s
  end.

Lemma DeleteUTXO_implements txid vout :
  implements (DeleteUTXO txid vout) (op_view (OpDeleteUTXO txid vout)).
Proof.
  eapply update_implements; [done|].
  intros bs bs' (Hu & Hm & Hp & Hk) (b & b' & Hb & ->%Delete_Ok & ->)%with_bucket_Ok.
  unfold wf_of, view_of. rewrite bucketOf_insert, !bucketOf_insert_ne by done.
  rewrite (bucketOf_Some _ _ _ Hb) in *. split.
  - split_and!; [rewrite lookup_insert_eq; by eauto|by rewrite lookup_insert_ne..|].
    by apply map_Forall_delete.
  - simpl. f_equal. by rewrite omap_delete.
Qed.

Lemma run_op_implements op : implements (run_op op) (op_view op).
Proof.
  destruct op as [u|txid vout|k v|now p|txid|txid spent created]; simpl run_op.
  - apply SaveUTXO_implements.
  - apply DeleteUTXO_implements.
  - apply SetMeta_implements.
  - apply SavePending_implements.
  - apply ClearPending_implements.
  - destruct (decide (txid = ""%string)) as [->|Hne]; [apply CommitPending_empty_implements|].
    intros d r d' Hwf Hr. cbn [op_view]. rewrite bool_decide_eq_false_2 by done.
    by apply (CommitPending_implements txid spent created).
Qed.

Lemma store_refines_ops ops db rs db' :
  wf_of (contents db) -> run_ops ops db = (rs, db') ->
  length rs = length ops /\ wf_of (contents db') /\
  view_of (contents db') = run_views ops rs (view_of (contents db)).
Proof.
  revert db rs. induction ops as [|op ops IH]; intros db rs Hwf Hrun; simpl in Hrun.
  { simplify_eq. done. }
  destruct (run_op op db) as [r db1] eqn:Hop.
  destruct (run_ops ops db1) as [rs' db2] eqn:Hrest. simplify_eq.
  destruct (run_op_implements op db r db1 Hwf Hop) as [Hwf1 Hv1].
  destruct (IH db1 rs' Hwf1 Hrest) as (Hlen & Hwf2 & Hv2).
  split_and!; [simpl; lia|done|]. rewrite Hv2. simpl in *. by rewrite Hv1.
Qed.

(** C16: the BoltDB store refines the abstract store over any history of
    operations: after it, the file is still well formed, and what it holds is
    what the successful operations of the history do, in order, to the abstract
    tips, settings and pending broadcasts; a failed operation leaves no trace. *)
Theorem store_refines_view ops db rs db' :
  wf_of (contents db) -> run_ops ops db = (rs, db') ->
  length rs = length ops /\ wf_of (contents db') /\
  view_of (contents db') = run_views ops rs (view_of (contents db)).
Proof. apply store_refines_ops. Qed.

(** C17: committing a broadcast is atomic.  When it fails, the tips and the
    pending record are as before; when it succeeds, the pending record is gone,
    every spent output is gone, every created output with a value is stored, one
    without a value is not added, and every other tip is untouched. *)
Theorem CommitPending_atomic txid spent created db r db' :
  wf_of (contents db) -> txid <> ""%string -> NoDup (outpoint <$> created) ->
  (forall u w, u ∈ spent -> w ∈ created -> outpoint u <> outpoint w) ->
  CommitPending txid spent created db = (r, db') ->
  let before := view_of (contents db) in
  let after := view_of (contents db') in
  match r with
  | Some _ => after = before
  | None =>
      v_pending after = delete txid (v_pending before) /\
      (forall u, u ∈ spent -> v_utxos after !! keyOf u = None) /\
      (forall u, u ∈ created -> Value u <> 0 -> v_utxos after !! keyOf u = Some u) /\
      (forall u, u ∈ created -> Value u = 0 -> v_utxos after !! keyOf u = v_utxos before !! keyOf u) /\
      (forall k, k ∉ (fun u => keyOf u) <$> spent ++ created -> v_utxos after !! k = v_utxos before !! k)
  end.
Proof.
  intros Hwf Hne Hnd Hdisj Hrun before after.
  destruct (CommitPending_implements txid spent created Hne db r db' Hwf Hrun) as [_ Hv].
  simpl in Hv. fold before after in Hv. destruct r as [e|]; [done|]. rewrite Hv. simpl.
  assert (forall u w, u ∈ created -> Value u = 0 -> w ∈ created -> Value w <> 0 -> keyOf w <> keyOf u) as Hz.
  { intros u w Hu Hu0 Hw Hw0 Heq%keyOf_outpoint.
    apply list_elem_of_lookup in Hu as [i Hi]. apply list_elem_of_lookup in Hw as [j Hj].
    assert (i = j) as ->.
    { eapply (NoDup_lookup _ _ _ (outpoint u) Hnd); rewrite list_lookup_fmap; [by rewrite Hi|].
      rewrite Hj. simpl. by rewrite Heq. }
    congruence. }
  split_and!; [done|..].
  - intros u Hu. apply apply_tips_spent; [done|]. intros w Hw _ Heq. by apply (Hdisj u w).
  - intros u Hu Hvu. by apply apply_tips_created.
  - intros u Hu Hvu. apply apply_tips_other.
    + intros w Hw Heq%keyOf_outpoint. by apply (Hdisj w u).
    + intros w Hw Hvw. by apply Hz.
  - intros k Hk. apply apply_tips_other; intros u Hu; [|intros _]; intros <-; apply Hk;
      apply list_elem_of_fmap; exists u; set_solver.
Qed.

(** What is written is what is read back.  After a successful save of a
    UTXO, of a setting or of a pending broadcast, a successful load finds it. *)
Theorem store_roundtrips db db' :
  wf_of (contents db) ->
  (forall u l, SaveUTXO u db = (None, db') -> LoadAll db' = Ok l -> u ∈ l) /\
  (forall k v w, SetMeta k v db = (None, db') -> GetMeta k db' = Ok w -> w = v) /\
  (forall now p m, SavePending now p db = (None, db') -> LoadPending db' = Ok m ->
     m !! pTxID p = Some (stamp now p)).
Proof.
  intros Hwf. split_and!.
  - intros u l Hs Hl. destruct (SaveUTXO_implements u db None db' Hwf Hs) as [Hwf' Hv].
    rewrite (LoadAll_reads db' l Hwf' Hl). simpl in Hv. rewrite Hv. simpl.
    apply list_elem_of_fmap. exists (keyOf u, u). split; [done|].
    apply elem_of_map_to_list, lookup_insert_eq.
  - intros k v w Hs Hw. destruct (SetMeta_implements k v db None db' Hwf Hs) as [_ Hv].
    rewrite (GetMeta_reads k db' w Hw). simpl in Hv. rewrite Hv. simpl. by rewrite lookup_insert_eq.
  - intros now p m Hs Hm. destruct (SavePending_implements now p db None db' Hwf Hs) as [_ Hv].
    rewrite (LoadPending_reads db' m Hm). simpl in Hv. rewrite Hv. simpl.
    rewrite <- (stamp_TxID now p). apply lookup_insert_eq.
Qed.
End properties.

(** ** A concrete BoltDB and codec

    An in-memory file that fails the updates its script says, and a codec from
    the countable encoding of the records. *)

Module MemStore.

Record mem_db := mkMem { mem : buckets; faults : list bool }.

Definition mem_update (db : mem_db) (fn : buckets -> result buckets) : option err * mem_db :=
  match faults db with
  | true :: fs => (Some (External "disk full"), mkMem (mem db) fs)
  | fs =>
      match fn (mem db) with
      | Ok bs => (None, mkMem bs (tail fs))
      | Err e => (Some e, mkMem (mem db) (tail fs))
      end
  end.

#[export] Instance mem_bolt : Bolt := {|
  DB := mem_db;
  contents := mem;
  BoltOpen _ := Ok (mkMem ∅ []);
  BoltClose _ := None;
  Update := mem_update;
  View A db fn := fn (mem db);
  CreateBucketIfNotExists bs name :=
    Ok (match bs !! name with Some _ => bs | None => <[name := ∅]> bs end);
  Put b k v := if bool_decide (k = ""%string) then Err (External "key required") else Ok (<[k := v]> b);
  Delete b k := Ok (delete k b);
  Entries b := map_to_list b;
|}.

#[export] Instance mem_bolt_laws : BoltLaws.
Proof.
  split; simpl.
  - intros db f db' Hu. unfold mem_update in Hu.
    destruct (faults db) as [|[] fs]; [|done|]; destruct (f (mem db)); by simplify_eq.
  - intros db f e db' Hu. unfold mem_update in Hu.
    destruct (faults db) as [|[] fs]; try (by simplify_eq); destruct (f (mem db)); by simplify_eq.
  - done.
  - intros bs name bs' Hc. by simplify_eq.
  - intros b k v b' Hp. by case_bool_decide; simplify_eq.
  - intros b k b' Hd. by simplify_eq.
  - done.
Qed.

Fixpoint bits_of (p : positive) : bytes :=
  match p with xH => [] | xO p => x00 :: bits_of p | xI p => x01 :: bits_of p end.

Fixpoint of_bits (bs : bytes) : positive :=
  match bs with
  | [] => xH
  | b :: bs => if bool_decide (b = x01) then xI (of_bits bs) else xO (of_bits bs)
  end.

Lemma of_bits_of p : of_bits (bits_of p) = p.
Proof. induction p as [p IH|p IH|]; simpl; [by rewrite IH..|done]. Qed.

#[export] Instance byte_countable : Countable Byte.byte.
Proof. refine (inj_countable Byte.to_N Byte.of_N Byte.of_to_N). Defined.

#[export] Instance PendingBroadcast_countable : Countable PendingBroadcast.
Proof.
  refine (inj_countable' (fun p => (pTxID p, pEF p, pSpent p, pCreated p, pStage p, pSavedAt p))
    (fun '(a, b, c, d, e, f) => mkPending a b c d e f) _).
  by intros [].
Defined.

#[export] Instance countable_gob {A} `{Countable A} : Gob A := {|
  gob_encode a := Ok (bits_of (encode a));
  gob_decode v := match decode (of_bits v) with Some a => Ok a | None => Err (External "gob") end;
|}.

#[export] Instance countable_gob_laws {A} `{Countable A} : GobLaws A.
Proof. split. intros a v Hv. simpl in *. simplify_eq. by rewrite of_bits_of, decode_encode. Qed.

(** A fresh state file. *)
Definition fresh (faults : list bool) : @DB mem_bolt :=
  mkMem (<[bucketPending := ∅]> (<[bucketMeta := ∅]> (<[bucketUTXOs := ∅]> ∅))) faults.

Lemma fresh_wf fs : wf_of (contents (fresh fs)).
Proof.
  assert (bucketOf bucketUTXOs (contents (fresh fs)) = ∅) as Hu by reflexivity.
  split_and!; [by eexists..|]. rewrite Hu. apply map_Forall_empty.
Qed.

Definition tip (h : string) (v : Z) : UTXO := mkUTXO h 0 v 7.

Definition wal : PendingBroadcast := mkPending "b" [x01] [tip "a" 5] [tip "b" 4] "run" 0.

(** The second save hits the scripted fault. *)
Definition history : list store_op :=
  [OpSaveUTXO (tip "a" 5); OpSaveUTXO (tip "z" 1); OpSavePending 9 wal;
   OpCommitPending "b" [tip "a" 5] [tip "b" 4]].

Lemma store_refines_view_witness :
  let x := run_ops history (fresh [false; true]) in
  x.1 = [None; Some (External "disk full"); None; None] /\
  view_of (contents x.2) = run_views history x.1 (view_of (contents (fresh [false; true]))) /\
  v_utxos (view_of (contents x.2)) = {[ "b:0"%string := tip "b" 4 ]}.
Proof.
  intros x.
  destruct (store_refines_view history (fresh [false; true]) x.1 x.2 (fresh_wf _)
    (surjective_pairing _)) as (_ & _ & Hv).
  split; [vm_compute; reflexivity|split; [exact Hv|vm_compute; reflexivity]].
Defined.

Definition prepared : @DB mem_bolt := (run_ops [OpSaveUTXO (tip "a" 5); OpSavePending 9 wal] (fresh [])).2.

Lemma prepared_wf : wf_of (contents prepared).
Proof. eapply store_refines_ops; [apply fresh_wf|apply surjective_pairing]. Qed.

Lemma CommitPending_atomic_witness :
  let x := CommitPending "b" [tip "a" 5] [tip "b" 4] prepared in
  x.1 = None /\ v_utxos (view_of (contents x.2)) !! "a:0"%string = None /\
  v_utxos (view_of (contents x.2)) !! "b:0"%string = Some (tip "b" 4).
Proof.
  intros x.
  pose proof (CommitPending_atomic "b" [tip "a" 5] [tip "b" 4] prepared x.1 x.2 prepared_wf
    ltac:(discriminate) ltac:(apply NoDup_singleton) ltac:(set_solver) (surjective_pairing _)) as Ha.
  assert (x.1 = None) as Hx by (vm_compute; reflexivity). rewrite Hx in Ha |- *.
  destruct Ha as (_ & Hs & Hcr & _).
  split; [reflexivity|].
  split; [apply (Hs (tip "a" 5)); set_solver|apply (Hcr (tip "b" 4)); [set_solver|done]].
Defined.

Lemma store_roundtrips_witness :
  exists db' l, SaveUTXO (tip "a" 5) (fresh []) = (None, db') /\ LoadAll db' = Ok l /\ tip "a" 5 ∈ l.
Proof.
  eexists _, _. split; [vm_compute; reflexivity|]. split; [vm_compute; reflexivity|].
  eapply (proj1 (store_roundtrips (fresh []) _ (fresh_wf _))); vm_compute; reflexivity.
Defined.

End MemStore.
