(* ===== verification/Heap.v ===== *)
(** * Go's container/heap

    [heap.Push] and [heap.Pop] of the Go standard library on a slice ordered by
    an integer key, as the queue of internal/engine/queue.go uses them.  The two
    loops [up] and [down] have fuel: [up] moves to a smaller index and [down] to a
    larger one at each turn, and the fuel [Push] and [Pop] give is the number of
    indices there are. *)

From Stdlib Require Export Sorted.
From S2P Require Import Prelude.
Open Scope nat_scope.

Section heap.
Context {A : Type} (key : A -> Z).

Definition keyAt (l : list A) (i : nat) : Z :=
  match l !! i with Some x => key x | None => 0%Z end.

(** [h.Less(i, j)] *)
Definition less (l : list A) (i j : nat) : bool := (keyAt l i <? keyAt l j)%Z.

(** [h.Swap(i, j)] *)
Definition swap (l : list A) (i j : nat) : list A :=
  match l !! i, l !! j with
  | Some x, Some y => <[i := y]> (<[j := x]> l)
  | _, _ => l
  end.

(** [h.Len()] *)
Definition Len (l : list A) : nat := length l.

(** [h.Push(x)] and [h.Pop()], of the slice alone; [Pop] panics on an empty slice. *)
Definition append (l : list A) (x : A) : list A := l ++ [x].
Definition removeLast (l : list A) : option (A * list A) :=
  x ← last l; Some (x, take (length l - 1) l).

Fixpoint up (fuel : nat) (l : list A) (j : nat) : list A :=
  match fuel with
  | O => l
  | S fuel =>
      let i := (j - 1) / 2 in
      if (i =? j) || negb (less l j i) then l else up fuel (swap l i j) i
  end.

Fixpoint down (fuel : nat) (l : list A) (i n : nat) : list A :=
  match fuel with
  | O => l
  | S fuel =>
      let j1 := 2 * i + 1 in
      if n <=? j1 then l else
      let j := if (j1 + 1 <? n) && less l (j1 + 1) j1 then j1 + 1 else j1 in
      if negb (less l j i) then l else down fuel (swap l i j) j n
  end.

(** [heap.Push] *)
Definition Push (l : list A) (x : A) : list A :=
  let l' := append l x in up (Len l') l' (Len l' - 1).

(** [heap.Pop]; it panics on an empty heap. *)
Definition Pop (l : list A) : option (A * list A) :=
  let n := Len l - 1 in
  removeLast (down (Len l) (swap l 0 n) 0 n).

(** The heap order on the first [n] elements. *)
Definition heap_upto (l : list A) (n : nat) : Prop :=
  forall m, 0 < m < n -> (keyAt l ((m - 1) / 2) <= keyAt l m)%Z.

Definition is_heap (l : list A) : Prop := heap_upto l (length l).

(** *** Swapping *)

Lemma swap_perm l i j : swap l i j ≡ₚ l.
Proof.
  unfold swap. destruct (l !! i) as [x|] eqn:Hi; [|done].
  destruct (l !! j) as [y|] eqn:Hj; [|done].
  by apply Permutation_insert_swap.
Qed.

Lemma length_swap l i j : length (swap l i j) = length l.
Proof. apply Permutation_length, swap_perm. Qed.

Lemma swap_lookup l i j m : i < length l -> j < length l ->
  swap l i j !! m = l !! (if m =? i then j else if m =? j then i else m).
Proof.
  intros Hi Hj. unfold swap.
  destruct (lookup_lt_is_Some_2 l i Hi) as [x Hx]. destruct (lookup_lt_is_Some_2 l j Hj) as [y Hy].
  rewrite Hx, Hy.
  destruct (Nat.eqb_spec m i) as [->|Hmi].
  { rewrite list_lookup_insert_eq by (rewrite length_insert; lia). done. }
  rewrite list_lookup_insert_ne by done.
  destruct (Nat.eqb_spec m j) as [->|Hmj]; [by rewrite list_lookup_insert_eq|].
  by rewrite list_lookup_insert_ne.
Qed.

Lemma keyAt_swap l i j m : i < length l -> j < length l ->
  keyAt (swap l i j) m = keyAt l (if m =? i then j else if m =? j then i else m).
Proof. intros Hi Hj. unfold keyAt. by rewrite swap_lookup. Qed.

Lemma parent_spec m p : p = (m - 1) / 2 -> 0 < m -> p < m /\ (m = 2 * p + 1 \/ m = 2 * p + 2).
Proof.
  intros -> Hm. pose proof (Nat.div_mod_eq (m - 1) 2). pose proof (Nat.mod_upper_bound (m - 1) 2).
  lia.
Qed.

(** *** Moving up *)

(** The heap order but between [j] and its parent. *)
Definition heap_but_up (l : list A) (j : nat) : Prop :=
  (forall m, 0 < m < length l -> m <> j -> (keyAt l ((m - 1) / 2) <= keyAt l m)%Z) /\
  (forall m, 0 < m < length l -> (m - 1) / 2 = j -> 0 < j ->
     (keyAt l ((j - 1) / 2) <= keyAt l m)%Z).

Lemma heap_but_up_step l j : 0 < j < length l -> heap_but_up l j ->
  (keyAt l j < keyAt l ((j - 1) / 2))%Z -> heap_but_up (swap l ((j - 1) / 2) j) ((j - 1) / 2).
Proof.
  intros Hj [Hother Hsub] Hless.
  destruct (parent_spec j _ eq_refl) as [Hpj _]; [lia|].
  set (i := (j - 1) / 2) in *.
  split; rewrite length_swap; intros m Hm; destruct (parent_spec m _ eq_refl) as [Hpm _]; try lia.
  - intros Hmi. rewrite !keyAt_swap by lia.
    destruct (Nat.eqb_spec m i); [done|].
    destruct (Nat.eqb_spec m j) as [->|Hmj].
    { fold i. rewrite Nat.eqb_refl. lia. }
    destruct (Nat.eqb_spec ((m - 1) / 2) i) as [Hpi|Hpi].
    { specialize (Hother m Hm Hmj). rewrite Hpi in Hother. lia. }
    destruct (Nat.eqb_spec ((m - 1) / 2) j) as [Hpj'|Hpj'].
    { apply Hsub; [done|done|lia]. }
    by apply Hother.
  - intros Hmi Hi. rewrite !keyAt_swap by lia.
    destruct (parent_spec i _ eq_refl) as [Hpi _]; [lia|].
    destruct (Nat.eqb_spec ((i - 1) / 2) i); [lia|].
    destruct (Nat.eqb_spec ((i - 1) / 2) j); [lia|].
    destruct (Nat.eqb_spec m i); [lia|].
    assert (keyAt l ((i - 1) / 2) <= keyAt l i)%Z as Hii by (apply Hother; lia).
    destruct (Nat.eqb_spec m j); [done|].
    specialize (Hother m Hm). rewrite Hmi in Hother. specialize (Hother ltac:(done)). lia.
Qed.

Lemma up_spec fuel l j : j < fuel -> j < length l -> heap_but_up l j ->
  up fuel l j ≡ₚ l /\ is_heap (up fuel l j).
Proof.
  revert l j. induction fuel as [|fuel IH]; intros l j Hfuel Hj Hheap; [lia|]. cbn [up].
  destruct (Nat.eqb_spec ((j - 1) / 2) j) as [Hroot|Hroot]; cbn [orb].
  { split; [done|]. intros m Hm. apply Hheap; [done|].
    intros ->. destruct (parent_spec j _ eq_refl); lia. }
  unfold less. destruct (Z.ltb_spec (keyAt l j) (keyAt l ((j - 1) / 2))) as [Hlt|Hge]; cbn [negb].
  - assert (0 < j) by (destruct j; [done|lia]).
    destruct (parent_spec j _ eq_refl) as [Hpj _]; [done|].
    destruct (IH (swap l ((j - 1) / 2) j) ((j - 1) / 2)) as [Hperm Hh]; [lia|rewrite length_swap; lia| |].
    { apply heap_but_up_step; [lia|done|done]. }
    split; [|done]. by rewrite Hperm, swap_perm.
  - split; [done|]. intros m Hm. destruct (decide (m = j)) as [->|Hne]; [done|by apply Hheap].
Qed.

Lemma Push_spec l x : is_heap l -> Push l x ≡ₚ x :: l /\ is_heap (Push l x).
Proof.
  intros Hheap. unfold Push, Len, append. replace (length (l ++ [x]) - 1) with (length l) by (rewrite length_app; simpl; lia).
  destruct (up_spec (length (l ++ [x])) (l ++ [x]) (length l)) as [Hperm Hh];
    [rewrite length_app; simpl; lia..| |].
  - split.
    + rewrite length_app; cbn [length]. intros m Hm Hne.
      destruct (parent_spec m _ eq_refl) as [Hp _]; [lia|].
      unfold keyAt. rewrite !lookup_app_l by lia. apply Hheap. lia.
    + rewrite length_app; cbn [length]. intros m Hm Hp. destruct (parent_spec m _ eq_refl) as [? _]; lia.
  - split; [|done]. rewrite Hperm. by rewrite (comm (++)).
Qed.

(** *** Moving down *)

(** The heap order on the first [n], but between [i] and its children. *)
Definition heap_but_down (l : list A) (i n : nat) : Prop :=
  (forall m, 0 < m < n -> (m - 1) / 2 <> i -> (keyAt l ((m - 1) / 2) <= keyAt l m)%Z) /\
  (forall m, 0 < m < n -> (m - 1) / 2 = i -> 0 < i ->
     (keyAt l ((i - 1) / 2) <= keyAt l m)%Z).

(** [j] is the child of [i] with the smallest key. *)
Definition min_child (l : list A) (i j n : nat) : Prop :=
  0 < j < n /\ (j - 1) / 2 = i /\
  forall m, 0 < m < n -> (m - 1) / 2 = i -> (keyAt l j <= keyAt l m)%Z.

Lemma heap_but_down_step l i j n : n <= length l -> min_child l i j n -> heap_but_down l i n ->
  (keyAt l j < keyAt l i)%Z -> heap_but_down (swap l i j) j n.
Proof.
  intros Hn (Hj & Hpj & Hmin) [Hother Hsub] Hless.
  destruct (parent_spec j _ eq_refl) as [Hij _]; [lia|]. rewrite Hpj in Hij.
  split; intros m Hm; destruct (parent_spec m _ eq_refl) as [Hpm _]; try lia.
  - intros Hmj. rewrite !keyAt_swap by lia.
    destruct (Nat.eqb_spec ((m - 1) / 2) i) as [Hpi|Hpi].
    { destruct (Nat.eqb_spec m i); [lia|]. destruct (Nat.eqb_spec m j); [lia|]. by apply Hmin. }
    destruct (Nat.eqb_spec ((m - 1) / 2) j) as [Hpj'|Hpj']; [done|].
    destruct (Nat.eqb_spec m i) as [->|Hmi]; [apply Hsub; [lia|done|lia]|].
    destruct (Nat.eqb_spec m j) as [->|Hmj']; [done|by apply Hother].
  - intros Hmj _. rewrite Hpj. rewrite !keyAt_swap by lia. rewrite Nat.eqb_refl.
    destruct (Nat.eqb_spec m i); [lia|]. destruct (Nat.eqb_spec m j); [lia|].
    rewrite <- Hmj. apply Hother; [done|lia].
Qed.

(** The child the loop chooses. *)
Lemma chosen_child l i n : 2 * i + 1 < n ->
  min_child l i (if (2 * i + 1 + 1 <? n) && less l (2 * i + 1 + 1) (2 * i + 1)
                 then 2 * i + 1 + 1 else 2 * i + 1) n.
Proof.
  intros Hn.
  assert (forall c, c = 2 * i + 1 \/ c = 2 * i + 1 + 1 -> (c - 1) / 2 = i) as Hc.
  { intros c Hc. destruct (parent_spec c _ eq_refl); lia. }
  unfold less. destruct (Nat.ltb_spec (2 * i + 1 + 1) n); cbn [andb].
  - destruct (Z.ltb_spec (keyAt l (2 * i + 1 + 1)) (keyAt l (2 * i + 1))).
    + split; [lia|]. split; [apply Hc; lia|]. intros m Hm Hp.
      destruct (parent_spec m _ eq_refl) as [_ [Heq|Heq]]; [lia|rewrite Hp in Heq..]; rewrite Heq; [lia|].
      by replace (2 * i + 2) with (2 * i + 1 + 1) by lia.
    + split; [lia|]. split; [apply Hc; lia|]. intros m Hm Hp.
      destruct (parent_spec m _ eq_refl) as [_ [Heq|Heq]]; [lia|rewrite Hp in Heq..]; rewrite Heq; [done|].
      by replace (2 * i + 2) with (2 * i + 1 + 1) by lia.
  - split; [lia|]. split; [apply Hc; lia|]. intros m Hm Hp.
    destruct (parent_spec m _ eq_refl) as [_ [Heq|Heq]]; [lia|rewrite Hp in Heq..]; rewrite Heq; [done|lia].
Qed.

Lemma down_spec fuel l i n : n <= i + fuel -> i < length l -> n <= length l -> heap_but_down l i n ->
  down fuel l i n ≡ₚ l /\ heap_upto (down fuel l i n) n /\
  (forall m, n <= m -> m <> i -> down fuel l i n !! m = l !! m).
Proof.
  revert l i. induction fuel as [|fuel IH]; intros l i Hfuel Hi Hn Hheap.
  { split_and!; [done| |done]. intros m Hm. apply Hheap; [done|].
    destruct (parent_spec m _ eq_refl); lia. }
  cbn [down]. destruct (Nat.leb_spec n (2 * i + 1)) as [Hleaf|Hin].
  { split_and!; [done| |done]. intros m Hm. apply Hheap; [done|].
    destruct (parent_spec m _ eq_refl); lia. }
  pose proof (chosen_child l i n Hin) as Hchild.
  set (j := if _ && _ then _ else _) in *.
  destruct Hchild as (Hj & Hpj & Hmin).
  destruct (parent_spec j _ eq_refl) as [Hij _]; [lia|]. rewrite Hpj in Hij.
  change (less l j i) with (keyAt l j <? keyAt l i)%Z. destruct (Z.ltb_spec (keyAt l j) (keyAt l i)) as [Hlt|Hge]; cbn [negb].
  - destruct (IH (swap l i j) j) as (Hperm & Hh & Hrest);
      [lia|rewrite length_swap; lia|rewrite length_swap; lia| |].
    { by apply heap_but_down_step. }
    split; [by rewrite Hperm, swap_perm|]. split; [exact Hh|].
    intros m Hm Hmi. rewrite Hrest by lia. rewrite swap_lookup by lia.
    destruct (Nat.eqb_spec m i); [done|]. destruct (Nat.eqb_spec m j); [lia|]. done.
  - split_and!; [done| |done]. intros m Hm.
    destruct (decide ((m - 1) / 2 = i)) as [Hp|Hp]; [|by apply Hheap].
    rewrite Hp. specialize (Hmin m Hm Hp). lia.
Qed.

Lemma heap_root l n m : heap_upto l n -> m < n -> (keyAt l 0 <= keyAt l m)%Z.
Proof.
  intros Hheap. induction m as [m IH] using lt_wf_ind. intros Hm.
  destruct (decide (m = 0)) as [->|Hne]; [done|].
  destruct (parent_spec m _ eq_refl) as [Hp _]; [lia|].
  specialize (IH _ Hp ltac:(lia)). specialize (Hheap m ltac:(lia)). lia.
Qed.

Lemma keyAt_take l n m : m < n -> keyAt (take n l) m = keyAt l m.
Proof. intros Hm. unfold keyAt. by rewrite lookup_take_lt. Qed.

Lemma Pop_spec l : l <> [] -> is_heap l ->
  exists x l', Pop l = Some (x, l') /\ x :: l' ≡ₚ l /\ is_heap l' /\
    l !! 0 = Some x /\ forall y, y ∈ l -> (key x <= key y)%Z.
Proof.
  intros Hne Hheap. unfold Pop, Len. set (n := length l - 1).
  assert (length l = S n) as Hlen by (destruct l; [done|simpl in *; lia]).
  destruct (down_spec (length l) (swap l 0 n) 0 n) as (Hperm & Hh & Hrest).
  { lia. } { rewrite length_swap. lia. } { rewrite length_swap. lia. }
  { split; [|lia]. intros m Hm Hp. destruct (parent_spec m _ eq_refl) as [Hpm _]; [lia|].
    rewrite !keyAt_swap by lia.
    repeat match goal with |- context [?a =? ?b] => destruct (Nat.eqb_spec a b); [lia|] end.
    apply Hheap. lia. }
  set (l' := down _ _ _ _) in *.
  assert (length l' = S n) as Hlen' by (by rewrite Hperm, length_swap).
  destruct (lookup_lt_is_Some_2 l 0) as [x Hx]; [lia|].
  assert (l' !! n = Some x) as Hlast.
  { destruct (decide (n = 0)) as [Hn|Hn].
    - (* a single element *)
      destruct l as [|a [|]]; simpl in *; try lia. subst n l'. simpl in *. by rewrite Hx.
    - rewrite Hrest by lia. rewrite swap_lookup by lia.
      destruct (Nat.eqb_spec n 0); [done|]. by rewrite Nat.eqb_refl. }
  exists x, (take n l'). unfold removeLast. rewrite last_lookup, Hlen'. replace (S n - 1) with n by lia. cbn [pred]. rewrite Hlast. split; [done|].
  assert (x :: take n l' ≡ₚ l) as Hall.
  { rewrite <- (swap_perm l 0 n), <- Hperm.
    rewrite <- (take_drop n l') at 2. rewrite (drop_S l' x n Hlast), drop_ge by lia.
    by rewrite (comm (++)). }
  split_and!; [done| |done|].
  - intros m. rewrite length_take, Hlen'. intros Hm.
    destruct (parent_spec m _ eq_refl) as [Hpm _]; [lia|].
    rewrite !keyAt_take by lia. apply Hh. lia.
  - intros y [m Hm]%list_elem_of_lookup.
    pose proof (heap_root l (length l) m Hheap (lookup_lt_Some _ _ _ Hm)) as Hr.
    unfold keyAt in Hr. by rewrite Hx, Hm in Hr.
Qed.

Lemma is_heap_nil : is_heap [].
Proof. intros m. simpl. lia. Qed.

(** *** A slice of pushes, and draining *)

(** [for len(h) > 0 { out = append(out, heap.Pop(h)) }] *)
Fixpoint drain (fuel : nat) (l : list A) : list A * list A :=
  match fuel with
  | O => ([], l)
  | S fuel =>
      match l with
      | [] => ([], [])
      | _ =>
          match Pop l with
          | Some (x, l') => let '(out, rest) := drain fuel l' in (x :: out, rest)
          | None => ([], l)
          end
      end
  end.

Lemma foldl_Push l xs : is_heap l -> foldl Push l xs ≡ₚ l ++ xs /\ is_heap (foldl Push l xs).
Proof.
  revert l. induction xs as [|x xs IH]; intros l Hl; simpl; [by rewrite app_nil_r|].
  destruct (Push_spec l x Hl) as [Hp Hh]. destruct (IH _ Hh) as [Hp' Hh'].
  split; [|done]. rewrite Hp', Hp. by rewrite <- Permutation_middle.
Qed.

Lemma drain_spec fuel l : length l <= fuel -> is_heap l ->
  exists out, drain fuel l = (out, []) /\ out ≡ₚ l /\
    StronglySorted (fun x y => (key x <= key y)%Z) out.
Proof.
  revert l. induction fuel as [|fuel IH]; intros l Hlen Hheap.
  { destruct l; [exists []; split_and!; [done|done|constructor]|simpl in *; lia]. }
  cbn [drain]. destruct l as [|a l]; [exists []; split_and!; [done|done|constructor]|].
  destruct (Pop_spec (a :: l)) as (x & l' & Hpop & Hperm & Hh & _ & Hmin); [done|done|].
  rewrite Hpop. destruct (IH l') as (out & -> & Hp & Hs); [|done|].
  { apply Permutation_length in Hperm. simpl in *. lia. }
  exists (x :: out). split_and!; [done|by rewrite Hp|]. constructor; [done|].
  apply Forall_forall. intros y Hy. apply Hmin. rewrite <- Hperm. right. by rewrite <- Hp.
Qed.
End heap.
