(* ===== verification/Queue.v ===== *)
(** * The engine's queue (internal/engine/queue.go)

    The queue is a min-heap of UTXOs, oldest confirmation first; its store is the
    interface [DurableStore].  An operation that touches the heap holds the queue's
    lock while it does, and [commit] is one transaction of the store, so each is
    one function on the pair of the heap and the store; [persistAll] releases the
    lock before it writes and is a program of several actions.  ([restore] reads
    the store before it takes the lock; the engine calls it before it starts any
    goroutine, and it is one action here.) *)

From S2P Require Import Prelude Prog TxBuilder Store Heap.
Open Scope Z_scope.

Module Queue.

Definition unconfirmedHeight : Z := Z.shiftl 1 62.

(** [sortHeight] *)
Definition sortHeight (height : Z) : Z := if height =? 0 then unconfirmedHeight else height.

(** The key [utxoHeap.Less] compares. *)
Definition heapKey (u : UTXO) : Z := sortHeight (Height u).

Record queue (D : Type) := mkQueue {
  heap : list UTXO;
  store : option D;
}.
Arguments mkQueue {D} _ _.
Arguments heap {D} _.
Arguments store {D} _.

Section queue.
Context {D : Type} `{DurableStore D}.

Definition newQueue (s : option D) : queue D := mkQueue [] s.

Definition push (u : UTXO) (q : queue D) : queue D :=
  mkQueue (Push heapKey (heap q) u) (store q).

(** A store operation on a possibly nil store. *)
Definition with_store (op : D -> option err * D) (q : queue D) : option err * queue D :=
  match store q with
  | None => (None, q)
  | Some d => let '(r, d') := op d in (r, mkQueue (heap q) (Some d'))
  end.

Definition pushPersisted (u : UTXO) (q : queue D) : option err * queue D :=
  with_store (ds_SaveUTXO u) (push u q).

Definition pop (q : queue D) : option UTXO * queue D :=
  match heap q with
  | [] => (None, q)
  | _ =>
      match Pop heapKey (heap q) with
      | Some (u, h) => (Some u, mkQueue h (store q))
      | None => (None, q)
      end
  end.

Definition drain (q : queue D) : list UTXO * queue D :=
  let '(out, rest) := Heap.drain heapKey (length (heap q)) (heap q) in (out, mkQueue rest (store q)).

Definition len (q : queue D) : Z := Z.of_nat (length (heap q)).

(** The loop of [persistAll] over its copy of the queue. *)
Fixpoint saveAll (utxos : list UTXO) : prog (queue D) (option err) :=
  match utxos with
  | [] => Ret None
  | u :: utxos' =>
      r ← act (with_store (ds_SaveUTXO u));
      match r with Some e => Ret (Some e) | None => saveAll utxos' end
  end.

Definition persistAll : prog (queue D) (option err) :=
  utxos ← gets heap;
  st ← gets store;
  match st with None => Ret None | Some _ => saveAll utxos end.

Definition restore (q : queue D) : option err * queue D :=
  match store q with
  | None => (None, q)
  | Some d =>
      match ds_LoadAll d with
      | Err e => (Some e, q)
      | Ok utxos => (None, mkQueue (foldl (Push heapKey) [] utxos) (Some d))
      end
  end.

Definition commit (txid : string) (spent created : list UTXO) (q : queue D) : option err * queue D :=
  with_store (ds_CommitPending txid spent created) q.

(** *** The invariant *)

Definition wf (q : queue D) : Prop :=
  is_heap heapKey (heap q) /\ match store q with Some d => ds_wf d | None => True end.

(** Saving one by one stores every UTXO under its own key. *)
Lemma insert_all_lookup (l : list UTXO) (m : gmap string UTXO) u :
  NoDup (outpoint <$> l) -> u ∈ l -> foldl (fun m u => <[keyOf u := u]> m) m l !! keyOf u = Some u.
Proof.
  assert (forall l (m : gmap string UTXO), (forall w, w ∈ l -> outpoint w <> outpoint u) ->
    foldl (fun m u => <[keyOf u := u]> m) m l !! keyOf u = m !! keyOf u) as Hskip.
  { clear. induction l as [|w l IH]; intros m Hl; [done|]. cbn [foldl]. rewrite IH by (intros w' Hw'; apply Hl; by right).
    apply lookup_insert_ne. intros Heq%keyOf_outpoint. by apply (Hl w); [left|]. }
  revert m. induction l as [|w l IH]; intros m Hnd Hu; [by apply elem_of_nil in Hu|]. cbn [foldl].
  apply NoDup_cons in Hnd as [Hw Hnd]. destruct (decide (u ∈ l)) as [Hin|Hout]; [by apply IH|].
  apply elem_of_cons in Hu as [->|]; [|done].
  rewrite Hskip; [apply lookup_insert_eq|].
  intros w' Hw' Heq. apply Hw. rewrite <- Heq. by apply list_elem_of_fmap_2.
Qed.

(** Every operation of the queue that changes it or its store, as one type, and
    what each returns. *)
Inductive op : Type :=
  | OpPush (u : UTXO)
  | OpPushPersisted (u : UTXO)
  | OpPop
  | OpDrain
  | OpPersistAll
  | OpRestore
  | OpCommit (txid : string) (spent created : list UTXO).

Inductive outcome : Type :=
  | Returned (r : option err)
  | Popped (u : option UTXO)
  | Drained (us : list UTXO).

Definition op_code (o : op) : prog (queue D) outcome :=
  match o with
  | OpPush u => modify (push u);; Ret (Returned None)
  | OpPushPersisted u => r ← act (pushPersisted u); Ret (Returned r)
  | OpPop => u ← act pop; Ret (Popped u)
  | OpDrain => us ← act drain; Ret (Drained us)
  | OpPersistAll => r ← persistAll; Ret (Returned r)
  | OpRestore => r ← act restore; Ret (Returned r)
  | OpCommit txid spent created => r ← act (commit txid spent created); Ret (Returned r)
  end.

(** A goroutine that uses the queue. *)
Definition client (ops : list op) : prog (queue D) (list outcome) := seq_all (op_code <$> ops).

(** Which of two UTXOs is older: an unconfirmed one is younger than any other. *)
Definition older (u w : UTXO) : Prop := Height w = 0 \/ (Height u <> 0 /\ Height u <= Height w).

(** The store after [r]: changed by [f] on success, unchanged on an error. *)
Definition stored (r : option err) (f : StoreView -> StoreView) (q q' : queue D) : Prop :=
  ds_view <$> store q' = match r with None => f | Some _ => id end <$> (ds_view <$> store q).

(** What each operation has to do, stated on the contents of the queue and of the
    store. *)
Definition op_effect (o : op) (q : queue D) (r : outcome) (q' : queue D) : Prop :=
  match o, r with
  | OpPush u, Returned None => heap q' ≡ₚ u :: heap q /\ store q' = store q
  | OpPushPersisted u, Returned r =>
      heap q' ≡ₚ u :: heap q /\
      stored r (fun v => mkView (<[keyOf u := u]> (v_utxos v)) (v_meta v) (v_pending v)) q q'
  | OpPop, Popped None => heap q = [] /\ q' = q
  | OpPop, Popped (Some u) =>
      u :: heap q' ≡ₚ heap q /\ store q' = store q /\
      ((forall w, w ∈ heap q -> Height w < unconfirmedHeight) -> forall w, w ∈ heap q -> older u w)
  | OpDrain, Drained us =>
      us ≡ₚ heap q /\ heap q' = [] /\ store q' = store q /\
      ((forall w, w ∈ heap q -> Height w < unconfirmedHeight) -> StronglySorted older us)
  | OpPersistAll, Returned r =>
      heap q' = heap q /\
      match store q, store q' with
      | Some d, Some d' =>
          v_meta (ds_view d') = v_meta (ds_view d) /\ v_pending (ds_view d') = v_pending (ds_view d) /\
          (forall k, v_utxos (ds_view d') !! k = v_utxos (ds_view d) !! k \/
             exists u, u ∈ heap q /\ k = keyOf u /\ v_utxos (ds_view d') !! k = Some u) /\
          (r = None -> NoDup (outpoint <$> heap q) ->
             forall u, u ∈ heap q -> v_utxos (ds_view d') !! keyOf u = Some u)
      | None, None => r = None
      | _, _ => False
      end
  | OpRestore, Returned r =>
      store q' = store q /\
      match store q, r with
      | Some d, None => heap q' ≡ₚ (map_to_list (v_utxos (ds_view d))).*2
      | None, None | Some _, Some _ => heap q' = heap q
      | None, Some _ => False
      end
  | OpCommit txid spent created, Returned r =>
      heap q' = heap q /\
      stored r (fun v => mkView (apply_tips spent created (v_utxos v)) (v_meta v)
                           (if bool_decide (txid = ""%string) then v_pending v else delete txid (v_pending v))) q q'
  | _, _ => False
  end.

Lemma with_store_heap o (q : queue D) : heap (with_store o q).2 = heap q.
Proof. unfold with_store. destruct (store q); [|done]. by destruct (o d). Qed.

Lemma with_store_wf o f (q : queue D) : implements o f -> wf q -> wf (with_store o q).2.
Proof.
  intros Ho [Hh Hd]. split; [by rewrite with_store_heap|].
  unfold with_store. destruct (store q) as [d|] eqn:Hs; [|simpl; by rewrite Hs].
  destruct (o d) as [r d'] eqn:Hr. simpl. by apply (Ho d r d').
Qed.

Lemma push_heap u (q : queue D) : wf q -> heap (push u q) ≡ₚ u :: heap q.
Proof. intros [Hh _]. apply (Push_spec heapKey (heap q) u Hh). Qed.

Lemma push_wf u (q : queue D) : wf q -> wf (push u q).
Proof. intros [Hh Hd]. split; [|done]. apply (Push_spec heapKey (heap q) u Hh). Qed.

Lemma pop_None (q : queue D) : wf q -> (pop q).1 = None -> heap q = [] /\ (pop q).2 = q.
Proof.
  intros [Hh _]. unfold pop. destruct (heap q) as [|a h] eqn:Hq; [done|]. rewrite <- Hq in Hh |- *.
  destruct (Pop_spec heapKey (heap q)) as (x & l & -> & _); [by rewrite Hq|done|]. done.
Qed.

Lemma pop_Some (q q' : queue D) u : wf q -> pop q = (Some u, q') ->
  wf q' /\ u :: heap q' ≡ₚ heap q /\ store q' = store q /\
  forall w, w ∈ heap q -> heapKey u <= heapKey w.
Proof.
  intros [Hh Hd]. unfold pop. destruct (heap q) as [|a h] eqn:Hq; [done|]. rewrite <- Hq in Hh |- *.
  destruct (Pop_spec heapKey (heap q)) as (x & l & -> & Hperm & Hl & _ & Hmin); [by rewrite Hq|done|].
  intros [= -> <-]. done.
Qed.

Lemma pop_wf (q : queue D) : wf q -> wf (pop q).2.
Proof.
  intros Hwf. destruct (pop q) as [[u|] q'] eqn:Hp; simpl.
  - by apply (pop_Some q q' u).
  - destruct (pop_None q Hwf) as [_ Heq]; [by rewrite Hp|]. rewrite Hp in Heq. simpl in Heq. by subst.
Qed.

Lemma drain_empties (q : queue D) : wf q ->
  (drain q).1 ≡ₚ heap q /\ StronglySorted (fun u w => heapKey u <= heapKey w) (drain q).1 /\
  heap (drain q).2 = [] /\ store (drain q).2 = store q /\ wf (drain q).2.
Proof.
  intros [Hh Hd]. unfold drain.
  destruct (drain_spec heapKey (length (heap q)) (heap q)) as (out & -> & Hp & Hs); [lia|done|].
  split_and!; [done|done|done|done|]. split; [apply is_heap_nil|done].
Qed.

Lemma restore_wf (q : queue D) : wf q -> wf (restore q).2.
Proof.
  intros Hwf. unfold restore. destruct (store q) as [d|] eqn:Hs; [|done].
  destruct (ds_LoadAll d); [|done]. destruct Hwf as [_ Hd]. rewrite Hs in Hd.
  split; [|done]. apply foldl_Push, is_heap_nil.
Qed.

Context `{!DurableStoreLaws D}.

Lemma restore_heap (q : queue D) d : wf q -> store q = Some d -> (restore q).1 = None ->
  heap (restore q).2 ≡ₚ (map_to_list (v_utxos (ds_view d))).*2 /\ store (restore q).2 = Some d.
Proof.
  intros [Hh Hd] Hs. rewrite Hs in Hd. unfold restore. rewrite Hs.
  destruct (ds_LoadAll d) as [l|e] eqn:Hl; [|done]. intros _. split; [|done]. simpl.
  destruct (foldl_Push heapKey [] l (is_heap_nil heapKey)) as [Hp _].
  etrans; [exact Hp|]. by apply LoadAll_law.
Qed.

Lemma commit_implements txid spent created :
  implements (ds_CommitPending txid spent created)
    (fun v => mkView (apply_tips spent created (v_utxos v)) (v_meta v)
                (if bool_decide (txid = ""%string) then v_pending v else delete txid (v_pending v))).
Proof.
  case_bool_decide as Hid; [subst txid; apply CommitPending_noid|by apply CommitPending_law].
Qed.

Lemma with_store_stored o f (q : queue D) : implements o f -> wf q -> stored (with_store o q).1 f q (with_store o q).2.
Proof.
  intros Ho [_ Hd]. unfold stored, with_store. destruct (store q) as [d|] eqn:Hs; [|simpl; by rewrite Hs].
  destruct (o d) as [r d'] eqn:Hr. cbn [fst snd store fmap option_fmap option_map]. f_equal.
  destruct (Ho d r d' Hd Hr) as [_ ->]. by destruct r.
Qed.

Lemma heapKey_older u w : Height w < unconfirmedHeight -> heapKey u <= heapKey w -> older u w.
Proof. unfold heapKey, sortHeight, older. destruct (Z.eqb_spec (Height u) 0), (Z.eqb_spec (Height w) 0); lia. Qed.

Lemma sorted_older us : (forall w, w ∈ us -> Height w < unconfirmedHeight) ->
  StronglySorted (fun u w => heapKey u <= heapKey w) us -> StronglySorted older us.
Proof.
  intros Hr Hs. induction Hs as [|u us Hs IH Hu]; constructor.
  - apply IH. intros w Hw. apply Hr. by right.
  - apply Forall_forall. intros w Hw. apply heapKey_older; [apply Hr; by right|]. by eapply Forall_forall in Hu.
Qed.

Lemma saveAll_preserves l : preserves wf (saveAll l).
Proof.
  induction l as [|u l IH]; [done|]. split; [|by intros [e|]].
  intros q Hwf. by eapply with_store_wf; [apply SaveUTXO_law|].
Qed.

Lemma op_code_preserves o : preserves wf (op_code o).
Proof.
  destruct o as [u|u| | | | |txid spent created]; simpl; (split; [|done]) || idtac.
  - intros q Hwf. by apply push_wf.
  - intros q Hwf. eapply with_store_wf; [apply SaveUTXO_law|by apply push_wf].
  - intros q Hwf. by apply pop_wf.
  - intros q Hwf. by apply drain_empties.
  - split; [done|]. intros us. split; [done|]. intros [d|]; [|done].
    apply preserves_bind; [apply saveAll_preserves|done].
  - intros q Hwf. by apply restore_wf.
  - intros q Hwf. by eapply with_store_wf; [apply commit_implements|].
Qed.

Lemma saveAll_spec l (q : queue D) d r q' : wf q -> store q = Some d ->
  run (saveAll l) q = (r, q') ->
  exists d', q' = mkQueue (heap q) (Some d') /\ ds_wf d' /\
    v_meta (ds_view d') = v_meta (ds_view d) /\ v_pending (ds_view d') = v_pending (ds_view d) /\
    (forall k, v_utxos (ds_view d') !! k = v_utxos (ds_view d) !! k \/
       exists u, u ∈ l /\ k = keyOf u /\ v_utxos (ds_view d') !! k = Some u) /\
    (r = None -> v_utxos (ds_view d') = foldl (fun m u => <[keyOf u := u]> m) (v_utxos (ds_view d)) l).
Proof.
  revert q d. induction l as [|u l IH]; intros q d [Hh Hd] Hs Hrun; rewrite Hs in Hd.
  { simpl in Hrun. simplify_eq. exists d. destruct q'; simpl in *; subst. split_and!; try done. by left. }
  cbn [saveAll] in Hrun. unfold mbind, prog_bind in Hrun. rewrite run_bind in Hrun. simpl run in Hrun.
  unfold with_store in Hrun. rewrite Hs in Hrun.
  destruct (ds_SaveUTXO u d) as [r1 d1] eqn:Hu.
  destruct (SaveUTXO_law u d r1 d1 Hd Hu) as [Hd1 Hv].
  destruct r1 as [e|]; simpl in Hrun.
  - simplify_eq. exists d1. rewrite Hv. split_and!; try done. by left.
  - destruct (IH (mkQueue (heap q) (Some d1)) d1) as (d' & -> & Hd' & Hm & Hp & Hk & Ht); [by split|done|done|].
    exists d'. rewrite Hv in Hm, Hp, Ht. split_and!; try done.
    intros k. rewrite Hv in Hk. cbn [saveUTXO_view v_utxos] in Hk.
    destruct (Hk k) as [Hsame|(w & Hw & Hkw)]; [|right; exists w; split; [by right|done]].
    destruct (decide (k = keyOf u)) as [->|Hne].
    + right. exists u. split_and!; [by left|done|]. by rewrite Hsame, lookup_insert_eq.
    + left. by rewrite Hsame, lookup_insert_ne.
Qed.

Lemma persistAll_effect (q : queue D) : wf q ->
  op_effect OpPersistAll q (Returned (run persistAll q).1) (run persistAll q).2.
Proof.
  intros Hwf. destruct (run persistAll q) as [r q'] eqn:Hrun. unfold persistAll, mbind, prog_bind in Hrun.
  simpl in Hrun. cbn [op_effect fst snd]. destruct (store q) as [d|] eqn:Hs.
  - destruct (saveAll_spec (heap q) q d r q' Hwf Hs Hrun) as (d' & -> & _ & Hm & Hp & Hk & Ht).
    split; [done|]. cbn [store]. split_and!; try done. intros Hr Hnd u Hu. rewrite (Ht Hr). by apply insert_all_lookup.
  - injection Hrun as <- <-. by rewrite Hs.
Qed.

Lemma op_code_effect o (q : queue D) : wf q -> op_effect o q (run (op_code o) q).1 (run (op_code o) q).2.
Proof.
  intros Hwf. destruct o as [u|u| | | | |txid spent created]; unfold op_code, mbind, prog_bind.
  - split; [by apply push_heap|done].
  - rewrite run_bind. cbn [act run]. pose proof (push_wf u q Hwf) as Hpush.
    pose proof (with_store_stored _ _ (push u q) (SaveUTXO_law u) Hpush) as Hst.
    pose proof (with_store_heap (ds_SaveUTXO u) (push u q)) as Hh. unfold pushPersisted.
    destruct (with_store (ds_SaveUTXO u) (push u q)) as [r q']. cbn [fst snd op_effect] in *.
    split; [rewrite Hh; by apply push_heap|exact Hst].
  - rewrite run_bind. cbn [act run]. destruct (pop q) as [[u|] q'] eqn:Hp; cbn [fst snd op_effect].
    + destruct (pop_Some q q' u Hwf Hp) as (_ & Hperm & Hst & Hmin). split_and!; [done|done|].
      intros Hr w Hw. apply heapKey_older; [by apply Hr|by apply Hmin].
    + destruct (pop_None q Hwf) as [Hq Heq]; [by rewrite Hp|]. rewrite Hp in Heq. done.
  - rewrite run_bind. cbn [act run]. destruct (drain_empties q Hwf) as (Hp & Hs & Hh & Hst & _).
    destruct (drain q) as [us q']. cbn [fst snd op_effect] in *. split_and!; [done|done|done|].
    intros Hr. apply sorted_older; [|done]. intros w Hw. apply Hr. by rewrite <- Hp.
  - rewrite run_bind. pose proof (persistAll_effect q Hwf) as He. by destruct (run persistAll q).
  - rewrite run_bind. cbn [act run]. pose proof (restore_heap q) as Hh. unfold restore in *.
    destruct (store q) as [d|] eqn:Hs; cbn [fst snd op_effect]; rewrite Hs; [|done].
    destruct (ds_LoadAll d); cbn [fst snd op_effect]; rewrite ?Hs; [|done]. split; [done|]. by apply Hh.
  - rewrite run_bind. cbn [act run]. pose proof (with_store_stored _ _ q (commit_implements txid spent created) Hwf) as Hst.
    pose proof (with_store_heap (ds_CommitPending txid spent created) q) as Hh. unfold commit.
    destruct (with_store (ds_CommitPending txid spent created) q) as [r q']. done.
Qed.

End queue.
End Queue.

(** ** Witnesses *)

Module QueueWitness.
Import Queue MemStore.

Definition utxo (h : string) (height : Z) : UTXO := mkUTXO h 0 5 height.

(** Two confirmed UTXOs and an unconfirmed one, over a fresh file; the last
    goroutine has copied the queue and saved nothing yet. *)
Definition clients3 : list (list op) :=
  [[OpPush (utxo "a" 0); OpPush (utxo "b" 9)]; [OpPushPersisted (utxo "c" 4)]; [OpPersistAll]].

Definition q3 : queue DB := (run (par [0; 0; 1]%nat (client <$> take 2 clients3)) (newQueue (Some (fresh [])))).2.


End QueueWitness.
