(* ===== verification/Engine.v ===== *)
(** * The engine: state, configuration and persistence
    (internal/engine/engine.go, state.go, persist.go, notify.go)

    The engine is a record [Engine]; its goroutines are programs of atomic
    actions on it ([Prog]), one action per critical section, atomic variable
    access, store transaction or call to the outside.

    What is outside (the network behind [Broadcaster] and [UTXOSource], the clock,
    the context, which ready case a [select] takes, the random source, the scheduler
    and where a goroutine panics) is the class [World]: an arbitrary oracle with its own state.

    [e_log] is not in the source: it records every broadcast with its outcome, so
    that theorems can say what the network accepted. *)

From stdpp Require Import sorting.
From Stdlib Require Structures.OrdersEx.
From S2P Require Import Prelude Prog Safe Script TxBuilder Backoff Float Metrics Store Heap Queue.
Open Scope Z_scope.

(** ** The outside *)

Class World (W : Type) := {
  (* [Broadcaster.Broadcast] and [UTXOSource.FetchUTXOs] *)
  Broadcast : string -> bytes -> W -> option err * W;
  FetchUTXOs : string -> W -> result (list UTXO) * W;
  (* [time.Now] *)
  Now : W -> Z * W;
  (* [ctx.Err]: [None] while the context is alive *)
  CtxErr : W -> option err * W;
  (* which of its [n] cases a blocking [select] takes, once one is ready; with the
     duration of its timer or ticker, when it has one *)
  Select : nat -> option Z -> W -> nat * W;
  (* the next answer of [rand.Int64N] *)
  Rand : W -> (Z -> Z) * W;
  (* the interleaving of a group of goroutines *)
  Schedule : W -> list nat * W;
  (* where a goroutine panics, if it does *)
  Panics : W -> option (nat * string) * W;
}.

(** ** State (state.go) *)

Inductive Lifecycle :=
  | LifecycleStarting | LifecycleBootstrapping | LifecyclePaused | LifecycleRunning
  | LifecycleDegraded | LifecycleStopping | LifecycleStopped | LifecycleFailed.

#[export] Instance Lifecycle_eq_dec : EqDecision Lifecycle.
Proof. solve_decision. Defined.

(** [Stage] is a string: the persisted one may be any. *)
Definition StageNone : string := "none".
Definition StageL1Done : string := "l1_done".
Definition StageL2Partial : string := "l2_partial".
Definition StageL2Done : string := "l2_done".
Definition StageUnknown : string := "unknown".

(** [Msg] is kept as the error whose text it is. *)
Record ErrorRecord := mkErrorRecord { erComponent : string; erMsg : err; erTime : Z }.

Record ReorgRecord := mkReorgRecord {
  rrHeight : Z; rrDepth : Z; rrTime : Z; rrChainsImpacted : Z; rrTipBefore : string; rrTipAfter : string;
}.

Record SSEState := mkSSEState { sseConnected : bool; sseTipHeight : Z; sseTipHash : string; sseTipTime : Z }.

Record State := mkState {
  sLifecycle : Lifecycle;
  sRequestedTPS : Z;
  sAcceptedTPS : float64;
  sChainsActive : Z;
  sChainsTarget : Z;
  sChainsExhausted : Z;
  sBootstrapStage : string;
  sBootstrapFailures : Z;
  sLastBroadcastOk : Z;
  sConsecutiveArcadeFailures : Z;
  sLastWoCTime : Z;
  sLastWoCResult : string;
  sSSE : SSEState;
  sLastReorg : option ReorgRecord;
  sLastError : option ErrorRecord;
}.

(** The zero value of [State]. *)
Definition zeroState : State :=
  mkState LifecycleStarting 0 (of_int 0) 0 0 0 "" 0 0 0 0 "" (mkSSEState false 0 "" 0) None None.

Definition with_lifecycle (v : Lifecycle) (s : State) : State :=
  mkState v (sRequestedTPS s) (sAcceptedTPS s) (sChainsActive s) (sChainsTarget s) (sChainsExhausted s)
    (sBootstrapStage s) (sBootstrapFailures s) (sLastBroadcastOk s) (sConsecutiveArcadeFailures s)
    (sLastWoCTime s) (sLastWoCResult s) (sSSE s) (sLastReorg s) (sLastError s).

Definition with_requestedTPS (v : Z) (s : State) : State :=
  mkState (sLifecycle s) v (sAcceptedTPS s) (sChainsActive s) (sChainsTarget s) (sChainsExhausted s)
    (sBootstrapStage s) (sBootstrapFailures s) (sLastBroadcastOk s) (sConsecutiveArcadeFailures s)
    (sLastWoCTime s) (sLastWoCResult s) (sSSE s) (sLastReorg s) (sLastError s).

Definition with_chainsTarget (v : Z) (s : State) : State :=
  mkState (sLifecycle s) (sRequestedTPS s) (sAcceptedTPS s) (sChainsActive s) v (sChainsExhausted s)
    (sBootstrapStage s) (sBootstrapFailures s) (sLastBroadcastOk s) (sConsecutiveArcadeFailures s)
    (sLastWoCTime s) (sLastWoCResult s) (sSSE s) (sLastReorg s) (sLastError s).

Definition with_stage (v : string) (s : State) : State :=
  mkState (sLifecycle s) (sRequestedTPS s) (sAcceptedTPS s) (sChainsActive s) (sChainsTarget s) (sChainsExhausted s)
    v (sBootstrapFailures s) (sLastBroadcastOk s) (sConsecutiveArcadeFailures s)
    (sLastWoCTime s) (sLastWoCResult s) (sSSE s) (sLastReorg s) (sLastError s).

Definition with_bootstrapFailures (v : Z) (s : State) : State :=
  mkState (sLifecycle s) (sRequestedTPS s) (sAcceptedTPS s) (sChainsActive s) (sChainsTarget s) (sChainsExhausted s)
    (sBootstrapStage s) v (sLastBroadcastOk s) (sConsecutiveArcadeFailures s)
    (sLastWoCTime s) (sLastWoCResult s) (sSSE s) (sLastReorg s) (sLastError s).

(** [LastBroadcastOk] and [ConsecutiveArcadeFailures]. *)
Definition with_broadcast (ok failures : Z) (s : State) : State :=
  mkState (sLifecycle s) (sRequestedTPS s) (sAcceptedTPS s) (sChainsActive s) (sChainsTarget s) (sChainsExhausted s)
    (sBootstrapStage s) (sBootstrapFailures s) ok failures
    (sLastWoCTime s) (sLastWoCResult s) (sSSE s) (sLastReorg s) (sLastError s).

Definition with_woc (time : Z) (r : string) (s : State) : State :=
  mkState (sLifecycle s) (sRequestedTPS s) (sAcceptedTPS s) (sChainsActive s) (sChainsTarget s) (sChainsExhausted s)
    (sBootstrapStage s) (sBootstrapFailures s) (sLastBroadcastOk s) (sConsecutiveArcadeFailures s)
    time r (sSSE s) (sLastReorg s) (sLastError s).

Definition with_sse (v : SSEState) (s : State) : State :=
  mkState (sLifecycle s) (sRequestedTPS s) (sAcceptedTPS s) (sChainsActive s) (sChainsTarget s) (sChainsExhausted s)
    (sBootstrapStage s) (sBootstrapFailures s) (sLastBroadcastOk s) (sConsecutiveArcadeFailures s)
    (sLastWoCTime s) (sLastWoCResult s) v (sLastReorg s) (sLastError s).

Definition with_lastReorg (v : ReorgRecord) (s : State) : State :=
  mkState (sLifecycle s) (sRequestedTPS s) (sAcceptedTPS s) (sChainsActive s) (sChainsTarget s) (sChainsExhausted s)
    (sBootstrapStage s) (sBootstrapFailures s) (sLastBroadcastOk s) (sConsecutiveArcadeFailures s)
    (sLastWoCTime s) (sLastWoCResult s) (sSSE s) (Some v) (sLastError s).

Definition with_lastError (component : string) (msg : err) (time : Z) (s : State) : State :=
  mkState (sLifecycle s) (sRequestedTPS s) (sAcceptedTPS s) (sChainsActive s) (sChainsTarget s) (sChainsExhausted s)
    (sBootstrapStage s) (sBootstrapFailures s) (sLastBroadcastOk s) (sConsecutiveArcadeFailures s)
    (sLastWoCTime s) (sLastWoCResult s) (sSSE s) (sLastReorg s) (Some (mkErrorRecord component msg time)).

(** ** Configuration (engine.go) *)

Definition DefaultNumChains : Z := 10000.
Definition DefaultFanoutSize : Z := 100.
Definition DefaultSeedPollInterval : Z := 10 * Backoff.Second.
Definition degradedAfterFailures : Z := 5.
Definition bootstrapAttempts : nat := 3.

Record BootstrapConfig := mkBootstrapConfig { bcNumChains : Z; bcFanoutSize : Z; bcSustainFee : Z }.

Record BootstrapUpdate := mkBootstrapUpdate {
  buNumChains : option Z; buFanoutSize : option Z; buSustainFee : option Z;
}.

(** [positiveOr] *)
Definition positiveOr (v def : Z) : Z := if 0 <? v then v else def.

Section engine.
Context `{Sdk} `{Prometheus} {D : Type} `{DurableStore D} {W : Type} `{World W}.

(** ** The engine

    [e.store] and [e.queue.store] are the same pointer: the store is in the
    queue.  [e_source] says whether a [UTXOSource] is set.  [e_resume] is the
    [notify] of notify.go: [C] returns the current generation, and a channel is
    closed once the generation has moved past it. *)

Record Engine := mkEngine {
  e_queue : Queue.queue D;
  e_source : bool;
  e_seedInterval : Z;
  e_metrics : Metrics.t;
  e_tps : Z;
  e_resume : nat;
  e_state : State;
  e_mode : Mode;
  e_numChains : Z;
  e_fanoutSize : Z;
  e_bootstrapLocked : bool;
  e_chainsActive : Z;
  e_chainsExhausted : Z;
  e_acceptedCount : Z;
  e_acceptedTPS : Z;
  e_world : W;
  e_log : list (PendingBroadcast * bool);
}.

Definition set_queue (v : Queue.queue D) (e : Engine) : Engine :=
  mkEngine v (e_source e) (e_seedInterval e) (e_metrics e) (e_tps e) (e_resume e) (e_state e)
    (e_mode e) (e_numChains e) (e_fanoutSize e) (e_bootstrapLocked e) (e_chainsActive e)
    (e_chainsExhausted e) (e_acceptedCount e) (e_acceptedTPS e) (e_world e) (e_log e).

Definition set_metrics (v : Metrics.t) (e : Engine) : Engine :=
  mkEngine (e_queue e) (e_source e) (e_seedInterval e) v (e_tps e) (e_resume e) (e_state e)
    (e_mode e) (e_numChains e) (e_fanoutSize e) (e_bootstrapLocked e) (e_chainsActive e)
    (e_chainsExhausted e) (e_acceptedCount e) (e_acceptedTPS e) (e_world e) (e_log e).

Definition set_tps (v : Z) (e : Engine) : Engine :=
  mkEngine (e_queue e) (e_source e) (e_seedInterval e) (e_metrics e) v (e_resume e) (e_state
    e) (e_mode e) (e_numChains e) (e_fanoutSize e) (e_bootstrapLocked e) (e_chainsActive e)
    (e_chainsExhausted e) (e_acceptedCount e) (e_acceptedTPS e) (e_world e) (e_log e).

Definition set_resume (v : nat) (e : Engine) : Engine :=
  mkEngine (e_queue e) (e_source e) (e_seedInterval e) (e_metrics e) (e_tps e) v (e_state e)
    (e_mode e) (e_numChains e) (e_fanoutSize e) (e_bootstrapLocked e) (e_chainsActive e)
    (e_chainsExhausted e) (e_acceptedCount e) (e_acceptedTPS e) (e_world e) (e_log e).

Definition set_state (v : State) (e : Engine) : Engine :=
  mkEngine (e_queue e) (e_source e) (e_seedInterval e) (e_metrics e) (e_tps e) (e_resume e) v
    (e_mode e) (e_numChains e) (e_fanoutSize e) (e_bootstrapLocked e) (e_chainsActive e)
    (e_chainsExhausted e) (e_acceptedCount e) (e_acceptedTPS e) (e_world e) (e_log e).

Definition set_mode (v : Mode) (e : Engine) : Engine :=
  mkEngine (e_queue e) (e_source e) (e_seedInterval e) (e_metrics e) (e_tps e) (e_resume e)
    (e_state e) v (e_numChains e) (e_fanoutSize e) (e_bootstrapLocked e) (e_chainsActive e)
    (e_chainsExhausted e) (e_acceptedCount e) (e_acceptedTPS e) (e_world e) (e_log e).

Definition set_numChains (v : Z) (e : Engine) : Engine :=
  mkEngine (e_queue e) (e_source e) (e_seedInterval e) (e_metrics e) (e_tps e) (e_resume e)
    (e_state e) (e_mode e) v (e_fanoutSize e) (e_bootstrapLocked e) (e_chainsActive e)
    (e_chainsExhausted e) (e_acceptedCount e) (e_acceptedTPS e) (e_world e) (e_log e).

Definition set_fanoutSize (v : Z) (e : Engine) : Engine :=
  mkEngine (e_queue e) (e_source e) (e_seedInterval e) (e_metrics e) (e_tps e) (e_resume e)
    (e_state e) (e_mode e) (e_numChains e) v (e_bootstrapLocked e) (e_chainsActive e)
    (e_chainsExhausted e) (e_acceptedCount e) (e_acceptedTPS e) (e_world e) (e_log e).

Definition set_bootstrapLocked (v : bool) (e : Engine) : Engine :=
  mkEngine (e_queue e) (e_source e) (e_seedInterval e) (e_metrics e) (e_tps e) (e_resume e)
    (e_state e) (e_mode e) (e_numChains e) (e_fanoutSize e) v (e_chainsActive e)
    (e_chainsExhausted e) (e_acceptedCount e) (e_acceptedTPS e) (e_world e) (e_log e).

Definition set_chainsActive (v : Z) (e : Engine) : Engine :=
  mkEngine (e_queue e) (e_source e) (e_seedInterval e) (e_metrics e) (e_tps e) (e_resume e)
    (e_state e) (e_mode e) (e_numChains e) (e_fanoutSize e) (e_bootstrapLocked e) v
    (e_chainsExhausted e) (e_acceptedCount e) (e_acceptedTPS e) (e_world e) (e_log e).

Definition set_chainsExhausted (v : Z) (e : Engine) : Engine :=
  mkEngine (e_queue e) (e_source e) (e_seedInterval e) (e_metrics e) (e_tps e) (e_resume e)
    (e_state e) (e_mode e) (e_numChains e) (e_fanoutSize e) (e_bootstrapLocked e)
    (e_chainsActive e) v (e_acceptedCount e) (e_acceptedTPS e) (e_world e) (e_log e).

Definition set_acceptedCount (v : Z) (e : Engine) : Engine :=
  mkEngine (e_queue e) (e_source e) (e_seedInterval e) (e_metrics e) (e_tps e) (e_resume e)
    (e_state e) (e_mode e) (e_numChains e) (e_fanoutSize e) (e_bootstrapLocked e)
    (e_chainsActive e) (e_chainsExhausted e) v (e_acceptedTPS e) (e_world e) (e_log e).

Definition set_acceptedTPS (v : Z) (e : Engine) : Engine :=
  mkEngine (e_queue e) (e_source e) (e_seedInterval e) (e_metrics e) (e_tps e) (e_resume e)
    (e_state e) (e_mode e) (e_numChains e) (e_fanoutSize e) (e_bootstrapLocked e)
    (e_chainsActive e) (e_chainsExhausted e) (e_acceptedCount e) v (e_world e) (e_log e).

Definition set_world (v : W) (e : Engine) : Engine :=
  mkEngine (e_queue e) (e_source e) (e_seedInterval e) (e_metrics e) (e_tps e) (e_resume e)
    (e_state e) (e_mode e) (e_numChains e) (e_fanoutSize e) (e_bootstrapLocked e)
    (e_chainsActive e) (e_chainsExhausted e) (e_acceptedCount e) (e_acceptedTPS e) v (e_log e).

Definition set_log (v : list (PendingBroadcast * bool)) (e : Engine) : Engine :=
  mkEngine (e_queue e) (e_source e) (e_seedInterval e) (e_metrics e) (e_tps e) (e_resume e)
    (e_state e) (e_mode e) (e_numChains e) (e_fanoutSize e) (e_bootstrapLocked e)
    (e_chainsActive e) (e_chainsExhausted e) (e_acceptedCount e) (e_acceptedTPS e) (e_world e)
    v.

(** ** Actions *)

Abbreviation code := (prog Engine).

(** A call to the outside. *)
Definition world {B} (f : W -> B * W) : code B :=
  act (fun e => let '(b, w) := f (e_world e) in (b, set_world w e)).

(** A critical section of the queue. *)
Definition onQueue {B} (f : Queue.queue D -> B * Queue.queue D) : code B :=
  act (fun e => let '(b, q) := f (e_queue e) in (b, set_queue q e)).

Definition queuePush (u : UTXO) : code unit := onQueue (fun q => (tt, Queue.push u q)).
Definition queueLen : code Z := gets (fun e => Queue.len (e_queue e)).

(** A store transaction; a nil store does nothing. *)
Definition storeOp (op : D -> option err * D) : code (option err) := onQueue (Queue.with_store op).

Definition metric (f : Metrics.t -> Metrics.t) : code unit :=
  modify (fun e => set_metrics (f (e_metrics e)) e).

(** [setState(fn)] *)
Definition setState (fn : State -> State) : code unit :=
  modify (fun e => set_state (fn (e_state e)) e).

(** [setState] of a closure that reads [time.Now()]. *)
Definition setStateNow (fn : Z -> State -> State) : code unit :=
  act (fun e => let '(t, w) := Now (e_world e) in (tt, set_world w (set_state (fn t (e_state e)) e))).

(** [chainsActive.Add(n)] *)
Definition addChainsActive (n : Z) : code Z :=
  act (fun e => let v := e_chainsActive e + n in (v, set_chainsActive v e)).

(** [Broadcaster.Broadcast] of the transaction of [p]. *)
Definition broadcast (p : PendingBroadcast) : code (option err) :=
  act (fun e =>
    let '(r, w) := Broadcast (pTxID p) (pEF p) (e_world e) in
    (r, set_world w (set_log (e_log e ++ [(p, bool_decide (r = None))]) e))).

(** [runner.Go]: [fn] may panic, and then ends with no result. *)
Definition goSafe {A} (name : string) (fn : option (nat * string) -> code (Safe.ended A)) : code (option A) :=
  at_ ← world Panics;
  Safe.guard (fun name => metric (Metrics.IncPanic name)) name (fn at_).

(** Run the goroutines of a [sync.WaitGroup] and wait for them. *)
Definition goAll {A} (ps : list (code A)) : code (list A) :=
  sched ← world Schedule; par sched ps.

(** ** persist.go *)

Definition setBootstrapStage (stage : string) : code unit :=
  setState (with_stage stage);;
  metric (Metrics.SetBootstrapStage stage);;
  storeOp (ds_SetMeta MetaBootstrapStage stage);;
  Ret tt.

Definition savePending (p : PendingBroadcast) : code (option err) :=
  act (fun e =>
    match Queue.store (e_queue e) with
    | None => (None, e)
    | Some d =>
        let '(t, w) := Now (e_world e) in
        let '(r, d') := ds_SavePending t p d in
        (r, set_world w (set_queue (Queue.mkQueue (Queue.heap (e_queue e)) (Some d')) e))
    end).

Definition clearPending (txid : string) : code unit :=
  storeOp (ds_ClearPending txid);; Ret tt.

(** [cmp.Or(a.SavedAt.Compare(b.SavedAt), cmp.Compare(a.TxID, b.TxID))] *)
Definition cmpRecords (a b : PendingBroadcast) : comparison :=
  match Z.compare (pSavedAt a) (pSavedAt b) with
  | Eq => OrdersEx.String_as_OT.compare (pTxID a) (pTxID b)
  | c => c
  end.

Definition recordLe (a b : PendingBroadcast) : Prop := cmpRecords a b <> Gt.

#[export] Instance recordLe_dec a b : Decision (recordLe a b).
Proof. unfold recordLe. destruct (cmpRecords a b); (left; discriminate) || (right; congruence). Defined.

(** [slices.SortFunc] *)
Definition sortRecords (records : list PendingBroadcast) : list PendingBroadcast :=
  merge_sort recordLe records.

(** A record with a state transition. *)
Definition replayable (p : PendingBroadcast) : bool :=
  negb (bool_decide (pSpent p = [] /\ pCreated p = [])).

(** The loop of [replayPending]. *)
Fixpoint replayLoop (records : list PendingBroadcast) (changed : bool) (unknown : Z)
    : code (bool * Z * option err) :=
  match records with
  | [] => Ret (changed, unknown, None)
  | p :: rest =>
      if negb (replayable p) then replayLoop rest changed (unknown + 1) else
      r ← storeOp (ds_CommitPending (pTxID p) (pSpent p) (pCreated p));
      match r with
      | Some e => Ret (changed, unknown, Some (Wrap "commit pending" e))
      | None =>
          (if bool_decide (pStage p = ""%string) then Ret tt else setBootstrapStage (pStage p));;
          replayLoop rest true unknown
      end
  end.

Definition replayPending : code (bool * option err) :=
  st ← gets (fun e => Queue.store (e_queue e));
  match st with
  | None => Ret (false, Some NilPanic)
  | Some d =>
      match ds_LoadPending d with
      | Err e => Ret (false, Some e)
      | Ok pending =>
          res ← replayLoop (sortRecords (map_to_list pending).*2) false 0;
          match res with
          | (changed, unknown, Some e) => Ret (changed, Some e)
          | (changed, unknown, None) =>
              if 0 <? unknown then
                setBootstrapStage StageUnknown;;
                setStateNow (fun t => with_lastError "pending_replay"
                  (External (String.append (pretty unknown) " pending broadcasts require WoC reconciliation")) t);;
                Ret (changed, None)
              else Ret (changed, None)
          end
      end
  end.

(** [for _, u := range us { e.queue.push(u) }] *)
Fixpoint pushAll (us : list UTXO) : code unit :=
  match us with [] => Ret tt | u :: us' => queuePush u;; pushAll us' end.

(** A program of the queue, run on the engine's. *)
Fixpoint liftQueue {A} (p : prog (Queue.queue D) A) : code A :=
  match p with Ret a => Ret a | Act f k => Act (fun e => let '(b, q) := f (e_queue e) in (b, set_queue q e))
                                               (fun b => liftQueue (k b)) end.

(** The queue at startup: from [initial], or from the store when it is empty. *)
Definition seedQueue (initial : list UTXO) : code (option err) :=
  match initial with
  | [] =>
      r ← onQueue Queue.restore;
      Ret (option_map (Wrap "restore UTXOs") r)
  | _ =>
      pushAll initial;;
      r ← liftQueue Queue.persistAll;
      Ret (option_map (Wrap "persist initial UTXOs") r)
  end.

(** The rest of [restore]: replay, reload what changed, resume the stage. *)
Definition resumeStored : code (option err) :=
  res ← replayPending;
  match res with
  | (changed, Some e) => Ret (Some (Wrap "replay pending broadcasts" e))
  | (changed, None) =>
      r ← (if (changed : bool) then onQueue Queue.restore else Ret None);
      match r with
      | Some e => Ret (Some (Wrap "restore UTXOs after replay" e))
      | None =>
          st ← gets (fun e => Queue.store (e_queue e));
          match option_map (ds_GetMeta MetaBootstrapStage) st with
          | None => Ret (Some NilPanic)
          | Some (Err e) => Ret (Some (Wrap "restore bootstrap stage" e))
          | Some (Ok stage) =>
              if bool_decide (stage = ""%string) then Ret None else
              setState (with_stage stage);;
              metric (Metrics.SetBootstrapStage stage);;
              Ret None
          end
      end
  end.

Definition restore (initial : list UTXO) : code (option err) :=
  st ← gets (fun e => Queue.store (e_queue e));
  match st with
  | None => pushAll initial;; Ret None
  | Some _ =>
      r ← seedQueue initial;
      match r with
      | Some e => Ret (Some e)
      | None => resumeStored
      end
  end.

(** ** engine.go *)

Record Options := mkOptions {
  oMode : option Mode;
  oBroadcaster : bool;
  oSource : bool;
  oStore : option D;
  oInitialUTXOs : list UTXO;
  oNumChains : Z;
  oFanoutSize : Z;
  oSeedPollInterval : Z;
  oMetrics : Metrics.t;
}.

(** The engine [New] builds before it restores; [history] is what the runs
    before it broadcast. *)
Definition newEngine (opts : Options) (mode : Mode) (w : W) (history : list (PendingBroadcast * bool)) : Engine :=
  let numChains := positiveOr (oNumChains opts) DefaultNumChains in
  mkEngine (Queue.newQueue (oStore opts)) (oSource opts)
    (positiveOr (oSeedPollInterval opts) DefaultSeedPollInterval) (oMetrics opts) 0 0
    (with_chainsTarget numChains (with_stage StageNone (with_lifecycle LifecycleStarting zeroState)))
    mode numChains (positiveOr (oFanoutSize opts) DefaultFanoutSize) false 0 0 0 0 w history.

Definition startup (opts : Options) : code (option err) :=
  r ← restore (oInitialUTXOs opts);
  match r with
  | Some e => Ret (Some e)
  | None => n ← queueLen; metric (Metrics.SetQueueDepth n);; Ret None
  end.

Definition New (opts : Options) (w : W) (history : list (PendingBroadcast * bool)) : result Engine :=
  match oMode opts with
  | None => Err ErrModeRequired
  | Some mode =>
      if negb (oBroadcaster opts) then Err ErrBroadcasterRequired else
      match run (startup opts) (newEngine opts mode w history) with
      | (Some e, _) => Err e
      | (None, e) => Ok e
      end
  end.

(** [resume.C] and [resume.Broadcast] *)
Definition resumeC : code nat := gets e_resume.
Definition resumeBroadcast : code unit := modify (fun e => set_resume (S (e_resume e)) e).

Definition setTPSState (tps : Z) (s : State) : State :=
  let s := with_requestedTPS tps s in
  if (0 <? tps) && bool_decide (sLifecycle s = LifecyclePaused) then with_lifecycle LifecycleRunning s
  else if (tps <=? 0) && (bool_decide (sLifecycle s = LifecycleRunning) || bool_decide (sLifecycle s = LifecycleDegraded))
  then with_lifecycle LifecyclePaused s else s.

Definition SetTPS (tps : Z) : code unit :=
  modify (set_tps tps);;
  metric (Metrics.SetTPSTarget tps);;
  setState (setTPSState tps);;
  resumeBroadcast.

Definition TPS : code Z := gets e_tps.

Definition Snapshot : code State :=
  s ← gets e_state;
  active ← gets e_chainsActive;
  exhausted ← gets e_chainsExhausted;
  requested ← gets e_tps;
  accepted ← gets e_acceptedTPS;
  Ret (mkState (sLifecycle s) requested (of_int accepted) active (sChainsTarget s) exhausted
    (sBootstrapStage s) (sBootstrapFailures s) (sLastBroadcastOk s) (sConsecutiveArcadeFailures s)
    (sLastWoCTime s) (sLastWoCResult s) (sSSE s) (sLastReorg s) (sLastError s)).

Definition bootstrapConfigLocked (e : Engine) : BootstrapConfig :=
  mkBootstrapConfig (e_numChains e) (e_fanoutSize e) (SustainFee (e_mode e)).

Definition bootstrapConfig : code BootstrapConfig := gets bootstrapConfigLocked.

(** The fields of an update that are set and not positive, in the order the
    source checks them. *)
Definition invalidUpdate (update : BootstrapUpdate) : option err :=
  if match buNumChains update with Some n => n <=? 0 | None => false end
  then Some (Wrap "numChains must be positive" ErrInvalidBootstrap)
  else if match buFanoutSize update with Some n => n <=? 0 | None => false end
  then Some (Wrap "fanoutSize must be positive" ErrInvalidBootstrap)
  else if match buSustainFee update with Some n => n =? 0 | None => false end
  then Some (Wrap "sustainFee must be positive" ErrInvalidBootstrap)
  else None.

Definition funded (e : Engine) : bool :=
  e_bootstrapLocked e
  || negb (bool_decide (sBootstrapStage (e_state e) = StageNone))
  || (negb (bool_decide (sLifecycle (e_state e) = LifecycleStarting))
      && negb (bool_decide (sLifecycle (e_state e) = LifecycleBootstrapping)))
  || negb (Queue.len (e_queue e) =? 0)
  || negb (e_chainsActive e =? 0).

(** [ConfigureBootstrap]; its critical section is one action. *)
Definition ConfigureBootstrap (update : BootstrapUpdate) : code (result BootstrapConfig) :=
  match invalidUpdate update with
  | Some e => Ret (Err e)
  | None =>
      act (fun e =>
        if funded e then (Err ErrBootstrapLocked, e) else
        let e := match buNumChains update with Some n => set_numChains n e | None => e end in
        let e := match buFanoutSize update with Some n => set_fanoutSize n e | None => e end in
        let e := match buSustainFee update with
                 | Some f => set_mode (WithSustainFee (e_mode e) f) e | None => e end in
        let e := set_state (with_chainsTarget (e_numChains e) (e_state e)) e in
        (Ok (bootstrapConfigLocked e), e))
  end.

Definition RecordTip (height : Z) (hash : string) (at_ : Z) : code unit :=
  setState (with_sse (mkSSEState true height hash at_)).

Definition RecordReorg (height depth : Z) (tipBefore tipAfter : string) : code Z :=
  t ← world Now;
  impacted ← gets e_chainsActive;
  setState (with_lastReorg (mkReorgRecord height depth t impacted tipBefore tipAfter));;
  Ret impacted.

Definition currentMode : code Mode := gets e_mode.

Definition broadcastOkState (t : Z) (s : State) : State :=
  let s := with_broadcast t 0 s in
  if bool_decide (sLifecycle s = LifecycleDegraded) then with_lifecycle LifecycleRunning s else s.

Definition recordBroadcastOk : code unit :=
  setStateNow broadcastOkState;;
  modify (fun e => set_acceptedCount (e_acceptedCount e + 1) e).

Definition broadcastFailState (component : string) (e : err) (t : Z) (s : State) : State :=
  let s := with_broadcast (sLastBroadcastOk s) (sConsecutiveArcadeFailures s + 1) s in
  let s := with_lastError component e t s in
  if degradedAfterFailures <=? sConsecutiveArcadeFailures s then with_lifecycle LifecycleDegraded s else s.

Definition recordBroadcastFail (component : string) (e : err) : code unit :=
  setStateNow (broadcastFailState component e).

(** One tick of [trackTPS]. *)
Definition trackTick : code unit :=
  n ← act (fun e => (e_acceptedCount e, set_acceptedCount 0 e));
  modify (set_acceptedTPS n).

(** [trackTPS] for at most [fuel] seconds. *)
Fixpoint trackTPS (fuel : nat) : code unit :=
  match fuel with
  | O => Ret tt
  | S fuel =>
      c ← world (Select 2 (Some Backoff.Second));
      match c with O => Ret tt | _ => trackTick;; trackTPS fuel end
  end.
End engine.
