(* ===== verification/Control.v ===== *)
(** * Controlling the engine (internal/engine/engine.go, notify.go: properties)

    The calls the HTTP server and the tip stream make on a running engine, and
    what they may change: the bootstrap parameters, the rate, the lifecycle, and
    the signal that wakes the waiting chains. *)

From S2P Require Import Prelude Prog Script TxBuilder Backoff Float Metrics Store Heap Queue Engine.
Open Scope Z_scope.

Section control.
Context `{Sdk} `{Prometheus} {D : Type} `{DurableStore D} {W : Type} `{World W}.

Abbreviation E := (Engine (D:=D) (W:=W)).
Abbreviation code := (prog E).

(** ** Configuration *)

(** Every field that is set is positive. *)
Definition update_valid (u : BootstrapUpdate) : Prop :=
  (forall n, buNumChains u = Some n -> 0 < n) /\ (forall n, buFanoutSize u = Some n -> 0 < n) /\
  (forall n, buSustainFee u = Some n -> n <> 0).

Lemma invalidUpdate_spec u :
  match invalidUpdate u with Some x => errors_is x ErrInvalidBootstrap /\ ~ update_valid u | None => update_valid u end.
Proof.
  unfold invalidUpdate, update_valid. destruct u as [n f s]; cbn [buNumChains buFanoutSize buSustainFee].
  destruct (match n with Some n => n <=? 0 | None => false end) eqn:Hn.
  { destruct n as [n|]; [|done]. bool_to_prop. split; [done|]. intros [Hv _]. specialize (Hv n eq_refl). lia. }
  destruct (match f with Some n => n <=? 0 | None => false end) eqn:Hf.
  { destruct f as [f|]; [|done]. bool_to_prop. split; [done|]. intros (_ & Hv & _). specialize (Hv f eq_refl). lia. }
  destruct (match s with Some n => n =? 0 | None => false end) eqn:Hs.
  { destruct s as [s|]; [|done]. bool_to_prop. split; [done|]. intros (_ & _ & Hv). by specialize (Hv s eq_refl). }
  split_and!; intros k ->; by bool_to_prop.
Qed.

(** The engine still waits for its funding: nothing of the bootstrap has begun. *)
Record awaiting_funding (e : E) : Prop := {
  af_unlocked : e_bootstrapLocked e = false;
  af_stage : sBootstrapStage (e_state e) = "none"%string;
  af_lifecycle : sLifecycle (e_state e) = LifecycleStarting \/ sLifecycle (e_state e) = LifecycleBootstrapping;
  af_queue : Queue.heap (e_queue e) = [];
  af_chains : e_chainsActive e = 0;
}.

Lemma funded_spec (e : E) : funded e = false <-> awaiting_funding e.
Proof.
  assert (negb (Queue.len (e_queue e) =? 0) = false <-> Queue.heap (e_queue e) = []) as Hq.
  { unfold Queue.len. destruct (Queue.heap (e_queue e)); simpl; [done|]. split; [|done]. intros Hn. bool_to_prop. lia. }
  unfold funded. rewrite !orb_false_iff, Hq, andb_false_iff, !negb_false_iff, !bool_decide_eq_true, Z.eqb_eq.
  split; [by intros [[[[? ?] ?] ?] ?]; split|by intros []].
Qed.

(** The engine with new parameters, everything else as it was. *)
Definition with_parameters (n f fee : Z) (e : E) : E :=
  mkEngine (e_queue e) (e_source e) (e_seedInterval e) (e_metrics e) (e_tps e) (e_resume e)
    (with_chainsTarget n (e_state e))
    (mkMode (Name (e_mode e)) (LockScript (e_mode e)) (UnlockerOf (e_mode e)) fee (Address (e_mode e)))
    n f (e_bootstrapLocked e) (e_chainsActive e) (e_chainsExhausted e) (e_acceptedCount e) (e_acceptedTPS e)
    (e_world e) (e_log e).

(** C35: a bootstrap update is all or nothing.  It is refused, changing nothing,
    when a field that is set is not positive, or, with [ErrBootstrapLocked], when
    bootstrap is locked, has a stage, has left its first two states, has UTXOs in
    its queue or has running chains; it is accepted in every other case.  Then
    exactly the parameters that are set change, the target follows the number of
    chains, everything else of the engine is as it was, and what is returned is what
    is now in effect. *)
Theorem ConfigureBootstrap_spec (u : BootstrapUpdate) (e e' : E) r :
  run (ConfigureBootstrap u) e = (r, e') ->
  let n := default (e_numChains e) (buNumChains u) in
  let f := default (e_fanoutSize e) (buFanoutSize u) in
  let fee := default (SustainFee (e_mode e)) (buSustainFee u) in
  match r with
  | Err x => e' = e /\ ((errors_is x ErrInvalidBootstrap /\ ~ update_valid u) \/
                        (x = ErrBootstrapLocked /\ update_valid u /\ ~ awaiting_funding e))
  | Ok cfg => update_valid u /\ awaiting_funding e /\ cfg = mkBootstrapConfig n f fee /\ e' = with_parameters n f fee e
  end.
Proof.
  unfold ConfigureBootstrap. pose proof (invalidUpdate_spec u) as Hv.
  destruct (invalidUpdate u) as [x|]; simpl; [intros [= <- <-]; tauto|].
  destruct (funded e) eqn:Hf.
  - intros [= <- <-]. rewrite <- funded_spec, Hf. split; [done|]. by right.
  - intros [= <- <-]. apply funded_spec in Hf. unfold with_parameters.
    destruct e as [? ? ? ? ? ? ? [] ? ? ? ? ? ? ? ? ?], u as [[n|] [f|] [s|]]; by split_and!.
Qed.

(** The calls that others make on the engine while it runs. *)
Inductive api :=
  | ApiSetTPS (tps : Z)
  | ApiConfigure (u : BootstrapUpdate)
  | ApiSnapshot
  | ApiBootstrapConfig
  | ApiRecordTip (height : Z) (hash : string) (at_ : Z)
  | ApiRecordReorg (height depth : Z) (tipBefore tipAfter : string)
  | ApiTick.

Definition api_code (a : api) : code unit :=
  match a with
  | ApiSetTPS tps => SetTPS tps
  | ApiConfigure u => ConfigureBootstrap u;; Ret tt
  | ApiSnapshot => Snapshot;; Ret tt
  | ApiBootstrapConfig => bootstrapConfig;; Ret tt
  | ApiRecordTip h hash t => RecordTip h hash t
  | ApiRecordReorg h d b a => RecordReorg h d b a;; Ret tt
  | ApiTick => trackTick
  end.

(** What bootstrap has fixed, and everything durable. *)
Definition same_core (e e' : E) : Prop :=
  e_bootstrapLocked e' = e_bootstrapLocked e /\ e_mode e' = e_mode e /\ e_numChains e' = e_numChains e /\
  e_fanoutSize e' = e_fanoutSize e /\ e_queue e' = e_queue e /\ e_log e' = e_log e.

Lemma same_core_trans e1 e2 e3 : same_core e1 e2 -> same_core e2 e3 -> same_core e1 e3.
Proof. intros (? & ? & ? & ? & ? & ?) (? & ? & ? & ? & ? & ?). split_and!; congruence. Qed.

Lemma api_preserves a (e : E) : e_bootstrapLocked e = true -> preserves (same_core e) (api_code a).
Proof.
  intros Hl.
  assert (forall f : E -> E, (forall e1, same_core e1 (f e1)) -> forall e1, same_core e e1 -> same_core e (f e1)) as Hstep.
  { intros f Hf e1 Hc. by eapply same_core_trans. }
  destruct a as [tps|u| | |h hash t|h d b t|]; simpl; try (split_and!; try done; intros; by apply Hstep).
  - unfold ConfigureBootstrap. destruct (invalidUpdate u); simpl; [done|]. split; [|done].
    intros e1 Hc. unfold funded. destruct Hc as (Hl1 & Hc). rewrite Hl1, Hl. simpl. by split.
  - split; [|done]. intros e1 Hc. eapply same_core_trans; [exact Hc|]. by destruct (Now (e_world e1)).
Qed.

(** Once bootstrap has locked its parameters they are fixed: however many
    calls are made, interleaved in whatever order, at every moment the mode, the
    number of chains and the fanout size are those bootstrap read, and no call
    touches the queue, the store or what has been broadcast. *)
Theorem locked_parameters_are_fixed (calls : list (list api)) sched (e e' : E) :
  e_bootstrapLocked e = true ->
  reaches (par sched ((fun cs => seq_all (api_code <$> cs)) <$> calls)) e e' -> same_core e e'.
Proof.
  intros Hl. apply preserves_reaches; [|done]. apply preserves_par.
  intros p (cs & -> & _)%list_elem_of_fmap. apply preserves_seq_all.
  intros q (c & -> & _)%list_elem_of_fmap. by apply api_preserves.
Qed.

(** ** Lifecycle *)

(** What moves the lifecycle while the chains run. *)
Inductive activity :=
  | Call (a : api)
  | Accepted
  | Failed (component : string) (x : err).

Definition activity_code (a : activity) : code unit :=
  match a with
  | Call a => api_code a
  | Accepted => recordBroadcastOk
  | Failed c x => recordBroadcastFail c x
  end.

(** A degraded engine has failed often enough, and one that has not is in a state
    that chains can be in. *)
Definition lifecycle_ok (e : E) : Prop :=
  let s := e_state e in
  (sLifecycle s = LifecycleDegraded -> degradedAfterFailures <= sConsecutiveArcadeFailures s) /\
  (sLifecycle s = LifecycleRunning \/ sLifecycle s = LifecyclePaused \/ sLifecycle s = LifecycleDegraded).

(** A state change that keeps the lifecycle and the failure count. *)
Lemma lifecycle_ok_same (e e' : E) :
  sLifecycle (e_state e') = sLifecycle (e_state e) ->
  sConsecutiveArcadeFailures (e_state e') = sConsecutiveArcadeFailures (e_state e) ->
  lifecycle_ok e -> lifecycle_ok e'.
Proof. unfold lifecycle_ok. by intros -> ->. Qed.

Lemma activity_lifecycle a : preserves lifecycle_ok (activity_code a).
Proof.
  assert (forall f : E -> E, (forall e, sLifecycle (e_state (f e)) = sLifecycle (e_state e)) ->
    (forall e, sConsecutiveArcadeFailures (e_state (f e)) = sConsecutiveArcadeFailures (e_state e)) ->
    forall e, lifecycle_ok e -> lifecycle_ok (f e)) as Hsame.
  { intros f H1' H2' e. by apply lifecycle_ok_same. }
  destruct a as [[tps|u| | |h hash t|h d b t|]| |c x]; simpl.
  - do 2 (split; [by apply Hsame|intros ?]). split; [|intros ?; split; [by apply Hsame|done]].
    intros e [Hdeg Hlc]. unfold lifecycle_ok, setTPSState. simpl.
    destruct (sLifecycle (e_state e)) eqn:Hl; destruct (Z.ltb_spec 0 tps), (Z.leb_spec tps 0); simpl;
      rewrite ?Hl; naive_solver.
  - unfold ConfigureBootstrap. destruct (invalidUpdate u); simpl; [done|]. split; [|done].
    intros e He. destruct (funded e); [done|]. destruct u as [[] [] []]; exact He.
  - repeat (split; [by apply Hsame|intros ?]). done.
  - by split; [apply Hsame|].
  - by split; [apply Hsame|].
  - split; [intros e; by destruct (Now (e_world e))|intros ?]. repeat (split; [by apply Hsame|intros ?]). done.
  - repeat (split; [by apply Hsame|intros ?]). done.
  - split; [|intros ?; by split; [apply Hsame|]]. intros e [Hdeg Hlc]. destruct (Now (e_world e)) as [t w].
    unfold lifecycle_ok, broadcastOkState. simpl. case_bool_decide; simpl; naive_solver.
  - split; [|done]. intros e [Hdeg Hlc]. destruct (Now (e_world e)) as [t w].
    unfold lifecycle_ok, broadcastFailState. simpl.
    destruct (Z.leb_spec degradedAfterFailures (sConsecutiveArcadeFailures (e_state e) + 1)); simpl; [naive_solver|].
    split; [|done]. intros Hd. specialize (Hdeg Hd). lia.
Qed.

(** While the chains run, whatever calls, acceptances and failures happen in
    whatever interleaving, the engine is running, paused or degraded, and it is
    degraded only after at least five failures since the last acceptance. *)
Theorem degraded_only_after_failures (work : list (list activity)) sched (e e' : E) :
  lifecycle_ok e ->
  reaches (par sched ((fun w => seq_all (activity_code <$> w)) <$> work)) e e' -> lifecycle_ok e'.
Proof.
  apply preserves_reaches, preserves_par.
  intros p (cs & -> & _)%list_elem_of_fmap. apply preserves_seq_all.
  intros q (c & -> & _)%list_elem_of_fmap. apply activity_lifecycle.
Qed.

(** The reported lifecycle does not follow the rate when two calls race.
    From any paused engine, one [SetTPS] to a positive rate and one to 0 can
    interleave so that in the end the rate is 0 and the lifecycle is running. *)
Theorem racing_SetTPS_reports_running (e : E) (tps : Z) :
  0 < tps -> sLifecycle (e_state e) = LifecyclePaused ->
  let e' := (run (par [0; 1; 1; 1; 1]%nat [SetTPS tps; SetTPS 0]) e).2 in
  e_tps e' = 0 /\ sLifecycle (e_state e') = LifecycleRunning.
Proof.
  intros Ht Hl. simpl. unfold setTPSState. simpl. rewrite Hl. simpl.
  rewrite (proj2 (Z.ltb_lt 0 tps) Ht). simpl. rewrite Hl. done.
Qed.

(** One activity after the other. *)
Definition do_all (work : list activity) (e : E) : E :=
  (run (seq_all (activity_code <$> work)) e).2.

Lemma do_all_cons a work e : do_all (a :: work) e = do_all work (run (activity_code a) e).2.
Proof.
  unfold do_all. cbn [fmap list_fmap seq_all]. rewrite run_bind. destruct (run (activity_code a) e) as [u e1].
  rewrite run_bind. cbn [snd]. by destruct (run (seq_all (activity_code <$> work)) e1).
Qed.

Lemma do_failures n c x work e : 0 <= sConsecutiveArcadeFailures (e_state e) ->
  exists e', do_all (replicate n (Failed c x) ++ work) e = do_all work e' /\ e_tps e' = e_tps e /\
    sConsecutiveArcadeFailures (e_state e') = sConsecutiveArcadeFailures (e_state e) + Z.of_nat n /\
    ((0 < n)%nat \/ sLifecycle (e_state e) = LifecycleDegraded ->
     degradedAfterFailures <= sConsecutiveArcadeFailures (e_state e') ->
       sLifecycle (e_state e') = LifecycleDegraded).
Proof.
  revert e. induction n as [|n IH]; intros e Hf; [exists e; split_and!; [done|done|lia|intros [|]; [lia|done]]|].
  cbn [replicate app]. rewrite do_all_cons. set (e1 := (run _ e).2).
  assert (e_tps e1 = e_tps e /\ sConsecutiveArcadeFailures (e_state e1) = sConsecutiveArcadeFailures (e_state e) + 1 /\
    (degradedAfterFailures <= sConsecutiveArcadeFailures (e_state e1) -> sLifecycle (e_state e1) = LifecycleDegraded))
    as (Ht1 & Hf1 & Hl1).
  { subst e1. simpl. destruct (Now (e_world e)) as [t w]. unfold broadcastFailState. simpl.
    destruct (Z.leb_spec degradedAfterFailures (sConsecutiveArcadeFailures (e_state e) + 1)); simpl; [done|].
    split_and!; [done|done|]. lia. }
  destruct (IH e1) as (e' & -> & Ht & Hf' & Hl); [lia|]. exists e'. split_and!; [done|congruence|lia|].
  intros _ Hdeg. apply Hl; [|done].
  destruct (Z.le_gt_cases degradedAfterFailures (sConsecutiveArcadeFailures (e_state e1))); [right; auto|left; lia].
Qed.

(** The broadcasts in flight at a pause can undo it: after a pause, five
    failures and then an acceptance leave the rate at 0 and the lifecycle at
    running. *)
Theorem pause_is_undone_by_broadcasts (e : E) (x : err) :
  0 <= sConsecutiveArcadeFailures (e_state e) ->
  let e' := do_all (Call (ApiSetTPS 0) :: replicate 5 (Failed "arcade" x) ++ [Accepted]) e in
  e_tps e' = 0 /\ sLifecycle (e_state e') = LifecycleRunning.
Proof.
  intros Hf e'. subst e'. rewrite do_all_cons. set (e1 := (run _ e).2).
  assert (e_tps e1 = 0 /\ sConsecutiveArcadeFailures (e_state e1) = sConsecutiveArcadeFailures (e_state e)) as [Ht1 Hf1].
  { split; [done|]. subst e1. simpl. unfold setTPSState. by repeat case_if. }
  destruct (do_failures 5 "arcade" x [Accepted] e1) as (e2 & -> & Ht2 & Hf2 & Hl2); [lia|].
  specialize (Hl2 ltac:(left; lia) ltac:(unfold degradedAfterFailures; lia)).
  rewrite do_all_cons. unfold do_all. simpl. destruct (Now (e_world e2)) as [t w].
  unfold broadcastOkState. simpl. rewrite Hl2. simpl. split; [congruence|done].
Qed.
End control.
