(* ===== verification/Lane.v ===== *)
(** * The write-ahead protocol of one goroutine

    Every goroutine of the engine that broadcasts (an L2 fanout, a chain) follows
    one protocol: save a pending record, broadcast, then commit the transition or
    clear the record.  A [lane] is the part of the durable state that belongs to
    one such goroutine: the tips it may spend or create, the transaction ids it
    may broadcast, and its transitions in order.

    [lane_safe] is the crash invariant of a lane.  The rules of this file derive
    it for the protocol's actions under interference ([rely]) from the other
    goroutines ([guar]). *)

From S2P Require Import Prelude Prog Safe Script TxBuilder Backoff Float Metrics Store Heap Queue Engine.
Open Scope Z_scope.

(** ** Lanes *)

Record lane := mkLane {
  ln_key : string -> Prop;                       (* its tips, by bucket key *)
  ln_txid : string -> Prop;                      (* its transaction ids *)
  ln_queue : UTXO -> Prop;                       (* the UTXOs it may put back on the queue *)
  ln_start : gmap string UTXO;                   (* its tips at the start *)
  ln_rec : nat -> option PendingBroadcast;       (* its transitions *)
}.

(** The tips of a lane after its first [n] transitions. *)
Fixpoint ln_tips (l : lane) (n : nat) : gmap string UTXO :=
  match n with
  | O => ln_start l
  | S n =>
      match ln_rec l n with
      | Some p => apply_tips (pSpent p) (pCreated p) (ln_tips l n)
      | None => ln_tips l n
      end
  end.

(** The lane has at least [n] transitions. *)
Definition ln_reaches (l : lane) (n : nat) : Prop :=
  match n with O => True | S k => exists p, ln_rec l k = Some p end.

Record lane_wf (l : lane) : Prop := {
  lane_txid n p : ln_rec l n = Some p -> ln_txid l (pTxID p) /\ pTxID p <> ""%string;
  lane_keys n p u : ln_rec l n = Some p -> u ∈ pSpent p ++ pCreated p -> ln_key l (keyOf u);
  lane_inj n m p p' : ln_rec l n = Some p -> ln_rec l m = Some p' -> pTxID p = pTxID p' -> n = m;
}.

(** Two lanes that share nothing. *)
Definition lanes_disjoint (l l' : lane) : Prop :=
  (forall k, ln_key l k -> ~ ln_key l' k) /\ (forall x, ln_txid l x -> ~ ln_txid l' x) /\
  (forall u, ln_queue l u -> ~ ln_queue l' u).

(** Two maps that agree on a set of keys. *)
Definition agree {A} (P : string -> Prop) (m m' : gmap string A) : Prop :=
  forall k, P k -> m !! k = m' !! k.

Lemma agree_trans {A} P (m1 m2 m3 : gmap string A) : agree P m1 m2 -> agree P m2 m3 -> agree P m1 m3.
Proof. intros H1 H2 k Hk. by rewrite H1, H2. Qed.

Lemma agree_sym {A} P (m1 m2 : gmap string A) : agree P m1 m2 -> agree P m2 m1.
Proof. intros H k Hk. by rewrite H. Qed.

(** A transition acts on every key by itself. *)
Lemma apply_tips_agree P spent created (m m' : gmap string UTXO) :
  agree P m m' -> agree P (apply_tips spent created m) (apply_tips spent created m').
Proof.
  intros Hm. unfold apply_tips.
  assert (agree P (foldl (fun m u => delete (keyOf u) m) m spent)
                  (foldl (fun m u => delete (keyOf u) m) m' spent)) as Hs.
  { revert m m' Hm. induction spent as [|u spent IH]; intros m m' Hm; [done|]. simpl. apply IH.
    intros k Hk. destruct (decide (k = keyOf u)) as [->|Hne]; [by rewrite !lookup_delete_eq|].
    by rewrite !lookup_delete_ne, Hm. }
  revert Hs. generalize (foldl (fun m u => delete (keyOf u) m) m spent) (foldl (fun m u => delete (keyOf u) m) m' spent).
  clear. induction created as [|u created IH]; intros m m' Hm; [done|]. simpl. apply IH.
  intros k Hk. case_if; [by apply Hm|].
  destruct (decide (k = keyOf u)) as [->|Hne]; [by rewrite !lookup_insert_eq|].
  by rewrite !lookup_insert_ne, Hm.
Qed.

(** ** What the engine's durable state says of a lane *)

Section lane.
Context `{Sdk} `{Prometheus} {D : Type} `{DurableStore D} {W : Type} `{World W}.

Abbreviation E := (Engine (D:=D) (W:=W)).

Definition tips (e : E) : gmap string UTXO :=
  match Queue.store (e_queue e) with Some d => v_utxos (ds_view d) | None => ∅ end.

Definition pendings (e : E) : gmap string PendingBroadcast :=
  match Queue.store (e_queue e) with Some d => v_pending (ds_view d) | None => ∅ end.

Definition queued (e : E) : list UTXO := Queue.heap (e_queue e).

(** The engine has a store, well formed, under a well-formed queue. *)
Definition durable (e : E) : Prop :=
  Queue.wf (e_queue e) /\ exists d, Queue.store (e_queue e) = Some d.

(** What is known of the pending record of the current transition. *)
Inductive holding := Clear | Held | Unsure.

(** The lane has committed [n] transitions, the network has accepted those and,
    when [acc], the next one too. *)
Definition lane_at (l : lane) (n : nat) (acc : bool) (h : holding) (e : E) : Prop :=
  ln_reaches l n /\
  agree (ln_key l) (tips e) (ln_tips l n) /\
  (forall k p, ln_rec l k = Some p -> (p, true) ∈ e_log e <-> (k < if acc then S n else n)%nat) /\
  (forall x, ln_txid l x ->
     match h with
     | Clear => pendings e !! x = None
     | _ => pendings e !! x = None \/
            exists p t, ln_rec l n = Some p /\ x = pTxID p /\ pendings e !! x = Some (stamp t p)
     end) /\
  (h = Held -> exists p t, ln_rec l n = Some p /\ pendings e !! pTxID p = Some (stamp t p)).

(** At any moment: what was accepted is committed, but for at most one
    transition, the next, and that one has its record in the store. *)
Definition lane_safe (l : lane) (e : E) : Prop :=
  exists n acc h, lane_at l n acc h e /\ (acc = true -> h = Held).

(** *** Interference *)

Definition rely (l : lane) (e e' : E) : Prop :=
  durable e -> durable e' /\ e_mode e' = e_mode e /\
  agree (ln_key l) (tips e) (tips e') /\ agree (ln_txid l) (pendings e) (pendings e') /\
  (forall p b, ln_txid l (pTxID p) -> (p, b) ∈ e_log e <-> (p, b) ∈ e_log e') /\
  (forall u, ln_queue l u -> u ∈ queued e <-> u ∈ queued e').

Definition guar (l : lane) (e e' : E) : Prop :=
  durable e -> durable e' /\ e_mode e' = e_mode e /\
  (forall k, ln_key l k \/ tips e !! k = tips e' !! k) /\
  (forall x, ln_txid l x \/ pendings e !! x = pendings e' !! x) /\
  (forall p b, ((p, b) ∈ e_log e -> (p, b) ∈ e_log e') /\ (ln_txid l (pTxID p) \/ ((p, b) ∈ e_log e' -> (p, b) ∈ e_log e))) /\
  (lane_safe l e -> lane_safe l e') /\
  (forall u, ln_queue l u \/ (u ∈ queued e <-> u ∈ queued e')).

Lemma rely_refl l : reflexive _ (rely l).
Proof. intros e Hd. by split_and!. Qed.

Lemma rely_trans l : transitive _ (rely l).
Proof.
  intros e1 e2 e3 H12 H23 Hd. destruct (H12 Hd) as (A1 & A2 & A3 & A4 & A5 & A6).
  destruct (H23 A1) as (B1 & B2 & B3 & B4 & B5 & B6). split_and!.
  - auto. - congruence. - by eapply agree_trans. - by eapply agree_trans.
  - intros p b Hp. by rewrite A5, B5.
  - intros u Hu. by rewrite A6, B6.
Qed.

(** What one lane does is what the others may rely on. *)
Lemma guar_rely l l' e e' : lanes_disjoint l l' -> guar l' e e' -> rely l e e'.
Proof.
  intros (Hk & Hx & Hu) HG Hd. destruct (HG Hd) as (A1 & A2 & A3 & A4 & A5 & _ & A6). split_and!; [done|done|..].
  - intros k Hl. destruct (A3 k) as [Hl'|]; [|done]. by apply Hk in Hl.
  - intros x Hl. destruct (A4 x) as [Hl'|]; [|done]. by apply Hx in Hl.
  - intros p b Hl. destruct (A5 p b) as [Hin [Hl'|]]; [by apply Hx in Hl|done].
  - intros u Hl. destruct (A6 u) as [Hl'|]; [|done]. by apply Hu in Hl.
Qed.

Lemma lane_at_rely l n acc h e e' :
  lane_wf l -> durable e -> rely l e e' -> lane_at l n acc h e -> lane_at l n acc h e'.
Proof.
  intros Hwf Hd HR (B0 & B1 & B2 & B3 & B4). destruct (HR Hd) as (_ & _ & A3 & A4 & A5 & _). split_and!; [done|..].
  - eapply agree_trans; [apply agree_sym, A3|done].
  - intros k p Hp. rewrite <- A5; [by apply B2|]. by apply (lane_txid l Hwf k).
  - intros x Hx. rewrite <- (A4 x Hx). by apply B3.
  - intros Hh. destruct (B4 Hh) as (p & t & Hp & Hq). exists p, t. split; [done|].
    rewrite <- A4; [done|]. by apply (lane_txid l Hwf n).
Qed.

Lemma lane_safe_rely l e e' : lane_wf l -> durable e -> rely l e e' -> lane_safe l e -> lane_safe l e'.
Proof.
  intros Hwf Hd HR (n & acc & h & Hat & Hh). exists n, acc, h. split; [by eapply lane_at_rely|done].
Qed.

Lemma lane_at_weaken l n acc h e : lane_at l n acc h e -> lane_at l n acc Unsure e.
Proof.
  intros (B0 & B1 & B2 & B3 & _). split_and!; [done|done|done| |done].
  intros x Hx. specialize (B3 x Hx). destruct h; auto.
Qed.

(** *** Actions that leave the durable state alone *)

Definition quiet (e e' : E) : Prop :=
  durable e -> durable e' /\ e_mode e' = e_mode e /\
  tips e' = tips e /\ pendings e' = pendings e /\ e_log e' = e_log e.

(** And the queue and the bootstrap parameters too. *)
Definition calm (e e' : E) : Prop :=
  quiet e e' /\ queued e' = queued e /\ bootstrapConfigLocked e' = bootstrapConfigLocked e.

(** What others do to an engine whose parameters are fixed: calm steps, that leave
    the lock, the stage and a failure of the bootstrap as they are. *)
Definition aside (e e' : E) : Prop :=
  calm e e' /\ e_bootstrapLocked e' = e_bootstrapLocked e /\
  sBootstrapStage (e_state e') = sBootstrapStage (e_state e) /\
  (sLifecycle (e_state e) = LifecycleFailed -> sLifecycle (e_state e') = LifecycleFailed).

Lemma quiet_rely l e e' : (forall u, ~ ln_queue l u) -> quiet e e' -> rely l e e'.
Proof.
  intros Hno Hq Hd. destruct (Hq Hd) as (A1 & A2 & A3 & A4 & A5). rewrite A3, A4, A5. split_and!; try done.
  intros u Hu. by apply Hno in Hu.
Qed.

Lemma calm_rely l e e' : calm e e' -> rely l e e'.
Proof.
  intros (Hq & Hh & _) Hd. destruct (Hq Hd) as (A1 & A2 & A3 & A4 & A5). rewrite A3, A4, A5, Hh. by split_and!.
Qed.

Lemma calm_guar l e e' : lane_wf l -> calm e e' -> guar l e e'.
Proof.
  intros Hwf Hc Hd. pose proof (calm_rely l e e' Hc) as HR.
  destruct Hc as (Hq & Hh & _). destruct (Hq Hd) as (A1 & A2 & A3 & A4 & A5). rewrite A3, A4, A5, Hh.
  split_and!; try (by right); try (by split; [|right]); [done|done|by apply lane_safe_rely].
Qed.

Lemma quiet_refl (e : E) : quiet e e.
Proof. intros Hd. by split_and!. Qed.

Lemma quiet_trans (e1 e2 e3 : E) : quiet e1 e2 -> quiet e2 e3 -> quiet e1 e3.
Proof.
  intros H12 H23 Hd. destruct (H12 Hd) as (A1 & A2 & A3 & A4 & A5). destruct (H23 A1) as (B1 & B2 & B3 & B4 & B5).
  split_and!; congruence || done.
Qed.

Lemma calm_trans (e1 e2 e3 : E) : calm e1 e2 -> calm e2 e3 -> calm e1 e3.
Proof.
  intros (Hq & Hh & Hn) (Hq' & Hh' & Hn'). split; [by eapply quiet_trans|]. split; [by rewrite Hh'|by rewrite Hn'].
Qed.

Lemma aside_refl : reflexive _ aside.
Proof. intros e. by split_and!. Qed.

Lemma aside_trans : transitive _ aside.
Proof.
  intros e1 e2 e3 (Hc & Hl & Hs & Hf) (Hc' & Hl' & Hs' & Hf').
  split; [by eapply calm_trans|]. split_and!; [by rewrite Hl', Hl|by rewrite Hs', Hs|auto].
Qed.

Lemma aside_calm (e e' : E) : aside e e' -> calm e e'.
Proof. by intros [? _]. Qed.

Lemma lane_at_quiet l n acc h e e' : durable e -> quiet e e' -> lane_at l n acc h e -> lane_at l n acc h e'.
Proof. intros Hd Hq. destruct (Hq Hd) as (_ & _ & Ht & Hp & Hlog). unfold lane_at. by rewrite Ht, Hp, Hlog. Qed.

Lemma lane_safe_quiet l e e' : durable e -> quiet e e' -> lane_safe l e -> lane_safe l e'.
Proof.
  intros Hd Hq (n & acc & h & Hat & Hh). exists n, acc, h. split; [by eapply lane_at_quiet|done].
Qed.

(** *** The protocol's actions *)

Context `{!DurableStoreLaws D}.

(** The effect of a store transaction on what the lanes see. *)
Lemma storeOp_effect (op : D -> option err * D) f (e e' : E) r :
  implements op f -> durable e ->
  (let '(b, q) := Queue.with_store op (e_queue e) in (b, set_queue q e)) = (r, e') ->
  durable e' /\ e_mode e' = e_mode e /\ e_log e' = e_log e /\
  queued e' = queued e /\ bootstrapConfigLocked e' = bootstrapConfigLocked e /\
  exists v, tips e = v_utxos v /\ pendings e = v_pending v /\
    let v' := match r with None => f v | Some _ => v end in
    tips e' = v_utxos v' /\ pendings e' = v_pending v'.
Proof.
  intros Hop [Hwf [d Hd]] Heq. unfold Queue.with_store in Heq. rewrite Hd in Heq.
  destruct (op d) as [r' d'] eqn:Hr. injection Heq as <- <-.
  destruct Hwf as [Hh Hs]. rewrite Hd in Hs. destruct (Hop d r' d' Hs Hr) as [Hs' Hv].
  split_and!; [split; [by split|by exists d']|done|done|done|done|].
  exists (ds_view d). unfold tips, pendings. simpl. rewrite Hd, Hv. done.
Qed.

Section protocol.
Context (l : lane) (Hl : lane_wf l) (n : nat) (p : PendingBroadcast) (Hrec : ln_rec l n = Some p).

Lemma txid_of_lane : ln_txid l (pTxID p).
Proof using Hl Hrec. by apply (lane_txid l Hl n). Qed.

(** The records of the lane other than the current one have other ids. *)
Lemma other_record k q : ln_rec l k = Some q -> k <> n -> pTxID q <> pTxID p.
Proof using Hl Hrec. intros Hq Hne Heq. by apply Hne, (lane_inj l Hl k n q p). Qed.

Lemma save_step h (e e' : E) r t :
  durable e -> lane_at l n false h e ->
  (let '(b, q) := Queue.with_store (ds_SavePending t p) (e_queue e) in (b, set_queue q e)) = (r, e') ->
  durable e' /\ e_mode e' = e_mode e /\
  match r with None => lane_at l n false Held e' | Some _ => lane_at l n false h e' end /\ guar l e e'.
Proof using Hl Hrec DurableStoreLaws0.
  intros Hd (B0 & B1 & B2 & B3 & B4) Heq.
  destruct (storeOp_effect _ _ e e' r (SavePending_law t p) Hd Heq) as (Hd' & Hm & Hlog & Hh & Hnc & v & Ht & Hp & Hv).
  destruct r as [x|]; destruct Hv as [Ht' Hp'].
  { assert (calm e e') as Hq by (split; [intros _; split_and!; [done|done|congruence..|done]|done]).
    split_and!; [done|done| |by apply calm_guar].
    apply (lane_at_rely _ _ _ _ e); [done|done|by apply calm_rely|done]. }
  assert (pendings e' = <[pTxID p := stamp t p]> (pendings e)) as Hpe.
  { rewrite Hp', Hp. simpl. by rewrite stamp_TxID. }
  assert (tips e' = tips e) as Hte by (by rewrite Ht', Ht).
  assert (lane_at l n false Held e') as Hat.
  { split_and!; [done|by rewrite Hte|intros k q Hq; rewrite Hlog; by apply B2| |].
    - intros x Hx. rewrite Hpe. destruct (decide (x = pTxID p)) as [->|Hne].
      + right. exists p, t. by rewrite lookup_insert_eq.
      + rewrite lookup_insert_ne by done. specialize (B3 x Hx). destruct h; [by left|done..].
    - intros _. exists p, t. by rewrite Hpe, lookup_insert_eq. }
  split_and!; [done|done|done|]. intros _. rewrite Hte, Hlog, Hpe, Hh. split_and!; try (by right); try (by split; [|right]); [done|done|..].
  - intros x. destruct (decide (x = pTxID p)) as [->|]; [left; apply txid_of_lane|right].
    by rewrite lookup_insert_ne.
  - intros _. by exists n, false, Held.
Qed.

Lemma broadcast_step (e : E) r w :
  durable e -> lane_at l n false Held e ->
  let e' := set_world w (set_log (e_log e ++ [(p, bool_decide (r = None))]) e) in
  durable e' /\ e_mode e' = e_mode e /\
  lane_at l n (bool_decide (r = @None err)) Held e' /\ guar l e e'.
Proof using Hl Hrec.
  intros Hd (B0 & B1 & B2 & B3 & B4) e'.
  assert (lane_at l n (bool_decide (r = None)) Held e') as Hat.
  { split_and!; [done|done| |done|done]. intros k q Hq. simpl e_log. rewrite elem_of_app, list_elem_of_singleton.
    rewrite (B2 k q Hq). case_bool_decide as Hr.
    - split; [|].
      + intros [Hk|Heq]; [lia|]. injection Heq as Heq. assert (k = n); [|lia].
        apply (lane_inj l Hl k n q p Hq Hrec). by rewrite Heq.
      + intros Hk. destruct (decide (k = n)) as [->|]; [right; congruence|left; lia].
    - split; [intros [Hk|Heq]; [done|discriminate Heq]|by left]. }
  split_and!; [done|done|done|]. intros _. split_and!; try (by right); try (by split; [|right]); [done|done|..].
  - intros q b. simpl. rewrite elem_of_app, list_elem_of_singleton. split; [by left|].
    destruct (decide (pTxID q = pTxID p)) as [->|Hq]; [left; apply txid_of_lane|right].
    intros [Hin|Heq]; [done|]. by injection Heq as -> _.
  - intros _. exists n, (bool_decide (r = None)), Held. done.
Qed.

Lemma clear_step h (e e' : E) r :
  durable e -> lane_at l n false h e ->
  (let '(b, q) := Queue.with_store (ds_ClearPending (pTxID p)) (e_queue e) in (b, set_queue q e)) = (r, e') ->
  durable e' /\ e_mode e' = e_mode e /\
  lane_at l n false (match r with None => Clear | Some _ => Unsure end) e' /\ guar l e e'.
Proof using Hl Hrec DurableStoreLaws0.
  intros Hd Hat0 Heq. pose proof Hat0 as (B0 & B1 & B2 & B3 & B4).
  destruct (storeOp_effect _ _ e e' r (ClearPending_law (pTxID p)) Hd Heq) as (Hd' & Hm & Hlog & Hh & Hnc & v & Ht & Hp & Hv).
  destruct r as [x|]; destruct Hv as [Ht' Hp'].
  { assert (calm e e') as Hq by (split; [intros _; split_and!; [done|done|congruence..|done]|done]).
    split_and!; [done|done| |by apply calm_guar].
    eapply lane_at_weaken, (lane_at_rely _ _ _ _ e); [done|done|by apply calm_rely|done]. }
  assert (pendings e' = delete (pTxID p) (pendings e)) as Hpe by (by rewrite Hp', Hp).
  assert (tips e' = tips e) as Hte by (by rewrite Ht', Ht).
  assert (lane_at l n false Clear e') as Hat.
  { split_and!; [done|by rewrite Hte|intros k q Hq; rewrite Hlog; by apply B2| |done].
    intros x Hx. rewrite Hpe. destruct (decide (x = pTxID p)) as [->|Hne]; [by rewrite lookup_delete_eq|].
    rewrite lookup_delete_ne by done. specialize (B3 x Hx).
    destruct h; [done|..]; destruct B3 as [|(q & t & Hq & -> & _)]; congruence. }
  split_and!; [done|done|done|]. intros _. rewrite Hte, Hlog, Hpe, Hh. split_and!; try (by right); try (by split; [|right]); [done|done|..].
  - intros x. destruct (decide (x = pTxID p)) as [->|]; [left; apply txid_of_lane|right].
    by rewrite lookup_delete_ne.
  - intros _. by exists n, false, Clear.
Qed.

Lemma commit_step (e e' : E) r :
  durable e -> lane_at l n true Held e ->
  (let '(b, q) := Queue.commit (pTxID p) (pSpent p) (pCreated p) (e_queue e) in (b, set_queue q e)) = (r, e') ->
  durable e' /\ e_mode e' = e_mode e /\
  match r with None => lane_at l (S n) false Clear e' | Some _ => lane_at l n true Held e' end /\ guar l e e'.
Proof using Hl Hrec DurableStoreLaws0.
  intros Hd Hat0 Heq. pose proof Hat0 as (B0 & B1 & B2 & B3 & B4). unfold Queue.commit in Heq.
  destruct (lane_txid l Hl n p Hrec) as [Hx Hne].
  destruct (storeOp_effect _ _ e e' r (CommitPending_law (pTxID p) _ _ Hne) Hd Heq)
    as (Hd' & Hm & Hlog & Hh & Hnc & v & Ht & Hp & Hv).
  destruct r as [x|]; destruct Hv as [Ht' Hp'].
  { assert (calm e e') as Hq by (split; [intros _; split_and!; [done|done|congruence..|done]|done]).
    split_and!; [done|done| |by apply calm_guar].
    apply (lane_at_rely _ _ _ _ e); [done|done|by apply calm_rely|done]. }
  assert (pendings e' = delete (pTxID p) (pendings e)) as Hpe by (by rewrite Hp', Hp).
  assert (tips e' = apply_tips (pSpent p) (pCreated p) (tips e)) as Hte by (by rewrite Ht', Ht).
  assert (lane_at l (S n) false Clear e') as Hat.
  { split_and!; [by exists p| |intros k q Hq; rewrite Hlog; by apply B2| |done].
    - rewrite Hte. simpl. rewrite Hrec. by apply apply_tips_agree.
    - intros x Hx'. rewrite Hpe. destruct (decide (x = pTxID p)) as [->|Hne']; [by rewrite lookup_delete_eq|].
      rewrite lookup_delete_ne by done. specialize (B3 x Hx').
      destruct B3 as [|(q & t & Hq & -> & _)]; congruence. }
  split_and!; [done|done|done|]. intros _. rewrite Hlog, Hpe, Hh. split_and!; try (by right); try (by split; [|right]); [done|done|..].
  - intros k. destruct (decide (k ∈ (fun u => keyOf u) <$> pSpent p ++ pCreated p)) as [(u & -> & Hu)%list_elem_of_fmap|Hk].
    { left. by apply (lane_keys l Hl n p u Hrec). }
    right. rewrite Hte. symmetry. apply apply_tips_other; intros u Hu; [|intros _]; intros <-; apply Hk, list_elem_of_fmap; exists u; set_solver.
  - intros x. destruct (decide (x = pTxID p)) as [->|]; [left; apply txid_of_lane|right].
    by rewrite lookup_delete_ne.
  - intros _. by exists (S n), false, Clear.
Qed.
End protocol.

(** *** Proof rules *)

Abbreviation code := (prog E).

(** Where a goroutine stands, under the mode [m]: it has put nothing back yet. *)
Definition here (l : lane) (m : Mode) (n : nat) (acc : bool) (h : holding) (e : E) : Prop :=
  durable e /\ e_mode e = m /\ lane_at l n acc h e /\ forall u, ln_queue l u -> u ∉ queued e.

Abbreviation lane_rg l p Q e := (rg (rely l) (guar l) p Q e).

Lemma here_rely l m n acc h e e' : lane_wf l -> rely l e e' -> here l m n acc h e -> here l m n acc h e'.
Proof.
  intros Hl HR (Hd & Hm & Hat & Hno). destruct (HR Hd) as (Hd' & Hm' & _ & _ & _ & Hu).
  split_and!; [done|congruence|by apply (lane_at_rely _ _ _ _ e)|].
  intros u Hlu. rewrite <- Hu by done. by apply Hno.
Qed.

Lemma lane_bind l {A B} (p : code A) (g : A -> code B) Q e :
  lane_rg l p (fun a e' => lane_rg l (g a) Q e') e -> lane_rg l (p ≫= g) Q e.
Proof. apply rg_bind; [apply rely_refl|apply rely_trans]. Qed.

(** A program all of whose actions are calm. *)
Fixpoint all_calm {A} (p : code A) : Prop :=
  match p with
  | Ret _ => True
  | Act f k => (forall e, calm e (f e).2) /\ forall b, all_calm (k b)
  end.

Lemma all_calm_bind {A B} (p : code A) (g : A -> code B) :
  all_calm p -> (forall a, all_calm (g a)) -> all_calm (p ≫= g).
Proof.
  intros Hp Hg. induction p as [a|C f k IH]; [apply Hg|].
  destruct Hp as [Hf Hk]. split; [done|]. intros b. by apply IH.
Qed.

(** Calm actions keep whatever interference keeps. *)
Lemma calm_stable (R G : E -> E -> Prop) (P : E -> Prop) {A} (p : code A) e :
  (forall e e', calm e e' -> R e e') -> (forall e e', calm e e' -> G e e') ->
  (forall e e', R e e' -> P e -> P e') -> all_calm p -> P e -> rg R G p (fun _ e' => P e') e.
Proof.
  intros HcR HcG Hst. revert e. induction p as [a|C f k IH]; intros e Hq He.
  - intros e' HR. by eapply Hst.
  - destruct Hq as [Hf Hk]. intros e' HR. apply (Hst _ _ HR) in He.
    split; [by apply HcG|]. apply IH; [done|]. eapply Hst; [by apply HcR|done].
Qed.

Lemma lane_calm_stable l (P : E -> Prop) {A} (p : code A) e :
  lane_wf l -> (forall e e', rely l e e' -> P e -> P e') -> all_calm p -> P e ->
  lane_rg l p (fun _ e' => P e') e.
Proof. intros Hl. apply calm_stable; [apply calm_rely|]. intros e1 e2. by apply calm_guar. Qed.

Lemma lane_calm l m n acc h {A} (p : code A) e :
  lane_wf l -> all_calm p -> here l m n acc h e ->
  lane_rg l p (fun _ e' => here l m n acc h e') e.
Proof. intros Hl. apply lane_calm_stable; [done|]. intros e1 e2. by apply here_rely. Qed.

(** The same of a program that runs alone. *)
Lemma wpi_calm {A} (P : E -> Prop) (p : code A) e :
  (forall e1 e2, P e1 -> calm e1 e2 -> P e2) -> all_calm p -> P e -> wpi P p (fun _ e' => P e') e.
Proof.
  intros HP. revert e. induction p as [a|B f k IH]; intros e Hq He; [done|].
  destruct Hq as [Hf Hk]. assert (P (f e).2) by (by eapply HP). split; [done|]. by apply IH.
Qed.

(** And of one beside which others run: [I] holds after each of its actions. *)
Lemma rg_calm_under {A} (P I : E -> Prop) (p : code A) e :
  (forall e1 e2, calm e1 e2 -> P e1 -> P e2) -> (forall e, P e -> I e) -> all_calm p -> P e ->
  rg aside (fun _ e' => I e') p (fun _ e' => P e') e.
Proof.
  intros HP HI. revert e. induction p as [a|B f k IH]; intros e Hq He e' HR; [by eapply HP, He; apply HR|].
  destruct Hq as [Hf Hk]. assert (P e') by (eapply HP, He; apply HR). assert (P (f e').2) by (by eapply HP).
  split; [by apply HI|]. by apply IH.
Qed.

Lemma aside_bind {A B} G (p : code A) (g : A -> code B) Q e :
  rg aside G p (fun a e' => rg aside G (g a) Q e') e -> rg aside G (p ≫= g) Q e.
Proof. apply rg_bind; [apply aside_refl|apply aside_trans]. Qed.

Lemma all_calm_modify (f : E -> E) : (forall e, calm e (f e)) -> all_calm (modify f).
Proof. intros Hf. by split. Qed.

Lemma calm_refl (e : E) : calm e e.
Proof. split; [|done]. intros Hd. by split_and!. Qed.

Lemma all_calm_gets {B} (f : E -> B) : all_calm (gets f).
Proof. split; [|done]. intros e. apply calm_refl. Qed.

Lemma all_calm_world {B} (f : W -> B * W) : all_calm (world f).
Proof. split; [|done]. intros e. destruct (f (e_world e)). split; [|done]. intros Hd. by split_and!. Qed.

Lemma all_calm_setState f : all_calm (setState f).
Proof. split; [|done]. intros e. split; [|done]. intros Hd. by split_and!. Qed.

Lemma all_calm_setStateNow f : all_calm (setStateNow f).
Proof.
  split; [|done]. intros e. simpl. destruct (Now (e_world e)). split; [|done]. intros Hd. by split_and!.
Qed.

Lemma all_calm_metric f : all_calm (metric f).
Proof. split; [|done]. intros e. split; [|done]. intros Hd. by split_and!. Qed.

(** A goroutine that recovers: when it does not panic, what [fn] ensures holds of its
    result. *)
Lemma goSafe_rule l m n h {A} name (fn : option (nat * string) -> code (Safe.ended A)) (Q : A -> E -> Prop) e :
  lane_wf l -> here l m n false h e -> (forall a e1 e2, rely l e1 e2 -> Q a e1 -> Q a e2) ->
  (forall at_ e', here l m n false h e' -> lane_rg l (fn at_) (Safe.returning Q) e') ->
  lane_rg l (goSafe name fn) (fun r e' => forall a, r = Some a -> Q a e') e.
Proof.
  intros Hl He HQ Hfn. apply lane_bind. eapply rg_mono; [|apply (lane_calm l m n false h); [done|apply all_calm_world|done]].
  intros at_ e1 He1. apply lane_bind. eapply rg_mono; [|by apply Hfn]. intros [a|v] e2 Ho.
  - intros e3 HR a' [= <-]. by eapply HQ.
  - apply lane_bind. eapply rg_mono; [|apply (lane_calm_stable l (fun _ => True)); [done|done|apply all_calm_metric|done]].
    by intros _ e3 _ e4 _ a [=].
Qed.

Lemma quiet_push u (e : E) : quiet e (set_queue (Queue.push u (e_queue e)) e).
Proof.
  intros [Hwf [d Hd]]. split_and!; [|done..].
  split; [by apply Queue.push_wf|]. by exists d.
Qed.

Lemma all_calm_setMeta k v : all_calm (storeOp (ds_SetMeta k v)).
Proof.
  split; [|done]. intros e.
  destruct (let '(b, q) := Queue.with_store (ds_SetMeta k v) (e_queue e) in (b, set_queue q e)) as [r e'] eqn:Heq.
  change (calm e e'). split.
  - intros Hd. destruct (storeOp_effect _ _ e e' r (SetMeta_law k v) Hd Heq) as (Hd' & Hm & Hlog & _ & _ & s & Ht & Hp & Hv).
    destruct r; destruct Hv as [Ht' Hp']; rewrite Ht', Hp', Ht, Hp; by split_and!.
  - pose proof (Queue.with_store_heap (ds_SetMeta k v) (e_queue e)) as Hh.
    destruct (Queue.with_store _ _) as [b q]. by injection Heq as <- <-.
Qed.

Lemma all_calm_stage stage : all_calm (setBootstrapStage stage).
Proof.
  unfold setBootstrapStage. repeat (apply all_calm_bind; [|intros _]);
    [apply all_calm_setState|apply all_calm_metric|apply all_calm_setMeta|done].
Qed.

Lemma all_calm_ok : all_calm recordBroadcastOk.
Proof.
  apply all_calm_bind; [apply all_calm_setStateNow|intros _].
  apply all_calm_modify. intros e. split; [|done]. intros Hd. by split_and!.
Qed.

Lemma all_calm_fail c x : all_calm (recordBroadcastFail c x).
Proof. apply all_calm_setStateNow. Qed.

Section protocol_rules.
Context (l : lane) (Hl : lane_wf l) (m : Mode) (n : nat) (p : PendingBroadcast) (Hrec : ln_rec l n = Some p).

(** The current mode is the one the goroutine started with. *)
Lemma lane_mode acc h e : here l m n acc h e ->
  lane_rg l currentMode (fun m' e' => m' = m /\ here l m n acc h e') e.
Proof using Hl.
  intros He. apply rg_act. intros e1 HR. apply (here_rely _ _ _ _ _ _ _ Hl HR) in He.
  split; [apply calm_guar; [done|apply calm_refl]|].
  intros e2 HR2. split; [apply He|by eapply here_rely].
Qed.

Lemma lane_save h e : here l m n false h e ->
  lane_rg l (savePending p) (fun r e' =>
    here l m n false (match r with None => Held | Some _ => h end) e') e.
Proof using Hl Hrec DurableStoreLaws0.
  intros He. apply rg_act. intros e1 HR. apply (here_rely _ _ _ _ _ _ _ Hl HR) in He.
  destruct He as (Hd & Hm & Hat & Hno). pose proof Hd as [_ [d Hs]]. rewrite Hs.
  destruct (Now (e_world e1)) as [t w] eqn:Hnow.
  destruct (let '(b, q) := Queue.with_store (ds_SavePending t p) (e_queue e1) in (b, set_queue q e1)) as [r e2] eqn:Heq.
  destruct (save_step l Hl n p Hrec h e1 e2 r t Hd Hat Heq) as (Hd' & Hm' & Hat' & HG).
  unfold Queue.with_store in Heq. rewrite Hs in Heq. destruct (ds_SavePending t p d) as [r' d'].
  injection Heq as -> He2. cbn [fst snd]. rewrite He2. split.
  - intros _. destruct (HG Hd) as (C1 & C2 & C3 & C4 & C5 & C6 & C7). by split_and!.
  - intros e3 HR'. eapply here_rely; [done|exact HR'|]. subst e2.
    split; [exact Hd'|]. split; [exact Hm|]. split; [by destruct r|exact Hno].
Qed.

Lemma lane_broadcast e : here l m n false Held e ->
  lane_rg l (broadcast p) (fun r e' => here l m n (bool_decide (r = None)) Held e') e.
Proof using Hl Hrec.
  intros He. apply rg_act. intros e1 HR. apply (here_rely _ _ _ _ _ _ _ Hl HR) in He.
  destruct He as (Hd & Hm & Hat & Hno). destruct (Broadcast (pTxID p) (pEF p) (e_world e1)) as [r w] eqn:Hb.
  destruct (broadcast_step l Hl n p Hrec e1 r w Hd Hat) as (Hd' & Hm' & Hat' & HG).
  split; [exact HG|]. intros e3 HR'. eapply here_rely; [done|exact HR'|].
  split; [exact Hd'|]. split; [exact Hm|]. split; [exact Hat'|exact Hno].
Qed.

(** A store operation does not touch the queue. *)
Lemma store_keeps_queue op (e e' : E) r :
  (let '(b, q) := Queue.with_store op (e_queue e) in (b, set_queue q e)) = (r, e') -> queued e' = queued e.
Proof using.
  intros Heq. pose proof (Queue.with_store_heap op (e_queue e)) as Hh.
  destruct (Queue.with_store op (e_queue e)) as [b q]. by injection Heq as <- <-.
Qed.

Lemma lane_clear h e : here l m n false h e ->
  lane_rg l (clearPending (pTxID p)) (fun _ e' => here l m n false Unsure e') e.
Proof using Hl Hrec DurableStoreLaws0.
  intros He. apply lane_bind. apply rg_act. intros e1 HR. apply (here_rely _ _ _ _ _ _ _ Hl HR) in He.
  destruct He as (Hd & Hm & Hat & Hno).
  destruct (let '(b, q) := Queue.with_store (ds_ClearPending (pTxID p)) (e_queue e1) in (b, set_queue q e1)) as [r e2] eqn:Heq.
  destruct (clear_step l Hl n p Hrec h e1 e2 r Hd Hat Heq) as (Hd' & Hm' & Hat' & HG).
  apply store_keeps_queue in Heq.
  split; [exact HG|]. intros e3 HR' e4 HR''.
  eapply here_rely; [done|exact HR''|]. eapply here_rely; [done|exact HR'|].
  split; [exact Hd'|]. split; [exact (eq_trans Hm' Hm)|]. split; [exact (lane_at_weaken _ _ _ _ _ Hat')|].
  cbn [snd]. by rewrite Heq.
Qed.

Lemma lane_commit e : here l m n true Held e ->
  lane_rg l (onQueue (Queue.commit (pTxID p) (pSpent p) (pCreated p))) (fun r e' =>
    match r with None => here l m (S n) false Clear e' | Some _ => here l m n true Held e' end) e.
Proof using Hl Hrec DurableStoreLaws0.
  intros He. apply rg_act. intros e1 HR. apply (here_rely _ _ _ _ _ _ _ Hl HR) in He.
  destruct He as (Hd & Hm & Hat & Hno).
  destruct (let '(b, q) := Queue.commit (pTxID p) (pSpent p) (pCreated p) (e_queue e1) in (b, set_queue q e1)) as [r e2] eqn:Heq.
  destruct (commit_step l Hl n p Hrec e1 e2 r Hd Hat Heq) as (Hd' & Hm' & Hat' & HG).
  apply store_keeps_queue in Heq. rewrite <- Heq in Hno.
  split; [exact HG|]. intros e3 HR'. cbn [fst snd] in *.
  destruct r; (eapply here_rely; [done|exact HR'|]); (split; [exact Hd'|]);
    (split; [exact (eq_trans Hm' Hm)|]); (split; [exact Hat'|exact Hno]).
Qed.

(** Putting an own UTXO back on the queue. *)
Lemma lane_push u e : ln_queue l u -> lane_rg l (queuePush u) (fun _ _ => True) e.
Proof using Hl.
  intros Hu. apply rg_act. intros e1 HR. split; [|done]. cbn [snd]. intros Hd.
  destruct (quiet_push u e1 Hd) as (A1 & A2 & A3 & A4 & A5). rewrite A3, A4, A5.
  split; [done|]. split; [done|]. split; [by right|]. split; [by right|]. split; [by split; [|right]|]. split.
  - intros (k & acc & h & (B0 & B1 & B2 & B3 & B4) & Hh). exists k, acc, h.
    unfold lane_at. rewrite A3, A4, A5. done.
  - intros w. destruct (decide (w = u)) as [->|Hne]; [by left|right].
    unfold queued. rewrite (Queue.push_heap u (e_queue e1)) by apply Hd.
    rewrite elem_of_cons. naive_solver.
Qed.
End protocol_rules.

(** *** Goroutines of pairwise disjoint lanes *)

(** The invariant of a group of lanes, since a state [b]: every lane is safe, and
    what is stored, pending or accepted is theirs or was so in [b]. *)
Record held (lanes : list lane) (b e : E) : Prop := {
  held_durable : durable e;
  held_mode : e_mode e = e_mode b;
  held_safe l : l ∈ lanes -> lane_safe l e;
  held_pendings x p : pendings e !! x = Some p -> pendings b !! x = Some p \/ exists l, l ∈ lanes /\ ln_txid l x;
  held_tips k u : tips e !! k = Some u -> tips b !! k = Some u \/ exists l, l ∈ lanes /\ ln_key l k;
  held_log p c : (p, c) ∈ e_log e -> (p, c) ∈ e_log b \/ exists l, l ∈ lanes /\ ln_txid l (pTxID p);
  held_past p c : (p, c) ∈ e_log b -> (p, c) ∈ e_log e;
}.

#[global] Instance held_perm : Proper ((≡ₚ) ==> eq ==> eq ==> impl) held.
Proof.
  intros ls ls' Hp b ? <- e ? <- [A1 A2 A3 A4 A5 A6 A7]. split; try done; setoid_rewrite <- Hp; done.
Qed.

Definition lanes_wf (lanes : list lane) : Prop :=
  (forall i l, lanes !! i = Some l -> lane_wf l) /\
  (forall i j l l', lanes !! i = Some l -> lanes !! j = Some l' -> i <> j -> lanes_disjoint l l').

(** A step of one of the lanes. *)
Definition lanes_step (lanes : list lane) (e e' : E) : Prop := exists i l, lanes !! i = Some l /\ guar l e e'.

Lemma lanes_step_held lanes b (e e' : E) : lanes_wf lanes -> lanes_step lanes e e' -> held lanes b e -> held lanes b e'.
Proof.
  intros [Hwf Hdis] (i & l & Hi & HG) [Hd1 Hm1 Hs1 Ho1 Ht1 Hl1 Hb1].
  assert (l ∈ lanes) as Hin by (by eapply list_elem_of_lookup_2).
  destruct (HG Hd1) as (Hd2 & Hm2 & Ht2 & Hp2 & Hl2 & Hs2 & Hu2). split.
  - done.
  - congruence.
  - intros l' [j Hj]%list_elem_of_lookup. destruct (decide (j = i)) as [->|Hne]; [simplify_eq; eauto|].
    apply (lane_safe_rely l' e); [by eapply Hwf|done| |by eapply Hs1, list_elem_of_lookup_2].
    apply (guar_rely l' l); [by apply (Hdis j i)|done].
  - intros x p Hx. destruct (Hp2 x) as [Hl|Heq]; [right; by exists l|]. apply Ho1. by rewrite Heq.
  - intros k u Hk. destruct (Ht2 k) as [Hl|Heq]; [right; by exists l|]. apply Ht1. by rewrite Heq.
  - intros p c Hp. destruct (Hl2 p c) as [_ [Hl|Heq]]; [right; by exists l|]. auto.
  - intros p c Hp. destruct (Hl2 p c) as [Heq _]. auto.
Qed.

(** What is queued is theirs or was so in [b]. *)
Definition held_queue (lanes : list lane) (b e : E) : Prop :=
  durable e /\ forall u, u ∈ queued e -> u ∈ queued b \/ exists l, l ∈ lanes /\ ln_queue l u.

Lemma lanes_step_queue lanes b (e e' : E) : lanes_step lanes e e' -> held_queue lanes b e -> held_queue lanes b e'.
Proof.
  intros (i & l & Hi & HG) [Hd Hu1]. destruct (HG Hd) as (Hd2 & _ & _ & _ & _ & _ & Hu2). split; [done|].
  intros u Hu. destruct (Hu2 u) as [Hl|Heq]; [right; exists l; split; [by eapply list_elem_of_lookup_2|done]|].
  apply Hu1. by rewrite Heq.
Qed.

(** Whatever goroutines run, in whatever order, and whatever calm steps others take
    meanwhile, every action is a step of a lane, and each goroutine reaches its
    postcondition. *)
Lemma lanes_par {A} (lanes : list lane) (ps : list (code A)) (Q : nat -> A -> E -> Prop) sched e :
  length lanes = length ps -> lanes_wf lanes ->
  (forall i l p, lanes !! i = Some l -> ps !! i = Some p -> lane_rg l p (Q i) e) ->
  rg calm (lanes_step lanes) (par sched ps)
    (fun rs e' => length rs = length ps /\ forall i a, rs !! i = Some a -> Q i a e') e.
Proof.
  intros Hlen [Hwf Hdis] Hps.
  (* out of range: nothing is promised and nothing is done *)
  set (R := fun i => match lanes !! i with Some l => rely l | None => fun _ _ => True end).
  set (G := fun i => match lanes !! i with Some l => guar l | None => fun _ _ => False end).
  apply (par_rg R G Q calm); unfold R, G.
  - intros i. destruct (lanes !! i); [apply rely_refl|by intros e1].
  - intros i. destruct (lanes !! i); [apply rely_trans|by intros e1].
  - intros e1. apply calm_refl.
  - intros e1 e2 e3. apply calm_trans.
  - intros i j e1 e2 Hne HG. destruct (lanes !! i) as [l|] eqn:Hi; [|done].
    destruct (lanes !! j) as [l'|] eqn:Hj; [|done]. apply (guar_rely l l'); [|done]. by apply (Hdis i j).
  - intros i e1 e2 Hc. destruct (lanes !! i); [by apply calm_rely|done].
  - intros i e1 e2 HG. destruct (lanes !! i) as [l|] eqn:Hi; [|done]. by exists i, l.
  - intros i p Hi. destruct (lookup_lt_is_Some_2 lanes i) as [l Hl].
    { rewrite Hlen. by eapply lookup_lt_Some. }
    rewrite Hl. by apply Hps.
Qed.

(** The invariant holds at the state it starts from, and quiet steps keep it. *)
Lemma held_start lanes (e : E) : durable e -> (forall l, l ∈ lanes -> lane_safe l e) -> held lanes e e.
Proof. intros Hd Hs. split; [done|done|done|intros; by left..|done]. Qed.

Lemma held_quiet lanes b (e e' : E) : quiet e e' -> held lanes b e -> held lanes b e'.
Proof.
  intros Hq [Hd Hm Hs Hp Ht Hl Hb]. destruct (Hq Hd) as (Hd' & Hm' & Ht' & Hp' & Hl').
  split; rewrite ?Hm', ?Ht', ?Hp', ?Hl'; try done. intros l Hin. eapply lane_safe_quiet; [exact Hd|done|by apply Hs].
Qed.
End lane.

(** ** Automation

    [calm] decides that a program only touches state no lane owns; [lane_skip]
    steps over such a program, and [lane_step r] over one with the rule [r]. *)

Create HintDb calm.
#[export] Hint Resolve all_calm_gets all_calm_world all_calm_setState all_calm_setStateNow
  all_calm_metric all_calm_setMeta all_calm_stage all_calm_ok all_calm_fail : calm.

Ltac lane_step r := apply lane_bind; eapply rg_mono; [|r].
Ltac lane_skip := cbv beta in *; lane_step ltac:(apply lane_calm; [eassumption|solve [auto with calm nocore]|eassumption]).
