(* ===== verification/Chain.v ===== *)
(** * The chains (internal/engine/chain.go)

    A chain spends its tip once per interval until the tip is worth nothing.  The
    loops of the source that wait or run without bound have fuel: [wfuel] bounds
    the wake-ups of one wait and [fuel] the turns of a chain, and running out of
    either is an outcome of its own. *)

From S2P Require Import Prelude Prog Safe Script TxBuilder Backoff Float FloatFacts Metrics Store Heap Queue Engine Lane.
Open Scope Z_scope.

(** [chainInterval].  For fewer than [2 ^ 32] chains the interval is inside the range
    of [int64] ([chainInterval_accurate]); a float outside of it converts to the
    least [int64], as on amd64. *)
Definition chainInterval (tps chains : Z) : Z :=
  if (chains <=? 0) || (tps <=? 0) then Backoff.Second
  else to_int64 (- two63) (fmul (fdiv (of_int chains) (of_int tps)) (of_int Backoff.Second)).

(** How a wait ended. *)
Inductive waited := Elapsed | Canceled | StillWaiting.

(** What [waitActive] returned. *)
Inductive active := Active (tps : Z) (wake : nat) | ActiveCanceled | ActiveWaiting.

(** How a chain ended; [ChainRunning] is out of fuel. *)
Inductive chainEnd := ChainCanceled | ChainStoreError | ChainExhausted (hops : Z) | ChainRunning.

Section chain.
Context `{Sdk} `{Prometheus} {D : Type} `{DurableStore D} {W : Type} `{World W}.

Abbreviation code := (prog (Engine (D:=D) (W:=W))).

(** One turn of [waitActive], up to its [select]: the rate, or the channel to wait on. *)
Definition activeTurn : code (active + nat) :=
  wake ← resumeC;
  tps ← gets e_tps;
  Ret (if 0 <? tps then inl (Active tps wake) else inr wake).

Fixpoint waitActive (wfuel : nat) : code active :=
  match wfuel with
  | O => Ret ActiveWaiting
  | S wfuel =>
      t ← activeTurn;
      match t with
      | inl a => Ret a
      | inr _ =>
          c ← world (Select 2 None);
          match c with O => Ret ActiveCanceled | _ => waitActive wfuel end
      end
  end.

(** [(elapsed, ok)] *)
Definition waitDuration (wake : nat) (d : Z) : code (bool * bool) :=
  if d <=? 0 then Ret (true, true) else
  c ← world (Select 3 (Some d));
  match c with
  | 0%nat => Ret (false, false)
  | 1%nat => Ret (true, true)
  | _ => Ret (false, true)
  end.

Fixpoint waitInterval (wfuel : nat) (wait : Z -> code Z) : code waited :=
  match wfuel with
  | O => Ret StillWaiting
  | S wfuel' =>
      a ← waitActive wfuel;
      match a with
      | ActiveCanceled => Ret Canceled
      | ActiveWaiting => Ret StillWaiting
      | Active tps wake =>
          chains ← gets e_chainsActive;
          d ← wait (chainInterval tps chains);
          r ← waitDuration wake d;
          match r with
          | (_, false) => Ret Canceled
          | (true, true) => Ret Elapsed
          | (false, true) => waitInterval wfuel' wait
          end
      end
  end.

(** [e.jitter], which is [backoff.Jitter] *)
Definition jitter (d : Z) : code Z := rand ← world Rand; Ret (Backoff.Jitter rand d).

Definition waitInitialJitter (wfuel : nat) : code waited := waitInterval wfuel jitter.
Definition waitNextInterval (wfuel : nat) : code waited := waitInterval wfuel Ret.

(** The record of a sustain hop. *)
Definition sustainPending (tx : Tx) (utxo next : UTXO) : PendingBroadcast :=
  mkPending (TxID tx) (EF tx) [utxo] [next] StageL2Done 0.

(** The loop of [runChain]. *)
Fixpoint chainLoop (wfuel fuel : nat) (utxo : UTXO) (hops : Z) : code chainEnd :=
  match fuel with
  | O => Ret ChainRunning
  | S fuel =>
      let again utxo hops :=
        w ← waitNextInterval wfuel;
        match w with
        | Elapsed => chainLoop wfuel fuel utxo hops
        | Canceled => Ret ChainCanceled
        | StillWaiting => Ret ChainRunning
        end in
      mode ← currentMode;
      match BuildSustain utxo (Some mode) with
      | Err _ => again utxo hops
      | Ok (tx, next) =>
          let pending := sustainPending tx utxo next in
          r ← savePending pending;
          match r with
          | Some e =>
              recordBroadcastFail "store" e;;
              metric (Metrics.IncChainTerminated "store_error");;
              Ret ChainStoreError
          | None =>
              r ← broadcast pending;
              match r with
              | Some e =>
                  clearPending (TxID tx);;
                  recordBroadcastFail "arcade" e;;
                  again utxo hops
              | None =>
                  r ← onQueue (Queue.commit (TxID tx) (pSpent pending) (pCreated pending));
                  match r with
                  | Some e =>
                      recordBroadcastFail "store" e;;
                      metric (Metrics.IncChainTerminated "store_error");;
                      Ret ChainStoreError
                  | None =>
                      recordBroadcastOk;;
                      if Value next =? 0 then
                        modify (fun e => set_chainsExhausted (e_chainsExhausted e + 1) e);;
                        metric (Metrics.IncChainTerminated "exhausted");;
                        Ret (ChainExhausted (hops + 1))
                      else again next (hops + 1)
                  end
              end
          end
      end
  end.

Definition runChain (wfuel fuel : nat) (utxo : UTXO) : code chainEnd :=
  w ← waitInitialJitter wfuel;
  match w with
  | Canceled => Ret ChainCanceled
  | StillWaiting => Ret ChainRunning
  | Elapsed => chainLoop wfuel fuel utxo 0
  end.

(** The goroutine of one chain. *)
Definition chainGoroutine (wfuel fuel : nat) (utxo : UTXO) : code (option chainEnd) :=
  goSafe "chain" (fun at_ =>
    r ← Safe.mayPanic at_ (runChain wfuel fuel utxo);
    n ← addChainsActive (-1);
    metric (Metrics.SetChainsActive n);;
    Ret r).

(** The loop that pops the tips, one per chain to start. *)
Fixpoint popChains (fuel : nat) : code (list UTXO) :=
  match fuel with
  | O => Ret []
  | S fuel =>
      u ← onQueue Queue.pop;
      match u with
      | None => Ret []
      | Some u =>
          n ← addChainsActive 1;
          metric (Metrics.SetChainsActive n);;
          us ← popChains fuel;
          Ret (u :: us)
      end
  end.

(** What [runChains] does itself while its chains run. *)
Definition awaitShutdown : code (option chainEnd) :=
  n ← queueLen;
  metric (Metrics.SetQueueDepth n);;
  world (Select 1 None);;
  setState (with_lifecycle LifecycleStopped);;
  Ret None.

(** [runChains].  A chain does not touch the queue, so the chains may as well
    start once the loop has popped them all. *)
Definition runChains (wfuel fuel : nat) : code (list (option chainEnd)) :=
  modify (fun e => set_state
    (with_chainsTarget (e_numChains e)
      (with_lifecycle (if 0 <? e_tps e then LifecycleRunning else LifecyclePaused) (e_state e))) e);;
  depth ← queueLen;
  utxos ← popChains (S (Z.to_nat depth));
  goAll (awaitShutdown :: (chainGoroutine wfuel fuel <$> utxos)).
End chain.

#[global] Arguments BuildSustain : simpl never.

(** ** The lineage of a chain *)

Section lineage.
Context `{SdkLaws} `{!TxidLaws} (m : Mode).

(** The tip of the chain of [seed] after [n] hops. *)
Fixpoint tipAt (seed : UTXO) (n : nat) : option UTXO :=
  match n with
  | O => Some seed
  | S n =>
      match tipAt seed n with
      | Some u => match BuildSustain u (Some m) with Ok (_, next) => Some next | Err _ => None end
      | None => None
      end
  end.

(** Its hop number [n]. *)
Definition hopAt (seed : UTXO) (n : nat) : option PendingBroadcast :=
  match tipAt seed n with
  | Some u =>
      match BuildSustain u (Some m) with
      | Ok (tx, next) => Some (sustainPending tx u next)
      | Err _ => None
      end
  | None => None
  end.

(** The outpoint of a UTXO, as a transaction spends it. *)
Definition spentOutpoint (u : UTXO) : result Hash * N := (NewHashFromHex (TxHash u), TxPos u).

(** The seeds are distinct and no chain ever comes back to one of them: they are
    unspent outputs of an acyclic ledger. *)
Definition independent (seeds : list UTXO) : Prop :=
  NoDup seeds /\
  forall s s' n u, s ∈ seeds -> s' ∈ seeds -> tipAt s n = Some u ->
    spentOutpoint u = spentOutpoint s' -> s = s' /\ n = O.

Definition chain_lane (seed : UTXO) : lane := {|
  ln_key k := exists n u, tipAt seed n = Some u /\ k = keyOf u;
  ln_txid x := exists n p, hopAt seed n = Some p /\ x = pTxID p;
  ln_queue _ := False;
  ln_start := {[ keyOf seed := seed ]};
  ln_rec := hopAt seed;
|}.

Lemma hopAt_Some s n p : hopAt s n = Some p ->
  exists u tx next, tipAt s n = Some u /\ BuildSustain u (Some m) = Ok (tx, next) /\
    p = sustainPending tx u next /\ tipAt s (S n) = Some next.
Proof using.
  unfold hopAt. destruct (tipAt s n) as [u|] eqn:Hu; [|done].
  destruct (BuildSustain u (Some m)) as [[tx next]|] eqn:Hb; [|done].
  intros [= <-]. exists u, tx, next. simpl. by rewrite Hu, Hb.
Qed.

Lemma tipAt_S s n u : tipAt s (S n) = Some u ->
  exists w tx, tipAt s n = Some w /\ BuildSustain w (Some m) = Ok (tx, u).
Proof using.
  simpl. destruct (tipAt s n) as [w|]; [|done].
  destruct (BuildSustain w (Some m)) as [[tx next]|] eqn:Hb; [|done].
  intros [= <-]. by exists w, tx.
Qed.

(** Two tips with one outpoint come from two tips with one outpoint. *)
Lemma lineage_back u tx v u' tx' v' :
  BuildSustain u (Some m) = Ok (tx, v) -> BuildSustain u' (Some m) = Ok (tx', v') ->
  spentOutpoint v = spentOutpoint v' -> spentOutpoint u = spentOutpoint u'.
Proof using All.
  intros [(t & h & Ht & Hh & Hs & Hv) _]%BuildSustain_links [(t' & h' & Ht' & Hh' & Hs' & Hv') _]%BuildSustain_links.
  rewrite Forall_singleton in Hv, Hv'. unfold spentOutpoint. rewrite Hv, Hv', <- Ht, <- Ht'.
  destruct (txid_decodes t) as [x Hx], (txid_decodes t') as [x' Hx']. rewrite Hx, Hx'.
  intros [= <- _]. assert ((h, TxPos u) = (h', TxPos u')) as [= -> ->].
  { apply (txid_binds_input t t'); [done|done|]. by apply (txid_decode_inj t t' x). }
  by rewrite Hh, Hh'.
Qed.

Lemma lineages_meet seeds s s' n n' u u' :
  independent seeds -> s ∈ seeds -> s' ∈ seeds -> tipAt s n = Some u -> tipAt s' n' = Some u' ->
  spentOutpoint u = spentOutpoint u' -> s = s' /\ n = n'.
Proof using All.
  intros [_ Hind] Hs Hs'. revert n' u u'. induction n as [|n IH]; intros n' u u' Hu Hu' Heq.
  - injection Hu as <-. destruct (Hind s' s n' u' Hs' Hs Hu') as [-> ->]; done.
  - destruct n' as [|n'].
    + injection Hu' as <-. destruct (Hind s s' (S n) u Hs Hs' Hu) as [-> ?]; done.
    + apply tipAt_S in Hu as (w & tx & Hw & Hb). apply tipAt_S in Hu' as (w' & tx' & Hw' & Hb').
      destruct (IH n' w w' Hw Hw') as [-> ->]; [|done]. by eapply lineage_back.
Qed.

Lemma key_outpoint u w : keyOf u = keyOf w -> spentOutpoint u = spentOutpoint w.
Proof using. intros [= Hh Hp]%keyOf_outpoint. unfold spentOutpoint. by rewrite Hh, Hp. Qed.

(** A hop's transaction id is the hash of the next tip. *)
Lemma hop_txid s n p : hopAt s n = Some p ->
  exists u, tipAt s (S n) = Some u /\ spentOutpoint u = (NewHashFromHex (pTxID p), 0%N).
Proof using All.
  intros (u & tx & next & _ & Hb & -> & Hn)%hopAt_Some. exists next. split; [done|].
  apply BuildSustain_links in Hb as [(t & h & _ & _ & _ & Hv) Hpos].
  rewrite Forall_singleton in Hv. unfold spentOutpoint. by rewrite Hv, Hpos.
Qed.

Lemma chain_lane_wf seeds s : independent seeds -> s ∈ seeds -> lane_wf (chain_lane s).
Proof using All.
  intros Hind Hs. split; simpl.
  - intros n p Hp. split; [by exists n, p|].
    apply hopAt_Some in Hp as (u & tx & next & _ & [(t & h & Ht & _) _]%BuildSustain_links & -> & _).
    simpl. rewrite <- Ht. apply txid_nonempty.
  - intros n p u (w & tx & next & Hw & Hb & -> & Hn)%hopAt_Some Hu. simpl in Hu.
    apply elem_of_cons in Hu as [->|Hu]; [by exists n, w|].
    apply list_elem_of_singleton in Hu as ->. by exists (S n), next.
  - intros n k p p' (u & Hu & Hx)%hop_txid (u' & Hu' & Hx')%hop_txid Heq.
    destruct (lineages_meet seeds s s (S n) (S k) u u') as [_ ?]; [done..| |lia].
    by rewrite Hx, Hx', Heq.
Qed.

Lemma chain_lanes_disjoint seeds s s' : independent seeds -> s ∈ seeds -> s' ∈ seeds -> s <> s' ->
  lanes_disjoint (chain_lane s) (chain_lane s').
Proof using All.
  intros Hind Hs Hs' Hne. split_and!; simpl; [..|done].
  - intros k (n & u & Hu & ->) (n' & u' & Hu' & Hk). apply Hne.
    by destruct (lineages_meet seeds s s' n n' u u' Hind Hs Hs' Hu Hu' (key_outpoint _ _ Hk)).
  - intros x (n & p & (u & Hu & Hx)%hop_txid & ->) (n' & p' & (u' & Hu' & Hx')%hop_txid & Heq). apply Hne.
    destruct (lineages_meet seeds s s' (S n) (S n') u u') as [? _]; [done..| |done].
    by rewrite Hx, Hx', Heq.
Qed.

(** The tips of a chain's lane: its current tip, once it is worth something. *)
Lemma chain_lane_tips s n u : tipAt s n = Some u -> Value s <> 0 ->
  ln_tips (chain_lane s) n = if Value u =? 0 then ∅ else {[ keyOf u := u ]}.
Proof using.
  revert u. induction n as [|n IH]; intros u Hu Hs.
  { injection Hu as <-. simpl. by destruct (Z.eqb_spec (Value s) 0). }
  apply tipAt_S in Hu as (w & tx & Hw & Hb).
  assert (Value w <> 0) as Hvw.
  { unfold BuildSustain in Hb. destruct (Z.eqb_spec (Value w) 0); [done|done]. }
  cbn [ln_tips chain_lane ln_rec]. unfold hopAt. rewrite Hw, Hb. fold (chain_lane s).
  change (ln_tips (mkLane _ _ _ _ _) n) with (ln_tips (chain_lane s) n).
  rewrite (IH w Hw Hs). destruct (Z.eqb_spec (Value w) 0); [done|].
  unfold apply_tips. simpl. rewrite delete_singleton_eq.
  by destruct (Value u =? 0).
Qed.

Lemma lane_tip_lookup seeds s n t k u : independent seeds -> s ∈ seeds -> Value s <> 0 ->
  tipAt s n = Some t -> tipAt s k = Some u ->
  ln_tips (chain_lane s) n !! keyOf u = if (k =? n)%nat && negb (Value u =? 0) then Some u else None.
Proof using All.
  intros Hind Hs Hv Ht Hu. rewrite (chain_lane_tips s n t) by done.
  destruct (Nat.eqb_spec k n) as [->|Hne].
  - rewrite Ht in Hu. injection Hu as ->. destruct (Value u =? 0); simpl; [done|apply lookup_singleton_eq].
  - destruct (Value t =? 0); [done|]. apply lookup_singleton_ne. intros Hk. apply Hne.
    by destruct (lineages_meet seeds s s n k t u Hind Hs Hs Ht Hu (key_outpoint _ _ Hk)).
Qed.

Lemma tipAt_reached s n : ln_reaches (chain_lane s) n -> exists t, tipAt s n = Some t.
Proof using.
  destruct n as [|k]; [by exists s|].
  intros [p (u & tx & next & _ & _ & _ & Hn)%hopAt_Some]. by exists next.
Qed.
End lineage.

(** ** The chains under interference *)

Section chain_rules.
Context `{SdkLaws} `{!TxidLaws} `{Prometheus} {D : Type} `{DurableStoreLaws D} {W : Type} `{World W}.

Abbreviation E := (Engine (D:=D) (W:=W)).
Abbreviation code := (prog E).
Abbreviation lane_rg l p Q e := (rg (rely l) (guar l) p Q e).

Lemma all_calm_waitActive wfuel : all_calm (waitActive wfuel : code active).
Proof.
  induction wfuel as [|wfuel IH]; [done|]. cbn [waitActive].
  apply all_calm_bind.
  { apply all_calm_bind; [apply all_calm_gets|intros wake]. by apply all_calm_bind; [apply all_calm_gets|]. }
  intros [a|wake]; [done|]. apply all_calm_bind; [apply all_calm_world|intros [|c]]; done.
Qed.

Lemma all_calm_waitInterval wfuel (wait : Z -> code Z) :
  (forall d, all_calm (wait d)) -> all_calm (waitInterval wfuel wait).
Proof.
  intros Hw. induction wfuel as [|wfuel IH]; [done|]. cbn [waitInterval].
  apply all_calm_bind; [apply all_calm_waitActive|intros [tps wake| |]]; [|done..].
  apply all_calm_bind; [apply all_calm_gets|intros chains].
  apply all_calm_bind; [apply Hw|intros d].
  apply all_calm_bind; [|by intros [[] []]].
  unfold waitDuration. case_if; [done|].
  apply all_calm_bind; [apply all_calm_world|by intros [|[|c]]].
Qed.

Lemma all_calm_next wfuel : all_calm (waitNextInterval wfuel : code waited).
Proof. by apply all_calm_waitInterval. Qed.

Lemma all_calm_initial wfuel : all_calm (waitInitialJitter wfuel : code waited).
Proof.
  apply all_calm_waitInterval. intros d. apply all_calm_bind; [apply all_calm_world|done].
Qed.

Lemma all_calm_active n : all_calm (addChainsActive n : code Z).
Proof. split; [|done]. intros e. split; [|done]. intros Hd. by split_and!. Qed.

Lemma all_calm_exhausted : all_calm (modify (fun e : E => set_chainsExhausted (e_chainsExhausted e + 1) e)).
Proof. apply all_calm_modify. intros e. split; [|done]. intros Hd. by split_and!. Qed.

#[local] Hint Resolve all_calm_next all_calm_initial all_calm_active all_calm_exhausted : calm.

Section one_chain.
Context (m : Mode) (s : UTXO) (Hl : lane_wf (chain_lane m s)).

(** What a chain's end tells. *)
Definition chain_ended (r : chainEnd) (e : E) : Prop :=
  match r with
  | ChainExhausted hops => exists n u, tipAt m s n = Some u /\ Value u = 0 /\ hops = Z.of_nat n /\
      here (chain_lane m s) m n false Clear e
  | _ => True
  end.

Lemma chain_stop {A} n acc h (p : code A) (r : chainEnd) (e : E) :
  all_calm p -> chain_ended r = (fun _ => True) -> here (chain_lane m s) m n acc h e ->
  lane_rg (chain_lane m s) (p ≫= fun _ => Ret r) chain_ended e.
Proof using Hl.
  intros Hp Hr He. lane_step ltac:(by apply lane_calm).
  intros a e' ? e2 ?. by rewrite Hr.
Qed.

Lemma chainLoop_rule wfuel fuel n u h (e : E) :
  tipAt m s n = Some u -> here (chain_lane m s) m n false h e ->
  lane_rg (chain_lane m s) (chainLoop wfuel fuel u (Z.of_nat n)) chain_ended e.
Proof using All.
  revert n u h e. induction fuel as [|fuel IH]; intros n u h e Hu He; [by intros e' _|].
  cbn [chainLoop].
  assert (forall n u h (e : E), tipAt m s n = Some u -> here (chain_lane m s) m n false h e ->
    lane_rg (chain_lane m s) (waitNextInterval wfuel ≫= fun w => match w with
      | Elapsed => chainLoop wfuel fuel u (Z.of_nat n)
      | Canceled => Ret ChainCanceled
      | StillWaiting => Ret ChainRunning end) chain_ended e) as Hagain.
  { clear -IH Hl. intros n u h e Hu He. lane_skip.
    intros [] e' He'; [by eapply IH|by intros e2 _..]. }
  lane_step ltac:(by apply lane_mode).
  intros m' e1 [-> He1]. cbv beta iota zeta.
  destruct (BuildSustain u (Some m)) as [[tx next]|x] eqn:Hb; [|by eapply Hagain].
  set (p := sustainPending tx u next).
  assert (ln_rec (chain_lane m s) n = Some p) as Hrec by (simpl; unfold hopAt; by rewrite Hu, Hb).
  assert (tipAt m s (S n) = Some next) as Hnext by (simpl; by rewrite Hu, Hb).
  lane_step ltac:(by apply lane_save).
  intros [x|] e2 He2; cbv beta iota in He2 |- *.
  { lane_skip.
    intros ? e3 He3. eapply chain_stop; [apply all_calm_metric|done|exact He3]. }
  lane_step ltac:(by apply lane_broadcast).
  intros [x|] e3 He3;
    [rewrite bool_decide_eq_false_2 in He3 by done|rewrite bool_decide_eq_true_2 in He3 by done].
  { lane_step ltac:(exact (lane_clear _ Hl m n p Hrec _ _ He3)).
    intros ? e4 He4.
    lane_skip.
    intros ? e5 He5. eapply Hagain; [exact Hu|exact He5]. }
  lane_step ltac:(exact (lane_commit _ Hl m n p Hrec _ He3)).
  intros [x|] e4 He4.
  { lane_skip.
    intros ? e5 He5. eapply chain_stop; [apply all_calm_metric|done|exact He5]. }
  lane_skip.
  intros ? e5 He5. replace (Z.of_nat n + 1) with (Z.of_nat (S n)) by lia.
  destruct (Z.eqb_spec (Value next) 0) as [Hv|Hv]; [|eapply Hagain; [exact Hnext|exact He5]].
  lane_skip.
  intros ? e6 He6.
  lane_skip.
  intros ? e7 He7 e8 HR. exists (S n), next. split_and!; [done|done|lia|]. by eapply here_rely.
Qed.

Lemma chain_ended_stable r (e e' : E) : rely (chain_lane m s) e e' -> chain_ended r e -> chain_ended r e'.
Proof using Hl.
  intros HR. destruct r; try done. intros (n & u & Hu & Hv & Hh & He). exists n, u.
  split_and!; [done..|]. by eapply here_rely.
Qed.

Lemma runChain_rule wfuel fuel h (e : E) : here (chain_lane m s) m 0 false h e ->
  lane_rg (chain_lane m s) (runChain wfuel fuel s) chain_ended e.
Proof using All.
  intros He. unfold runChain. lane_skip. intros [] e1 He1; [|by intros e2 _..]. by eapply (chainLoop_rule wfuel fuel 0).
Qed.

(** A chain that panics may stop anywhere, as if the process had. *)
Lemma chainGoroutine_rule wfuel fuel h (e : E) : here (chain_lane m s) m 0 false h e ->
  lane_rg (chain_lane m s) (chainGoroutine wfuel fuel s) (fun r e' => forall r', r = Some r' -> chain_ended r' e') e.
Proof using All.
  intros He. set (P := fun o e' => Safe.returning chain_ended o e').
  assert (forall o (e1 e2 : E), rely (chain_lane m s) e1 e2 -> P o e1 -> P o e2) as HP.
  { intros [r|v] e1 e2; [apply chain_ended_stable|done]. }
  apply (goSafe_rule (chain_lane m s) m 0 h); [done|done|apply chain_ended_stable|]. intros at_ e1 He1.
  apply lane_bind. eapply rg_mono; [|by apply Safe.rg_mayPanic, (runChain_rule _ _ h)]. intros o e2 Ho.
  apply lane_bind. eapply rg_mono; [|apply (lane_calm_stable _ (P o)); [done|apply HP|apply all_calm_active|exact Ho]].
  intros n e3 Ho3. apply lane_bind.
  eapply rg_mono; [|apply (lane_calm_stable _ (P o)); [done|apply HP|apply all_calm_metric|exact Ho3]].
  intros ? e4 Ho4 e5 HR. by eapply HP.
Qed.
End one_chain.
End chain_rules.

(** ** Every chain of the engine *)

Section all_chains.
Context `{SdkLaws} `{!TxidLaws} `{Prometheus} {D : Type} `{DurableStoreLaws D} {W : Type} `{World W}.

Abbreviation E := (Engine (D:=D) (W:=W)).
Abbreviation code := (prog E).

(** What the durable state and the network know of the chain of [s]: it stands
    at hop [n], whose tip is the only one stored (none once it is worth
    nothing); the network has accepted the hops before [n] and no other, but
    perhaps for hop [n] itself, and then its record is in the store; and a
    pending record of the chain is the one of hop [n]. *)
Definition chain_status (m : Mode) (s : UTXO) (e : E) : Prop :=
  exists n a t, tipAt m s n = Some t /\
    (forall k u, tipAt m s k = Some u ->
       tips e !! keyOf u = if (k =? n)%nat && negb (Value u =? 0) then Some u else None) /\
    (forall k p, hopAt m s k = Some p -> (p, true) ∈ e_log e <-> (k < a)%nat) /\
    (a = n \/ a = S n /\ exists p x, hopAt m s n = Some p /\ pendings e !! pTxID p = Some (stamp x p)) /\
    (forall k p q, hopAt m s k = Some p -> pendings e !! pTxID p = Some q -> k = n /\ exists x, q = stamp x p).

(** The chains may start: the queue is what the store holds, nothing is pending,
    and nothing of these chains was broadcast. *)
Record chains_ready (m : Mode) (e : E) : Prop := {
  ready_durable : durable e;
  ready_mode : e_mode e = m;
  ready_seeds : independent m (Queue.heap (e_queue e));
  ready_values s : s ∈ Queue.heap (e_queue e) -> Value s <> 0;
  ready_tips k u : tips e !! k = Some u <-> u ∈ Queue.heap (e_queue e) /\ k = keyOf u;
  ready_pendings : pendings e = ∅;
  ready_log s n p : s ∈ Queue.heap (e_queue e) -> hopAt m s n = Some p -> (p, true) ∉ e_log e;
}.

Definition chains_inv (m : Mode) (seeds : list UTXO) (e : E) : Prop :=
  durable e /\
  (forall s, s ∈ seeds -> lane_safe (chain_lane m s) e) /\
  (forall x p, pendings e !! x = Some p -> exists s, s ∈ seeds /\ ln_txid (chain_lane m s) x).

Lemma ready_at m (e : E) s : chains_ready m e -> s ∈ Queue.heap (e_queue e) ->
  here (chain_lane m s) m 0 false Clear e.
Proof.
  intros [Hd Hm Hind Hv Ht Hp Hlog] Hs. split; [done|]. split; [done|]. split; [|by intros u []].
  split_and!; [done|..|done].
  - intros k (n & u & Hu & ->). simpl. destruct (decide (n = O)) as [->|Hn].
    + injection Hu as <-. rewrite lookup_singleton_eq. by apply Ht.
    + rewrite lookup_singleton_ne.
      * destruct (tips e !! keyOf u) as [w|] eqn:Hw; [|done]. exfalso. apply Hn.
        apply Ht in Hw as [Hw Hk].
        by destruct (lineages_meet m _ s w n O u w Hind Hs Hw Hu eq_refl (key_outpoint _ _ Hk)).
      * intros Hk. apply Hn.
        by destruct (lineages_meet m _ s s n O u s Hind Hs Hs Hu eq_refl (key_outpoint _ _ (eq_sym Hk))).
  - intros k p Hk. split; [|lia]. intros Hin. by apply (Hlog s k p) in Hk.
  - intros x _. by rewrite Hp.
Qed.

Lemma ready_quiet m (e e' : E) : chains_ready m e -> quiet e e' -> queued e' = queued e -> chains_ready m e'.
Proof.
  intros [Hd Hm Hs Hv Ht Hp Hl] Hq Hh. unfold queued in Hh. destruct (Hq Hd) as (Hd' & Hm' & Ht' & Hp' & Hl').
  split; rewrite ?Hh, ?Ht', ?Hp', ?Hl', ?Hm'; done.
Qed.

Lemma here_safe l m n h (e : E) : here l m n false h e -> lane_safe l e.
Proof. intros (_ & _ & Hat & _). by exists n, false, h. Qed.

(** *** Before the chains start *)

(** Popping a tip changes nothing durable. *)
Lemma quiet_pop (e : E) : durable e ->
  let '(r, q) := Queue.pop (e_queue e) in
  quiet e (set_queue q e) /\
  match r with Some u => u :: Queue.heap q ≡ₚ queued e | None => queued e = [] /\ Queue.heap q = [] end.
Proof.
  intros [Hwf [d Hst]]. destruct (Queue.pop (e_queue e)) as [r q] eqn:Hpop. destruct r as [u|].
  - destruct (Queue.pop_Some (e_queue e) q u Hwf Hpop) as (Hwf' & Hperm & Hs' & _). split; [|done].
    intros _. unfold tips, pendings. simpl. rewrite Hs'. split_and!; [split; [done|exists d; simpl; congruence]|done..].
  - destruct (Queue.pop_None (e_queue e) Hwf) as [Hn Heq]; [by rewrite Hpop|]. rewrite Hpop in Heq.
    simpl in Heq. subst q. split; [by destruct e|done].
Qed.

(** One of several actions while others take calm steps. *)
Lemma quiet_bind {A B} (p : code A) (g : A -> code B) Q (e : E) :
  rg calm quiet p (fun a e' => rg calm quiet (g a) Q e') e -> rg calm quiet (p ≫= g) Q e.
Proof. apply rg_bind; [intros e1; apply calm_refl|intros e1 e2 e3; apply calm_trans]. Qed.

Lemma quiet_calm {A} (P : E -> Prop) (p : code A) (e : E) :
  (forall e e', calm e e' -> P e -> P e') -> all_calm p -> P e -> rg calm quiet p (fun _ e' => P e') e.
Proof. apply calm_stable; [done|]. by intros e1 e2 [? _]. Qed.

(** What has been popped, and what is left. *)
Definition popped (e : E) (us : list UTXO) (e' : E) : Prop := quiet e e' /\ us ++ queued e' ≡ₚ queued e.

Lemma popped_calm e us (e1 e2 : E) : calm e1 e2 -> popped e us e1 -> popped e us e2.
Proof. intros (Hq & Hh & _) [Hq1 Hp]. split; [by eapply quiet_trans|by rewrite Hh]. Qed.

Lemma popChains_spec fuel us (e0 e : E) : durable e0 -> popped e0 us e -> (length (queued e) < fuel)%nat ->
  rg calm quiet (popChains fuel) (fun us' e' => popped e0 (us ++ us') e' /\ queued e' = []) e.
Proof.
  intros Hd0. revert us e. induction fuel as [|fuel IH]; intros us e Hp Hlen; [lia|]. cbn [popChains].
  apply quiet_bind. apply rg_act. intros e1 Hc. pose proof (popped_calm _ _ _ _ Hc Hp) as [Hq1 Hp1].
  destruct Hc as (_ & Hh & _). rewrite <- Hh in Hlen. destruct (Hq1 Hd0) as [Hd1 _].
  pose proof (quiet_pop e1 Hd1) as Hpop. destruct (Queue.pop (e_queue e1)) as [r q]. destruct Hpop as [Hq Hr]. cbn [fst snd].
  split; [done|]. intros e2 Hc2. destruct r as [u|].
  - assert (popped e0 (us ++ [u]) e2 /\ (length (queued e2) < fuel)%nat) as Hp2.
    { split.
      - eapply popped_calm; [exact Hc2|]. split; [by eapply quiet_trans|]. rewrite <- (assoc_L (++)). simpl. by rewrite Hr.
      - destruct Hc2 as (_ & -> & _). apply Permutation_length in Hr. simpl in *. unfold queued in *. simpl. lia. }
    assert (forall e e', calm e e' -> popped e0 (us ++ [u]) e /\ (length (queued e) < fuel)%nat ->
      popped e0 (us ++ [u]) e' /\ (length (queued e') < fuel)%nat) as Hst.
    { intros e3 e4 Hc3 [Hp3 Hl3]. split; [by eapply popped_calm|]. by destruct Hc3 as (_ & -> & _). }
    apply quiet_bind. eapply rg_mono; [|apply (quiet_calm _ _ _ Hst); [apply all_calm_active|exact Hp2]]. intros n e3 Hp3.
    apply quiet_bind. eapply rg_mono; [|apply (quiet_calm _ _ _ Hst); [apply all_calm_metric|exact Hp3]]. intros _ e4 [Hp4 Hl4].
    apply quiet_bind. eapply rg_mono; [|apply (IH (us ++ [u])); done]. intros us' e5 [Hp5 Hn5] e6 Hc6.
    rewrite <- (assoc_L (++)) in Hp5. split; [by eapply popped_calm|]. by destruct Hc6 as (_ & -> & _).
  - destruct Hr as [Hr Hnil]. intros e3 Hc3. rewrite app_nil_r. destruct Hc2 as (Hq2 & Hh2 & _), Hc3 as (Hq3 & Hh3 & _).
    assert (queued e3 = []) as Hn3 by (rewrite Hh3, Hh2; exact Hnil).
    split; [split|done]; [|by rewrite Hn3; rewrite Hr in Hp1].
    eapply quiet_trans; [exact Hq1|]. eapply quiet_trans; [exact Hq|]. by eapply quiet_trans.
Qed.

(** *** Together *)

(** The lane of a goroutine that writes nothing durable. *)
Definition idle_lane : lane :=
  {| ln_key _ := False; ln_txid _ := False; ln_queue _ := False; ln_start := ∅; ln_rec _ := None |}.

Lemma idle_lane_wf : lane_wf idle_lane.
Proof. by split. Qed.

Lemma idle_lane_safe (e : E) : lane_safe idle_lane e.
Proof. exists O, false, Clear. split; [|done]. split_and!; try done; by intros ? []. Qed.

Lemma idle_disjoint l : lanes_disjoint idle_lane l /\ lanes_disjoint l idle_lane.
Proof. split; split_and!; intros x Hx; simpl in *; tauto. Qed.

Lemma idle_bind {A B} (p : code A) (g : A -> code B) Q (e : E) :
  all_calm p -> (forall a e', rg (rely idle_lane) (guar idle_lane) (g a) Q e') ->
  rg (rely idle_lane) (guar idle_lane) (p ≫= g) Q e.
Proof.
  intros Hp Hg. apply lane_bind. eapply rg_mono; [|apply (lane_calm_stable _ (fun _ => True)); [apply idle_lane_wf|done..]].
  intros a e' _. apply Hg.
Qed.

Lemma shutdown_rule (e : E) :
  rg (rely idle_lane) (guar idle_lane) awaitShutdown (fun r _ => r = None) e.
Proof.
  apply idle_bind; [apply all_calm_gets|intros n e1].
  apply idle_bind; [apply all_calm_metric|intros ? e2].
  apply idle_bind; [apply all_calm_world|intros ? e3].
  apply idle_bind; [apply all_calm_setState|intros ? e4 e5 _]. done.
Qed.

(** The lanes of the goroutines of [runChains]. *)
Definition chain_lanes (m : Mode) (us : list UTXO) : list lane := idle_lane :: (chain_lane m <$> us).

Lemma chain_lanes_Some m us i l : chain_lanes m us !! i = Some l ->
  (i = O /\ l = idle_lane) \/ exists k s, i = S k /\ us !! k = Some s /\ l = chain_lane m s.
Proof.
  destruct i as [|k]; simpl; [intros [= <-]; by left|].
  rewrite list_lookup_fmap. destruct (us !! k) as [s|] eqn:Hk; [|done]. intros [= <-]. right. by exists k, s.
Qed.

Lemma chain_lanes_elem m us l : l ∈ chain_lanes m us <-> l = idle_lane \/ exists s, s ∈ us /\ l = chain_lane m s.
Proof.
  unfold chain_lanes. rewrite elem_of_cons, list_elem_of_fmap. naive_solver.
Qed.

Lemma chain_lanes_wf m seeds us : independent m seeds -> us ≡ₚ seeds -> lanes_wf (chain_lanes m us).
Proof.
  intros Hind Hus. assert (forall k s, us !! k = Some s -> s ∈ seeds) as Hin.
  { intros k s Hk. rewrite <- Hus. by eapply list_elem_of_lookup_2. }
  pose proof Hind as [Hnd _]. rewrite <- Hus in Hnd. split.
  - intros i l [[_ ->]|(k & s & _ & Hk & ->)]%chain_lanes_Some; [apply idle_lane_wf|].
    by eapply chain_lane_wf, Hin.
  - intros i j l l' [[-> ->]|(k & s & -> & Hk & ->)]%chain_lanes_Some [[-> ->]|(k' & s' & -> & Hk' & ->)]%chain_lanes_Some Hne;
      try apply idle_disjoint.
    apply (chain_lanes_disjoint m seeds); [done|by eapply Hin..|].
    intros ->. apply Hne. f_equal. by eapply NoDup_lookup.
Qed.

(** What is held of the chains since nothing was pending. *)
Lemma held_chains m seeds (b e : E) : pendings b = ∅ -> held (chain_lanes m seeds) b e -> chains_inv m seeds e.
Proof.
  intros Hb Hh. split_and!; [by eapply held_durable|..].
  - intros s Hs. apply (held_safe _ _ _ Hh), chain_lanes_elem. right. by exists s.
  - intros x p Hx. apply (held_pendings _ _ _ Hh) in Hx. rewrite Hb in Hx.
    destruct Hx as [Hx|(l & [->|(s & Hs & ->)]%chain_lanes_elem & Hl)]; [by rewrite lookup_empty in Hx|done|by exists s].
Qed.

Lemma chains_par m us seeds wfuel fuel sched (e : E) :
  us ≡ₚ seeds -> independent m seeds ->
  (forall s, s ∈ seeds -> here (chain_lane m s) m 0 false Clear e) ->
  rg calm (fun e1 e2 => forall b, keeps (held (chain_lanes m seeds) b) e1 e2) (par sched (awaitShutdown :: (chainGoroutine wfuel fuel <$> us)))
    (fun rs e' => forall r, Some r ∈ rs -> exists s, s ∈ seeds /\ chain_ended m s r e') e.
Proof.
  intros Hus Hind Hhere.
  assert (forall k s, us !! k = Some s -> s ∈ seeds) as Hin.
  { intros k s Hk. rewrite <- Hus. by eapply list_elem_of_lookup_2. }
  pose proof (chain_lanes_wf m seeds us Hind Hus) as Hwf.
  assert (chain_lanes m us ≡ₚ chain_lanes m seeds) as Hperm by (unfold chain_lanes; by rewrite Hus).
  eapply rg_weaken; [|eapply rg_mono; [|apply (lanes_par (chain_lanes m us) _ (fun i r e' => forall r', r = Some r' ->
    exists s, s ∈ seeds /\ chain_ended m s r' e')); [|done|]]].
  - intros e1 e2 Hstep b Hb. rewrite <- Hperm in Hb |- *. by eapply lanes_step_held.
  - intros rs e' [_ HQ] r [i Hi]%list_elem_of_lookup.
    by apply (HQ i _ Hi).
  - simpl. by rewrite !length_fmap.
  - intros i l p [[-> ->]|(k & s & -> & Hk & ->)]%chain_lanes_Some Hpi; simpl in Hpi.
    + injection Hpi as <-. eapply rg_mono; [|apply shutdown_rule]. by intros r e' ->.
    + rewrite list_lookup_fmap, Hk in Hpi. injection Hpi as <-.
      eapply rg_mono; [|eapply (chainGoroutine_rule m s); [by eapply chain_lane_wf, Hin|by eapply Hhere, Hin]].
      intros r e' Hr r' ->. exists s. split; [by eapply Hin|by apply Hr].
Qed.

Lemma ready_held m (e : E) : chains_ready m e -> held (chain_lanes m (Queue.heap (e_queue e))) e e.
Proof.
  intros Hr. apply held_start; [by eapply ready_durable|].
  intros l [->|(s & Hs & ->)]%chain_lanes_elem; [apply idle_lane_safe|by eapply here_safe, ready_at].
Qed.

(** [runChains] keeps the invariant whatever calm steps others take meanwhile. *)
Lemma runChains_rg m wfuel fuel (e : E) : chains_ready m e ->
  rg calm (fun e1 e2 => forall b, keeps (held (chain_lanes m (Queue.heap (e_queue e))) b) e1 e2) (runChains wfuel fuel)
    (fun rs e' => forall r, Some r ∈ rs -> exists s, s ∈ Queue.heap (e_queue e) /\ chain_ended m s r e') e.
Proof.
  intros Hr. pose proof (ready_durable m e Hr) as Hd. pose proof (ready_seeds m e Hr) as Hind.
  set (seeds := Queue.heap (e_queue e)) in *.
  set (G := fun e1 e2 : E => forall b, keeps (held (chain_lanes m seeds) b) e1 e2).
  assert (forall e1 e2 : E, quiet e1 e2 -> G e1 e2) as Hkeep.
  { intros e1 e2 Hq b Hb. by eapply held_quiet. }
  assert (forall {A B} (p : code A) (g : A -> code B) Q (e1 : E), rg calm quiet p (fun a e2 => rg calm G (g a) Q e2) e1 ->
    rg calm G (p ≫= g) Q e1) as Hbind.
  { intros A B p g Q e1 Hp. apply rg_bind; [intros e2; apply calm_refl|intros e2 e3 e4; apply calm_trans|].
    by eapply rg_weaken. }
  assert (popped e [] e) as Hp0 by (by split).
  unfold runChains. apply Hbind. eapply rg_mono; [|apply (quiet_calm _ _ _ (popped_calm e [])); [|exact Hp0]].
  2: { apply all_calm_modify. intros e1. split; [|done]. intros Hd1. by split_and!. }
  intros [] e1 Hp1. apply Hbind. apply rg_act. intros e2 Hc2. split; [apply quiet_refl|]. intros e3 Hc3.
  pose proof (popped_calm _ _ _ _ Hc2 Hp1) as Hp2. pose proof (popped_calm _ _ _ _ Hc3 Hp2) as Hp3.
  apply Hbind. eapply rg_mono; [|apply (popChains_spec _ [] e); [done|exact Hp3|]].
  2: { destruct Hc3 as (_ & -> & _). unfold queued, Queue.len. simpl. lia. }
  intros us e4 [Hp4 Hn4]. simpl in Hp4. unfold goAll. apply Hbind.
  eapply rg_mono; [|apply (quiet_calm (fun e' => popped e us e' /\ queued e' = [])); [|apply all_calm_world|done]].
  2: { intros e5 e6 Hc [Hp5 Hn5]. split; [by eapply popped_calm|]. by destruct Hc as (_ & -> & _). }
  intros sched e5 [[Hq5 Hp5] Hn5]. rewrite Hn5, app_nil_r in Hp5. apply chains_par; [exact Hp5|done|].
  intros s Hs. eapply here_rely; [by eapply chain_lane_wf|by apply quiet_rely; [intros u []|]|by apply ready_at].
Qed.

Lemma runChains_inv m wfuel fuel (e : E) : chains_ready m e ->
  wpi (held (chain_lanes m (Queue.heap (e_queue e))) e) (runChains wfuel fuel)
    (fun rs e' => forall r, Some r ∈ rs -> exists s, s ∈ Queue.heap (e_queue e) /\ chain_ended m s r e') e.
Proof.
  intros Hr. apply (rg_wpi _ calm); [intros e1; apply calm_refl|by apply ready_held|].
  eapply rg_weaken; [|by apply runChains_rg]. intros e1 e2 Hk. apply Hk.
Qed.

Lemma runChains_reaches m wfuel fuel (e e' : E) : chains_ready m e ->
  reaches (runChains wfuel fuel) e e' -> chains_inv m (Queue.heap (e_queue e)) e'.
Proof.
  intros Hr Hreach. apply (held_chains _ _ e); [by eapply ready_pendings|].
  by refine (wpi_reaches _ _ _ _ e' (ready_held m e Hr) (runChains_inv m wfuel fuel e Hr) Hreach).
Qed.

(** The invariant of a lane, told of its chain. *)
Lemma lane_safe_status m seeds s (e : E) : independent m seeds -> s ∈ seeds -> Value s <> 0 ->
  lane_safe (chain_lane m s) e -> chain_status m s e.
Proof.
  intros Hind Hs Hv (n & acc & h & (B0 & B1 & B2 & B3 & B4) & Hh).
  destruct (tipAt_reached m s n B0) as [t Ht].
  exists n, (if acc then S n else n), t. split_and!; [done| |done| |].
  - intros k u Hu. rewrite (B1 (keyOf u)) by (by exists k, u). by eapply lane_tip_lookup.
  - destruct acc; [right|by left]. split; [done|]. apply B4. by apply Hh.
  - intros k p q Hk Hq. specialize (B3 (pTxID p)).
    assert (ln_txid (chain_lane m s) (pTxID p)) as Hx by (by exists k, p).
    assert (pendings e !! pTxID p = None \/ exists p' t, ln_rec (chain_lane m s) n = Some p' /\
      pTxID p = pTxID p' /\ pendings e !! pTxID p = Some (stamp t p')) as [Hnone|(p' & x & Hp' & Heq & Hst)].
    { destruct h; [left|..]; by apply B3. }
    { congruence. }
    assert (k = n) as -> by (eapply (lane_inj _ (chain_lane_wf m seeds s Hind Hs)); eauto).
    simpl in Hp'. simplify_eq. split; [done|]. exists x. congruence.
Qed.

(** Whatever the network, the clock, the store's failures and the scheduler
    do, and wherever the process is stopped while its chains run, every chain is
    recoverable: the store holds exactly its tip at some hop [n], the network
    has accepted exactly the hops before [n], or those and hop [n] whose pending
    record is in the store, and nothing else of it is pending. *)
Theorem chains_crash_safe m wfuel fuel (e e' : E) s :
  chains_ready m e -> s ∈ Queue.heap (e_queue e) ->
  reaches (runChains wfuel fuel) e e' -> chain_status m s e'.
Proof.
  intros Hr Hs Hreach. destruct (runChains_reaches m wfuel fuel e e' Hr Hreach) as (_ & Hsafe & _).
  eapply lane_safe_status; [by apply ready_seeds|done|by eapply ready_values|by apply Hsafe].
Qed.

(** C18: a chain that reports itself exhausted has spent its whole value: the
    number of hops it reports is the number the network accepted, the last tip
    is worth nothing, and the store holds no tip and no pending record of it. *)
Theorem exhausted_chain_is_settled m wfuel fuel (e e' : E) rs hops :
  chains_ready m e -> run (runChains wfuel fuel) e = (rs, e') -> Some (ChainExhausted hops) ∈ rs ->
  exists s n u, s ∈ Queue.heap (e_queue e) /\ hops = Z.of_nat n /\ tipAt m s n = Some u /\ Value u = 0 /\
    (forall k w, tipAt m s k = Some w -> tips e' !! keyOf w = None) /\
    (forall k p, hopAt m s k = Some p -> pendings e' !! pTxID p = None /\
       ((p, true) ∈ e_log e' <-> (k < n)%nat)).
Proof.
  intros Hr Hrun Hin. pose proof (runChains_inv m wfuel fuel e Hr) as Hwp.
  destruct (wpi_run _ _ _ _ _ _ Hwp Hrun _ Hin) as (s & Hs & n & u & Hu & Hv & -> & (_ & _ & Hat & _)).
  exists s, n, u. destruct Hat as (B0 & B1 & B2 & B3 & _). split_and!; [done..| |].
  - intros k w Hw. rewrite (B1 (keyOf w)) by (by exists k, w).
    rewrite (chain_lane_tips m s n u) by (done || by eapply ready_values).
    by rewrite Hv.
  - intros k p Hk. split; [|by apply B2]. apply B3. by exists k, p.
Qed.
End all_chains.

(** C33: the interval of [chains] chains makes them broadcast [tps] transactions a
    second together, in spite of the rounding of [float64]: it is the exact quotient
    but for one nanosecond and a relative error of [2 ^ -50], and for up to [2 ^ 20]
    chains it is the exact quotient but for one nanosecond. *)
Theorem chainInterval_accurate tps chains : 0 < tps < 2 ^ 53 -> 0 < chains < 2 ^ 32 ->
  0 <= chainInterval tps chains /\
  2 ^ 50 * Z.abs (chainInterval tps chains * tps - chains * Backoff.Second) <= 2 ^ 50 * tps + chains * Backoff.Second /\
  (chains <= 2 ^ 20 -> Z.abs (chainInterval tps chains * tps - chains * Backoff.Second) <= tps).
Proof.
  intros Ht Hc. destruct (scaled_quotient_near (- two63) chains tps Backoff.Second) as [Hpos Herr];
    [lia|lia|done|unfold Backoff.Second; lia|].
  unfold chainInterval. rewrite !(proj2 (Z.leb_gt _ _)) by lia. cbn [orb]. cbv zeta in *.
  set (d := to_int64 _ _) in *. split_and!; [done|done|]. intros Hsmall. unfold Backoff.Second in *. lia.
Qed.

Lemma chainInterval_accurate_witness : 0 <= chainInterval 7 3 /\
  2 ^ 50 * Z.abs (chainInterval 7 3 * 7 - 3 * Backoff.Second) <= 2 ^ 50 * 7 + 3 * Backoff.Second /\
  (3 <= 2 ^ 20 -> Z.abs (chainInterval 7 3 * 7 - 3 * Backoff.Second) <= 7).
Proof. apply (chainInterval_accurate 7 3); lia. Defined.
