(* ===== verification/Wake.v ===== *)
(** * Waking the chains (internal/engine/notify.go; chain.go, [waitActive]; engine.go, [SetTPS])

    Any number of chains in [waitActive] against any number of [SetTPS] calls, each
    of them its own program, of which other actions may come between any two.  A chain
    runs [activeTurn] and blocks on the channel that gave it; a channel is closed once
    the generation has moved past it. *)

From S2P Require Import Prelude Prog Script TxBuilder Backoff Float Metrics Store Heap Queue Engine Chain.
Open Scope Z_scope.

Section wake.
Context `{Sdk} `{Prometheus} {D : Type} `{DurableStore D} {W : Type} `{World W}.

Abbreviation E := (Engine (D:=D) (W:=W)).
Abbreviation code := (prog E).

(** The next action of a program. *)
Definition pstep {A} (p : code A) (e : E) : option (code A * E) :=
  match p with Ret _ => None | Act f k => Some (k (f e).1, (f e).2) end.

(** A chain in a turn, blocked in its [select], and with its rate. *)
Inductive waiter := Turning (p : code (active + nat)) | Blocked (wake : nat) | Awake (a : active).

(** The engine, the calls of [SetTPS] under way and the chains. *)
Abbreviation config := (E * list (code unit) * list waiter)%type.

Inductive wake_step : config -> config -> Prop :=
  | wake_call e cs ws tps : wake_step (e, cs, ws) (e, SetTPS tps :: cs, ws)
  | wake_act e e' cs ws i p p' : cs !! i = Some p -> pstep p e = Some (p', e') ->
      wake_step (e, cs, ws) (e', <[i := p']> cs, ws)
  | wake_return e cs1 cs2 ws : wake_step (e, cs1 ++ Ret tt :: cs2, ws) (e, cs1 ++ cs2, ws)
  | wake_start e cs ws : wake_step (e, cs, ws) (e, cs, Turning activeTurn :: ws)
  | wake_turn e e' cs ws i p p' : ws !! i = Some (Turning p) -> pstep p e = Some (p', e') ->
      wake_step (e, cs, ws) (e', cs, <[i := Turning p']> ws)
  | wake_active e cs ws i a : ws !! i = Some (Turning (Ret (inl a))) -> wake_step (e, cs, ws) (e, cs, <[i := Awake a]> ws)
  | wake_block e cs ws i g : ws !! i = Some (Turning (Ret (inr g))) -> wake_step (e, cs, ws) (e, cs, <[i := Blocked g]> ws)
  | wake_closed e cs ws i g : ws !! i = Some (Blocked g) -> (g < e_resume e)%nat ->
      wake_step (e, cs, ws) (e, cs, <[i := Turning activeTurn]> ws)
  | wake_again e cs ws i a : ws !! i = Some (Awake a) -> wake_step (e, cs, ws) (e, cs, <[i := Turning activeTurn]> ws)
  | wake_other e e' cs ws : e_tps e' = e_tps e -> e_resume e' = e_resume e -> wake_step (e, cs, ws) (e', cs, ws).

(** A rest of a call that touches neither the rate nor the channel, and one that
    has still to close the current channel. *)
Fixpoint aside (p : code unit) : Prop :=
  match p with
  | Ret _ => True
  | Act f k => forall e, e_tps (f e).2 = e_tps e /\ e_resume (f e).2 = e_resume e /\ aside (k (f e).1)
  end.

Fixpoint owes (p : code unit) : Prop :=
  match p with
  | Ret _ => False
  | Act f k => forall e, e_tps (f e).2 = e_tps e /\
      (e_resume (f e).2 = e_resume e /\ owes (k (f e).1) \/
       e_resume (f e).2 = S (e_resume e) /\ aside (k (f e).1))
  end.

Definition calling (p : code unit) : Prop := (exists tps, p = SetTPS tps) \/ owes p \/ aside p.

(** [SetTPS] stores the rate in its first action and closes the channel in its
    last. *)
Lemma SetTPS_first tps (e e' : E) p : pstep (SetTPS tps) e = Some (p, e') ->
  owes p /\ e_resume e' = e_resume e.
Proof.
  intros [= <- <-]. split; [|done].
  intros e1. split; [done|left]. split; [done|]. intros e2. split; [done|left]. split; [done|].
  intros e3. split; [done|right]. by split.
Qed.

(** One action of a call. *)
Lemma calling_step p p' (e e' : E) : calling p -> pstep p e = Some (p', e') ->
  calling p' /\ (e_resume e <= e_resume e')%nat /\
  ((e_resume e < e_resume e')%nat \/ owes p' \/ (~ owes p /\ e_tps e' = e_tps e /\ e_resume e' = e_resume e)).
Proof.
  intros [[tps ->]|Hp] Hs.
  { apply SetTPS_first in Hs as [Ho Hr]. split; [by right; left|]. split; [lia|]. by right; left. }
  destruct p as [|B f k]; [done|]. injection Hs as <- <-. destruct Hp as [Hp|Hp]; destruct (Hp e) as (Ht & Hrest).
  - destruct Hrest as [[Hr Ho]|[Hr Ha]].
    + split; [by right; left|]. split; [lia|]. by right; left.
    + split; [by right; right|]. split; [lia|]. left. lia.
  - destruct Hrest as [Hr Ha]. split; [by right; right|]. split; [lia|]. right. right.
    split; [|done]. intros Ho. destruct (Ho e) as [_ [[_ Ho']|[Hr' _]]]; [|lia].
    clear -Ha Ho' e. revert Ha Ho'. generalize (k (f e).1). intros q. revert e.
    induction q as [|C g j IH]; intros e Ha Ho; [done|].
    destruct (Ha e) as (_ & Hr & Ha'), (Ho e) as [_ [[_ Ho']|[Hr' _]]]; [by eapply (IH _ e)|lia].
Qed.

(** A turn that has taken the channel [g]. *)
Definition tookTurn (g : nat) : code (active + nat) :=
  tps ← gets e_tps; Ret (if 0 <? tps then inl (Active tps g) else inr g).

(** A chain may block on [g]: it is not newer than the current channel, and it is
    closed, or the rate is not positive, or a call has still to close the current
    channel. *)
Definition may_block (e : E) (cs : list (code unit)) (g : nat) : Prop :=
  (g <= e_resume e)%nat /\ ((g < e_resume e)%nat \/ e_tps e <= 0 \/ Exists owes cs).

Definition waiter_inv (e : E) (cs : list (code unit)) (w : waiter) : Prop :=
  match w with
  | Turning p => p = activeTurn \/ (exists g, p = tookTurn g /\ (g <= e_resume e)%nat) \/
      (exists g, p = Ret (inr g) /\ may_block e cs g) \/ exists a, p = Ret (inl a)
  | Blocked g => may_block e cs g
  | Awake _ => True
  end.

Definition wake_inv (c : config) : Prop :=
  let '(e, cs, ws) := c in Forall calling cs /\ Forall (waiter_inv e cs) ws.

(** What the chains need is kept when the channels only get older, and so does what
    lets them block. *)
Lemma waiters_keep (e e' : E) cs cs' ws : (e_resume e <= e_resume e')%nat ->
  (forall g, may_block e cs g -> may_block e' cs' g) -> Forall (waiter_inv e cs) ws -> Forall (waiter_inv e' cs') ws.
Proof.
  intros Hle Hb Hws. eapply Forall_impl; [exact Hws|]. intros [p|g|a]; simpl; [|by apply Hb|done].
  intros [->|[(g & -> & Hg)|[(g & -> & Hg)|(a & ->)]]]; [by left|right; left; exists g; split; [done|lia]| |by right; right; right; exists a].
  right; right; left. exists g. split; [done|by apply Hb].
Qed.

Lemma owes_insert cs i p p' : cs !! i = Some p -> Exists owes cs -> ~ owes p \/ owes p' -> Exists owes (<[i := p']> cs).
Proof.
  rewrite !Exists_exists. intros Hi (q & Hq & Ho) Hor. apply list_elem_of_lookup in Hq as [j Hj].
  destruct (decide (i = j)) as [<-|Hne].
  - destruct Hor as [Hn|Hp']; [simplify_eq; done|]. exists p'. split; [|done].
    apply list_elem_of_lookup. exists i. apply list_lookup_insert_eq. by eapply lookup_lt_Some.
  - exists q. split; [|done]. apply list_elem_of_lookup. exists j. by rewrite list_lookup_insert_ne.
Qed.

(** One action of a turn. *)
Lemma turn_step (e e' : E) cs p p' : waiter_inv e cs (Turning p) -> pstep p e = Some (p', e') ->
  e' = e /\ waiter_inv e cs (Turning p').
Proof.
  intros [->|[(g & -> & Hg)|[(g & -> & Hg)|(a & ->)]]] Hs; simpl in Hs; simplify_eq; (split; [done|]).
  - right; left. by exists (e_resume e').
  - destruct (Z.ltb_spec 0 (e_tps e')); [right; right; right; by eexists|]. right; right; left. exists g. split; [done|]. split; [done|]. by right; left.
Qed.

Lemma wake_step_inv c c' : wake_step c c' -> wake_inv c -> wake_inv c'.
Proof.
  destruct 1 as [e cs ws tps|e e' cs ws i p p' Hi Hs|e cs1 cs2 ws|e cs ws|e e' cs ws i p p' Hi Hs|e cs ws i a Hi|e cs ws i g Hi|e cs ws i g Hi Hg|e cs ws i a Hi|e e' cs ws Ht Hr];
    intros [Hcs Hws]; (split; [try done|try done]).
  - constructor; [by left; exists tps|done].
  - eapply waiters_keep; [|intros g [Hg Hor]|exact Hws]; [done|]. split; [done|].
    destruct Hor as [|[|]]; [by left|by right; left|]. right; right. by right.
  - apply Forall_insert; [done|]. eapply calling_step; [|exact Hs]. by eapply (Forall_lookup_1 _ cs).
  - destruct (calling_step p p' e e') as (_ & Hle & Hor'); [by eapply (Forall_lookup_1 _ cs)|done|].
    eapply waiters_keep; [exact Hle|intros g [Hg Hor]|exact Hws]. split; [lia|].
    destruct Hor' as [|[Ho|(Hn & Ht & Hr)]]; [left; lia| |].
    + right. right. rewrite Exists_exists. exists p'. split; [|done].
      apply list_elem_of_lookup. exists i. apply list_lookup_insert_eq. by eapply lookup_lt_Some.
    + destruct Hor as [|[|Hex]]; [left; lia|right; left; lia|]. right. right. eapply owes_insert; [done|done|by left].
  - rewrite Forall_app in Hcs |- *. destruct Hcs as [? [_ ?]%Forall_cons]. done.
  - eapply waiters_keep; [|intros g [Hg Hor]|exact Hws]; [done|]. split; [done|].
    destruct Hor as [|[|Hex]]; [by left|by right; left|]. right. right.
    apply Exists_app in Hex as [|Hex]; apply Exists_app; [by left|]. right. by apply Exists_cons in Hex as [[]|].
  - constructor; [by left|done].
  - destruct (turn_step e e' cs p p') as [-> Hp']; [by eapply (Forall_lookup_1 _ ws)|done|]. by apply Forall_insert.
  - by apply Forall_insert.
  - apply Forall_insert; [done|]. pose proof (Forall_lookup_1 _ _ _ _ Hws Hi) as Hw.
    destruct Hw as [Hx|[(g' & Hx & _)|[(g' & [= <-] & Hg)|(a & Hx)]]]; done.
  - apply Forall_insert; [done|by left].
  - apply Forall_insert; [done|by left].
  - eapply waiters_keep; [|intros g|exact Hws]; unfold may_block; by rewrite ?Ht, Hr.
Qed.

(** C36: no wake-up is lost.  In every interleaving of any number of chains in
    [waitActive], action by action, with any number of [SetTPS] calls, a chain that is
    blocked while the rate is positive and every call has returned is blocked on a
    channel that has been closed: it can go on, and its next turn finds the rate. *)
Theorem no_lost_wakeup (e e' : E) ws i g :
  rtc wake_step (e, [], []) (e', [], ws) -> ws !! i = Some (Blocked g) -> 0 < e_tps e' ->
  wake_step (e', [], ws) (e', [], <[i := Turning activeTurn]> ws) /\
  run activeTurn e' = (inl (Active (e_tps e') (e_resume e')), e').
Proof.
  intros Hrtc Hi Ht. assert (wake_inv (e', [], ws)) as [_ Hws].
  { assert (wake_inv (e, [], [])) as Hinv by (by split; constructor). revert Hinv.
    induction Hrtc as [|c1 c2 c3 Hs _ IH]; [done|]. intros Hinv. by eapply IH, wake_step_inv. }
  split; [|simpl; by rewrite (proj2 (Z.ltb_lt _ _) Ht)].
  apply (wake_closed _ _ _ _ g); [done|]. destruct (Forall_lookup_1 _ _ _ _ Hws Hi) as [_ [|[|Hex]]]; [done|lia|]. by apply Exists_nil in Hex.
Qed.
End wake.
