(* ===== verification/Liveness.v ===== *)
(** * Chains that run undisturbed (internal/engine/chain.go: termination)

    When the network accepts every transaction, the store does not fail, the
    intervals elapse and the rate stays positive, a chain ends, after exactly as
    many hops as its value pays for. *)

From S2P Require Import Prelude Prog Script TxBuilder Backoff Float Metrics Store Heap Queue Engine Lane Chain.
Open Scope Z_scope.

Section liveness.
Context `{SdkLaws} `{!TxidLaws} `{Prometheus} {D : Type} `{DurableStore D} {W : Type} `{World W}.

Abbreviation E := (Engine (D:=D) (W:=W)).
Abbreviation code := (prog E).

(** A timer that is waited for fires: the second case of every [select]. *)
Definition timers_fire : Prop := forall n d w, (Select n (Some d) w).1 = 1%nat.

Section waiting.
Context (Htimers : timers_fire).

Lemma waitInterval_elapses wfuel (wait : Z -> code Z) (e : E) :
  (forall d (e : E), exists v w, run (wait d) e = (v, set_world w e)) -> 0 < e_tps e ->
  exists w, run (waitInterval (S wfuel) wait) e = (Elapsed, set_world w e).
Proof using Htimers.
  intros Hwait Ht. cbn [waitInterval waitActive]. unfold mbind, prog_bind. rewrite run_bind.
  assert (run (waitActive (S wfuel)) e = (Active (e_tps e) (e_resume e), e)) as Ha.
  { cbn [waitActive]. unfold activeTurn, mbind, prog_bind, resumeC. simpl. by rewrite (proj2 (Z.ltb_lt _ _) Ht). }
  cbn [waitActive] in Ha. unfold mbind, prog_bind in Ha. rewrite Ha. cbn [pbind run gets act].
  set (d := chainInterval _ _). destruct (Hwait d e) as (v & w & Hv). rewrite run_bind, Hv, run_bind.
  unfold waitDuration. destruct (Z.leb_spec v 0); [by exists w|].
  unfold mbind, prog_bind. rewrite run_bind. cbn [run world act].
  change (e_world (set_world w e)) with w. pose proof (Htimers 3%nat v w) as Hs.
  destruct (Select 3%nat (Some v) w) as [c w']. simpl in Hs. subst c. by exists w'.
Qed.

Lemma waitNext_elapses wfuel (e : E) : 0 < e_tps e ->
  exists w, run (waitNextInterval (S wfuel)) e = (Elapsed, set_world w e).
Proof using Htimers.
  apply waitInterval_elapses. intros d e'. exists d, (e_world e'). by destruct e'.
Qed.

Lemma waitInitial_elapses wfuel (e : E) : 0 < e_tps e ->
  exists w, run (waitInitialJitter (S wfuel)) e = (Elapsed, set_world w e).
Proof using Htimers.
  apply waitInterval_elapses. intros d e'. unfold jitter, mbind, prog_bind. rewrite run_bind. cbn [run world act].
  destruct (Rand (e_world e')) as [rand w]. by exists (Backoff.Jitter rand d), w.
Qed.

(** A chain whose UTXO is worth nothing never ends: however long it runs,
    it fails to build its transaction, waits and tries the same UTXO again, and
    broadcasts nothing. *)
Theorem zero_value_chain_never_ends (u : UTXO) wfuel fuel hops (e : E) :
  Value u = 0 -> 0 < e_tps e ->
  exists e', run (chainLoop (S wfuel) fuel u hops) e = (ChainRunning, e') /\ e_log e' = e_log e.
Proof using Htimers.
  intros Hv. revert e. induction fuel as [|fuel IH]; intros e Ht; [by exists e|].
  cbn [chainLoop]. unfold mbind, prog_bind. rewrite run_bind. cbn [run currentMode gets act].
  assert (BuildSustain u (Some (e_mode e)) = Err ErrZeroValueUTXO) as -> by (unfold BuildSustain; by rewrite Hv).
  rewrite run_bind. destruct (waitNext_elapses wfuel e Ht) as [w ->].
  destruct (IH (set_world w e) Ht) as (e' & -> & Hlog). by exists e'.
Qed.
End waiting.

Section undisturbed.
Context (m : Mode) (store_fine : D -> Prop) `{!ReliableStore store_fine} (buildable : UTXO -> Prop).
Context (Htimers : timers_fire).
Context (Haccept : forall txid ef w, (Broadcast txid ef w).1 = None).
Context (Hbuild : forall u, buildable u -> Value u <> 0 ->
  exists tx next, BuildSustain u (Some m) = Ok (tx, next) /\ buildable next).

(** An engine that can go on. *)
Definition fine (e : E) : Prop :=
  e_mode e = m /\ 0 < e_tps e /\
  match Queue.store (e_queue e) with Some d => store_fine d | None => True end.

Lemma save_fine p (e : E) : fine e -> pTxID p <> ""%string -> exists e', run (savePending p) e = (None, e') /\ fine e'.
Proof using ReliableStore0.
  intros (Hm & Ht & Hs) Hne. unfold savePending. cbn [run act].
  destruct (Queue.store (e_queue e)) as [d|] eqn:Hst; [|exists e; split; [done|]; unfold fine; by rewrite Hst].
  destruct (Now (e_world e)) as [t w]. destruct (fine_SavePending t p d Hs Hne) as (d' & -> & Hd').
  eexists; split; [done|]. by split_and!.
Qed.

Lemma broadcast_fine p (e : E) : fine e -> exists e', run (broadcast p) e = (None, e') /\ fine e'.
Proof using Haccept.
  intros He. unfold broadcast. cbn [run act]. pose proof (Haccept (pTxID p) (pEF p) (e_world e)) as Hb.
  destruct (Broadcast (pTxID p) (pEF p) (e_world e)) as [r w]. simpl in Hb. subst r. by eexists.
Qed.

Lemma commit_fine txid spent created (e : E) : fine e -> txid <> ""%string ->
  exists e', run (onQueue (Queue.commit txid spent created)) e = (None, e') /\ fine e'.
Proof using ReliableStore0.
  intros (Hm & Ht & Hs) Hne. unfold onQueue, Queue.commit, Queue.with_store. cbn [run act].
  destruct (Queue.store (e_queue e)) as [d|] eqn:Hst.
  - destruct (fine_CommitPending txid spent created d Hs Hne) as (d' & -> & Hd'). eexists; split; [done|]. by split_and!.
  - eexists; split; [done|]. split_and!; [done|done|]. simpl. by rewrite Hst.
Qed.

Lemma ok_fine (e : E) : fine e -> fine (run recordBroadcastOk e).2.
Proof using. intros He. simpl. by destruct (Now (e_world e)). Qed.

Lemma BuildSustain_value u tx next : BuildSustain u (Some m) = Ok (tx, next) ->
  Value next = if SustainFee m <? Value u then Value u - SustainFee m else 0.
Proof using. unfold BuildSustain. intros Hb. by invert_ok. Qed.

(** The hops a value pays for. *)
Definition hopsFor (v : Z) : Z := (v + SustainFee m - 1) / SustainFee m.

Lemma hopsFor_step v : 0 < SustainFee m -> 0 < v ->
  hopsFor v = 1 + (if SustainFee m <? v then hopsFor (v - SustainFee m) else 0).
Proof using.
  intros Hf Hv. unfold hopsFor. destruct (Z.ltb_spec (SustainFee m) v).
  - replace (v + SustainFee m - 1) with (v - SustainFee m + SustainFee m - 1 + 1 * SustainFee m) by lia.
    rewrite Z.div_add by lia. lia.
  - rewrite <- (Z.div_unique_pos (v + SustainFee m - 1) (SustainFee m) 1 (v - 1)); lia.
Qed.

Lemma chainLoop_exhausts wfuel fuel u hops (e : E) :
  0 < SustainFee m -> buildable u -> 0 < Value u -> hopsFor (Value u) <= Z.of_nat fuel -> fine e ->
  exists e', run (chainLoop (S wfuel) fuel u hops) e = (ChainExhausted (hops + hopsFor (Value u)), e').
Proof using All.
  intros Hfee. revert u hops e. induction fuel as [|fuel IH]; intros u hops e Hu Hv Hfuel He.
  { rewrite hopsFor_step in Hfuel by done. exfalso. destruct (Z.ltb_spec (SustainFee m) (Value u)); [|lia].
    assert (0 <= hopsFor (Value u - SustainFee m)); [|lia]. apply Z.div_pos; lia. }
  cbn [chainLoop]. unfold mbind, prog_bind. rewrite run_bind. cbn [run currentMode gets act].
  rewrite (proj1 He). destruct (Hbuild u Hu ltac:(lia)) as (tx & next & Hb & Hnext). rewrite Hb.
  assert (TxID tx <> ""%string) as Hne.
  { apply BuildSustain_links in Hb as [(t & h & <- & _) _]. apply txid_nonempty. }
  apply BuildSustain_value in Hb. rewrite hopsFor_step in Hfuel |- * by done.
  rewrite run_bind. destruct (save_fine (sustainPending tx u next) e He Hne) as (e1 & -> & He1).
  rewrite run_bind. destruct (broadcast_fine (sustainPending tx u next) e1 He1) as (e2 & -> & He2).
  rewrite run_bind. destruct (commit_fine (TxID tx) (pSpent (sustainPending tx u next)) (pCreated (sustainPending tx u next)) e2 He2 Hne) as (e3 & -> & He3).
  rewrite run_bind. pose proof (ok_fine e3 He3) as He4.
  destruct (run recordBroadcastOk e3) as [[] e4]. cbn [snd] in He4. rewrite Hb.
  destruct (Z.ltb_spec (SustainFee m) (Value u)) as [Hlt|Hge].
  - replace (Value u - SustainFee m =? 0) with false by lia. rewrite run_bind.
    destruct (waitNext_elapses Htimers wfuel e4 (proj1 (proj2 He4))) as [w ->].
    destruct (IH next (hops + 1) (set_world w e4)) as [e' He']; [done|lia|rewrite Hb; lia|done|].
    exists e'. rewrite He', Hb. do 2 f_equal. lia.
  - rewrite Z.eqb_refl, run_bind. cbn [run modify act]. rewrite run_bind. cbn [run metric modify act].
    by eexists.
Qed.

(** C19: an undisturbed chain ends: it reports itself exhausted after exactly
    as many hops as its value pays fees for, rounded up, and a loop of that
    many turns is long enough. *)
Theorem chain_exhausts wfuel fuel u (e : E) :
  0 < SustainFee m -> buildable u -> 0 < Value u -> hopsFor (Value u) <= Z.of_nat fuel -> fine e ->
  exists e', run (runChain (S wfuel) fuel u) e = (ChainExhausted (hopsFor (Value u)), e').
Proof using All.
  intros Hfee Hu Hv Hfuel He. unfold runChain, mbind, prog_bind. rewrite run_bind.
  destruct (waitInitial_elapses Htimers wfuel e (proj1 (proj2 He))) as [w ->].
  by apply (chainLoop_exhausts wfuel fuel u 0 (set_world w e)).
Qed.
End undisturbed.
End liveness.
