(* ===== verification/Bootstrap.v ===== *)
(** * Bootstrap (internal/engine/bootstrap.go, Run of engine.go)

    From one funding UTXO to one UTXO per chain: an L1 fanout, then one L2 fanout
    per L1 output, in parallel.  [fuel] bounds the polls for the funding UTXO. *)

From S2P Require Import Prelude Prog Safe Script TxBuilder Backoff Float Metrics Store Heap Queue Engine Lane Chain.
Open Scope Z_scope.

(** [ceilDiv], on [int] *)
Definition ceilDiv (n d : Z) : Z :=
  if d <=? 0 then 0 else Z.quot (i64 (i64 (n + d) - 1)) d.

(** [l2FanoutSizeForParent] *)
Definition l2FanoutSizeForParent (numChains parentCount parentIndex : Z) : Z :=
  if (numChains <=? 0) || (parentCount <=? 0) || (parentIndex <? 0) || (parentCount <=? parentIndex) then 0 else
  let size := Z.quot numChains parentCount in
  if parentIndex <? Z.rem numChains parentCount then size + 1 else size.

Record l2Result := mkL2Result { outputs : list UTXO; l2err : option err; accepted : bool }.

(** How a wait for funding, or what depends on one, ended. *)
Inductive outcome := Finished (r : option err) | Unfinished.

Section bootstrap.
Context `{Sdk} `{Prometheus} {D : Type} `{DurableStore D} {W : Type} `{World W}.

Abbreviation code := (prog (Engine (D:=D) (W:=W))).

(** [backoff.Sleep] *)
Definition Sleep (d : Z) : code (option err) :=
  c ← world (Select 2 (Some d));
  match c with O => world CtxErr | _ => Ret None end.

(** [broadcastWithRetry] from attempt number [attempt] on, with [tries] attempts left. *)
Fixpoint broadcastAttempts (tries : nat) (attempt : Z) (p : PendingBroadcast) : code (option err) :=
  match tries with
  | O => Ret None
  | S tries =>
      r ← savePending p;
      match r with
      | Some e => Ret (Some (Wrap "save pending" e))
      | None =>
          r ← broadcast p;
          match r with
          | None => Ret None
          | Some e =>
              clearPending (pTxID p);;
              match tries with
              | O => Ret (Some e)
              | S _ =>
                  rand ← world Rand;
                  r ← Sleep (Backoff.Retry rand attempt);
                  match r with
                  | Some e => Ret (Some e)
                  | None => broadcastAttempts tries (attempt + 1) p
                  end
              end
          end
      end
  end.

Definition broadcastWithRetry (p : PendingBroadcast) : code (option err) :=
  broadcastAttempts bootstrapAttempts 1 p.

Definition fanoutPending (tx : Tx) (parent : UTXO) (outs : list UTXO) (stage : string) : PendingBroadcast :=
  mkPending (TxID tx) (EF tx) [parent] outs stage 0.

(** The [fail] of [fanoutParent]. *)
Definition fanoutFail (parent : UTXO) (e : err) (requeue : bool) : code l2Result :=
  setState (fun s => with_bootstrapFailures (sBootstrapFailures s + 1) s);;
  (if requeue then queuePush parent else Ret tt);;
  Ret (mkL2Result [] (Some e) false).

Definition fanoutParent (parent : UTXO) (n : Z) : code l2Result :=
  mode ← currentMode;
  match BuildFanout parent n (Some mode) with
  | Err e => fanoutFail parent (Wrap "build fanout" e) true
  | Ok (tx, outs) =>
      let pending := fanoutPending tx parent outs StageL2Partial in
      r ← broadcastWithRetry pending;
      match r with
      | Some e => fanoutFail parent (Wrap "broadcast fanout" e) true
      | None =>
          r ← onQueue (Queue.commit (TxID tx) (pSpent pending) outs);
          match r with
          | Some e => fanoutFail parent (Wrap "commit fanout" e) false
          | None => recordBroadcastOk;; Ret (mkL2Result outs None true)
          end
      end
  end.

(** Its goroutine; a panic leaves the zero result. *)
Definition fanoutGoroutine (parent : UTXO) (n : Z) : code l2Result :=
  r ← goSafe "bootstrap_l2" (fun at_ => Safe.mayPanic at_ (fanoutParent parent n));
  Ret (default (mkL2Result [] None false) r).

(** The loop over the results: queue the outputs, count failures and outputs. *)
Fixpoint collectResults (results : list l2Result) (failed produced : Z) : code (Z * Z) :=
  match results with
  | [] => Ret (failed, produced)
  | r :: rest =>
      if accepted r
      then pushAll (outputs r);; collectResults rest failed (produced + Z.of_nat (length (outputs r)))
      else collectResults rest (failed + 1) produced
  end.

(** The failure exit of [bootstrapL2]. *)
Definition l2Incomplete (msg : string) : code (option err) :=
  setStateNow (fun t s => with_lastError "bootstrap_l2" (External msg) t (with_lifecycle LifecycleFailed s));;
  setBootstrapStage StageL2Partial;;
  Ret (Some (Wrap msg ErrBootstrapIncomplete)).

(** [bootstrapL2] once its goroutines are done. *)
Definition finishL2 (numChains : Z) (results : list l2Result) : code (option err) :=
  counts ← collectResults results 0 0;
  depth ← queueLen;
  metric (Metrics.SetQueueDepth depth);;
  let '(failed, produced) := counts in
  if 0 <? failed then l2Incomplete "L2 fanouts failed"
  else if negb (produced =? numChains) then l2Incomplete "unexpected number of L2 UTXOs"
  else setBootstrapStage StageL2Done;; Ret None.

Definition bootstrapL2 : code (option err) :=
  setBootstrapStage StageL2Partial;;
  parents ← onQueue Queue.drain;
  match parents with
  | [] => Ret (Some (Wrap "no L1 outputs to fan out" ErrNoUTXOs))
  | _ =>
      cfg ← bootstrapConfig;
      let numChains := bcNumChains cfg in
      let count := Z.of_nat (length parents) in
      if numChains <? count then
        pushAll parents;;
        Ret (Some (Wrap "too many L1 outputs" ErrManualRecovery))
      else
      results ← goAll (imap (fun i parent =>
        fanoutGoroutine parent (l2FanoutSizeForParent numChains count (Z.of_nat i))) parents);
      finishL2 numChains results
  end.

Definition bootstrapFull : code (option err) :=
  setBootstrapStage StageNone;;
  seed ← onQueue Queue.pop;
  match seed with
  | None => Ret (Some ErrNoUTXOs)
  | Some seed =>
      cfg ← bootstrapConfig;
      mode ← currentMode;
      match BuildFanout seed (ceilDiv (bcNumChains cfg) (bcFanoutSize cfg)) (Some mode) with
      | Err e => queuePush seed;; Ret (Some (Wrap "build L1 fanout" e))
      | Ok (tx, l1Outputs) =>
          let pending := fanoutPending tx seed l1Outputs StageL1Done in
          r ← broadcastWithRetry pending;
          match r with
          | Some e => queuePush seed;; Ret (Some (Wrap "broadcast L1 fanout" e))
          | None =>
              r ← onQueue (Queue.commit (TxID tx) (pSpent pending) l1Outputs);
              match r with
              | Some e => Ret (Some (Wrap "commit L1 fanout" e))
              | None =>
                  recordBroadcastOk;;
                  setBootstrapStage StageL1Done;;
                  pushAll l1Outputs;;
                  bootstrapL2
              end
          end
      end
  end.

Definition resumePartialL2 (queued numChains l1Count : Z) : code (option err) :=
  if numChains <=? queued then setBootstrapStage StageL2Done;; Ret None
  else if queued =? l1Count then bootstrapL2
  else if 0 <? queued then setBootstrapStage StageL2Done;; Ret None
  else Ret (Some (Wrap "empty queue; re-seed required" ErrManualRecovery)).

(** [for _, u := range utxos { e.queue.pushPersisted(u) }] *)
Fixpoint pushPersistedAll (us : list UTXO) : code (option err) :=
  match us with
  | [] => Ret None
  | u :: us' =>
      r ← onQueue (Queue.pushPersisted u);
      match r with Some e => Ret (Some (Wrap "persist funding UTXO" e)) | None => pushPersistedAll us' end
  end.

(** The poll loop of [waitForSeedUTXO]. *)
Fixpoint pollSeed (fuel : nat) (interval : Z) (scriptHash : string) : code outcome :=
  match fuel with
  | O => Ret Unfinished
  | S fuel =>
      let wait :=
        c ← world (Select 2 (Some interval));
        match c with
        | O => r ← world CtxErr; Ret (Finished r)
        | _ => pollSeed fuel interval scriptHash
        end in
      res ← world (FetchUTXOs scriptHash);
      match res with
      | Ok utxos =>
          setStateNow (fun t => with_woc t (String.append (pretty (Z.of_nat (length utxos))) " utxos"));;
          match utxos with
          | [] => wait
          | _ =>
              r ← pushPersistedAll utxos;
              match r with
              | Some e => Ret (Finished (Some e))
              | None =>
                  depth ← queueLen;
                  metric (Metrics.SetQueueDepth depth);;
                  Ret (Finished None)
              end
          end
      | Err e =>
          ctx ← world CtxErr;
          match ctx with
          | Some _ => r ← world CtxErr; Ret (Finished r)
          | None =>
              setStateNow (fun t s => with_lastError "woc" e t (with_woc t "error" s));;
              wait
          end
      end
  end.

Definition waitForSeedUTXO (fuel : nat) : code outcome :=
  src ← gets e_source;
  if negb src then Ret (Finished (Some ErrNoUTXOs)) else
  mode ← currentMode;
  interval ← gets e_seedInterval;
  pollSeed fuel interval (ModeScriptHash mode).

(** The [switch] of [bootstrap]. *)
Definition dispatch (stage : string) (queued : Z) (cfg : BootstrapConfig) : code (option err) :=
  let l1Count := ceilDiv (bcNumChains cfg) (bcFanoutSize cfg) in
  if bool_decide (stage = StageL2Done) then Ret None
  else if bool_decide (stage = StageL1Done) then bootstrapL2
  else if bool_decide (stage = StageL2Partial) then resumePartialL2 queued (bcNumChains cfg) l1Count
  else if bool_decide (stage = StageUnknown) then Ret (Some (Wrap "bootstrap stage" ErrManualRecovery))
  else if queued =? 1 then bootstrapFull
  else if queued =? l1Count then bootstrapL2
  else if 0 <? queued then setBootstrapStage StageL2Done;; Ret None
  else Ret (Some ErrNoUTXOs).

(** Fix the parameters, then act on the stage. *)
Definition lockAndDispatch (stage : string) (queued : Z) : code outcome :=
  cfg ← act (fun e => (bootstrapConfigLocked e, set_bootstrapLocked true e));
  r ← dispatch stage queued cfg;
  Ret (Finished r).

Definition bootstrap (fuel : nat) : code outcome :=
  queued ← queueLen;
  modify (fun e => set_state (with_chainsTarget (e_numChains e)
    (with_lifecycle LifecycleBootstrapping (e_state e))) e);;
  s ← Snapshot;
  let stage := sBootstrapStage s in
  if bool_decide (stage = StageNone) && (queued =? 0) then
    r ← waitForSeedUTXO fuel;
    match r with
    | Finished None => queued ← queueLen; lockAndDispatch stage queued
    | _ => Ret r
    end
  else lockAndDispatch stage queued.

(** [Run], without the [trackTPS] goroutine it starts and stops. *)
Definition Run (fuel wfuel cfuel : nat) : code outcome :=
  r ← bootstrap fuel;
  match r with
  | Unfinished => Ret Unfinished
  | Finished (Some e) =>
      ctx ← world CtxErr;
      match ctx with
      | Some _ => setState (with_lifecycle LifecycleStopped)
      | None => setStateNow (fun t s => with_lastError "bootstrap" e t (with_lifecycle LifecycleFailed s))
      end;;
      modify (set_acceptedTPS 0);;
      Ret (Finished (Some e))
  | Finished None =>
      runChains wfuel cfuel;;
      modify (set_acceptedTPS 0);;
      Ret (Finished None)
  end.
End bootstrap.

(** ** Resuming *)

Section resume.
Context `{Sdk} `{Prometheus} {D : Type} `{DurableStore D} {W : Type} `{World W}.

Abbreviation E := (Engine (D:=D) (W:=W)).

(** Neither the queue nor what was broadcast changes. *)
Definition untouched (e e' : E) : Prop :=
  Queue.heap (e_queue e') = Queue.heap (e_queue e) /\ e_log e' = e_log e.

Lemma setBootstrapStage_run stage (e : E) :
  exists e', run (setBootstrapStage stage) e = (tt, e') /\ untouched e e' /\ sBootstrapStage (e_state e') = stage.
Proof.
  unfold setBootstrapStage, storeOp, onQueue, Queue.with_store. simpl.
  destruct (Queue.store (e_queue e)) as [d|]; [|eexists; by split_and!].
  destruct (ds_SetMeta MetaBootstrapStage stage d) as [r d']. eexists. by split_and!.
Qed.

(** [bootstrap] of an engine that has a stage goes straight to its dispatch. *)
Lemma bootstrap_dispatches fuel (e : E) : sBootstrapStage (e_state e) <> StageNone ->
  exists e1, untouched e e1 /\ run (bootstrap fuel) e =
    let '(r, e') := run (dispatch (sBootstrapStage (e_state e)) (Queue.len (e_queue e))
                           (mkBootstrapConfig (e_numChains e) (e_fanoutSize e) (SustainFee (e_mode e)))) e1
    in (Finished r, e').
Proof.
  intros Hst. unfold bootstrap, Snapshot, queueLen. simpl. rewrite bool_decide_eq_false_2 by done. simpl.
  eexists. split; [|unfold mbind, prog_bind; rewrite run_bind; unfold bootstrapConfigLocked; reflexivity]. done.
Qed.

(** An engine that stopped in the middle of its L2 fanout may declare it
    complete: restarted at stage [l2_partial] with some UTXOs, fewer than the
    chains and not as many as the L1 outputs, bootstrap broadcasts nothing,
    marks the stage [l2_done] and succeeds, so the chains start with too few. *)
Theorem partial_l2_starts_chains fuel (e : E) :
  sBootstrapStage (e_state e) = StageL2Partial ->
  0 < Queue.len (e_queue e) < e_numChains e ->
  Queue.len (e_queue e) <> ceilDiv (e_numChains e) (e_fanoutSize e) ->
  exists e', run (bootstrap fuel) e = (Finished None, e') /\ untouched e e' /\
    sBootstrapStage (e_state e') = StageL2Done.
Proof.
  intros Hst Hlen Hne. destruct (bootstrap_dispatches fuel e) as (e1 & Hu & ->); [by rewrite Hst|].
  rewrite Hst. unfold dispatch. simpl. unfold resumePartialL2.
  replace (e_numChains e <=? Queue.len (e_queue e)) with false by lia.
  rewrite (proj2 (Z.eqb_neq _ _) Hne), (proj2 (Z.ltb_lt _ _) (proj1 Hlen)).
  unfold mbind, prog_bind. rewrite run_bind. destruct (setBootstrapStage_run StageL2Done e1) as (e' & -> & Hu' & Hs).
  exists e'. split; [done|]. split; [|done]. destruct Hu, Hu'. split; congruence.
Qed.

(** An engine whose state needs reconciling starts nothing: at stage
    [unknown] bootstrap fails with a demand for manual recovery and broadcasts
    nothing, and [Run] starts no chain. *)
Theorem unknown_stage_starts_nothing fuel wfuel cfuel (e : E) :
  sBootstrapStage (e_state e) = StageUnknown ->
  exists x e', run (Run fuel wfuel cfuel) e = (Finished (Some x), e') /\
    errors_is x ErrManualRecovery = true /\ untouched e e' /\
    (sLifecycle (e_state e') = LifecycleFailed \/ sLifecycle (e_state e') = LifecycleStopped).
Proof.
  intros Hst. destruct (bootstrap_dispatches fuel e) as (e1 & Hu & Hb); [by rewrite Hst|].
  rewrite Hst in Hb. change (run (dispatch StageUnknown _ _) e1)
    with (Some (Wrap "bootstrap stage" ErrManualRecovery), e1) in Hb.
  unfold Run, mbind, prog_bind. rewrite run_bind, Hb. simpl. destruct (CtxErr (e_world e1)) as [[x|] w].
  - eexists _, _. split; [done|]. split; [done|]. split; [done|by right].
  - simpl. destruct (Now w) as [t w']. eexists _, _. split; [done|]. split; [done|]. split; [done|by left].
Qed.
End resume.

(** ** Sizes *)

Lemma ceilDiv_value n d : 0 <= n -> 0 < d -> n + d < two63 -> ceilDiv n d = (n + d - 1) / d.
Proof.
  intros Hn Hd Hmax. unfold ceilDiv. replace (d <=? 0) with false by lia.
  rewrite (i64_small (n + d)) by (unfold is_i64, two63 in *; lia).
  rewrite i64_small by (unfold is_i64, two63 in *; lia).
  apply Z.quot_div_nonneg; lia.
Qed.

(** The size of one parent's fanout, without the guards. *)
Lemma l2size_value numChains count i : 0 < count <= numChains -> 0 <= i < count ->
  l2FanoutSizeForParent numChains count i =
  numChains / count + (if i <? numChains mod count then 1 else 0).
Proof.
  intros Hc Hi. unfold l2FanoutSizeForParent.
  replace (numChains <=? 0) with false by lia. replace (count <=? 0) with false by lia.
  replace (i <? 0) with false by lia. replace (count <=? i) with false by lia. cbn [orb].
  rewrite Z.quot_div_nonneg, Z.rem_mod_nonneg by lia. case_if; lia.
Qed.

Lemma Zsum_seq_step k q r : 0 <= r ->
  Zsum ((fun i => q + (if Z.of_nat i <? r then 1 else 0)) <$> seq 0 k) = Z.of_nat k * q + Z.min (Z.of_nat k) r.
Proof.
  intros Hr. induction k as [|k IH]; [simpl; lia|].
  rewrite seq_S, fmap_app, Zsum_app, IH. simpl. destruct (Z.ltb_spec (Z.of_nat k) r); lia.
Qed.

(** The fanout sizes of [count] parents. *)
Definition l2Sizes (numChains count : Z) : list Z :=
  (fun i => l2FanoutSizeForParent numChains count (Z.of_nat i)) <$> seq 0 (Z.to_nat count).

Lemma l2Sizes_sum numChains count : 0 < count <= numChains -> Zsum (l2Sizes numChains count) = numChains.
Proof.
  intros Hc. unfold l2Sizes.
  rewrite (list_fmap_ext _ (fun i => numChains / count + (if Z.of_nat i <? numChains mod count then 1 else 0))).
  - pose proof (Z.mod_pos_bound numChains count). rewrite Zsum_seq_step by lia. rewrite Z2Nat.id by lia.
    rewrite Z.min_r by lia. pose proof (Z.div_mod numChains count). lia.
  - intros i x Hi. apply l2size_value; [done|]. apply list_elem_of_lookup_2, elem_of_seq in Hi. lia.
Qed.

(** The L2 fanouts together create exactly the chains asked for: the sizes of
    the parents' fanouts add up to the number of chains, each is at least one,
    two differ by at most one, and, when there is one parent per [fanoutSize]
    chains as the L1 fanout makes them, none exceeds [fanoutSize]. *)
Theorem l2Sizes_partition numChains count :
  0 < count <= numChains ->
  Zsum (l2Sizes numChains count) = numChains /\
  (forall x y, x ∈ l2Sizes numChains count -> y ∈ l2Sizes numChains count -> 1 <= x /\ x <= y + 1) /\
  (forall fanoutSize, 0 < fanoutSize -> numChains + fanoutSize < two63 ->
     count = ceilDiv numChains fanoutSize -> forall x, x ∈ l2Sizes numChains count -> x <= fanoutSize).
Proof.
  intros Hc. split; [by apply l2Sizes_sum|].
  assert (forall x, x ∈ l2Sizes numChains count -> numChains / count <= x /\
    x <= numChains / count + (if 0 <? numChains mod count then 1 else 0)) as Hx.
  { intros x (i & -> & Hi%elem_of_seq)%list_elem_of_fmap. rewrite l2size_value by lia.
    destruct (Z.ltb_spec (Z.of_nat i) (numChains mod count)), (Z.ltb_spec 0 (numChains mod count)); lia. }
  assert (1 <= numChains / count) by (apply Z.div_le_lower_bound; lia).
  split.
  - intros x y Hxi Hyi. apply Hx in Hxi, Hyi. destruct (0 <? numChains mod count); lia.
  - intros f Hf Hmax Hcount x Hxi. apply Hx in Hxi as [_ Hxi]. rewrite ceilDiv_value in Hcount by lia.
    assert (numChains <= count * f) by (subst count; Z.div_mod_to_equations; nia).
    destruct (Z.ltb_spec 0 (numChains mod count)).
    + assert (numChains / count < f); [|lia]. apply Z.div_lt_upper_bound; [lia|].
      destruct (Z.eq_dec numChains (count * f)) as [Heq|]; [|lia].
      rewrite Heq, Z.mul_comm, Z.mod_mul in *; lia.
    + assert (numChains / count <= f); [|lia]. apply Z.div_le_upper_bound; lia.
Qed.

(** The number of L1 outputs is the least number of fanouts of at most
    [fanoutSize] outputs that cover the chains, as long as [n + d] fits an [int]. *)
Theorem ceilDiv_spec n d :
  0 <= n -> 0 < d -> n + d < two63 ->
  n <= ceilDiv n d * d /\ forall k, n <= k * d -> ceilDiv n d <= k.
Proof.
  intros Hn Hd Hmax. rewrite ceilDiv_value by done. split; [Z.div_mod_to_equations; nia|].
  intros k Hk. apply Z.lt_succ_r, Z.div_lt_upper_bound; nia.
Qed.

(** Beyond that it overflows: a fanout size accepted by the engine, such as
    the largest [int], makes the number of L1 outputs zero, so the L1 fanout of a
    funded engine is refused. *)
Theorem ceilDiv_overflow :
  ceilDiv 10 (two63 - 1) = 0 /\
  forall `{Sdk} (u : UTXO) (m : Mode), BuildFanout u (ceilDiv 10 (two63 - 1)) (Some m) = Err ErrInvalidFanoutCount.
Proof. split; [reflexivity|]. intros. reflexivity. Qed.

Lemma l2Sizes_partition_witness : Zsum (l2Sizes 10 3) = 10 /\ l2Sizes 10 3 = [4; 3; 3].
Proof. split; [apply (l2Sizes_partition 10 3); lia|reflexivity]. Defined.

Lemma ceilDiv_spec_witness : ceilDiv 10000 100 = 100 /\ 10000 <= ceilDiv 10000 100 * 100.
Proof. split; [reflexivity|]. apply (ceilDiv_spec 10000 100); unfold two63; lia. Defined.

(** ** The lanes of the L2 fanouts *)

Section fan_lanes.
Context `{SdkLaws} `{!TxidLaws} (stage : string) (m : Mode).

(** The fanout of [parent] into [n] outputs, to reach [stage]: one transition, or
    none when it cannot be built. *)
Definition fanRecord (parent : UTXO) (n : Z) : option PendingBroadcast :=
  match BuildFanout parent n (Some m) with
  | Ok (tx, outs) => Some (fanoutPending tx parent outs stage)
  | Err _ => None
  end.

Definition fan_lane (parent : UTXO) (n : Z) : lane := {|
  ln_key k := k = keyOf parent \/ exists r u, fanRecord parent n = Some r /\ u ∈ pCreated r /\ k = keyOf u;
  ln_txid x := exists r, fanRecord parent n = Some r /\ x = pTxID r;
  ln_queue u := u = parent;
  ln_start := {[ keyOf parent := parent ]};
  ln_rec i := match i with O => fanRecord parent n | S _ => None end;
|}.

(** Distinct outputs, none of which is an output of another's fanout: they are
    unspent outputs of an acyclic ledger. *)
Record parents_independent (ps : list UTXO) : Prop := {
  parents_NoDup : NoDup ps;
  parents_distinct p p' : p ∈ ps -> p' ∈ ps -> spentOutpoint p = spentOutpoint p' -> p = p';
  parents_acyclic p p' n tx outs : p ∈ ps -> p' ∈ ps -> BuildFanout p n (Some m) = Ok (tx, outs) ->
    NewHashFromHex (TxHash p') <> NewHashFromHex (TxID tx);
}.

Lemma fanRecord_Some p n r : fanRecord p n = Some r ->
  exists tx outs, BuildFanout p n (Some m) = Ok (tx, outs) /\ r = fanoutPending tx p outs stage /\
    links p tx outs.
Proof using H0.
  unfold fanRecord. destruct (BuildFanout p n (Some m)) as [[tx outs]|] eqn:Hb; [|done].
  intros [= <-]. exists tx, outs. split_and!; [done|done|]. by eapply BuildFanout_links.
Qed.

Lemma fan_lane_wf p n : lane_wf (fan_lane p n).
Proof using All.
  split; simpl.
  - intros [|i] r Hr; [|done]. split; [by exists r|].
    apply fanRecord_Some in Hr as (tx & outs & _ & -> & (t & h & Ht & _)). simpl. rewrite <- Ht. apply txid_nonempty.
  - intros [|i] r u Hr Hu; [|done]. apply elem_of_app in Hu as [Hu|Hu].
    + apply fanRecord_Some in Hr as (tx & outs & _ & -> & _). simpl in Hu.
      apply list_elem_of_singleton in Hu as ->. by left.
    + right. by exists r, u.
  - by intros [|i] [|j].
Qed.

(** Two fanouts with one id are of one parent. *)
Lemma fan_txid_inj ps p p' n n' r r' : parents_independent ps -> p ∈ ps -> p' ∈ ps ->
  fanRecord p n = Some r -> fanRecord p' n' = Some r' -> pTxID r = pTxID r' -> p = p'.
Proof using All.
  intros Hind Hp Hp' (tx & outs & _ & -> & (t & h & Ht & Hh & Hs & _))%fanRecord_Some
    (tx' & outs' & _ & -> & (t' & h' & Ht' & Hh' & Hs' & _))%fanRecord_Some Heq. simpl in Heq.
  apply (parents_distinct ps Hind); [done..|]. unfold spentOutpoint. rewrite Hh, Hh'.
  assert ((h, TxPos p) = (h', TxPos p')) as [= -> ->]; [|done].
  apply (txid_binds_input t t'); [done|done|]. by rewrite Ht, Ht'.
Qed.

(** An output carries its transaction's id. *)
Lemma fan_output_hash p n r u : fanRecord p n = Some r -> u ∈ pCreated r -> TxHash u = pTxID r.
Proof using H0.
  intros (tx & outs & _ & -> & (t & h & _ & _ & _ & Hall))%fanRecord_Some Hu.
  rewrite Forall_forall in Hall. by apply Hall.
Qed.

Lemma fan_lanes_disjoint ps p p' n n' : parents_independent ps -> p ∈ ps -> p' ∈ ps -> p <> p' ->
  lanes_disjoint (fan_lane p n) (fan_lane p' n').
Proof using All.
  intros Hind Hp Hp' Hne.
  assert (forall p p' n r u, p ∈ ps -> p' ∈ ps -> fanRecord p n = Some r -> u ∈ pCreated r -> keyOf p' <> keyOf u) as Hpo.
  { clear p p' n n' Hp Hp' Hne. intros p p' n r u Hp Hp' Hr Hu [= Hh _]%keyOf_outpoint.
    rewrite (fan_output_hash p n r u Hr Hu) in Hh. apply fanRecord_Some in Hr as (tx & outs & Hb & -> & _).
    apply (parents_acyclic ps Hind p p' n tx outs Hp Hp' Hb). by rewrite Hh. }
  split_and!; simpl.
  - intros k [->|(r & u & Hr & Hu & ->)] [Hk|(r' & u' & Hr' & Hu' & Hk)].
    + apply Hne, (parents_distinct ps Hind); [done..|]. by apply key_outpoint.
    + by eapply (Hpo p' p).
    + by eapply (Hpo p p'); [..|symmetry].
    + apply keyOf_outpoint in Hk. injection Hk as Hh _. apply Hne.
      apply (fan_txid_inj ps p p' n n' r r'); try done.
      by rewrite <- (fan_output_hash _ _ _ _ Hr Hu), <- (fan_output_hash _ _ _ _ Hr' Hu').
  - intros x (r & Hr & ->) (r' & Hr' & Heq). apply Hne. by apply (fan_txid_inj ps p p' n n' r r').
  - intros u -> Heq. by apply Hne.
Qed.
End fan_lanes.

(** ** The fanouts under interference *)

Section fan_rules.
Context `{SdkLaws} `{!TxidLaws} `{Prometheus} {D : Type} `{DurableStoreLaws D} {W : Type} `{World W}.

Abbreviation E := (Engine (D:=D) (W:=W)).
Abbreviation code := (prog E).
Abbreviation lane_rg l p Q e := (rg (rely l) (guar l) p Q e).

Lemma all_calm_sleep d : all_calm (Sleep d : code (option err)).
Proof. apply all_calm_bind; [apply all_calm_world|intros [|c]]; [apply all_calm_world|done]. Qed.

#[local] Hint Resolve all_calm_sleep : calm.

(** A broadcast that succeeds was accepted and is still recorded; one that fails
    was not accepted. *)
Lemma broadcastAttempts_rule l m n p tries attempt h (e : E) :
  lane_wf l -> ln_rec l n = Some p -> here l m n false h e ->
  lane_rg l (broadcastAttempts (S tries) attempt p) (fun r e' =>
    match r with None => here l m n true Held e' | Some _ => exists h, here l m n false h e' end) e.
Proof.
  intros Hl Hrec. revert attempt h e. induction tries as [|tries IH]; intros attempt h e He;
    cbn [broadcastAttempts]; (apply lane_bind; eapply rg_mono; [|by apply lane_save]);
    (intros [x|] e1 He1; cbv beta iota in He1 |- *; [intros e2 HR; exists h; by eapply here_rely|]);
    (apply lane_bind; eapply rg_mono; [|by apply lane_broadcast]);
    (intros [x|] e2 He2; [rewrite bool_decide_eq_false_2 in He2 by done|rewrite bool_decide_eq_true_2 in He2 by done;
       intros e3 HR; by eapply here_rely]);
    (apply lane_bind; eapply rg_mono; [|exact (lane_clear _ Hl m n p Hrec _ _ He2)]); intros ? e3 He3.
  - intros e4 HR. exists Unsure. by eapply here_rely.
  - lane_skip. intros rand e4 He4.
    lane_skip.
    intros [x'|] e5 He5; [intros e6 HR; exists Unsure; by eapply here_rely|]. eapply IH. exact He5.
Qed.

Section one_fanout.
Context (m : Mode) (p : UTXO) (n : Z).

Let l := fan_lane StageL2Partial m p n.
Let Hl : lane_wf l := fan_lane_wf StageL2Partial m p n.

(** What a fanout's result tells. *)
Definition fan_done (r : l2Result) (e : E) : Prop :=
  if accepted r
  then (exists tx, BuildFanout p n (Some m) = Ok (tx, outputs r)) /\ here l m 1 false Clear e
  else outputs r = [].

Lemma fanoutFail_rule x requeue (e : E) : lane_rg l (fanoutFail p x requeue) fan_done e.
Proof using All.
  apply lane_bind. eapply rg_mono; [|apply (lane_calm_stable _ (fun _ => True)); [apply Hl|done|apply all_calm_setState|done]].
  intros ? e1 _. apply lane_bind.
  destruct requeue; [eapply rg_mono; [|by apply (lane_push l Hl)]|intros e2 _]; [intros ? e2 _|]; by intros e3 _.
Qed.

Lemma fanoutParent_rule (e : E) : here l m 0 false Clear e -> lane_rg l (fanoutParent p n) fan_done e.
Proof using All.
  intros He. lane_step ltac:(by apply (lane_mode l Hl)).
  intros m' e1 [-> He1]. cbv beta iota zeta.
  destruct (BuildFanout p n (Some m)) as [[tx outs]|x] eqn:Hb; [|apply fanoutFail_rule].
  set (r := fanoutPending tx p outs StageL2Partial).
  assert (ln_rec l 0 = Some r) as Hrec by (simpl; unfold fanRecord; by rewrite Hb).
  apply lane_bind. eapply rg_mono; [|eapply broadcastAttempts_rule; [apply Hl|exact Hrec|exact He1]].
  intros [x|] e2 He2; [apply fanoutFail_rule|].
  lane_step ltac:(exact (lane_commit _ Hl m 0 r Hrec _ He2)).
  intros [x|] e3 He3; [apply fanoutFail_rule|].
  lane_skip.
  intros ? e4 He4 e5 HR. split; [by exists tx|]. eapply here_rely; [apply Hl|exact HR|exact He4].
Qed.

(** Its goroutine; when it panics the result is that of a failure. *)
Lemma fanoutGoroutine_rule (e : E) : here l m 0 false Clear e -> lane_rg l (fanoutGoroutine p n) fan_done e.
Proof using All.
  intros He. assert (forall r (e1 e2 : E), rely l e1 e2 -> fan_done r e1 -> fan_done r e2) as Hst.
  { intros r e1 e2 HR. unfold fan_done. destruct (accepted r); [|done]. intros [Htx Hh]. split; [done|]. by eapply here_rely. }
  apply lane_bind. eapply rg_mono; [|apply (goSafe_rule l m 0 Clear); [done|done|exact Hst|]].
  - intros [r|] e1 Hr e2 HR; [|done]. eapply Hst; [exact HR|]. by apply Hr.
  - intros at_ e1 He1. by apply Safe.rg_mayPanic, fanoutParent_rule.
Qed.
End one_fanout.

(** *** Ready for the L2 fanout *)

(** Every queued UTXO is a stored tip, and nothing of its fanout exists yet. *)
Record l2_ready (m : Mode) (e : E) : Prop := {
  l2_durable : durable e;
  l2_mode : e_mode e = m;
  l2_parents : parents_independent m (queued e);
  l2_tips p : p ∈ queued e -> tips e !! keyOf p = Some p;
  l2_fresh p n r : p ∈ queued e -> fanRecord StageL2Partial m p n = Some r ->
    (forall u, u ∈ pCreated r -> tips e !! keyOf u = None) /\ pendings e !! pTxID r = None /\ (r, true) ∉ e_log e;
}.

Lemma l2_lane_at m (e : E) p n : l2_ready m e -> p ∈ queued e ->
  lane_at (fan_lane StageL2Partial m p n) 0 false Clear e.
Proof.
  intros [Hd Hm Hind Ht Hf] Hp. split_and!; [done|..|done].
  - intros k [->|(r & u & Hr & Hu & ->)]; simpl; [rewrite lookup_singleton_eq; by apply Ht|].
    destruct (Hf p n r Hp Hr) as [Hnone _]. rewrite (Hnone u Hu), lookup_singleton_ne; [done|].
    intros [= Hh _]%keyOf_outpoint. rewrite (fan_output_hash StageL2Partial m p n r u Hr Hu) in Hh.
    apply fanRecord_Some in Hr as (tx & outs & Hb & -> & _).
    apply (parents_acyclic m _ Hind p p n tx outs Hp Hp Hb). by rewrite Hh.
  - intros [|i] r Hr; [|done]. split; [|lia]. intros Hin. by apply (Hf p n r Hp Hr) in Hin.
  - intros x (r & Hr & ->). by apply (Hf p n r Hp Hr).
Qed.

Lemma l2_here m (e e' : E) p n : l2_ready m e -> p ∈ queued e ->
  quiet e e' -> queued e' = [] -> here (fan_lane StageL2Partial m p n) m 0 false Clear e'.
Proof.
  intros Hr Hp Hq Hempty. pose proof (l2_durable m e Hr) as Hd. destruct (Hq Hd) as (Hd' & Hm' & _).
  split; [done|]. split; [rewrite Hm'; by apply l2_mode|].
  split; [|intros u _; rewrite Hempty; apply not_elem_of_nil].
  apply (lane_at_quiet _ _ _ _ e); [done|done|by apply l2_lane_at].
Qed.

(** The goroutines of the L2 fanout, each with its lane. *)
Definition l2_size (numChains : Z) (ps : list UTXO) (i : nat) : Z :=
  l2FanoutSizeForParent numChains (Z.of_nat (length ps)) (Z.of_nat i).

Definition fan_lanes (m : Mode) (numChains : Z) (ps : list UTXO) : list lane :=
  imap (fun i p => fan_lane StageL2Partial m p (l2_size numChains ps i)) ps.

Definition fan_goroutines (numChains : Z) (ps : list UTXO) : list (code l2Result) :=
  imap (fun i p => fanoutGoroutine p (l2_size numChains ps i)) ps.

Lemma fan_lanes_Some m numChains ps i l : fan_lanes m numChains ps !! i = Some l ->
  exists p, ps !! i = Some p /\ l = fan_lane StageL2Partial m p (l2_size numChains ps i).
Proof.
  unfold fan_lanes. rewrite list_lookup_imap. destruct (ps !! i) as [p|]; [|done]. intros [= <-]. by exists p.
Qed.

Lemma fan_lanes_elem m numChains ps l : l ∈ fan_lanes m numChains ps <->
  exists i p, ps !! i = Some p /\ l = fan_lane StageL2Partial m p (l2_size numChains ps i).
Proof.
  split.
  - intros [i (p & Hp & ->)%fan_lanes_Some]%list_elem_of_lookup. by exists i, p.
  - intros (i & p & Hp & ->). apply (list_elem_of_lookup_2 _ i). unfold fan_lanes. by rewrite list_lookup_imap, Hp.
Qed.

Lemma fan_lanes_wf m numChains qs ps : parents_independent m qs -> ps ≡ₚ qs -> lanes_wf (fan_lanes m numChains ps).
Proof.
  intros Hind Hps. assert (forall i p, ps !! i = Some p -> p ∈ qs) as Hin.
  { intros i p Hi. rewrite <- Hps. by eapply list_elem_of_lookup_2. }
  assert (NoDup ps) as Hnd by (rewrite Hps; apply Hind). split.
  - intros i l (p & _ & ->)%fan_lanes_Some. apply fan_lane_wf.
  - intros i j l l' (p & Hp & ->)%fan_lanes_Some (p' & Hp' & ->)%fan_lanes_Some Hne.
    apply (fan_lanes_disjoint StageL2Partial m qs); [done|by eapply Hin..|].
    intros ->. apply Hne. by eapply NoDup_lookup.
Qed.

Lemma fan_par m numChains ps sched (e0 e : E) :
  l2_ready m e0 -> ps ≡ₚ queued e0 -> quiet e0 e -> queued e = [] ->
  rg calm (lanes_step (fan_lanes m numChains ps)) (par sched (fan_goroutines numChains ps))
    (fun rs e' => length rs = length ps /\ forall i r p, rs !! i = Some r -> ps !! i = Some p ->
       fan_done m p (l2_size numChains ps i) r e') e.
Proof.
  intros Hr Hps Hq Hempty. pose proof (l2_parents m e0 Hr) as Hind.
  eapply rg_mono; [|apply (lanes_par (fan_lanes m numChains ps) (fan_goroutines numChains ps)
    (fun i r e' => forall p, ps !! i = Some p -> fan_done m p (l2_size numChains ps i) r e'))].
  - intros rs e' [Hlen HQ]. unfold fan_goroutines in Hlen. rewrite length_imap in Hlen.
    split; [done|]. intros i r p Hi Hp. by apply (HQ i).
  - unfold fan_lanes, fan_goroutines. by rewrite !length_imap.
  - by eapply fan_lanes_wf.
  - intros i l g (p & Hp & ->)%fan_lanes_Some Hg. unfold fan_goroutines in Hg. rewrite list_lookup_imap, Hp in Hg.
    injection Hg as <-. eapply rg_mono; [|apply fanoutGoroutine_rule; eapply l2_here; [exact Hr| |done|done]].
    + intros r e' Hdone p' Hp'. rewrite Hp in Hp'. by injection Hp' as <-.
    + rewrite <- Hps. by eapply list_elem_of_lookup_2.
Qed.
End fan_rules.

(** ** The L2 fanout as a whole *)

(** What the accepted fanouts created, and how many were not accepted. *)
Definition l2_outputs (rs : list l2Result) : list UTXO :=
  concat ((fun r => if accepted r then outputs r else []) <$> rs).

Definition l2_failed (rs : list l2Result) : Z := Zsum ((fun r => if accepted r then 0 else 1) <$> rs).

Lemma l2_failed_cons r rs : l2_failed (r :: rs) = (if accepted r then 0 else 1) + l2_failed rs.
Proof. done. Qed.

Lemma l2_failed_nonneg rs : 0 <= l2_failed rs.
Proof. induction rs as [|r rs IH]; [done|]. rewrite l2_failed_cons. destruct (accepted r); lia. Qed.

Lemma l2_failed_none rs : l2_failed rs <= 0 -> forall r, r ∈ rs -> accepted r = true.
Proof.
  induction rs as [|a rs IH]; intros Hf r Hr; [by apply elem_of_nil in Hr|].
  pose proof (l2_failed_nonneg rs). rewrite l2_failed_cons in Hf.
  destruct (accepted a) eqn:Ha; [|lia]. apply elem_of_cons in Hr as [->|Hr]; [done|]. apply IH; [lia|done].
Qed.

Section l2.
Context `{SdkLaws} `{!TxidLaws} `{Prometheus} {D : Type} `{DurableStoreLaws D} {W : Type} `{World W}.

Abbreviation E := (Engine (D:=D) (W:=W)).
Abbreviation code := (prog E).

(** [I] holds after every action of [p], whatever others do beside it. *)
Abbreviation under I p Q e := (rg aside (fun _ e' => I e') p Q e).

Lemma under_mono {A} (I I' : E -> Prop) (p : code A) (Q Q' : A -> E -> Prop) e :
  (forall e, I e -> I' e) -> (forall a e, Q a e -> Q' a e) -> under I p Q e -> under I' p Q' e.
Proof. intros HI HQ Hp. eapply rg_weaken; [|eapply rg_mono; [exact HQ|exact Hp]]. auto. Qed.

Lemma under_act {A B} (I : E -> Prop) (f : E -> B * E) (g : B -> code A) Q e :
  (forall e', aside e e' -> I (f e').2 /\ under I (g (f e').1) Q (f e').2) -> under I (act f ≫= g) Q e.
Proof. done. Qed.

Lemma pushAll_spec us q (e0 e : E) : durable e0 -> quiet e0 e -> queued e ≡ₚ q ->
  under (quiet e0) (pushAll us) (fun _ e' => quiet e0 e' /\ queued e' ≡ₚ us ++ q) e.
Proof.
  intros Hd. revert q e. induction us as [|u us IH]; intros q e Hq Hp.
  { intros e' ((Hc & Hh & _) & _). split; [by eapply quiet_trans|]. by rewrite Hh. }
  cbn [pushAll]. apply under_act. intros e1 ((Hc & Hh & _) & _). cbn [fst snd].
  assert (quiet e0 e1) as Hq1 by (by eapply quiet_trans). destruct (Hq1 Hd) as (Hd1 & _).
  assert (quiet e0 (set_queue (Queue.push u (e_queue e1)) e1)) as Hq2 by (eapply quiet_trans; [exact Hq1|apply quiet_push]).
  split; [done|]. eapply under_mono; [..|apply (IH (u :: q)); [done|]]; [done| |].
  - intros _ e' [Hq' Hp']. split; [done|]. rewrite Hp'. by rewrite <- Permutation_middle.
  - pose proof (Queue.push_heap u (e_queue e1) (proj1 Hd1)) as Hpush. unfold queued in *. simpl. by rewrite Hpush, Hh, Hp.
Qed.

(** What holds whatever others do holds of a program that runs alone. *)
Lemma under_alone {A} (I : E -> Prop) (p : code A) Q e : I e -> under I p Q e -> wpi I p Q e.
Proof.
  intros HI Hp. apply (rg_wpi _ aside); [apply aside_refl|done|]. eapply rg_weaken; [|exact Hp]. by intros e1 e2 He2 _.
Qed.

Lemma collectResults_spec rs failed produced q (e0 e : E) : durable e0 -> quiet e0 e -> queued e ≡ₚ q ->
  under (quiet e0) (collectResults rs failed produced)
    (fun c e' => (quiet e0 e' /\ queued e' ≡ₚ l2_outputs rs ++ q) /\
       c = (failed + l2_failed rs, produced + Z.of_nat (length (l2_outputs rs)))) e.
Proof.
  intros Hd. revert failed produced q e. induction rs as [|r rs IH]; intros failed produced q e Hq Hp.
  { intros e' ((Hc & Hh & _) & _). split; [split; [by eapply quiet_trans|by rewrite Hh]|].
    unfold l2_failed. simpl. f_equal; lia. }
  cbn [collectResults]. unfold l2_outputs, l2_failed. cbn [fmap list_fmap concat Zsum].
  fold (l2_outputs rs) (l2_failed rs).
  destruct (accepted r).
  - apply aside_bind. eapply under_mono; [..|by apply (pushAll_spec _ q e0)]; [done|].
    intros _ e1 [Hq1 Hp1]. eapply under_mono; [..|by apply (IH _ _ (outputs r ++ q))]; [done|].
    intros c e' ([Hq' Hp'] & ->). split; [split; [done|]|].
    + rewrite Hp'. by rewrite (assoc_L (++)), (comm (++) (l2_outputs rs)), <- (assoc_L (++)).
    + rewrite length_app. f_equal; lia.
  - eapply under_mono; [..|by apply (IH _ _ q)]; [done|].
    intros c e' (Hqp & ->). split; [done|]. simpl. f_equal; lia.
Qed.

Lemma under_stage (P I : E -> Prop) stage (e : E) :
  (forall e1 e2, calm e1 e2 -> P e1 -> P e2) -> (forall e, P e -> I e) -> P e ->
  under I (setBootstrapStage stage) (fun _ e' => P e' /\ sBootstrapStage (e_state e') = stage /\
    (sLifecycle (e_state e) = LifecycleFailed -> sLifecycle (e_state e') = LifecycleFailed)) e.
Proof.
  intros HP HI He. set (F := fun e' : E => sLifecycle (e_state e) = LifecycleFailed -> sLifecycle (e_state e') = LifecycleFailed).
  assert (forall e1 e2 : E, aside e1 e2 -> P e1 /\ F e1 -> P e2 /\ F e2) as Hst.
  { intros e1 e2 (Hc & _ & _ & Hf) [Hp1 Hf1]. split; [by eapply HP|]. intros Hl. by apply Hf, Hf1. }
  unfold setBootstrapStage. apply under_act. intros e1 Ha. cbn [fst snd].
  destruct (Hst e e1 Ha (conj He (fun H => H))) as [Hp1 Hf1].
  set (e1' := set_state _ e1). assert (P e1') as Hp1' by (eapply HP, Hp1; apply (all_calm_setState (with_stage stage))).
  split; [by apply HI|]. apply under_act. intros e2 Ha2. cbn [fst snd].
  destruct (Hst e1' e2 Ha2 (conj Hp1' Hf1)) as [Hp2 Hf2].
  set (e2' := set_metrics _ e2). assert (P e2') as Hp2' by (eapply HP, Hp2; apply (all_calm_metric (Metrics.SetBootstrapStage stage))).
  split; [by apply HI|]. apply under_act. intros e3 Ha3.
  destruct (Hst e2' e3 Ha3 (conj Hp2' Hf2)) as [Hp3 Hf3].
  assert (sBootstrapStage (e_state e3) = stage) as Hs.
  { destruct Ha2 as (_ & _ & Hs2 & _), Ha3 as (_ & _ & Hs3 & _). exact (eq_trans Hs3 Hs2). }
  pose proof (proj1 (all_calm_setMeta MetaBootstrapStage stage) e3) as Hc3. cbn [act storeOp onQueue] in Hc3 |- *.
  destruct (Queue.with_store _ (e_queue e3)) as [r q]. cbn [fst snd] in *.
  assert (P (set_queue q e3)) as Hp4 by (by eapply HP). split; [by apply HI|].
  intros e4 Ha4. destruct (Hst _ _ Ha4 (conj Hp4 Hf3)) as [Hp5 Hf5]. destruct Ha4 as (_ & _ & Hs4 & _).
  split_and!; [done|by rewrite Hs4|done].
Qed.

(** Every queued parent's fanout is recoverable since [b], and nothing else is
    durable that was not; [ps] is the queue as drained. *)
Definition fan_inv (m : Mode) (numChains : Z) (ps : list UTXO) (b e : E) : Prop :=
  held (fan_lanes m numChains ps) b e.

(** How the L2 fanout ends. *)
Definition l2_post (m : Mode) (nc : Z) (ps : list UTXO) (q : list UTXO) (b : E) (r : option err) (e' : E) : Prop :=
  match r with
  | None =>
      sBootstrapStage (e_state e') = StageL2Done /\ Z.of_nat (length (queued e')) = nc /\ fan_inv m nc ps b e' /\
      exists rs, length rs = length ps /\ queued e' ≡ₚ l2_outputs rs /\
        forall i r p, rs !! i = Some r -> ps !! i = Some p ->
          accepted r = true /\ (exists tx, BuildFanout p (l2_size nc ps i) (Some m) = Ok (tx, outputs r)) /\
          lane_at (fan_lane StageL2Partial m p (l2_size nc ps i)) 1 false Clear e'
  | Some x =>
      (q = [] /\ errors_is x ErrNoUTXOs) \/
      (nc < Z.of_nat (length q) /\ errors_is x ErrManualRecovery /\ queued e' ≡ₚ q) \/
      (q <> [] /\ x = Wrap "L2 fanouts failed" ErrBootstrapIncomplete /\
       sLifecycle (e_state e') = LifecycleFailed /\ sBootstrapStage (e_state e') = StageL2Partial)
  end.

(** What the goroutines leave for [finishL2]. *)
Record l2_settled (m : Mode) (nc : Z) (ps : list UTXO) (b : E) (rs : list l2Result) (e : E) : Prop := {
  settled_inv : fan_inv m nc ps b e;
  settled_len : length rs = length ps;
  settled_done i r p : rs !! i = Some r -> ps !! i = Some p -> fan_done m p (l2_size nc ps i) r e;
  settled_queue u : u ∈ queued e -> u ∈ ps;
}.

(** When all were accepted nothing went back on the queue. *)
Lemma settled_empty m nc ps b rs (e : E) : l2_settled m nc ps b rs e ->
  (forall r, r ∈ rs -> accepted r = true) -> queued e = [].
Proof.
  intros [_ Hlen Hdone Hq] Hacc. destruct (queued e) as [|u q] eqn:Hu; [done|]. exfalso.
  assert (u ∈ queued e) as Hin by (rewrite Hu; left). rewrite <- Hu in Hq.
  pose proof (Hq u Hin) as [i Hi]%list_elem_of_lookup.
  destruct (lookup_lt_is_Some_2 rs i) as [r Hr]; [rewrite Hlen; by eapply lookup_lt_Some|].
  specialize (Hdone i r u Hr Hi). unfold fan_done in Hdone.
  rewrite (Hacc r) in Hdone by (by eapply list_elem_of_lookup_2).
  destruct Hdone as [_ (_ & _ & _ & Hno)]. by apply (Hno u).
Qed.

(** When all were accepted there are as many outputs as chains. *)
Lemma settled_count m nc ps b rs (e : E) : l2_settled m nc ps b rs e ->
  (forall r, r ∈ rs -> accepted r = true) -> 0 < Z.of_nat (length ps) <= nc -> nc < two63 ->
  Z.of_nat (length (l2_outputs rs)) = nc.
Proof.
  intros [_ Hlen Hdone _] Hacc Hps Hnc.
  assert (Z.of_nat (length (l2_outputs rs)) = Zsum ((fun r => Z.of_nat (length (outputs r))) <$> rs)) as ->.
  { clear -Hacc. induction rs as [|r rs IH]; [done|]. unfold l2_outputs in *. cbn [fmap list_fmap concat Zsum].
    rewrite (Hacc r) by left. rewrite length_app, Nat2Z.inj_add. f_equal. apply IH. intros r' Hr'. apply Hacc. by right. }
  transitivity (Zsum (l2Sizes nc (Z.of_nat (length ps)))); [f_equal|by apply l2Sizes_sum].
  unfold l2Sizes. rewrite Nat2Z.id. apply list_eq. intros i. rewrite !list_lookup_fmap.
  destruct (rs !! i) as [r|] eqn:Hr.
  - assert (i < length ps)%nat as Hi by (rewrite <- Hlen; by eapply lookup_lt_Some).
    rewrite (lookup_seq_lt 0) by done. simpl. f_equal.
    destruct (lookup_lt_is_Some_2 ps i Hi) as [p Hp]. specialize (Hdone i r p Hr Hp). unfold fan_done in Hdone.
    rewrite (Hacc r) in Hdone by (by eapply list_elem_of_lookup_2). destruct Hdone as [[tx Hb] _].
    assert (l2_size nc ps i = l2FanoutSizeForParent nc (Z.of_nat (length ps)) (Z.of_nat i)) as Hsz by done.
    rewrite <- Hsz. rewrite l2size_value in Hsz by lia.
    assert (0 <= l2_size nc ps i <= nc) as Hb2.
    { rewrite Hsz. pose proof (Z.div_pos nc (Z.of_nat (length ps))).
      assert (nc / Z.of_nat (length ps) + (if Z.of_nat i <? nc mod Z.of_nat (length ps) then 1 else 0) <= nc).
      { case_if; bool_to_prop; Z.div_mod_to_equations; nia. }
      case_if; lia. }
    apply BuildFanout_outputs in Hb as (per & _ & ->); [|lia].
    rewrite length_fmap, length_seq. lia.
  - rewrite lookup_ge_None in Hr. rewrite lookup_seq_ge by lia. done.
Qed.

Lemma finishL2_spec m nc ps b rs q (e : E) : l2_settled m nc ps b rs e -> q ≡ₚ ps ->
  0 < Z.of_nat (length ps) <= nc -> nc < two63 ->
  under (fan_inv m nc ps b) (finishL2 nc rs) (l2_post m nc ps q b) e.
Proof.
  intros Hset Hq Hps Hnc. pose proof (settled_inv _ _ _ _ _ _ Hset) as Hinv. pose proof (held_durable _ _ _ Hinv) as Hd.
  assert (q <> []) as Hqne by (intros ->; apply Permutation_length in Hq; simpl in *; lia).
  assert (forall e', quiet e e' -> fan_inv m nc ps b e') as HI by (intros e' He'; by eapply held_quiet).
  assert (forall e', quiet e e' -> under (fan_inv m nc ps b) (l2Incomplete "L2 fanouts failed") (l2_post m nc ps q b) e') as Hfail.
  { intros e' Hq'. unfold l2Incomplete. apply under_act. intros e1 ((Hc1 & _) & _).
    destruct (Now (e_world e1)) as [t w]. cbn [fst snd]. set (e2 := set_world w _).
    assert (quiet e e2) as Hq2 by (eapply quiet_trans; [exact Hq'|]; eapply quiet_trans; [exact Hc1|]; by intros Hd').
    split; [by apply HI|]. apply aside_bind. eapply under_mono; [..|apply (under_stage (quiet e) (fan_inv m nc ps b))]; try done.
    - intros _ e3 (_ & Hst & Hlc) e4 (_ & _ & Hst4 & Hlc4). right; right.
      split_and!; [done|done|by apply Hlc4, Hlc|by rewrite Hst4].
    - intros e3 e4 [He4 _] He3. by eapply quiet_trans. }
  unfold finishL2. apply aside_bind. eapply under_mono; [exact HI| |by apply (collectResults_spec _ _ _ (queued e) e)].
  intros c e1 [[Hq1 Hp1] ->]. apply under_act. intros e2 ((Hc2 & Hh2 & _) & _). cbn [fst snd].
  assert (quiet e e2) as Hq2 by (by eapply quiet_trans). split; [by apply HI|].
  apply under_act. intros e3 ((Hc3 & Hh3 & _) & _). cbn [fst snd]. set (e4 := set_metrics _ e3).
  assert (quiet e e4) as Hq4 by (eapply quiet_trans; [exact Hq2|]; eapply quiet_trans; [exact Hc3|]; by intros Hd').
  assert (queued e4 ≡ₚ l2_outputs rs ++ queued e) as Hp4 by (change (queued e4) with (queued e3); by rewrite Hh3, Hh2).
  split; [by apply HI|]. rewrite !Z.add_0_l.
  destruct (Z.ltb_spec 0 (l2_failed rs)) as [Hf|Hf]; [by apply Hfail|].
  pose proof (l2_failed_none rs Hf) as Hacc.
  rewrite (settled_count _ _ _ _ _ _ Hset Hacc Hps Hnc), Z.eqb_refl. cbn [negb].
  rewrite (settled_empty _ _ _ _ _ _ Hset Hacc), app_nil_r in Hp4.
  apply aside_bind. eapply under_mono; [exact HI| |apply (under_stage (fun e' => quiet e e' /\ queued e' ≡ₚ l2_outputs rs) (quiet e))].
  - intros _ e5 ([Hq5 Hp5] & Hst & _) e6 ((Hc6 & Hh6 & _) & _ & Hst6 & _).
    assert (quiet e e6) as Hq6 by (by eapply quiet_trans). rewrite <- Hh6 in Hp5. split_and!.
    + by rewrite Hst6.
    + rewrite Hp5. by apply (settled_count m nc ps b rs e).
    + by apply HI.
    + exists rs. split_and!; [by eapply settled_len|done|]. intros i r p Hr Hp.
      pose proof (settled_done _ _ _ _ _ _ Hset i r p Hr Hp) as Hdone. unfold fan_done in Hdone.
      rewrite (Hacc r) in Hdone by (by eapply list_elem_of_lookup_2).
      destruct Hdone as [Htx (_ & _ & Hat & _)].
      split_and!; [apply Hacc; by eapply list_elem_of_lookup_2|done|by apply (lane_at_quiet _ _ _ _ e)].
  - intros e5 e6 (Hc & Hh & _) [He5 Hp5]. split; [by eapply quiet_trans|by rewrite Hh].
  - by intros e5 [? _].
  - done.
Qed.

(** The parents in the order [bootstrapL2] drains them. *)
Definition l2_order (e : E) : list UTXO := (Queue.drain (e_queue e)).1.

Lemma drain_same_heap (q q' : Queue.queue D) : Queue.heap q = Queue.heap q' -> (Queue.drain q).1 = (Queue.drain q').1.
Proof.
  intros Hh. unfold Queue.drain. rewrite Hh.
  by destruct (Heap.drain Queue.heapKey (length (Queue.heap q')) (Queue.heap q')).
Qed.

Lemma l2_held m nc ps (e : E) : l2_ready m e -> ps ≡ₚ queued e -> fan_inv m nc ps e e.
Proof.
  intros Hr Hps. apply held_start; [by eapply l2_durable|]. intros l (i & p & Hp & ->)%fan_lanes_elem.
  exists O, false, Clear. split; [|done]. apply l2_lane_at; [done|]. rewrite <- Hps. by eapply list_elem_of_lookup_2.
Qed.

(** The goroutines, from the drained queue to [finishL2]. *)
Lemma l2_goroutines m nc ps (e0 e : E) : l2_ready m e0 -> ps ≡ₚ queued e0 -> quiet e0 e -> queued e = [] ->
  under (fan_inv m nc ps e0) (goAll (fan_goroutines nc ps)) (l2_settled m nc ps e0) e.
Proof.
  intros Hr Hps Hq Hempty. unfold goAll. apply under_act. intros e1 ((Hc1 & Hh1 & _) & _).
  destruct (Schedule (e_world e1)) as [sched w]. cbn [fst snd]. set (e2 := set_world w e1).
  assert (quiet e0 e2) as Hq2 by (eapply quiet_trans; [exact Hq|]; eapply quiet_trans; [exact Hc1|]; by intros Hd).
  assert (queued e2 = []) as He2 by (unfold e2, queued in *; simpl; congruence).
  pose proof (fan_lanes_wf m nc (queued e0) ps (l2_parents m e0 Hr) Hps) as Hwf.
  set (I := fun e' => fan_inv m nc ps e0 e' /\ held_queue (fan_lanes m nc ps) e2 e').
  assert (I e2) as HI2.
  { split; [eapply held_quiet; [exact Hq2|by apply l2_held]|]. split; [by apply Hq2, Hr|intros u Hu; by left]. }
  split; [apply HI2|].
  pose proof (rg_rely _ _ _ _ _ _ aside_calm (fan_par m nc ps sched e0 e2 Hr Hps Hq2 He2)) as Hpar.
  eapply under_mono; [..|apply (rg_assert I _ _ _ _ _) in Hpar; [exact Hpar|..|exact HI2]].
  - by intros e' [? _].
  - intros rs e' [[Hinv [_ Hu]] [Hlen Hdone]]. split; [done..|]. intros u Hin. apply Hu in Hin.
    rewrite He2 in Hin. destruct Hin as [Hin|(l & (i & p & Hp & ->)%fan_lanes_elem & Hl)]; [by apply elem_of_nil in Hin|].
    simpl in Hl. subst u. by eapply list_elem_of_lookup_2.
  - intros e3 e4 ((Hc & Hh & _) & _) [Hinv [Hd Hu]]. split; [by eapply held_quiet|]. split; [by apply Hc|]. by rewrite Hh.
  - intros e3 e4 Hstep [Hinv Hu]. split; [by eapply lanes_step_held|by eapply lanes_step_queue].
Qed.

Lemma bootstrapL2_spec m (e : E) : l2_ready m e -> e_numChains e < two63 ->
  under (fan_inv m (e_numChains e) (l2_order e) e) bootstrapL2
    (l2_post m (e_numChains e) (l2_order e) (queued e) e) e.
Proof.
  intros Hr Hnc. pose proof (l2_durable m e Hr) as Hd.
  set (nc := e_numChains e). set (ps := l2_order e).
  destruct (Queue.drain_empties (e_queue e) (proj1 Hd)) as (Hps & _ & _ & _ & _). fold (l2_order e) in Hps. fold ps in Hps.
  assert (forall e', quiet e e' -> fan_inv m nc ps e e') as HI.
  { intros e' Hq. eapply held_quiet; [exact Hq|]. by apply l2_held. }
  unfold bootstrapL2. apply aside_bind.
  eapply under_mono; [..|apply (rg_calm_under (calm e) (quiet e)); [| |apply all_calm_stage|apply calm_refl]].
  { exact HI. }
  2: { intros e1 e2 Hc12 Hc1. by eapply calm_trans. }
  2: { by intros e1 [? _]. }
  intros x0 e0 Hc0. apply under_act. intros e1 Ha1.
  pose proof (calm_trans _ _ _ Hc0 (aside_calm _ _ Ha1)) as (Hq1 & Hh1 & Hn1).
  destruct (Hq1 Hd) as (Hd1 & _). cbn [onQueue act].
  destruct (Queue.drain_empties (e_queue e1) (proj1 Hd1)) as (_ & _ & Hempty & Hst & Hwf).
  pose proof (drain_same_heap (e_queue e1) (e_queue e) Hh1) as Hdr. fold (l2_order e) in Hdr. fold ps in Hdr.
  destruct (Queue.drain (e_queue e1)) as [ps' q]. cbn [fst snd] in *. subst ps'.
  set (e2 := set_queue q e1).
  assert (quiet e e2) as Hq2.
  { eapply quiet_trans; [exact Hq1|]. intros [Hwf1 [d1 Hd1']]. unfold tips, pendings. simpl. rewrite Hst.
    split_and!; try done. split; [done|]. exists d1. simpl. congruence. }
  split; [by apply HI|].
  clearbody ps. destruct ps as [|p0 ps0].
  { intros e3 _. left. split; [|done]. by apply Permutation_nil. }
  set (ps := p0 :: ps0) in *.
  assert (0 < Z.of_nat (length ps)) as Hlen by (simpl; lia). clearbody ps.
  apply under_act. intros e3 ((Hc3 & Hh3 & Hn3) & _). cbn [fst snd].
  assert (quiet e e3) as Hq3 by (by eapply quiet_trans). split; [by apply HI|].
  cbv zeta. assert (bcNumChains (bootstrapConfigLocked e3) = nc) as ->.
  { rewrite Hn3. change (bcNumChains (bootstrapConfigLocked e1) = nc). by rewrite Hn1. }
  assert (queued e3 = []) as He3 by (rewrite Hh3; exact Hempty).
  destruct (Z.ltb_spec nc (Z.of_nat (length ps))) as [Hmany|Hfew].
  - apply aside_bind. eapply under_mono; [exact HI| |apply (pushAll_spec _ [] e); [done|done|by rewrite He3]].
    intros _ e4 [_ Hp4] e5 ((_ & Hh5 & _) & _). right; left. split_and!; [by rewrite <- Hps|done|].
    by rewrite Hh5, Hp4, app_nil_r, Hps.
  - apply aside_bind. change (imap _ ps) with (fan_goroutines (D:=D) (W:=W) nc ps).
    eapply rg_mono; [|by apply (l2_goroutines m nc ps e)].
    intros rs e4 Hset. eapply finishL2_spec; [exact Hset|done|lia|done].
Qed.

(** *** Properties *)

(** What the durable state and the network know of the fanout of [p] into [n]
    outputs: it is still to be spent, and if the network has accepted the fanout
    its record is in the store; or it is replaced by the outputs of the accepted
    fanout. *)
Definition fan_status (stage : string) (m : Mode) (p : UTXO) (n : Z) (e : E) : Prop :=
  match fanRecord stage m p n with
  | None => tips e !! keyOf p = Some p
  | Some r =>
      (tips e !! keyOf p = Some p /\ (forall u, u ∈ pCreated r -> tips e !! keyOf u = None) /\
       ((r, true) ∈ e_log e -> exists t, pendings e !! pTxID r = Some (stamp t r))) \/
      (tips e !! keyOf p = None /\ (forall u, u ∈ pCreated r -> tips e !! keyOf u = Some u) /\
       (r, true) ∈ e_log e /\ pendings e !! pTxID r = None)
  end.

Lemma seq_outpoints_NoDup txid per k :
  NoDup (outpoint <$> ((fun i => mkUTXO txid (N.of_nat i) per 0) <$> seq 0 k)).
Proof.
  rewrite <- list_fmap_compose. apply NoDup_fmap_2; [|apply NoDup_seq].
  intros i j [= Heq]. by apply Nat2N.inj in Heq.
Qed.

(** The tips of a fanout's lane before and after its transition. *)
Lemma fan_tips stage m ps p n r : parents_independent m ps -> p ∈ ps -> fanRecord stage m p n = Some r -> n < two63 ->
  (forall u, u ∈ pCreated r -> ln_tips (fan_lane stage m p n) 0 !! keyOf u = None) /\
  ln_tips (fan_lane stage m p n) 1 !! keyOf p = None /\
  (forall u, u ∈ pCreated r -> ln_tips (fan_lane stage m p n) 1 !! keyOf u = Some u).
Proof.
  intros Hind Hp Hr Hn.
  assert (forall u, u ∈ pCreated r -> keyOf p <> keyOf u) as Hne.
  { intros u Hu [= Hh _]%keyOf_outpoint. rewrite (fan_output_hash stage m p n r u Hr Hu) in Hh.
    apply fanRecord_Some in Hr as (tx & outs & Hb & -> & _).
    apply (parents_acyclic m ps Hind p p n tx outs Hp Hp Hb). by rewrite Hh. }
  split_and!.
  - intros u Hu. simpl. apply lookup_singleton_ne. by apply Hne.
  - cbn [ln_tips fan_lane ln_rec]. rewrite Hr.
    apply fanRecord_Some in Hr as (tx & outs & _ & -> & _). apply apply_tips_spent; [by left|].
    intros w Hw _ Heq. apply (Hne w Hw), keyOf_outpoint. done.
  - intros u Hu. cbn [ln_tips fan_lane ln_rec]. rewrite Hr.
    apply fanRecord_Some in Hr as (tx & outs & Hb & -> & _).
    apply BuildFanout_outputs in Hb as (per & Hper & ->); [|done]. simpl in Hu |- *.
    apply apply_tips_created; [done| |apply seq_outpoints_NoDup].
    by apply list_elem_of_fmap in Hu as (k & -> & _).
Qed.

Lemma lane_safe_fan stage m ps p n (e : E) : parents_independent m ps -> p ∈ ps -> n < two63 ->
  lane_safe (fan_lane stage m p n) e -> fan_status stage m p n e.
Proof.
  intros Hind Hp Hn (k & acc & h & (B0 & B1 & B2 & B3 & B4) & Hh). unfold fan_status.
  assert (ln_key (fan_lane stage m p n) (keyOf p)) as Hkp by (by left).
  destruct k as [|[|k]]; [| |by destruct B0].
  - assert (tips e !! keyOf p = Some p) as Htp by (rewrite B1 by done; apply lookup_singleton_eq).
    destruct (fanRecord stage m p n) as [r|] eqn:Hr; [|done]. left.
    destruct (fan_tips stage m ps p n r Hind Hp Hr Hn) as (Hf & _). split_and!; [done|..].
    + intros u Hu. rewrite B1 by (right; by exists r, u). by apply Hf.
    + intros Hin. apply (B2 O r Hr) in Hin. destruct acc; [|lia].
      destruct (B4 (Hh eq_refl)) as (r' & t & Hr' & Hx). simpl in Hr'. simplify_eq. by exists t.
  - destruct B0 as [r Hr]. simpl in Hr. rewrite Hr. right.
    assert (acc = false) as ->.
    { destruct acc; [|done]. by destruct (B4 (Hh eq_refl)) as (r' & t & Hr' & _). }
    destruct (fan_tips stage m ps p n r Hind Hp Hr Hn) as (_ & Hf1 & Hf2). split_and!.
    + by rewrite B1.
    + intros u Hu. rewrite B1 by (right; by exists r, u). by apply Hf2.
    + apply (B2 O r Hr). lia.
    + specialize (B3 (pTxID r) ltac:(by exists r)).
      destruct h; [done|..]; destruct B3 as [|(r' & t & Hr' & _)]; done.
Qed.

Lemma l2_size_small nc ps i p : ps !! i = Some p -> nc < two63 -> l2_size nc ps i < two63.
Proof.
  intros Hi%lookup_lt_Some Hnc. unfold l2_size.
  destruct (Z.lt_ge_cases nc (Z.of_nat (length ps))) as [Hlt|Hge].
  - unfold l2FanoutSizeForParent. destruct (Z.leb_spec nc 0); [unfold two63; simpl; lia|].
    replace (Z.of_nat (length ps) <=? 0) with false by lia. replace (Z.of_nat i <? 0) with false by lia.
    replace (Z.of_nat (length ps) <=? Z.of_nat i) with false by lia. cbn [orb].
    rewrite Z.quot_small, Z.rem_small by lia. unfold two63 in *. case_if; lia.
  - rewrite l2size_value by lia.
    assert (nc / Z.of_nat (length ps) + (if Z.of_nat i <? nc mod Z.of_nat (length ps) then 1 else 0) <= nc); [|lia].
    case_if; bool_to_prop; Z.div_mod_to_equations; nia.
Qed.

Lemma l2_order_perm (e : E) : durable e -> l2_order e ≡ₚ queued e.
Proof. intros Hd. apply (Queue.drain_empties (e_queue e) (proj1 Hd)). Qed.

(** With nobody beside it. *)
Lemma bootstrapL2_alone m (e : E) : l2_ready m e -> e_numChains e < two63 ->
  let I := fan_inv m (e_numChains e) (l2_order e) e in
  I e /\ wpi I bootstrapL2 (l2_post m (e_numChains e) (l2_order e) (queued e) e) e.
Proof.
  intros Hr Hnc I. assert (I e) as HI by (apply l2_held; [done|]; by apply l2_order_perm, (l2_durable m)).
  split; [done|]. by apply under_alone, bootstrapL2_spec.
Qed.

(** The parallel L2 fanout can be stopped at any point of any interleaving:
    the [i]-th L1 output is then either still a stored tip, with the pending record
    of its fanout in the store if the network has accepted it, or replaced by
    all the outputs of its accepted fanout; never spent and lost, nor spent
    with only part of its outputs stored. *)
Theorem bootstrapL2_crash_safe m (e e' : E) i p :
  l2_ready m e -> e_numChains e < two63 -> l2_order e !! i = Some p -> reaches bootstrapL2 e e' ->
  fan_status StageL2Partial m p (l2_size (e_numChains e) (l2_order e) i) e'.
Proof.
  intros Hr Hnc Hi Hreach. pose proof (l2_durable m e Hr) as Hd.
  assert (fan_inv m (e_numChains e) (l2_order e) e e') as Hinv.
  { destruct (bootstrapL2_alone m e Hr Hnc) as [HI Hwp]. exact (wpi_reaches _ _ _ _ e' HI Hwp Hreach). }
  apply (lane_safe_fan StageL2Partial m (queued e)); [by apply (l2_parents m e)| |by eapply l2_size_small|].
  2: { apply (held_safe _ _ _ Hinv), fan_lanes_elem. by exists i, p. }
  rewrite <- (l2_order_perm e Hd). by eapply list_elem_of_lookup_2.
Qed.

(** C6: when the L2 fanout succeeds, every chain has its UTXO: the queue holds
    exactly [numChains] UTXOs, each one a stored tip, every L1 output is spent by
    a fanout the network accepted and the store committed, and the stage is
    [l2_done]. *)
Theorem bootstrapL2_complete m (e e' : E) :
  l2_ready m e -> e_numChains e < two63 -> run bootstrapL2 e = (None, e') ->
  Z.of_nat (length (queued e')) = e_numChains e /\
  (forall u, u ∈ queued e' -> tips e' !! keyOf u = Some u) /\
  (forall p, p ∈ queued e -> tips e' !! keyOf p = None /\
     exists n r, fanRecord StageL2Partial m p n = Some r /\ (r, true) ∈ e_log e' /\ pendings e' !! pTxID r = None) /\
  sBootstrapStage (e_state e') = StageL2Done.
Proof.
  intros Hr Hnc Hrun. pose proof (l2_durable m e Hr) as Hd.
  destruct (wpi_run _ _ _ _ _ _ (proj2 (bootstrapL2_alone m e Hr Hnc)) Hrun) as (Hst & Hlen & _ & rs & Hrs & Hq & Hall).
  assert (forall i r p, rs !! i = Some r -> l2_order e !! i = Some p ->
    exists n rec, fanRecord StageL2Partial m p n = Some rec /\ pCreated rec = outputs r /\ accepted r = true /\
      tips e' !! keyOf p = None /\ (forall u, u ∈ pCreated rec -> tips e' !! keyOf u = Some u) /\
      (rec, true) ∈ e_log e' /\ pendings e' !! pTxID rec = None) as Hone.
  { intros i r p Hri Hpi. destruct (Hall i r p Hri Hpi) as (Hacc & [tx Hb] & Hat).
    set (n := l2_size _ _ _) in *. exists n, (fanoutPending tx p (outputs r) StageL2Partial).
    assert (fanRecord StageL2Partial m p n = Some (fanoutPending tx p (outputs r) StageL2Partial)) as Hrec by (unfold fanRecord; by rewrite Hb).
    assert (p ∈ queued e) as Hp by (rewrite <- (l2_order_perm e Hd); by eapply list_elem_of_lookup_2).
    destruct (fan_tips StageL2Partial m (queued e) p n _ (l2_parents m e Hr) Hp Hrec) as (_ & Hf1 & Hf2); [by eapply l2_size_small|].
    destruct Hat as (_ & B1 & B2 & B3 & _). split_and!; [done|done|done|..].
    - by rewrite B1 by (by left).
    - intros u Hu. rewrite B1 by (right; eexists _, u; split_and!; done). by apply Hf2.
    - apply (B2 O _ Hrec). lia.
    - apply B3. by eexists. }
  split_and!; [done|..|done].
  - intros u Hu. rewrite Hq in Hu. unfold l2_outputs in Hu.
    apply list_elem_of_In, in_concat in Hu as (us & Hus%list_elem_of_In & Hu%list_elem_of_In).
    apply list_elem_of_fmap in Hus as (r & -> & [i Hri]%list_elem_of_lookup).
    destruct (lookup_lt_is_Some_2 (l2_order e) i) as [p Hpi]; [rewrite <- Hrs; by eapply lookup_lt_Some|].
    destruct (Hone i r p Hri Hpi) as (n & rec & _ & Hcr & Hacc & _ & Hin & _).
    apply Hin. rewrite Hacc in Hu. by rewrite Hcr.
  - intros p Hp. rewrite <- (l2_order_perm e Hd) in Hp. apply list_elem_of_lookup in Hp as [i Hpi].
    destruct (lookup_lt_is_Some_2 rs i) as [r Hri]; [rewrite Hrs; by eapply lookup_lt_Some|].
    destruct (Hone i r p Hri Hpi) as (n & rec & Hrec & _ & _ & Hnone & _ & Hlog & Hpend).
    split; [done|]. by exists n, rec.
Qed.

(** C24: the L2 fanout fails only for the reasons it documents: an empty queue,
    more L1 outputs than chains (the queue is then as before), or a fanout that
    was not broadcast and committed, which leaves the engine failed at stage
    [l2_partial].  The branch for a wrong number of outputs is never taken. *)
Theorem bootstrapL2_errors m (e e' : E) x :
  l2_ready m e -> e_numChains e < two63 -> run bootstrapL2 e = (Some x, e') ->
  (queued e = [] /\ errors_is x ErrNoUTXOs) \/
  (e_numChains e < Z.of_nat (length (queued e)) /\ errors_is x ErrManualRecovery /\ queued e' ≡ₚ queued e) \/
  (queued e <> [] /\ x = Wrap "L2 fanouts failed" ErrBootstrapIncomplete /\
   sLifecycle (e_state e') = LifecycleFailed /\ sBootstrapStage (e_state e') = StageL2Partial).
Proof. intros Hr Hnc Hrun. exact (wpi_run _ _ _ _ _ _ (proj2 (bootstrapL2_alone m e Hr Hnc)) Hrun). Qed.
End l2.
