(* ===== verification/Recovery.v ===== *)
(** * Restarting (internal/engine/persist.go, the proofs)

    What [New] makes of the state file a crash left: the pending broadcasts are
    replayed oldest first, the queue becomes the stored tips, and a crash during
    the replay itself changes nothing to its outcome. *)

From stdpp Require Import sorting.
From Stdlib Require Structures.OrdersEx.
From S2P Require Import Prelude Prog Script TxBuilder Backoff Float Metrics Store Heap Queue Engine Lane Chain Bootstrap.
Open Scope Z_scope.

(** ** The order of the records *)

Module SortOrder.
Import OrdersEx.

Lemma string_compare_refl s : String_as_OT.compare s s = Eq.
Proof.
  destruct (String_as_OT.compare_spec s s) as [|Hlt|Hlt]; [done|..];
    by apply (irreflexivity String_as_OT.lt) in Hlt.
Qed.

Lemma recordLe_spec a b : recordLe a b <->
  pSavedAt a < pSavedAt b \/
  (pSavedAt a = pSavedAt b /\ (pTxID a = pTxID b \/ String_as_OT.lt (pTxID a) (pTxID b))).
Proof.
  unfold recordLe, cmpRecords. destruct (Z.compare_spec (pSavedAt a) (pSavedAt b)).
  - destruct (String_as_OT.compare_spec (pTxID a) (pTxID b)) as [Heq|Hlt|Hlt].
    + rewrite Heq. split; [|done]. auto.
    + split; [|done]. auto.
    + split; [done|]. intros [|[_ [Heq|Hlt']]]; [lia|rewrite Heq in Hlt|].
      * by apply (irreflexivity String_as_OT.lt) in Hlt.
      * by apply (asymmetry Hlt) in Hlt'.
  - split; [|done]. auto.
  - split; [done|]. lia.
Qed.

#[export] Instance recordLe_trans : Transitive recordLe.
Proof.
  intros a b c. rewrite !recordLe_spec.
  intros [Hab|[Hab [Heq|Hlt]]] [Hbc|[Hbc [Heq'|Hlt']]]; try (left; lia); right; (split; [congruence|]).
  - left. congruence.
  - right. by rewrite Heq.
  - right. by rewrite <- Heq'.
  - right. by etrans.
Qed.

#[export] Instance recordLe_total : Total recordLe.
Proof.
  intros a b. rewrite !recordLe_spec. destruct (Z.lt_total (pSavedAt a) (pSavedAt b)) as [|[Heq|]]; [auto| |auto].
  destruct (String_as_OT.compare_spec (pTxID a) (pTxID b)); auto 6.
Qed.

Lemma recordLe_antisym a b : recordLe a b -> recordLe b a -> pTxID a = pTxID b.
Proof.
  rewrite !recordLe_spec. intros [Hz|[Hz [|Hlt]]] [Hz'|[Hz' [|Hlt']]]; try lia; try done.
  by apply (asymmetry Hlt) in Hlt'.
Qed.

(** Records with distinct ids have one order, whatever order they come in. *)
Lemma sortRecords_unique l l' : NoDup (pTxID <$> l) -> l ≡ₚ l' -> sortRecords l = sortRecords l'.
Proof.
  intros Hnd Hp. unfold sortRecords.
  assert (forall l, merge_sort recordLe l ≡ₚ l) as Hm by (intros; apply merge_sort_Permutation).
  apply (StronglySorted_unique_strong recordLe).
  - intros a b Ha Hb Hab Hba. pose proof (recordLe_antisym a b Hab Hba) as Heq.
    rewrite Hm in Ha, Hb. rewrite <- Hp in Hb.
    apply list_elem_of_lookup in Ha as [i Hi]. apply list_elem_of_lookup in Hb as [j Hj].
    assert (i = j) as -> by (apply (NoDup_lookup _ _ _ (pTxID a) Hnd); rewrite list_lookup_fmap, ?Hi, ?Hj; simpl; congruence).
    congruence.
  - apply StronglySorted_merge_sort; apply _.
  - apply StronglySorted_merge_sort; apply _.
  - by rewrite !Hm.
Qed.

(** Sorting commutes with dropping records. *)
Lemma sortRecords_filter (P : PendingBroadcast -> Prop) `{forall p, Decision (P p)} l :
  NoDup (pTxID <$> l) -> sortRecords (filter P l) = filter P (sortRecords l).
Proof.
  intros Hnd. unfold sortRecords.
  assert (forall l, merge_sort recordLe l ≡ₚ l) as Hm by (intros; apply merge_sort_Permutation).
  assert (StronglySorted recordLe (filter P (merge_sort recordLe l))) as Hs.
  { assert (StronglySorted recordLe (merge_sort recordLe l)) as Hs by (apply StronglySorted_merge_sort; apply _).
    induction Hs as [|a l' Hs IH Hall]; [constructor|]. rewrite filter_cons. case_decide; [|done].
    constructor; [done|]. rewrite Forall_forall in Hall |- *. intros b [_ Hb]%list_elem_of_filter. by apply Hall. }
  apply (StronglySorted_unique_strong recordLe); [|apply StronglySorted_merge_sort; apply _|done|rewrite Hm; symmetry; by apply filter_Permutation, Hm].
  intros a b Ha Hb Hab Hba. pose proof (recordLe_antisym a b Hab Hba) as Heq.
  rewrite Hm in Ha. apply list_elem_of_filter in Ha as [_ Ha]. apply list_elem_of_filter in Hb as [_ Hb]. rewrite Hm in Hb.
  apply list_elem_of_lookup in Ha as [i Hi]. apply list_elem_of_lookup in Hb as [j Hj].
  assert (i = j) as -> by (apply (NoDup_lookup _ _ _ (pTxID a) Hnd); rewrite list_lookup_fmap, ?Hi, ?Hj; simpl; congruence).
  congruence.
Qed.
End SortOrder.

(** ** Replaying *)

(** The effect of a record on the tips. *)
Definition applyRecord (m : gmap string UTXO) (p : PendingBroadcast) : gmap string UTXO :=
  apply_tips (pSpent p) (pCreated p) m.

(** The tips after the records that have a transition, in order. *)
Definition replayTips (m : gmap string UTXO) (records : list PendingBroadcast) : gmap string UTXO :=
  foldl applyRecord m (filter (fun p => replayable p = true) records).

(** The records that remain. *)
Definition replayPendings (m : gmap string PendingBroadcast) (records : list PendingBroadcast) :=
  foldl (fun m p => delete (pTxID p) m) m (filter (fun p => replayable p = true) records).

(** The records in the order of the replay. *)
Definition recordsOf (m : gmap string PendingBroadcast) : list PendingBroadcast :=
  sortRecords (map_to_list m).*2.

(** Every record is under its own, non-empty id: [SavePending] writes no other. *)
Definition keyed (m : gmap string PendingBroadcast) : Prop :=
  forall x p, m !! x = Some p -> pTxID p = x /\ x <> ""%string.

Section replay.
Context `{Sdk} `{Prometheus} {D : Type} `{DurableStoreLaws D} {W : Type} `{World W}.

Abbreviation E := (Engine (D:=D) (W:=W)).
Abbreviation code := (prog E).

(** [e'] is [e] after the replay of [done]. *)
Definition replayed (e : E) (done : list PendingBroadcast) (e' : E) : Prop :=
  durable e' /\ e_mode e' = e_mode e /\ e_log e' = e_log e /\
  Queue.heap (e_queue e') = Queue.heap (e_queue e) /\
  tips e' = replayTips (tips e) done /\ pendings e' = replayPendings (pendings e) done.

Lemma replayed_calm e done (e1 e2 : E) : replayed e done e1 -> calm e1 e2 -> replayed e done e2.
Proof.
  intros (A1 & A2 & A3 & A4 & A5 & A6) (Hq & Hh & _). unfold queued in Hh. destruct (Hq A1) as (B1 & B2 & B3 & B4 & B5).
  split_and!; congruence || done.
Qed.

Lemma filter_snoc_replayable done p : 
  filter (fun p => replayable p = true) (done ++ [p]) =
  filter (fun p => replayable p = true) done ++ (if replayable p then [p] else []).
Proof. rewrite filter_app, filter_cons, filter_nil. by case_decide; destruct (replayable p). Qed.

Lemma replayTips_snoc m done p :
  replayTips m (done ++ [p]) = if replayable p then applyRecord (replayTips m done) p else replayTips m done.
Proof.
  unfold replayTips. rewrite filter_snoc_replayable. destruct (replayable p); [|by rewrite app_nil_r].
  by rewrite foldl_app.
Qed.

Lemma replayPendings_snoc m done p :
  replayPendings m (done ++ [p]) = if replayable p then delete (pTxID p) (replayPendings m done) else replayPendings m done.
Proof.
  unfold replayPendings. rewrite filter_snoc_replayable. destruct (replayable p); [|by rewrite app_nil_r].
  by rewrite foldl_app.
Qed.

Lemma replayLoop_spec e all rest : (forall p, p ∈ rest -> pTxID p <> ""%string) ->
  forall done changed unknown (e' : E), all = done ++ rest -> replayed e done e' ->
  wpi (fun e'' => exists d r, all = d ++ r /\ replayed e d e'')
    (replayLoop rest changed unknown)
    (fun res e'' => res.2 = None -> replayed e all e'' /\ res.1.1 = changed || existsb replayable rest) e'.
Proof.
  induction rest as [|p rest IH]; intros Hids done changed unknown e' Hall He'.
  { simpl. rewrite app_nil_r in Hall. subst all. intros _. by rewrite orb_false_r. }
  assert (all = (done ++ [p]) ++ rest) as Hall' by (by rewrite <- (assoc_L (++))).
  assert (forall q, q ∈ rest -> pTxID q <> ""%string) as Hids' by (intros q Hq; apply Hids; by right).
  cbn [replayLoop]. destruct (replayable p) eqn:Hp; cbn [negb existsb orb].
  2: { rewrite Hp. cbn [orb]. eapply IH; [done|done|]. destruct He' as (A1 & A2 & A3 & Ah & A4 & A5).
       split_and!; [done..| |]; [by rewrite replayTips_snoc, Hp|by rewrite replayPendings_snoc, Hp]. }
  pose proof He' as (A1 & A2 & A3 & Ah & A4 & A5).
  apply wpi_bind. cbn [wpi storeOp onQueue act].
  destruct (let '(b, q) := Queue.with_store (ds_CommitPending (pTxID p) (pSpent p) (pCreated p)) (e_queue e')
            in (b, set_queue q e')) as [r e1] eqn:Heq. cbn [fst snd].
  destruct (storeOp_effect _ _ e' e1 r (CommitPending_law (pTxID p) _ _ (Hids p ltac:(by left))) A1 Heq)
    as (Hd1 & Hm1 & Hl1 & Hq1 & _ & v & Ht & Hpe & Hv).
  assert (Queue.heap (e_queue e1) = Queue.heap (e_queue e)) as Hh1 by (by rewrite <- Ah).
  destruct r as [x|]; destruct Hv as [Ht1 Hp1].
  { split; [|done]. exists done, (p :: rest). split; [done|]. split_and!; congruence || done. }
  assert (replayed e (done ++ [p]) e1) as He1.
  { rewrite Ht in A4. rewrite Hpe in A5. split_and!; [done|congruence|congruence|done|..].
    - rewrite Ht1, replayTips_snoc, Hp, <- A4. done.
    - rewrite Hp1, replayPendings_snoc, Hp, <- A5. done. }
  split; [by exists (done ++ [p]), rest|]. apply wpi_bind.
  eapply wpi_mono; [..|apply (wpi_calm (replayed e (done ++ [p])))].
  - intros e2 He2. by exists (done ++ [p]), rest.
  - intros ? e2 He2. eapply wpi_mono; [intros ? Hi; exact Hi| |by apply (IH Hids' (done ++ [p]) true unknown e2)].
    intros res e3 Hres Hn. destruct (Hres Hn) as [Hr ->]. by rewrite Hp, orb_true_r.
  - intros e2 e3 He2. by apply replayed_calm.
  - case_bool_decide; [done|apply all_calm_stage].
  - done.
Qed.

(** Stop anywhere in [replayPending]: some first records have been replayed. *)
Lemma replayPending_spec (e : E) : durable e -> keyed (pendings e) ->
  wpi (fun e' => exists done rest, recordsOf (pendings e) = done ++ rest /\ replayed e done e')
    replayPending
    (fun res e' => res.2 = None -> replayed e (recordsOf (pendings e)) e' /\
       res.1 = existsb replayable (recordsOf (pendings e))) e.
Proof.
  intros Hd Hk. pose proof Hd as [[Hh Hs] [d Hst]]. rewrite Hst in Hs.
  assert (replayed e [] e) as Hr0 by (by split_and!).
  unfold replayPending. apply wpi_bind. cbn [wpi gets act fst snd]. rewrite Hst.
  split; [by exists [], (recordsOf (pendings e))|].
  destruct (ds_LoadPending d) as [m|x] eqn:Hload; [|done].
  assert (m = pendings e) as ->.
  { unfold pendings. rewrite Hst. by apply LoadPending_law. }
  fold (recordsOf (pendings e)). apply wpi_bind.
  eapply wpi_mono; [intros ? Hi; exact Hi| |apply (replayLoop_spec e (recordsOf (pendings e)) (recordsOf (pendings e))) with (done := []);
    [|done|done]].
  2: { intros p Hp. unfold recordsOf, sortRecords in Hp. rewrite merge_sort_Permutation in Hp.
       apply list_elem_of_fmap in Hp as ([x q] & -> & Hx%elem_of_map_to_list). simpl.
       by destruct (Hk x q Hx) as [-> ?]. }
  intros [[changed unknown] [x|]] e1 Hres; [done|]. destruct (Hres eq_refl) as [He1 Hch]. simpl in Hch.
  destruct (0 <? unknown); [|simpl; by rewrite Hch].
  apply wpi_bind. eapply wpi_mono; [..|apply (wpi_calm (replayed e (recordsOf (pendings e))))];
    [..|apply all_calm_stage|done].
  - intros e2 He2. exists (recordsOf (pendings e)), []. by rewrite app_nil_r.
  - intros ? e2 He2. apply wpi_bind.
    eapply wpi_mono; [..|apply (wpi_calm (replayed e (recordsOf (pendings e))))]; [..|apply all_calm_setStateNow|done].
    + intros e3 He3. exists (recordsOf (pendings e)), []. by rewrite app_nil_r.
    + intros ? e3 He3. simpl. by rewrite Hch.
    + intros e3 e4 He3. by apply replayed_calm.
  - intros e2 e3 He2. by apply replayed_calm.
Qed.

(** *** [restore] *)

Lemma queue_restore_effect (e : E) : durable e ->
  let '(r, q) := Queue.restore (e_queue e) in
  let e' := set_queue q e in
  quiet e e' /\ (r = None -> Queue.heap q ≡ₚ (map_to_list (tips e)).*2).
Proof.
  intros Hd. pose proof Hd as [Hwf [d Hst]].
  pose proof (Queue.restore_wf (e_queue e) Hwf) as Hwf'. pose proof (Queue.restore_heap (e_queue e) d Hwf Hst) as Hh.
  assert (Queue.store (Queue.restore (e_queue e)).2 = Some d) as Hst'.
  { unfold Queue.restore. rewrite Hst. by destruct (ds_LoadAll d). }
  destruct (Queue.restore (e_queue e)) as [r q]. simpl in *. split.
  - intros _. split_and!; [split; [done|by exists d]|done|..|done]; unfold tips, pendings; simpl; by rewrite Hst', Hst.
  - intros ->. unfold tips. rewrite Hst. by apply Hh.
Qed.

Lemma existsb_false_filter (l : list PendingBroadcast) :
  existsb replayable l = false -> filter (fun p => replayable p = true) l = [].
Proof.
  induction l as [|p l IH]; [done|]. simpl. rewrite orb_false_iff. intros [Hp Hl].
  rewrite filter_cons, IH by done. case_decide; [congruence|done].
Qed.

Lemma replayed_quiet e done (e1 e2 : E) : quiet e e1 -> durable e ->
  replayed e1 done e2 -> tips e2 = replayTips (tips e) done /\ pendings e2 = replayPendings (pendings e) done.
Proof. intros Hq Hd (_ & _ & _ & _ & -> & ->). by destruct (Hq Hd) as (_ & _ & -> & -> & _). Qed.

(** What is durable after the replay of the first records. *)
Definition replay_point (e e' : E) (done : list PendingBroadcast) : Prop :=
  durable e' /\ e_mode e' = e_mode e /\ e_log e' = e_log e /\
  tips e' = replayTips (tips e) done /\ pendings e' = replayPendings (pendings e) done.

Lemma replay_point_quiet e e1 e2 done : replay_point e e1 done -> quiet e1 e2 -> replay_point e e2 done.
Proof.
  intros (A1 & A2 & A3 & A4 & A5) Hq. destruct (Hq A1) as (B1 & B2 & B3 & B4 & B5). split_and!; congruence || done.
Qed.

Lemma replayed_point e e1 e2 done : quiet e e1 -> durable e -> replayed e1 done e2 -> replay_point e e2 done.
Proof.
  intros Hq Hd (A1 & A2 & A3 & _ & A4 & A5). destruct (Hq Hd) as (B1 & B2 & B3 & B4 & B5).
  rewrite B3, B4 in *. split_and!; congruence || done.
Qed.

(** What a restart may be given to begin with: nothing, or the stored tips as they
    were loaded, with the queue still empty. *)
Definition loaded (us : list UTXO) (e : E) : Prop :=
  us = [] \/ (us ≡ₚ (map_to_list (tips e)).*2 /\ queued e = []).

(** Saving stored tips again changes nothing. *)
Lemma saveAll_stored us (e : E) : durable e -> (forall u, u ∈ us -> tips e !! keyOf u = Some u) ->
  wpi (fun e' => quiet e e' /\ queued e' = queued e) (liftQueue (Queue.saveAll us))
    (fun _ e' => quiet e e' /\ queued e' = queued e) e.
Proof.
  intros Hd. assert (quiet e e /\ queued e = queued e) as Hq by (by split).
  enough (forall e1, quiet e e1 -> queued e1 = queued e -> (forall u, u ∈ us -> tips e !! keyOf u = Some u) ->
    wpi (fun e' => quiet e e' /\ queued e' = queued e) (liftQueue (Queue.saveAll us))
      (fun _ e' => quiet e e' /\ queued e' = queued e) e1) as Hgen by (intros; by apply Hgen).
  induction us as [|u us IH]; intros e1 Hq1 Hh1 Hus; [done|]. destruct (Hq1 Hd) as (Hd1 & Hm1 & Ht1 & Hp1 & Hl1).
  pose proof Hd1 as [[Hheap Hwf] [d Hst]]. rewrite Hst in Hwf.
  cbn [Queue.saveAll]. unfold mbind, prog_bind. cbn [act pbind liftQueue wpi].
  destruct (ds_SaveUTXO u d) as [r d'] eqn:Hs. destruct (SaveUTXO_law u d r d' Hwf Hs) as [Hwf' Hv].
  assert (Queue.with_store (ds_SaveUTXO u) (e_queue e1) = (r, Queue.mkQueue (Queue.heap (e_queue e1)) (Some d'))) as ->
    by (unfold Queue.with_store; by rewrite Hst, Hs).
  set (e2 := set_queue _ e1).
  assert (ds_view d' = ds_view d) as Hsame.
  { rewrite Hv. destruct r; [done|]. unfold saveUTXO_view. rewrite insert_id; [by destruct (ds_view d)|].
    specialize (Hus u ltac:(left)). rewrite <- Ht1 in Hus. unfold tips in Hus. by rewrite Hst in Hus. }
  assert (quiet e e2 /\ queued e2 = queued e) as [Hq2 Hh2].
  { split; [|exact Hh1]. intros _. split_and!; [split; [by split|by exists d']|exact Hm1|..|exact Hl1].
    - rewrite <- Ht1. unfold tips, e2. simpl. by rewrite Hst, Hsame.
    - rewrite <- Hp1. unfold pendings, e2. simpl. by rewrite Hst, Hsame. }
  split; [by split|]. cbn [fst]. destruct r; cbn [pbind liftQueue wpi]; [by split|]. apply IH; [done|done|]. intros w Hw. apply Hus. by right.
Qed.

Lemma seedQueue_spec us (e : E) : durable e -> loaded us e ->
  wpi (quiet e) (seedQueue us) (fun r e' => quiet e e' /\ (r = None -> queued e' ≡ₚ (map_to_list (tips e)).*2)) e.
Proof.
  intros Hd Hl. destruct us as [|u us].
  { cbn [seedQueue]. apply wpi_bind. cbn [wpi onQueue act].
    pose proof (queue_restore_effect e Hd) as He1. destruct (Queue.restore (e_queue e)) as [r1 q1].
    destruct He1 as [Hq1 Hheap1]. cbn [fst snd]. split; [done|]. split; [done|]. destruct r1; [done|]. intros _. by apply Hheap1. }
  destruct Hl as [?|[Hl Hempty]]; [done|]. cbn [seedQueue]. apply wpi_bind.
  eapply wpi_mono; [|idtac|apply under_alone, (pushAll_spec _ [] e); [apply quiet_refl|done|apply quiet_refl|by rewrite Hempty]].
  { done. }
  intros [] e1 [Hq1 Hh1]. rewrite app_nil_r in Hh1.
  destruct (Hq1 Hd) as (Hd1 & Hm1 & Ht1 & Hp1 & Hl1).
  assert (forall e2, quiet e1 e2 -> quiet e e2) as Htrans.
  { intros e2 Hq2 _. destruct (Hq2 Hd1) as (? & ? & ? & ? & ?). split_and!; congruence || done. }
  pose proof Hd1 as [_ [d Hst]].
  apply wpi_bind. unfold Queue.persistAll, mbind, prog_bind. cbn [gets act pbind liftQueue wpi fst snd].
  assert (set_queue (e_queue e1) e1 = e1) as Hid by (by destruct e1). rewrite !Hid.
  split; [done|]. split; [done|]. rewrite Hst.
  eapply wpi_mono; [| |apply (saveAll_stored (Queue.heap (e_queue e1)) e1 Hd1)].
  - intros e2 [Hq2 _]. by apply Htrans.
  - intros r e2 [Hq2 Hh2]. cbn [wpi]. split; [by apply Htrans|]. intros _. by rewrite Hh2, Hh1, Hl.
  - intros w Hw. unfold queued in Hh1. rewrite Hh1, Hl in Hw. apply list_elem_of_fmap in Hw as ([k x] & -> & Hk%elem_of_map_to_list).
    simpl. pose proof Hd as [[_ Hwf] [d0 Hst0]]. rewrite Hst0 in Hwf. rewrite Ht1.
    assert (k = keyOf x) as <-; [|done]. unfold tips in Hk. rewrite Hst0 in Hk. by apply (utxos_keyed d0).
Qed.

Lemma restore_spec us (e : E) : durable e -> loaded us e -> keyed (pendings e) ->
  wpi (fun e' => exists done rest, recordsOf (pendings e) = done ++ rest /\ replay_point e e' done)
    (restore us)
    (fun r e' => r = None -> replay_point e e' (recordsOf (pendings e)) /\
       Queue.heap (e_queue e') ≡ₚ (map_to_list (tips e')).*2) e.
Proof.
  intros Hd Hload Hk. set (all := recordsOf (pendings e)).
  set (I := fun e' => exists done rest, all = done ++ rest /\ replay_point e e' done).
  assert (forall e', quiet e e' -> I e') as HI0.
  { intros e' Hq. exists [], all. split; [done|]. destruct (Hq Hd) as (B1 & B2 & B3 & B4 & B5). by split_and!. }
  assert (forall e', replay_point e e' all -> I e') as HIall.
  { intros e' He'. exists all, []. by rewrite app_nil_r. }
  unfold restore. apply wpi_bind. cbn [wpi gets act fst snd].
  pose proof Hd as [_ [d Hst]]. rewrite Hst. split; [apply HI0; by intros _|].
  apply wpi_bind. eapply wpi_mono; [exact HI0| |by apply seedQueue_spec].
  intros r1 e1 [Hq1 Hheap1]. destruct r1 as [x|]; [by intros [=]|]. specialize (Hheap1 eq_refl). unfold resumeStored.
  destruct (Hq1 Hd) as (Hd1 & _ & Ht1 & Hp1 & _).
  apply wpi_bind. eapply wpi_mono; [..|apply (replayPending_spec e1 Hd1); by rewrite Hp1].
  { rewrite Hp1. intros e2 (done & rest & Hall & He2). exists done, rest. split; [done|].
    by eapply replayed_point. }
  rewrite Hp1. fold all. intros [changed [x|]] e2 Hres; [done|].
  destruct (Hres eq_refl) as [He2 Hch]. simpl in Hch. pose proof (replayed_point e e1 e2 all Hq1 Hd He2) as Hpt.
  apply wpi_bind.
  (* the queue is reloaded when something was replayed *)
  assert (wpi I (if changed : bool then onQueue Queue.restore else Ret None)
    (fun r e3 => r = None -> replay_point e e3 all /\ Queue.heap (e_queue e3) ≡ₚ (map_to_list (tips e3)).*2) e2) as Hreload.
  { destruct changed.
    - cbn [wpi onQueue act]. pose proof (queue_restore_effect e2 (proj1 Hpt)) as He3.
      destruct (Queue.restore (e_queue e2)) as [r3 q3]. destruct He3 as [Hq3 Hheap3]. cbn [fst snd].
      assert (replay_point e (set_queue q3 e2) all) by (by eapply replay_point_quiet).
      split; [by apply HIall|]. intros Hr. split; [done|]. destruct (Hq3 (proj1 Hpt)) as (_ & _ & -> & _). by apply Hheap3.
    - intros _. split; [done|]. destruct He2 as (_ & _ & _ & Hh2 & Ht2 & _).
      rewrite Hh2, Ht2. unfold replayTips. rewrite existsb_false_filter by done. simpl. by rewrite Ht1. }
  eapply wpi_mono; [intros ? Hi; exact Hi| |exact Hreload]. intros [x|] e3 Hr3; [done|]. destruct (Hr3 eq_refl) as [Hpt3 Hheap3].
  apply wpi_bind. cbn [wpi gets act fst snd]. split; [by apply HIall|].
  destruct (option_map _ _) as [[stage|x]|]; [|done..].
  case_bool_decide; [done|]. simpl. split; [apply HIall; by eapply replay_point_quiet|].
  split; [apply HIall; by eapply replay_point_quiet|]. intros _. split; [by eapply replay_point_quiet|done].
Qed.
End replay.

(** ** The records of a keyed bucket *)

Section records.
Implicit Types (m : gmap string PendingBroadcast) (l done rest : list PendingBroadcast).

Lemma records_elem m p : p ∈ recordsOf m <-> exists x, m !! x = Some p.
Proof.
  unfold recordsOf, sortRecords. rewrite merge_sort_Permutation, list_elem_of_fmap. split.
  - intros ([x q] & -> & Hx%elem_of_map_to_list). by exists x.
  - intros [x Hx]. exists (x, p). by rewrite elem_of_map_to_list.
Qed.

Lemma keyed_records_elem m p : keyed m -> p ∈ recordsOf m <-> m !! pTxID p = Some p.
Proof.
  intros Hk. rewrite records_elem. split; [|by eauto]. intros [x Hx]. by destruct (Hk x p Hx) as [-> _].
Qed.

Lemma keyed_ids_NoDup m : keyed m -> NoDup (pTxID <$> (map_to_list m).*2).
Proof.
  intros Hk. assert ((pTxID <$> (map_to_list m).*2) = (map_to_list m).*1) as ->; [|apply NoDup_fst_map_to_list].
  rewrite <- list_fmap_compose. apply list_fmap_ext. intros i [x p] Hi. simpl.
  apply list_elem_of_lookup_2, elem_of_map_to_list in Hi. by destruct (Hk x p Hi).
Qed.

Lemma records_NoDup m : keyed m -> NoDup (pTxID <$> recordsOf m).
Proof.
  intros Hk. unfold recordsOf, sortRecords. rewrite merge_sort_Permutation. by apply keyed_ids_NoDup.
Qed.

Lemma replayPendings_lookup m done x :
  replayPendings m done !! x =
  if decide (x ∈ pTxID <$> filter (fun p => replayable p = true) done) then None else m !! x.
Proof.
  unfold replayPendings. generalize (filter (fun p => replayable p = true) done). clear done. intros l.
  revert m. induction l as [|p l IH]; intros m; [done|]. cbn [foldl]. rewrite IH.
  destruct (decide (x = pTxID p)) as [->|Hne].
  - rewrite lookup_delete_eq. rewrite (decide_True (P := pTxID p ∈ pTxID <$> p :: l)) by set_solver. by case_decide.
  - rewrite lookup_delete_ne by done. destruct (decide (x ∈ pTxID <$> l)).
    + by rewrite decide_True by set_solver.
    + by rewrite decide_False by set_solver.
Qed.

Lemma replayPendings_keyed m done : keyed m -> keyed (replayPendings m done).
Proof. intros Hk x p. rewrite replayPendings_lookup. case_decide; [done|]. apply Hk. Qed.

(** The records that a replay of [done] leaves. *)
Definition left_by (done : list PendingBroadcast) (p : PendingBroadcast) : Prop :=
  ~ (p ∈ done /\ replayable p = true).

#[export] Instance left_by_dec done p : Decision (left_by done p).
Proof. unfold left_by. apply _. Defined.

Lemma records_after m done rest : keyed m -> recordsOf m = done ++ rest ->
  recordsOf (replayPendings m done) = filter (left_by done) (recordsOf m).
Proof.
  intros Hk Hsplit. unfold recordsOf at 2. rewrite <- SortOrder.sortRecords_filter by (by apply keyed_ids_NoDup).
  apply SortOrder.sortRecords_unique; [by apply keyed_ids_NoDup, replayPendings_keyed|].
  apply NoDup_Permutation.
  - by eapply NoDup_fmap_1, keyed_ids_NoDup, replayPendings_keyed.
  - by apply NoDup_filter, (NoDup_fmap_1 pTxID), keyed_ids_NoDup.
  - intros p. rewrite list_elem_of_filter.
    assert (forall m, p ∈ (map_to_list m).*2 <-> p ∈ recordsOf m) as Hrec.
    { intros m'. unfold recordsOf, sortRecords. by rewrite merge_sort_Permutation. }
    rewrite !Hrec, !keyed_records_elem by (done || by apply replayPendings_keyed).
    rewrite replayPendings_lookup. unfold left_by. case_decide as Hin.
    + split; [done|]. intros [Hleft Hp]. exfalso. apply Hleft.
      apply list_elem_of_fmap in Hin as (q & Heq & [Hq Hqd]%list_elem_of_filter).
      assert (m !! pTxID q = Some q) as Hmq.
      { apply keyed_records_elem; [done|]. rewrite Hsplit. apply elem_of_app. by left. }
      rewrite <- Heq, Hp in Hmq. by injection Hmq as ->.
    + split; [|by intros [_ ?]]. intros Hp. split; [|done]. intros [Hd Hr]. apply Hin.
      apply list_elem_of_fmap. exists p. split; [done|]. by apply list_elem_of_filter.
Qed.

(** A full replay leaves the records without a transition. *)
Lemma replay_all_lookup m x : keyed m ->
  replayPendings m (recordsOf m) !! x =
  match m !! x with Some p => if replayable p then None else Some p | None => None end.
Proof.
  intros Hk. rewrite replayPendings_lookup.
  destruct (m !! x) as [p|] eqn:Hx; [|by case_decide].
  destruct (Hk x p Hx) as [Hid _]. destruct (replayable p) eqn:Hr.
  - rewrite decide_True; [done|]. rewrite <- Hid. apply list_elem_of_fmap_2, list_elem_of_filter.
    split; [done|]. apply records_elem. eauto.
  - rewrite decide_False; [done|]. intros (q & -> & [Hq Hin]%list_elem_of_filter)%list_elem_of_fmap.
    apply keyed_records_elem in Hin; [|done]. congruence.
Qed.

Lemma replay_resumes_pendings m done rest : keyed m -> recordsOf m = done ++ rest ->
  replayPendings (replayPendings m done) (recordsOf (replayPendings m done)) = replayPendings m (recordsOf m).
Proof.
  intros Hk Hsplit. apply map_eq. intros x.
  rewrite !replay_all_lookup by (done || by apply replayPendings_keyed).
  rewrite replayPendings_lookup. case_decide as Hin; [|done].
  apply list_elem_of_fmap in Hin as (q & -> & [Hq Hqd]%list_elem_of_filter).
  assert (m !! pTxID q = Some q) as ->; [|by rewrite Hq].
  apply keyed_records_elem; [done|]. rewrite Hsplit. apply elem_of_app. by left.
Qed.

(** Replaying the rest after a crash finishes the replay. *)
Lemma replay_resumes m (t : gmap string UTXO) done rest : keyed m -> recordsOf m = done ++ rest ->
  replayTips (replayTips t done) (recordsOf (replayPendings m done)) = replayTips t (recordsOf m).
Proof.
  intros Hk Hsplit. rewrite (records_after m done rest Hk Hsplit). unfold replayTips.
  rewrite <- foldl_app. f_equal. rewrite Hsplit, !filter_app.
  assert (NoDup (done ++ rest)) as Hnd.
  { rewrite <- Hsplit. by eapply NoDup_fmap_1, records_NoDup. }
  apply NoDup_app in Hnd as (_ & Hdis & _).
  assert (filter (fun p => replayable p = true) (filter (left_by done) done) = []) as ->.
  { apply filter_none. intros p [Hleft Hp]%list_elem_of_filter Hr. by apply Hleft. }
  rewrite (filter_all (left_by done) rest); [done|]. intros p Hp [Hpd _]. by apply (Hdis p).
Qed.
End records.

(** ** Properties *)

Section properties.
Context `{SdkLaws} `{!TxidLaws} `{Prometheus} {D : Type} `{DurableStoreLaws D} {W : Type} `{World W}.

Abbreviation E := (Engine (D:=D) (W:=W)).

(** C8: a restart replays what a crash left pending: every record that carries a
    transition is applied to the stored tips, oldest first, and is gone from the
    store; a record without one stays; and the queue is exactly the stored tips
    that result. *)
Theorem restore_replays us (e e' : E) :
  durable e -> loaded us e -> keyed (pendings e) -> run (restore us) e = (None, e') ->
  tips e' = replayTips (tips e) (recordsOf (pendings e)) /\
  (forall x, pendings e' !! x =
     match pendings e !! x with Some p => if replayable p then None else Some p | None => None end) /\
  Queue.heap (e_queue e') ≡ₚ (map_to_list (tips e')).*2.
Proof.
  intros Hd Hl Hk Hrun. pose proof (restore_spec us e Hd Hl Hk) as Hwp.
  destruct (wpi_run _ _ _ _ _ _ Hwp Hrun eq_refl) as [(_ & _ & _ & Ht & Hp) Hh].
  split_and!; [done| |done]. intros x. rewrite Hp. by apply replay_all_lookup.
Qed.

(** C9: a restart may itself be cut short.  Stop [restore] anywhere, restart on
    what is stored then, and the tips and the pending records come out the same
    as if the first restart had been left to finish. *)
Theorem restore_restartable us us2 (e e1 e2 ea eb : E) :
  durable e -> loaded us e -> keyed (pendings e) -> reaches (restore us) e e1 ->
  durable e2 -> loaded us2 e2 -> tips e2 = tips e1 -> pendings e2 = pendings e1 ->
  run (restore us) e = (None, ea) -> run (restore us2) e2 = (None, eb) ->
  tips eb = tips ea /\ pendings eb = pendings ea.
Proof.
  intros Hd Hl Hk Hreach Hd2 Hl2 Ht2 Hp2 Hra Hrb. pose proof (restore_spec us e Hd Hl Hk) as Hwp.
  assert (exists done rest, recordsOf (pendings e) = done ++ rest /\ replay_point e e1 done)
    as (done & rest & Hsplit & (_ & _ & _ & Ht1 & Hp1)).
  { refine (wpi_reaches _ _ _ _ e1 _ Hwp Hreach). exists [], (recordsOf (pendings e)). by split. }
  destruct (wpi_run _ _ _ _ _ _ Hwp Hra eq_refl) as [(_ & _ & _ & Hta & Hpa) _].
  assert (keyed (pendings e2)) as Hk2 by (rewrite Hp2, Hp1; by apply replayPendings_keyed).
  destruct (wpi_run _ _ _ _ _ _ (restore_spec us2 e2 Hd2 Hl2 Hk2) Hrb eq_refl) as [(_ & _ & _ & Htb & Hpb) _].
  rewrite Ht2, Hp2, Ht1, Hp1 in Htb. rewrite Hp2, Hp1 in Hpb. split.
  - rewrite Htb, Hta. by eapply replay_resumes.
  - rewrite Hpb, Hpa. by eapply replay_resumes_pendings.
Qed.
End properties.

(** ** Restarting *)

Section restart.
Context `{SdkLaws} `{!TxidLaws} `{Prometheus} {D : Type} `{DurableStoreLaws D} {W : Type} `{World W}.

Abbreviation E := (Engine (D:=D) (W:=W)).

(** What a crash of goroutines on their lanes leaves. *)
Definition crash_state (lanes : list lane) (e : E) : Prop :=
  durable e /\ (forall l, l ∈ lanes -> lane_safe l e) /\
  (forall x p, pendings e !! x = Some p -> exists l, l ∈ lanes /\ ln_txid l x).

(** Every transition of the lane can be replayed. *)
Definition redoes (l : lane) : Prop := forall n p, ln_rec l n = Some p -> replayable p = true.

Lemma stamp_fields t p : pTxID (stamp t p) = pTxID p /\ pSpent (stamp t p) = pSpent p /\
  pCreated (stamp t p) = pCreated p.
Proof using. unfold stamp. by destruct (pSavedAt p =? 0). Qed.

Lemma stamp_replayable t p : replayable (stamp t p) = replayable p.
Proof using. unfold replayable. by destruct (stamp_fields t p) as (_ & -> & ->). Qed.

Lemma tips_in_queue (e : E) w : durable e -> Queue.heap (e_queue e) ≡ₚ (map_to_list (tips e)).*2 ->
  w ∈ Queue.heap (e_queue e) <-> tips e !! keyOf w = Some w.
Proof.
  intros [[_ Hd] [d Hst]] ->. rewrite Hst in Hd. rewrite list_elem_of_fmap. split.
  - intros ([k u] & -> & Hk%elem_of_map_to_list). simpl.
    assert (k = keyOf u) as <-; [|done]. unfold tips in Hk. rewrite Hst in Hk. by apply (utxos_keyed d).
  - intros Hw. exists (keyOf w, w). by rewrite elem_of_map_to_list.
Qed.

Section lanes.
Context (lanes : list lane) (Hwf : lanes_wf lanes) (Hre : forall l, l ∈ lanes -> redoes l).

(** A pending record is of a transition of one of the lanes. *)
Lemma lane_record (e : E) x r : crash_state lanes e -> pendings e !! x = Some r ->
  x = pTxID r /\ x <> ""%string /\ exists i l n p t, lanes !! i = Some l /\ ln_rec l n = Some p /\ r = stamp t p.
Proof using Hwf.
  intros (_ & Hs & Hp) Hx. destruct (Hp x r Hx) as (l & Hin & Hl). pose proof Hin as [i Hi]%list_elem_of_lookup.
  destruct (Hs l Hin) as (n & acc & h & (_ & _ & _ & B3 & _) & _). specialize (B3 x Hl).
  assert (exists p t, ln_rec l n = Some p /\ x = pTxID p /\ pendings e !! x = Some (stamp t p)) as (p & t & Hrec & -> & Hx')
    by (destruct h; [congruence|..]; destruct B3; congruence || done).
  rewrite Hx in Hx'. injection Hx' as ->. destruct (stamp_fields t p) as [-> _].
  split; [done|]. split; [|by exists i, l, n, p, t]. by apply (lane_txid _ (proj1 Hwf i l Hi) n p).
Qed.

Lemma crash_keyed (e : E) : crash_state lanes e -> keyed (pendings e).
Proof using Hwf. intros He x r Hx. destruct (lane_record e x r He Hx) as (-> & ? & _). done. Qed.

Lemma crash_replayable (e : E) x r : crash_state lanes e -> pendings e !! x = Some r -> replayable r = true.
Proof using All.
  intros He Hx. destruct (lane_record e x r He Hx) as (_ & _ & i & l & n & p & t & Hi & Hp & ->).
  rewrite stamp_replayable. eapply Hre; [by eapply list_elem_of_lookup_2|done].
Qed.

(** A record of another lane does not touch this one. *)
Lemma other_lane_record i j l l' n p t T : lanes !! i = Some l -> lanes !! j = Some l' -> i <> j -> ln_rec l' n = Some p ->
  agree (ln_key l) (applyRecord T (stamp t p)) T.
Proof using All.
  intros Hi Hj Hne Hp k Hk. unfold applyRecord. destruct (stamp_fields t p) as (_ & -> & ->).
  destruct (proj2 Hwf i j l l' Hi Hj Hne) as (Hdis & _). pose proof (lane_keys _ (proj1 Hwf j l' Hj) n p) as Hkeys.
  apply apply_tips_other; intros u Hu; [|intros _]; intros <-; apply (Hdis _ Hk), Hkeys; try done; set_solver.
Qed.

(** A record under the id of a transition is that of the transition. *)
Lemma own_record i l n p (e : E) r : lanes !! i = Some l -> crash_state lanes e -> ln_rec l n = Some p ->
  pendings e !! pTxID p = Some r -> exists t, r = stamp t p.
Proof using All.
  intros Hi He Hp Hr. destruct (lane_record e _ r He Hr) as (Hid & _ & j & l' & k & p' & t & Hj & Hp' & ->).
  destruct (stamp_fields t p') as (Hid' & _). rewrite Hid' in Hid. destruct (decide (i = j)) as [<-|Hne].
  - simplify_eq. assert (k = n) as ->; [|by simplify_eq; exists t]. by apply (lane_inj _ (proj1 Hwf i _ Hi) k n p' p).
  - destruct (proj2 Hwf i j l l' Hi Hj Hne) as (_ & Hdis & _). exfalso.
    apply (Hdis (pTxID p)); [by apply (lane_txid _ (proj1 Hwf i l Hi) n p)|]. rewrite Hid.
    by apply (lane_txid _ (proj1 Hwf j l' Hj) k p').
Qed.

(** Where a lane at [n] is after the replay. *)
Definition replayed_to (l : lane) (n : nat) (e : E) : nat :=
  match ln_rec l n with
  | Some p => match pendings e !! pTxID p with Some _ => S n | None => n end
  | None => n
  end.

(** Records of which none is of this lane. *)
Lemma other_lane_records i l rs T : lanes !! i = Some l ->
  (forall r, r ∈ rs -> exists j l' n p t, lanes !! j = Some l' /\ i <> j /\ ln_rec l' n = Some p /\ r = stamp t p) ->
  agree (ln_key l) (foldl applyRecord T rs) T.
Proof using All.
  intros Hi. revert T. induction rs as [|r rs IH]; intros T Hrs; [done|]. cbn [foldl].
  eapply agree_trans; [apply IH; intros r' Hr'; apply Hrs; by right|].
  destruct (Hrs r) as (j & l' & n & p & t & Hj & Hne & Hp & ->); [by left|]. by eapply other_lane_record.
Qed.

(** The tips of a lane after the replay of all that is pending. *)
Lemma replay_lane i l n (e : E) : lanes !! i = Some l -> crash_state lanes e -> agree (ln_key l) (tips e) (ln_tips l n) ->
  (forall k p, ln_rec l k = Some p -> is_Some (pendings e !! pTxID p) -> k = n) ->
  agree (ln_key l) (replayTips (tips e) (recordsOf (pendings e))) (ln_tips l (replayed_to l n e)).
Proof using All.
  intros Hi He Hat Hown. pose proof (crash_keyed e He) as Hk. set (rs := recordsOf (pendings e)).
  assert (forall r, r ∈ rs -> pendings e !! pTxID r = Some r) as Hin by (intros r; by apply keyed_records_elem).
  unfold replayTips. rewrite filter_all by (intros r Hr; by eapply crash_replayable; [done|apply Hin]).
  assert (forall rs', (forall r, r ∈ rs' -> r ∈ rs) -> (forall p r, ln_rec l n = Some p -> r ∈ rs' -> pTxID r <> pTxID p) ->
    forall T, agree (ln_key l) (foldl applyRecord T rs') T) as Hothers.
  { intros rs' Hsub Hno T. eapply other_lane_records; [done|]. intros r Hr. pose proof (Hin r (Hsub r Hr)) as Hx.
    destruct (lane_record e _ r He Hx) as (_ & _ & j & l' & k & p & t & Hj & Hp & Hrp). exists j, l', k, p, t. split_and!; try done.
    intros <-. simplify_eq. destruct (stamp_fields t p) as [Hid _].
    assert (k = n) as -> by (apply (Hown k p Hp); rewrite Hid in Hx; by rewrite Hx). by apply (Hno p _ Hp Hr). }
  unfold replayed_to. destruct (ln_rec l n) as [p|] eqn:Hp; [|eapply agree_trans; [by apply Hothers|done]].
  destruct (pendings e !! pTxID p) as [r|] eqn:Hr.
  2: { eapply agree_trans; [apply Hothers; [done|]|done]. intros p' r [= <-] Hrin Heq. apply Hin in Hrin. congruence. }
  destruct (own_record i l n p e r Hi He Hp Hr) as [t ->]. destruct (stamp_fields t p) as (Hid & Hsp & Hcr).
  assert (stamp t p ∈ rs) as (l1 & l2 & Hl)%list_elem_of_split by (apply keyed_records_elem; [done|]; by rewrite Hid).
  assert (NoDup (pTxID <$> rs)) as Hnd by (by apply records_NoDup).
  rewrite Hl, fmap_app, fmap_cons in Hnd. apply NoDup_app in Hnd as (_ & Hd1 & [Hd2 _]%NoDup_cons).
  rewrite Hl, foldl_app. cbn [foldl]. eapply agree_trans; [apply Hothers|].
  { intros r' Hr'. rewrite Hl. set_solver. }
  { intros p' r' [= <-] Hr' Heq. apply Hd2. rewrite Hid, <- Heq. by apply list_elem_of_fmap_2. }
  cbn [ln_tips]. rewrite Hp. unfold applyRecord. rewrite Hsp, Hcr.
  apply apply_tips_agree. eapply agree_trans; [apply Hothers|done].
  { intros r' Hr'. rewrite Hl. set_solver. }
  { intros p' r' [= <-] Hr' Heq. eapply (Hd1 (pTxID p)); [|rewrite Hid; set_solver]. rewrite <- Heq. by apply list_elem_of_fmap_2. }
Qed.

(** A replay changes only what belongs to a lane. *)
Lemma replay_new (e : E) k u : crash_state lanes e -> replayTips (tips e) (recordsOf (pendings e)) !! k = Some u ->
  tips e !! k = Some u \/ exists l, l ∈ lanes /\ ln_key l k.
Proof using All.
  intros He. unfold replayTips.
  assert (forall r, r ∈ filter (fun p => replayable p = true) (recordsOf (pendings e)) ->
    exists i l n p t, lanes !! i = Some l /\ ln_rec l n = Some p /\ r = stamp t p) as Hrs.
  { intros r [_ Hr%keyed_records_elem]%list_elem_of_filter; [|by apply crash_keyed]. by apply (lane_record e (pTxID r) r He). }
  revert Hrs. generalize (tips e). induction (filter _ (recordsOf _)) as [|r rs IH]; intros T Hrs Hk; [by left|]. cbn [foldl] in Hk.
  destruct (IH _ ltac:(intros r' ?; apply Hrs; by right) Hk) as [Hu|?]; [|by right].
  destruct (Hrs r) as (i & l & n & p & t & Hi & Hp & ->); [by left|]. unfold applyRecord in Hu.
  destruct (stamp_fields t p) as (_ & Hsp & Hcr). rewrite Hsp, Hcr in Hu.
  destruct (decide (k ∈ (fun w => keyOf w) <$> pSpent p ++ pCreated p)) as [(w & -> & Hw)%list_elem_of_fmap|Hn].
  - right. exists l. split; [by eapply list_elem_of_lookup_2|]. by apply (lane_keys _ (proj1 Hwf i l Hi) n p).
  - left. rewrite apply_tips_other in Hu; [done|..]; intros w Hw; [|intros _]; intros <-; apply Hn, list_elem_of_fmap; exists w; set_solver.
Qed.

(** The lane has gone on from what [e] left to [n] transitions: those that the network
    had accepted, and perhaps one more that was pending. *)
Definition goes_on (l : lane) (n : nat) (e e2 : E) : Prop :=
  ln_reaches l n /\ agree (ln_key l) (tips e2) (ln_tips l n) /\
  exists a, (n = a \/ n = S a /\ exists p, ln_rec l a = Some p /\ is_Some (pendings e !! pTxID p)) /\
    (forall k p, ln_rec l k = Some p -> (p, true) ∈ e_log e <-> (k < a)%nat).

(** All of them have; nothing is pending, and the queue is what is stored. *)
Record resumed (e e2 : E) : Prop := {
  res_durable : durable e2;
  res_pendings : pendings e2 = ∅;
  res_queue : queued e2 ≡ₚ (map_to_list (tips e2)).*2;
  res_lanes l : l ∈ lanes -> exists n, goes_on l n e e2;
  res_tips k u : tips e2 !! k = Some u -> tips e !! k = Some u \/ exists l, l ∈ lanes /\ ln_key l k;
}.

Lemma resumed_same (e e2 e3 : E) : e_queue e3 = e_queue e2 -> resumed e e2 -> resumed e e3.
Proof using.
  intros Hq [Hd Hp Hh Hl Ht]. unfold durable, goes_on, queued, tips, pendings in *. split; unfold durable, goes_on, queued, tips, pendings; by rewrite Hq.
Qed.

(** A restart on what a crash of the lanes left. *)
Lemma restart_lanes us (e e1 e2 : E) : crash_state lanes e ->
  durable e1 -> loaded us e1 -> tips e1 = tips e -> pendings e1 = pendings e -> run (restore us) e1 = (None, e2) ->
  e_mode e2 = e_mode e1 /\ e_log e2 = e_log e1 /\ resumed e e2.
Proof using All.
  intros He Hd1 Hl1 Ht1 Hp1 Hrun. pose proof (crash_keyed e He) as Hk. rewrite <- Hp1 in Hk.
  destruct (wpi_run _ _ _ _ _ _ (restore_spec us e1 Hd1 Hl1 Hk) Hrun eq_refl) as [(Hd2 & Hm2 & Hlog2 & Ht2 & Hp2) Hheap].
  rewrite Hp1, Ht1 in Ht2. rewrite Hp1 in Hp2, Hk. split; [done|]. split; [done|]. split; try done.
  - apply map_eq. intros x. rewrite Hp2, replay_all_lookup, lookup_empty by done.
    destruct (pendings e !! x) as [r|] eqn:Hx; [|done]. by rewrite (crash_replayable e x r He Hx).
  - intros l Hl. pose proof Hl as [i Hi]%list_elem_of_lookup. pose proof He as (_ & Hsafe & _).
    destruct (Hsafe l Hl) as (n & acc & h & (B0 & B1 & B2 & B3 & B4) & Hh). exists (replayed_to l n e).
    assert (forall k p, ln_rec l k = Some p -> is_Some (pendings e !! pTxID p) -> k = n) as Hown.
    { intros k p Hp [r Hx]. specialize (B3 (pTxID p) (proj1 (lane_txid _ (proj1 Hwf i l Hi) k p Hp))).
      destruct h; [congruence|..]; destruct B3 as [|(p' & t' & Hp' & Heq & _)]; try congruence;
        by eapply (lane_inj _ (proj1 Hwf i l Hi)). }
    split_and!; [|rewrite Ht2; by eapply replay_lane|exists (if acc then S n else n); split; [|done]]; unfold replayed_to.
    + destruct (ln_rec l n) as [p|] eqn:Hp; [|done]. destruct (pendings e !! pTxID p); [by exists p|done].
    + destruct (ln_rec l n) as [p|] eqn:Hp.
      2: { left. destruct acc; [|done]. destruct (B4 (Hh eq_refl)) as (p & t & Hp' & _). congruence. }
      destruct (pendings e !! pTxID p) as [r|] eqn:Hx.
      2: { left. destruct acc; [|done]. destruct (B4 (Hh eq_refl)) as (p' & t & Hp' & Hx'). simplify_eq. }
      destruct acc; [by left|right]. split; [done|]. exists p. by rewrite Hx.
  - intros k u Hu. rewrite Ht2 in Hu. by apply replay_new.
Qed.
End lanes.

Lemma chain_redoes m s : redoes (chain_lane m s).
Proof using. intros n p (u & tx & next & _ & _ & -> & _)%hopAt_Some. done. Qed.

Lemma chain_lanes_redo m us l : l ∈ chain_lanes m us -> redoes l.
Proof using. by intros [->|(s & _ & ->)]%chain_lanes_elem; [|apply chain_redoes]. Qed.

Lemma chains_crash m seeds (e : E) : chains_inv m seeds e -> crash_state (chain_lanes m seeds) e.
Proof using.
  intros (Hd & Hs & Hp). split_and!; [done|..].
  - intros l [->|(s & Hin & ->)]%chain_lanes_elem; [apply idle_lane_safe|by apply Hs].
  - intros x p Hx. destruct (Hp x p Hx) as (s & Hin & Hl). exists (chain_lane m s). split; [|done]. apply chain_lanes_elem. right. by exists s.
Qed.

(** A restart on what a crash of the chains left: every chain continues from one
    tip, the one after the last hop the network accepted, or, when one more hop was
    pending, the one after that; the queue holds that tip (unless it is worth
    nothing) and no other tip of the chain, and nothing of the chain is pending. *)
Lemma resumed_chain m seeds (e' e2 : E) s : independent m seeds -> s ∈ seeds -> Value s <> 0 -> resumed (chain_lanes m seeds) e' e2 ->
  exists n a, (n = a \/ n = S a /\ exists p, hopAt m s a = Some p /\ is_Some (pendings e' !! pTxID p)) /\
    (forall k p, hopAt m s k = Some p -> (p, true) ∈ e_log e' <-> (k < a)%nat) /\
    (forall k w, tipAt m s k = Some w -> w ∈ Queue.heap (e_queue e2) <-> k = n /\ Value w <> 0) /\
    (forall k p, hopAt m s k = Some p -> pendings e2 !! pTxID p = None).
Proof.
  intros Hind Hs Hval [Hd2 Hp2 Hheap Hlanes _].
  destruct (Hlanes (chain_lane m s)) as (n & Hreach & Hag & a & Ha & Hacc); [apply chain_lanes_elem; right; by exists s|].
  exists n, a. split_and!; try done; [|by intros k p _; rewrite Hp2].
  intros k w Hw. rewrite (tips_in_queue e2 w Hd2 Hheap), (Hag (keyOf w)) by (by exists k, w).
  apply tipAt_reached in Hreach as [t Ht]. rewrite (lane_tip_lookup m _ s n t k w Hind Hs) by done.
  destruct (Nat.eqb_spec k n), (Z.eqb_spec (Value w) 0); naive_solver.
Qed.
End restart.

(** ** A restart that does not fail *)

Section total.
Context `{SdkLaws} `{!TxidLaws} `{Prometheus} {D : Type} `{DurableStoreLaws D} {W : Type} `{World W}.
Context (fine : D -> Prop) `{!ReliableStore fine}.

Abbreviation E := (Engine (D:=D) (W:=W)).
Abbreviation code := (prog E).

(** The engine's store is fine. *)
Definition stored_fine (e : E) : Prop := exists d, Queue.store (e_queue e) = Some d /\ fine d.

(** [p] from [e] returns without an error, as [r] says, and the store is fine then. *)
Definition succeeds {A} (p : code A) (r : A -> Prop) (e : E) : Prop := wpi (fun _ => True) p (fun a e' => r a /\ stored_fine e') e.

Lemma succeeds_bind {A B} (p : code A) (g : A -> code B) (r : A -> Prop) r' e :
  succeeds p r e -> (forall a e', r a -> stored_fine e' -> succeeds (g a) r' e') -> succeeds (p ≫= g) r' e.
Proof using. intros Hp Hg. apply wpi_bind. eapply wpi_mono; [done| |exact Hp]. intros a e' [Ha He]. by apply Hg. Qed.

Lemma succeeds_gets {A B} (f : E -> B) (g : B -> code A) r e : succeeds (g (f e)) r e -> succeeds (gets f ≫= g) r e.
Proof using. by split. Qed.

(** An action that leaves the store. *)
Lemma succeeds_act {B} (f : E -> B * E) e : Queue.store (e_queue (f e).2) = Queue.store (e_queue e) -> stored_fine e -> succeeds (act f) (fun _ => True) e.
Proof using. intros Hf (d & Hd & Hfine). split; [done|]. split; [done|]. exists d. by rewrite Hf. Qed.

Lemma succeeds_storeOp (op : D -> option err * D) e : (forall d, fine d -> exists d', op d = (None, d') /\ fine d') -> stored_fine e ->
  succeeds (storeOp op) (fun r => r = None) e.
Proof using.
  intros Hop (d & Hd & Hfine). destruct (Hop d Hfine) as (d' & Hd' & Hfine'). split; [done|]. simpl. unfold Queue.with_store.
  rewrite Hd, Hd'. split; [done|]. by exists d'.
Qed.

Lemma succeeds_reload e : stored_fine e -> succeeds (onQueue Queue.restore) (fun r => r = None) e.
Proof using All.
  intros (d & Hd & Hfine). destruct (fine_LoadAll d Hfine) as [us Hus]. split; [done|]. simpl. unfold Queue.restore.
  rewrite Hd, Hus. split; [done|]. by exists d.
Qed.

Lemma succeeds_stage stage e : stored_fine e -> succeeds (setBootstrapStage stage) (fun _ => True) e.
Proof using All.
  intros He. eapply succeeds_bind; [by apply succeeds_act|]. intros _ e1 _ He1.
  eapply succeeds_bind; [by apply succeeds_act|]. intros _ e2 _ He2.
  eapply succeeds_bind; [apply succeeds_storeOp; [|done]; intros d Hd; by apply fine_SetMeta|]. by intros r e3.
Qed.

Lemma succeeds_pushAll us e : stored_fine e -> succeeds (pushAll us) (fun _ => True) e.
Proof using.
  revert e. induction us as [|u us IH]; intros e He; [done|]. cbn [pushAll].
  eapply succeeds_bind; [by apply succeeds_act|]. intros _ e1 _. apply IH.
Qed.

Lemma succeeds_saveAll us e : stored_fine e -> succeeds (liftQueue (Queue.saveAll us)) (fun r => r = None) e.
Proof using All.
  revert e. induction us as [|u us IH]; intros e He; [done|]. cbn [Queue.saveAll liftQueue act mbind prog_bind pbind].
  destruct He as (d & Hd & Hfine). destruct (fine_SaveUTXO u d Hfine) as (d' & Hd' & Hfine'). split; [done|].
  unfold Queue.with_store. rewrite Hd, Hd'. cbn [fst snd]. apply IH. by exists d'.
Qed.

Lemma succeeds_seedQueue us e : stored_fine e -> succeeds (seedQueue us) (fun r => r = None) e.
Proof using All.
  intros He. unfold seedQueue. destruct us as [|u us].
  - eapply succeeds_bind; [by apply succeeds_reload|]. by intros r e1 ->.
  - eapply succeeds_bind; [by apply succeeds_pushAll|]. intros _ e1 _ He1. apply (succeeds_bind _ _ (fun r => r = None)); [|by intros r e2 ->].
    pose proof He1 as (d & Hd & _). split; [done|]. split; [done|]. cbn [fst snd]. 
    change (Queue.store (e_queue (set_queue (e_queue e1) e1))) with (Queue.store (e_queue e1)). rewrite Hd. by apply succeeds_saveAll.
Qed.

Lemma succeeds_replayLoop records changed unknown e : (forall p, p ∈ records -> pTxID p <> ""%string) -> stored_fine e ->
  succeeds (replayLoop records changed unknown) (fun r => r.2 = None) e.
Proof using All.
  revert changed unknown e. induction records as [|p rest IH]; intros changed unknown e Hids He; [done|]. cbn [replayLoop].
  assert (forall q, q ∈ rest -> pTxID q <> ""%string) as Hrest by (intros q Hq; apply Hids; by right).
  destruct (negb (replayable p)); [by apply IH|].
  eapply succeeds_bind; [apply succeeds_storeOp; [|done]; intros d Hd; apply fine_CommitPending; [done|apply Hids; by left]|].
  intros r e1 -> He1. apply (succeeds_bind _ _ (fun _ => True)); [|intros _ e2 _ He2; by apply IH].
  case_bool_decide; [done|by apply succeeds_stage].
Qed.

Lemma succeeds_replayPending e : keyed (pendings e) -> stored_fine e -> succeeds replayPending (fun r => r.2 = None) e.
Proof using All.
  intros Hk He. pose proof He as (d & Hd & Hfine). destruct (fine_LoadPending d Hfine) as [ps Hps].
  assert (ps = pendings e) as Hpe by (unfold pendings; rewrite Hd; apply LoadPending_law; [by apply fine_wf|done]).
  apply succeeds_gets. rewrite Hd, Hps. eapply succeeds_bind; [apply succeeds_replayLoop; [|exact He]|].
  - intros p Hp. rewrite Hpe in Hp. change (p ∈ recordsOf (pendings e)) in Hp. apply keyed_records_elem in Hp; [|done].
    by apply (Hk _ _ Hp).
  - intros [[changed unknown] [x|]] e1 [= ] He1. destruct (0 <? unknown); [|done].
    eapply succeeds_bind; [by apply succeeds_stage|]. intros _ e2 _ He2.
    eapply succeeds_bind; [apply succeeds_act; [|done]|by intros ? e3 _ He3]. by destruct (Now (e_world e2)).
Qed.

Lemma succeeds_restore us e : keyed (pendings e) -> durable e -> loaded us e -> stored_fine e -> succeeds (restore us) (fun r => r = None) e.
Proof using All.
  intros Hk Hdur Hload He. pose proof He as (d & Hd & _). apply succeeds_gets. rewrite Hd.
  pose proof (wpi_and _ _ _ _ _ _ (succeeds_seedQueue us e He) (seedQueue_spec us e Hdur Hload)) as Hseed.
  apply wpi_bind. eapply wpi_mono; [done| |exact Hseed]. intros r e1 [[-> He1] [Hq _]].
  assert (keyed (pendings e1)) as Hk1 by (destruct (Hq Hdur) as (_ & _ & _ & Hp & _); by rewrite Hp). unfold resumeStored.
  eapply succeeds_bind; [by apply succeeds_replayPending|]. intros [changed [x|]] e2 [= ] He2.
  eapply (succeeds_bind _ _ (fun r => r = None)); [destruct changed; [by apply succeeds_reload|done]|]. intros r e3 -> He3.
  pose proof He3 as (d3 & Hd3 & Hf3). apply succeeds_gets. rewrite Hd3. cbn [option_map].
  destruct (fine_GetMeta MetaBootstrapStage d3 Hf3) as [stage ->]. case_bool_decide; [done|].
  eapply succeeds_bind; [by apply succeeds_act|]. intros _ e4 _ He4. eapply succeeds_bind; [by apply succeeds_act|]. by intros ? e5 _ He5.
Qed.
End total.
