(* ===== verification/Frame.v ===== *)
(** * What a run of the engine leaves alone

    Every action of [Run], from bootstrap to the last chain, calls the outside by the
    operations of [World], appends to the log when it broadcasts, and may lock the
    bootstrap parameters but neither unlocks nor changes them; only [runChains] changes
    how many chains are active.  [fr_Run] says so once for any property of these
    ([Frame]); the files that follow use it for the answers of the network and for the
    parameters, the last section for the number of active chains. *)

From S2P Require Import Prelude Prog Safe Script TxBuilder Backoff Float Metrics Store Heap Queue Engine Chain Bootstrap.
Open Scope Z_scope.

(** A property of the outside, of what was broadcast, of the lock, of the parameters
    and of the number of active chains that calls of the outside, broadcasts and
    locking keep. *)
Class Frame {W} `{World W} (J : W -> list (PendingBroadcast * bool) -> bool -> BootstrapConfig -> Z -> Prop) : Prop := {
  fr_Now w l k c n : J w l k c n -> J (Now w).2 l k c n;
  fr_CtxErr w l k c n : J w l k c n -> J (CtxErr w).2 l k c n;
  fr_Select i d w l k c n : J w l k c n -> J (Select i d w).2 l k c n;
  fr_Rand w l k c n : J w l k c n -> J (Rand w).2 l k c n;
  fr_Schedule w l k c n : J w l k c n -> J (Schedule w).2 l k c n;
  fr_Panics w l k c n : J w l k c n -> J (Panics w).2 l k c n;
  fr_FetchUTXOs h w l k c n : J w l k c n -> J (FetchUTXOs h w).2 l k c n;
  fr_Broadcast p w l k c n : J w l k c n ->
    J (Broadcast (pTxID p) (pEF p) w).2 (l ++ [(p, bool_decide ((Broadcast (pTxID p) (pEF p) w).1 = None))]) k c n;
  fr_Lock w l k c n : J w l k c n -> J w l true c n;
}.

(** One that does not depend on how many chains are active. *)
Class ChainFrame {W} (J : W -> list (PendingBroadcast * bool) -> bool -> BootstrapConfig -> Z -> Prop) : Prop :=
  fr_Active w l k c n n' : J w l k c n -> J w l k c n'.

Section frame.
Context `{Sdk} `{Prometheus} {D : Type} `{DurableStore D} {W : Type} `{World W}.
Context (J : W -> list (PendingBroadcast * bool) -> bool -> BootstrapConfig -> Z -> Prop) `{!Frame J}.

Abbreviation E := (Engine (D:=D) (W:=W)).

Definition framed (e : E) : Prop := J (e_world e) (e_log e) (e_bootstrapLocked e) (bootstrapConfigLocked e) (e_chainsActive e).

(** An action that touches none of them. *)
Definition untold (e e' : E) : Prop :=
  e_world e' = e_world e /\ e_log e' = e_log e /\ e_bootstrapLocked e' = e_bootstrapLocked e /\
  bootstrapConfigLocked e' = bootstrapConfigLocked e /\ e_chainsActive e' = e_chainsActive e.

Lemma fr_act {B} (f : E -> B * E) :
  (forall e, untold e (f e).2) -> preserves framed (act f).
Proof. intros Hf. split; [|done]. intros e He. unfold framed. destruct (Hf e) as (-> & -> & -> & -> & ->). exact He. Qed.

Lemma fr_modify (f : E -> E) : (forall e, untold e (f e)) -> preserves framed (modify f).
Proof. intros Hf. by apply fr_act. Qed.

Lemma fr_gets {B} (f : E -> B) : preserves framed (gets f).
Proof. by apply fr_act. Qed.

Lemma fr_world {B} (f : W -> B * W) : (forall w l k c n, J w l k c n -> J (f w).2 l k c n) -> preserves framed (world f).
Proof. intros Hf. split; [|done]. intros e He. simpl. specialize (Hf _ _ _ _ _ He). by destruct (f (e_world e)). Qed.

Lemma fr_onQueue {B} (f : Queue.queue D -> B * Queue.queue D) : preserves framed (onQueue f).
Proof. apply fr_act. intros e. by destruct (f (e_queue e)). Qed.

Lemma fr_setStateNow fn : preserves framed (setStateNow fn : prog E unit).
Proof.
  split; [|done]. intros e He. simpl. pose proof (fr_Now _ _ _ _ _ He) as Hn. by destruct (Now (e_world e)).
Qed.

Lemma fr_savePending p : preserves framed (savePending p : prog E (option err)).
Proof.
  split; [|done]. intros e He. simpl. destruct (Queue.store (e_queue e)) as [d|]; [|exact He].
  pose proof (fr_Now _ _ _ _ _ He) as Hn. destruct (Now (e_world e)) as [t w]. by destruct (ds_SavePending t p d).
Qed.

Lemma fr_broadcast p : preserves framed (broadcast p : prog E (option err)).
Proof.
  split; [|done]. intros e He. simpl. pose proof (fr_Broadcast p _ _ _ _ _ He) as Hb.
  by destruct (Broadcast (pTxID p) (pEF p) (e_world e)).
Qed.
End frame.

(** [framed] decides that a program touches the four only so. *)
Create HintDb framed.
#[export] Hint Resolve fr_gets fr_onQueue fr_setStateNow fr_savePending fr_broadcast : framed.
#[export] Hint Extern 1 (preserves (framed _) (world _)) =>
  (apply fr_world; first [exact fr_Now|exact fr_CtxErr|intros ? ? ? ? ?; apply fr_Select|exact fr_Rand|exact fr_Schedule|exact fr_Panics|intros ? ? ? ? ?; apply fr_FetchUTXOs]) : framed.
#[export] Hint Extern 1 (preserves (framed _) (metric _)) => (by apply fr_modify) : framed.
#[export] Hint Extern 1 (preserves (framed _) (modify _)) => (by apply fr_modify) : framed.
#[export] Hint Extern 1 (preserves (framed _) (setState _)) => (by apply fr_modify) : framed.
#[export] Hint Extern 1 (preserves (framed _) (Ret _)) => exact I : framed.
Ltac framed := repeat lazymatch goal with |- preserves _ (_ ≫= _) =>
  apply preserves_bind; [solve [auto with framed nocore]|intros ?] end.

Section engine.
Context `{Sdk} `{Prometheus} {D : Type} `{DurableStore D} {W : Type} `{World W}.
Context (J : W -> list (PendingBroadcast * bool) -> bool -> BootstrapConfig -> Z -> Prop) `{!Frame J}.

Abbreviation E := (Engine (D:=D) (W:=W)).

Lemma fr_stage stage : preserves (framed J) (setBootstrapStage stage : prog E unit).
Proof. unfold setBootstrapStage, storeOp. by framed. Qed.

Lemma fr_clear txid : preserves (framed J) (clearPending txid : prog E unit).
Proof. unfold clearPending, storeOp. by framed. Qed.

Lemma fr_ok : preserves (framed J) (recordBroadcastOk : prog E unit).
Proof. unfold recordBroadcastOk. framed. auto with framed. Qed.

Lemma fr_fail c x : preserves (framed J) (recordBroadcastFail c x : prog E unit).
Proof. unfold recordBroadcastFail. auto with framed. Qed.

Lemma fr_push u : preserves (framed J) (queuePush u : prog E unit).
Proof. unfold queuePush. auto with framed. Qed.

Lemma fr_pushAll us : preserves (framed J) (pushAll us : prog E unit).
Proof. induction us as [|u us IH]; [done|]. cbn [pushAll]. unfold queuePush. by framed. Qed.
End engine.

#[export] Hint Resolve fr_stage fr_clear fr_ok fr_fail fr_push fr_pushAll : framed.

Section run.
Context `{Sdk} `{Prometheus} {D : Type} `{DurableStore D} {W : Type} `{World W}.
Context (J : W -> list (PendingBroadcast * bool) -> bool -> BootstrapConfig -> Z -> Prop) `{!Frame J}.

Abbreviation E := (Engine (D:=D) (W:=W)).
Abbreviation code := (prog E).

(** *** The fanouts *)

Lemma fr_Sleep d : preserves (framed J) (Sleep d : code (option err)).
Proof. unfold Sleep. framed. case_match; auto with framed. Qed.

Lemma fr_attempts tries attempt p : preserves (framed J) (broadcastAttempts tries attempt p : code (option err)).
Proof.
  revert attempt. induction tries as [|tries IH]; intros attempt; [done|]. cbn [broadcastAttempts].
  framed. case_match; [done|]. framed. case_match; [|done]. framed. destruct tries; [done|].
  framed. apply preserves_bind; [apply fr_Sleep|]. intros [x|]; [done|apply IH].
Qed.

Lemma fr_fanoutFail parent x requeue : preserves (framed J) (fanoutFail parent x requeue : code l2Result).
Proof. unfold fanoutFail. framed. apply preserves_bind; [destruct requeue; auto with framed|done]. Qed.

Lemma fr_fanoutParent parent n : preserves (framed J) (fanoutParent parent n : code l2Result).
Proof.
  unfold fanoutParent, currentMode. framed. destruct (BuildFanout _ _ _) as [[tx outs]|]; [|apply fr_fanoutFail].
  apply preserves_bind; [apply fr_attempts|]. intros [x|]; [apply fr_fanoutFail|]. framed.
  case_match; [apply fr_fanoutFail|]. by framed.
Qed.

Lemma fr_goSafe {A} name (fn : option (nat * string) -> code (Safe.ended A)) :
  (forall at_, preserves (framed J) (fn at_)) -> preserves (framed J) (goSafe name fn).
Proof.
  intros Hfn. unfold goSafe. framed. apply preserves_bind; [apply Hfn|]. intros []; [done|]. by framed.
Qed.

Lemma fr_fanoutGoroutine parent n : preserves (framed J) (fanoutGoroutine parent n : code l2Result).
Proof.
  apply preserves_bind; [|done]. apply fr_goSafe. intros at_. apply Safe.preserves_mayPanic, fr_fanoutParent.
Qed.

Lemma fr_collect rs failed produced : preserves (framed J) (collectResults rs failed produced : code (Z * Z)).
Proof.
  revert failed produced. induction rs as [|r rs IH]; intros failed produced; [done|]. cbn [collectResults].
  case_if; [framed|]; apply IH.
Qed.

Lemma fr_goAll {A} (ps : list (code A)) : (forall p, p ∈ ps -> preserves (framed J) p) -> preserves (framed J) (goAll ps).
Proof. intros Hps. unfold goAll. framed. by apply preserves_par. Qed.

Lemma fr_bootstrapL2 : preserves (framed J) (bootstrapL2 : code (option err)).
Proof.
  unfold bootstrapL2, bootstrapConfig. framed. case_match; [done|]. framed. case_if; [by framed|].
  apply preserves_bind.
  { apply fr_goAll. intros p Hp. apply elem_of_lookup_imap in Hp as (i & x & -> & _). apply fr_fanoutGoroutine. }
  intros rs. unfold finishL2, queueLen. apply preserves_bind; [apply fr_collect|intros [failed produced]]. framed.
  unfold l2Incomplete. repeat case_if; by framed.
Qed.

Lemma fr_bootstrapFull : preserves (framed J) (bootstrapFull : code (option err)).
Proof.
  unfold bootstrapFull, bootstrapConfig, currentMode. framed. case_match; [|done]. framed.
  destruct (BuildFanout _ _ _) as [[tx outs]|]; [|by framed].
  apply preserves_bind; [apply fr_attempts|]. intros [x|]; [by framed|]. framed. case_match; [done|]. framed.
  apply fr_bootstrapL2.
Qed.

Lemma fr_pushPersistedAll us : preserves (framed J) (pushPersistedAll us : code (option err)).
Proof. induction us as [|u us IH]; [done|]. cbn [pushPersistedAll]. framed. by case_match. Qed.

Lemma fr_pollSeed fuel interval hash : preserves (framed J) (pollSeed fuel interval hash : code outcome).
Proof.
  induction fuel as [|fuel IH]; [done|]. cbn [pollSeed].
  assert (preserves (framed J) (c ← world (Select 2 (Some interval)); match c with O => r ← world CtxErr; Ret (Finished r) | _ => pollSeed fuel interval hash end : code outcome)) as Hwait.
  { framed. case_match; [by framed|done]. }
  framed. case_match.
  - framed. case_match; [apply Hwait|]. apply preserves_bind; [apply fr_pushPersistedAll|]. intros [x|]; [done|].
    unfold queueLen. by framed.
  - framed. case_match; [by framed|]. framed. apply Hwait.
Qed.

Lemma fr_bootstrap fuel : preserves (framed J) (bootstrap fuel : code outcome).
Proof.
  assert (forall stage queued, preserves (framed J) (lockAndDispatch stage queued : code outcome)) as Hdis.
  { intros stage queued. unfold lockAndDispatch. apply preserves_bind; [split; [intros e; exact (fr_Lock _ _ _ _ _)|done]|intros cfg].
    apply preserves_bind; [|done]. unfold dispatch, resumePartialL2.
    repeat case_if; try done; try apply fr_bootstrapL2; try apply fr_bootstrapFull; by framed. }
  unfold bootstrap, queueLen. framed. apply preserves_bind; [unfold Snapshot; by framed|intros st].
  case_if; [|apply Hdis]. apply preserves_bind.
  { unfold waitForSeedUTXO, currentMode. framed. case_if; [done|]. framed. apply fr_pollSeed. }
  intros [[x|]|]; [done| |done]. framed. apply Hdis.
Qed.

(** *** The chains *)

Lemma fr_waitActive wfuel : preserves (framed J) (waitActive wfuel : code active).
Proof. induction wfuel as [|wfuel IH]; [done|]. cbn [waitActive].
  apply preserves_bind; [unfold activeTurn, resumeC; by framed|]. intros [a|wake]; [done|]. framed. by case_match. Qed.

Lemma fr_waitInterval wfuel (wait : Z -> code Z) : (forall d, preserves (framed J) (wait d)) ->
  preserves (framed J) (waitInterval wfuel wait).
Proof.
  intros Hw. induction wfuel as [|wfuel IH]; [done|]. cbn [waitInterval].
  apply preserves_bind; [apply fr_waitActive|]. intros [tps wake| |]; [|done..]. framed.
  apply preserves_bind; [|by intros [[] []]]. unfold waitDuration. case_if; [done|]. framed. by repeat case_match.
Qed.

Lemma fr_chainLoop wfuel fuel utxo hops : preserves (framed J) (chainLoop wfuel fuel utxo hops : code chainEnd).
Proof.
  revert utxo hops. induction fuel as [|fuel IH]; intros utxo hops; [done|]. cbn [chainLoop].
  assert (forall u h, preserves (framed J) (w ← waitNextInterval wfuel;
    match w with Elapsed => chainLoop wfuel fuel u h | Canceled => Ret ChainCanceled | StillWaiting => Ret ChainRunning end : code chainEnd)) as Hagain.
  { intros u h. apply preserves_bind; [by apply fr_waitInterval|]. by intros []. }
  unfold currentMode. framed. destruct (BuildSustain _ _) as [[tx next]|]; [|apply Hagain].
  framed. case_match; [by framed|]. framed. case_match; [framed; apply Hagain|].
  framed. case_match; [by framed|]. framed. case_if; [by framed|]. apply Hagain.
Qed.

Lemma fr_runChain wfuel fuel utxo : preserves (framed J) (runChain wfuel fuel utxo : code chainEnd).
Proof.
  unfold runChain. apply preserves_bind; [apply fr_waitInterval; intros d; unfold jitter; by framed|].
  intros []; [apply fr_chainLoop|done..].
Qed.

Lemma fr_awaitShutdown : preserves (framed J) (awaitShutdown : code (option chainEnd)).
Proof. unfold awaitShutdown, queueLen. by framed. Qed.

Context `{!ChainFrame J}.

Lemma fr_runChains wfuel fuel : preserves (framed J) (runChains wfuel fuel : code (list (option chainEnd))).
Proof using All.
  assert (forall n, preserves (framed J) (addChainsActive n : code Z)) as Hactive.
  { intros n. split; [|done]. intros e He. exact (fr_Active _ _ _ _ _ _ He). }
  unfold runChains, queueLen. framed. apply preserves_bind.
  { generalize (S (Z.to_nat a0)). intros n. induction n as [|n IH]; [done|]. cbn [popChains]. framed. case_match; [by framed|done]. }
  intros us. apply fr_goAll. intros p [->|Hp]%elem_of_cons; [apply fr_awaitShutdown|].
  apply list_elem_of_fmap in Hp as (u & -> & _). apply fr_goSafe. intros at_.
  apply preserves_bind; [apply Safe.preserves_mayPanic, fr_runChain|intros r; by framed].
Qed.

(** Everything the engine does. *)
Lemma fr_Run fuel wfuel cfuel : preserves (framed J) (Run fuel wfuel cfuel : code outcome).
Proof using All.
  unfold Run. apply preserves_bind; [apply fr_bootstrap|]. intros [[x|]|]; [| |done].
  - framed. apply preserves_bind; [case_match; auto with framed|intros ?]. by framed.
  - apply preserves_bind; [apply fr_runChains|intros ?]. by framed.
Qed.
End run.

(** ** The active chains *)

Section counted.
Context `{Sdk} `{Prometheus} {D : Type} `{DurableStore D} {W : Type} `{World W}.

Abbreviation E := (Engine (D:=D) (W:=W)).
Abbreviation code := (prog E).

#[local] Instance active_frame t : Frame (fun (_ : W) _ _ _ n => n = t).
Proof. by split. Qed.

(** What a goroutine may have done to the count: a chain takes one off. *)
Definition takes_off (i : nat) (n : Z) : Prop := n = 0 \/ i <> O /\ n = -1.

Abbreviation takes i := (adds (S:=E) Z.add e_chainsActive (takes_off i)).

Lemma takes_none i {A} n (p : code A) : takes_off i n -> (forall t, preserves (framed (fun _ _ _ _ x => x = t)) p) -> takes i n p (fun _ => n).
Proof using. intros Hn Hp. by apply (adds_same Z.add 0 e_chainsActive). Qed.

(** All of them, one of which is not a chain. *)
Lemma takes_total ls : ls <> [] -> (forall i n, ls !! i = Some n -> takes_off i n) -> 1 - Z.of_nat (length ls) <= total Z.add 0 ls.
Proof using.
  destruct ls as [|n ls]; intros Hne Hls; [done|]. destruct (Hls O n eq_refl) as [->|[? _]]; [|done].
  assert (- Z.of_nat (length ls) <= total Z.add 0 ls); [|simpl in *; unfold total in *; lia].
  assert (forall i n, ls !! i = Some n -> -1 <= n) as Hge by (intros i n [->|[_ ->]]%(Hls (S i)); lia).
  clear Hls Hne. induction ls as [|n ls IH]; [simpl; lia|]. pose proof (Hge O n eq_refl).
  specialize (IH (fun i => Hge (S i))). simpl in *. lia.
Qed.

(** A chain takes itself off once, also when it panics. *)
Lemma chainGoroutine_takes i wfuel fuel u : i <> O -> takes i 0 (chainGoroutine wfuel fuel u : code (option chainEnd)) (fun _ => -1).
Proof using.
  intros Hi. assert (takes_off i (-1)) as Hoff by (by right). unfold chainGoroutine, goSafe. apply (adds_bind Z.add e_chainsActive (takes_off i) 0 _ _ (fun _ => 0)).
  { apply takes_none; [by left|]. intros t. auto with framed. }
  intros at_. apply (adds_bind Z.add e_chainsActive (takes_off i) 0 _ _ (fun _ => -1)).
  - apply (adds_bind Z.add e_chainsActive (takes_off i) 0 _ _ (fun _ => 0)).
    { apply takes_none; [by left|]. intros t. by apply Safe.preserves_mayPanic, fr_runChain. }
    intros o. apply (adds_bind Z.add e_chainsActive (takes_off i) 0 _ _ (fun _ => -1)).
    { apply adds_act; [by left|done|]. intros e. by exists (-1). }
    intros n. apply takes_none; [done|]. intros t. by framed.
  - intros [r|v]; [done|]. apply takes_none; [done|]. intros t. by framed.
Qed.

(** The loop counts the chains it starts. *)
Lemma popChains_counts fuel (e : E) : wpi (fun e' => e_chainsActive e <= e_chainsActive e') (popChains fuel)
  (fun us e' => e_chainsActive e' = e_chainsActive e + Z.of_nat (length us)) e.
Proof using.
  revert e. induction fuel as [|fuel IH]; intros e; [simpl; lia|]. cbn [popChains]. split.
  { simpl. destruct (Queue.pop (e_queue e)). simpl. lia. }
  simpl. destruct (Queue.pop (e_queue e)) as [[u|] q]; simpl; [|lia]. split; [lia|]. split; [lia|]. apply wpi_bind.
  eapply wpi_mono; [| |apply IH]; simpl; [lia|]. intros us e' ->. lia.
Qed.

(** At least as many chains are counted as active. *)
Definition counted (n : Z) (e : E) : Prop := n <= e_chainsActive e.

(** C37: the chains are counted right, whether they end, are stopped or panic: at any
    time [runChains] has at least as many active as there were, and when it returns
    just as many. *)
Theorem chains_counted wfuel fuel (e : E) :
  (forall e', reaches (runChains wfuel fuel) e e' -> counted (e_chainsActive e) e') /\
  e_chainsActive (run (runChains wfuel fuel) e).2 = e_chainsActive e.
Proof using.
  unfold counted. set (I := fun e' : E => e_chainsActive e <= e_chainsActive e').
  assert (wpi I (runChains wfuel fuel) (fun _ e' => e_chainsActive e' = e_chainsActive e) e) as Hwp.
  2: { split; [intros e' Hr; refine (wpi_reaches _ _ _ _ e' _ Hwp Hr); unfold I; lia|].
       by apply (wpi_run _ _ _ _ _ _ Hwp (surjective_pairing _)). }
  unfold runChains, queueLen. split; [unfold I; simpl; lia|]. split; [unfold I; simpl; lia|]. cbn [fst snd].
  apply (wpi_bind _ (popChains _)). eapply wpi_mono; [| |apply popChains_counts]; [done|]. cbn [e_chainsActive set_state].
  intros us e1 He1. unfold goAll. split; [unfold I; simpl; destruct (Schedule (e_world e1)); simpl; lia|].
  simpl. destruct (Schedule (e_world e1)) as [sched w]. cbn [fst snd]. set (e2 := set_world w e1).
  set (ps := awaitShutdown :: (chainGoroutine wfuel fuel <$> us)).
  set (out := fun (i : nat) (_ : option chainEnd) => match i with O => 0 | _ => -1 end).
  assert (forall i p, ps !! i = Some p -> takes i 0 p (out i)) as Htakes.
  { intros [|i] p Hi; simpl in Hi.
    - injection Hi as <-. change (takes O 0 (awaitShutdown : code (option chainEnd)) (fun _ => 0)). apply takes_none; [by left|]. intros t. apply fr_awaitShutdown, _.
    - apply list_lookup_fmap_Some in Hi as (u & -> & _). by apply chainGoroutine_takes. }
  assert (length ps = S (length us)) as Hps by (simpl; by rewrite length_fmap).
  apply wpi_intro.
  - intros e' Hr. destruct (par_may Z.add 0 e_chainsActive takes_off out sched ps e2 e' Htakes Hr) as (ls & Hlen & Hmu & Hall).
    unfold I. apply takes_total in Hall; [|intros ->; simpl in *; lia]. simpl in Hmu. lia.
  - destruct (run (par sched ps) e2) as [rs e'] eqn:Hrun. cbn [fst snd].
    rewrite (par_adds Z.add 0 e_chainsActive takes_off out sched ps e2 e' rs Htakes Hrun).
    pose proof (pool_length _ _ (wpi_run _ _ _ _ _ _ (par_pool sched ps e2) Hrun)) as Hlen. cbn [fst] in Hlen.
    rewrite length_fmap in Hlen. destruct rs as [|r rs]; [simpl in *; lia|]. rewrite imap_cons. cbn [out total foldr].
    assert (total Z.add 0 (imap (out ∘ S) rs) = - Z.of_nat (length rs)) as Ht.
    { assert (forall i r, (out ∘ S) i r = -1) as Hf by done. revert Hf. generalize (out ∘ S). clear.
      induction rs as [|r rs IH]; intros f Hf; [done|]. rewrite imap_cons. specialize (IH (f ∘ S) (fun i => Hf (S i))).
      pose proof (Hf O r). unfold total in *. simpl in *. lia. }
    unfold total in Ht. rewrite Ht. simpl in *. lia.
Qed.
End counted.
