(* ===== verification/Growth.v ===== *)
(** * From the funding output to the chains

    The bootstrap of a funded engine as a whole: its L1 fanout, the L2 fanouts and the
    chains, in whatever way others interfere.  The transactions it makes form a tree
    under the funding output; the only thing assumed of the ledger is that the
    funding transaction is not one of its own descendants ([rooted]), from which the
    independence of the L1 outputs and of the chains follows.

    [growth] says where a bootstrap stands by what the store and the network know, and
    [Run_grows] that it holds after every action of [Run]. *)

From S2P Require Import Prelude Prog Script TxBuilder Backoff Float Metrics Store Heap Queue Engine Lane Chain Bootstrap Frame.
Open Scope Z_scope.

(** ** The tree under an output *)

Section tree.
Context `{SdkLaws} `{!TxidLaws} (m : Mode).

Abbreviation hashOf u := (NewHashFromHex (TxHash u)).

(** The outputs of the transactions that may spend [p]. *)
Inductive child (p : UTXO) : UTXO -> Prop :=
  | child_fan n tx outs u : BuildFanout p n (Some m) = Ok (tx, outs) -> u ∈ outs -> child p u
  | child_hop tx u : BuildSustain p (Some m) = Ok (tx, u) -> child p u.

(** The transactions that may spend it. *)
Definition spender (p : UTXO) (tx : Tx) : Prop :=
  (exists n outs, BuildFanout p n (Some m) = Ok (tx, outs)) \/ exists u, BuildSustain p (Some m) = Ok (tx, u).

(** The transaction it is an output of does not spend one of its descendants. *)
Definition rooted (s : UTXO) : Prop :=
  forall u tx, rtc child s u -> spender u tx -> NewHashFromHex (TxID tx) <> hashOf s.

(** No descendant of one is a descendant of the other. *)
Definition apart (u u' : UTXO) : Prop := forall w w', rtc child u w -> rtc child u' w' -> spentOutpoint w <> spentOutpoint w'.

Lemma links_meet u tx outs u' tx' outs' : links u tx outs -> links u' tx' outs' ->
  NewHashFromHex (TxID tx) = NewHashFromHex (TxID tx') -> spentOutpoint u = spentOutpoint u'.
Proof using All.
  intros (t & h & Ht & Hh & Hs & _) (t' & h' & Ht' & Hh' & Hs' & _) Heq. rewrite <- Ht, <- Ht' in Heq.
  destruct (txid_decodes t) as [x Hx], (txid_decodes t') as [x' Hx']. rewrite Hx, Hx' in Heq. injection Heq as <-.
  unfold spentOutpoint. assert ((h, TxPos u) = (h', TxPos u')) as [= -> ->]; [|by rewrite Hh, Hh'].
  apply (txid_binds_input t t'); [done|done|]. by apply (txid_decode_inj t t' x).
Qed.

Lemma spender_links p tx : spender p tx -> exists outs, links p tx outs.
Proof using H0.
  intros [(n & outs & Hb%BuildFanout_links)|(u & [Hb _]%BuildSustain_links)]; by eexists.
Qed.

Lemma child_links p u : child p u -> exists tx outs, spender p tx /\ links p tx outs /\ TxHash u = TxID tx.
Proof using H0.
  intros [n tx outs w Hb Hw|tx w Hb].
  - assert (spender p tx) by (left; by eexists _, _). apply BuildFanout_links in Hb. exists tx, outs. split; [done|]. split; [done|].
    destruct Hb as (_ & _ & _ & _ & _ & Hall). rewrite Forall_forall in Hall. by apply Hall.
  - assert (spender p tx) by (right; by eexists). apply BuildSustain_links in Hb as [Hb _].
    exists tx, [w]. split; [done|]. split; [done|].
    destruct Hb as (_ & _ & _ & _ & _ & Hall). by rewrite Forall_singleton in Hall.
Qed.

Lemma child_meet p u p' u' : child p u -> child p' u' -> hashOf u = hashOf u' -> spentOutpoint p = spentOutpoint p'.
Proof using All.
  intros (tx & outs & _ & Hl & Hu)%child_links (tx' & outs' & _ & Hl' & Hu')%child_links. rewrite Hu, Hu'. by apply (links_meet p tx outs p' tx' outs').
Qed.

Lemma outpoint_hash u u' : spentOutpoint u = spentOutpoint u' -> hashOf u = hashOf u'.
Proof using. by intros [= ? _]. Qed.

Lemma tc_last u w : tc child u w -> exists v, rtc child u v /\ child v w.
Proof using.
  induction 1 as [u w Hc|u v w Hc _ (x & Hx & Hl)]; [by exists u|]. exists x. split; [by eapply rtc_l|done].
Qed.

Lemma child_tc s u w : child s u -> rtc child u w -> tc child s w.
Proof using. intros Hc Hw. eapply tc_rtc_r; [by apply tc_once|done]. Qed.

Lemma rooted_tc s u : rooted s -> tc child s u -> hashOf u <> hashOf s.
Proof using H0.
  intros Hs (v & Hv & (tx & _ & Htx & _ & ->)%child_links)%tc_last. by apply (Hs v tx).
Qed.

Lemma rooted_child s u : rooted s -> child s u -> rooted u.
Proof using All.
  intros Hs Hu v tx Hv [outs Hl]%spender_links Heq. apply (rooted_tc s v Hs); [by apply (child_tc s u)|].
  apply child_links in Hu as (tx0 & outs0 & _ & Hl0 & Hh). rewrite Hh in Heq.
  by apply outpoint_hash, (links_meet v tx outs s tx0 outs0).
Qed.

(** A descendant that spends what [s] spends is not there. *)
Lemma rooted_link s tx outs w tx' outs' : rooted s -> links s tx outs -> tc child s w -> links w tx' outs' ->
  NewHashFromHex (TxID tx') <> NewHashFromHex (TxID tx).
Proof using All.
  intros Hs Hl Hw Hl' Heq. apply (rooted_tc s w Hs Hw). by apply outpoint_hash, (links_meet w tx' outs' s tx outs).
Qed.

(** Two outputs of what may spend [s] have nothing to do with each other. *)
Lemma siblings_apart s u u' : rooted s -> child s u -> child s u' -> spentOutpoint u <> spentOutpoint u' -> apart u u'.
Proof using All.
  intros Hs Hu Hu' Hne w w' Hw. revert w'.
  refine (rtc_ind_r (fun w => forall w', rtc child u' w' -> spentOutpoint w <> spentOutpoint w') u _ _ w Hw); clear w Hw.
  - intros w' Hw' Heq. apply rtc_inv_r in Hw' as [<-|(v & Hv & Hc)]; [done|].
    apply (rooted_tc s v Hs); [by apply (child_tc s u')|]. by apply outpoint_hash, (child_meet v w' s u), outpoint_hash.
  - intros v w Hv Hc IH w' Hw' Heq. apply rtc_inv_r in Hw' as [<-|(v' & Hv' & Hc')].
    + apply (rooted_tc s v Hs); [by apply (child_tc s u)|]. by apply outpoint_hash, (child_meet v w s u'), outpoint_hash.
    + apply (IH v' Hv'). by apply (child_meet v w v' w'), outpoint_hash.
Qed.

Lemma apart_child u u' w w' : apart u u' -> child u w -> child u' w' -> apart w w'.
Proof using. intros Ha Hw Hw' x x' Hx Hx'. apply Ha; by eapply rtc_l. Qed.

Lemma apart_irrefl u : ~ apart u u.
Proof using. intros Ha. by apply (Ha u u). Qed.

(** A chain grows along the tree. *)
Lemma tipAt_rtc s n u : tipAt m s n = Some u -> rtc child s u /\ (n <> O -> tc child s u).
Proof using.
  revert u. induction n as [|n IH]; intros u Hu; [injection Hu as <-; split; [apply rtc_refl|done]|].
  apply tipAt_S in Hu as (w & tx & Hw & Hb). destruct (IH w Hw) as [Hr _]. assert (child w u) as Hc by (by eapply child_hop).
  split; [by eapply rtc_r|]. intros _. by eapply tc_rtc_l, tc_once.
Qed.

(** Outputs that are pairwise apart and rooted can be the seeds of chains. *)
Lemma apart_independent seeds : NoDup seeds -> (forall s, s ∈ seeds -> rooted s) ->
  (forall s s', s ∈ seeds -> s' ∈ seeds -> s <> s' -> apart s s') -> independent m seeds.
Proof using H0.
  intros Hnd Hroot Hap. split; [done|]. intros s s' n u Hs Hs' Hu Heq. destruct (tipAt_rtc s n u Hu) as [Hr Ht].
  destruct (decide (s = s')) as [<-|Hne]; [|exfalso; by apply (Hap s s' Hs Hs' Hne u s')].
  split; [done|]. destruct (decide (n = O)) as [|Hn]; [done|]. exfalso.
  by apply (rooted_tc s u (Hroot s Hs) (Ht Hn)), outpoint_hash.
Qed.

Lemma fanout_children p n tx outs u : BuildFanout p n (Some m) = Ok (tx, outs) -> u ∈ outs -> child p u.
Proof using. by apply child_fan. Qed.

(** The outputs of one fanout. *)
Lemma fanout_outpoints p n tx outs u u' : BuildFanout p n (Some m) = Ok (tx, outs) -> n < two63 -> u ∈ outs -> u' ∈ outs ->
  spentOutpoint u = spentOutpoint u' -> u = u'.
Proof using H0.
  intros Hb Hn. apply BuildFanout_outputs in Hb as (per & _ & ->); [|done].
  intros (i & -> & _)%list_elem_of_fmap (j & -> & _)%list_elem_of_fmap [= Heq]. apply Nat2N.inj in Heq. by subst.
Qed.

Lemma fanout_NoDup p n tx outs : BuildFanout p n (Some m) = Ok (tx, outs) -> n < two63 -> NoDup outs.
Proof using H0.
  intros Hb Hn. apply BuildFanout_outputs in Hb as (per & _ & ->); [|done].
  eapply NoDup_fmap_1, seq_outpoints_NoDup.
Qed.

Lemma fanout_apart p n tx outs u u' : rooted p -> BuildFanout p n (Some m) = Ok (tx, outs) -> n < two63 ->
  u ∈ outs -> u' ∈ outs -> u <> u' -> apart u u'.
Proof using All.
  intros Hp Hb Hn Hu Hu' Hne. apply (siblings_apart p); [done|by eapply child_fan..|].
  intros Heq. by apply Hne, (fanout_outpoints p n tx outs).
Qed.

Lemma rooted_parent s : rooted s -> parents_independent m [s].
Proof using H0.
  intros Hs. split.
  - apply NoDup_singleton.
  - by intros p p' ->%list_elem_of_singleton ->%list_elem_of_singleton.
  - intros p p' k tx outs ->%list_elem_of_singleton ->%list_elem_of_singleton Hb Heq.
    apply (Hs s tx); [done|left; by eexists _, _|done].
Qed.

(** The L1 outputs can be fanned out beside each other. *)
Lemma fanout_parents s n tx outs ps : rooted s -> BuildFanout s n (Some m) = Ok (tx, outs) -> n < two63 -> ps ≡ₚ outs ->
  parents_independent m ps.
Proof using All.
  intros Hs Hb Hn Hps. split.
  - rewrite Hps. by eapply fanout_NoDup.
  - intros p p' Hp Hp'. rewrite Hps in Hp, Hp'. by eapply fanout_outpoints.
  - intros p p' k tx' outs' Hp Hp' Hb' Heq. rewrite Hps in Hp, Hp'. pose proof (child_fan s n tx outs p' Hb Hp') as Hc'.
    apply child_links in Hc' as (tx0 & outs0 & _ & Hl0 & Hh). rewrite Hh in Heq. symmetry in Heq.
    refine (rooted_link s tx0 outs0 p tx' outs' Hs Hl0 _ _ Heq); [by eapply tc_once, child_fan|by eapply BuildFanout_links].
Qed.
End tree.

(** ** What a group of lanes holds *)

Section only.
Context `{SdkLaws} `{!TxidLaws} `{Prometheus} {D : Type} `{DurableStoreLaws D} {W : Type} `{World W}.

Abbreviation E := (Engine (D:=D) (W:=W)).
Abbreviation code := (prog E).
Abbreviation under I p Q e := (rg aside (fun _ e' => I e') p Q e).

(** Every stored tip and every pending record is of one of the lanes. *)
Definition confined (lanes : list lane) (e : E) : Prop :=
  (forall k u, tips e !! k = Some u -> exists l, l ∈ lanes /\ ln_key l k) /\
  (forall x p, pendings e !! x = Some p -> exists l, l ∈ lanes /\ ln_txid l x).

(** The lanes are safe, nothing else is durable, and [past] was accepted. *)
Record only (lanes : list lane) (past : list PendingBroadcast) (e : E) : Prop := {
  only_durable : durable e;
  only_safe l : l ∈ lanes -> lane_safe l e;
  only_confined : confined lanes e;
  only_past p : p ∈ past -> (p, true) ∈ e_log e;
}.

Lemma only_quiet lanes past (e e' : E) : quiet e e' -> only lanes past e -> only lanes past e'.
Proof.
  intros Hq [Hd Hs Hc Hp]. destruct (Hq Hd) as (Hd' & _ & Ht' & Hp' & Hl').
  split; [done|intros l Hl; eapply lane_safe_quiet; [exact Hd|done|by apply Hs]|unfold confined; by rewrite Ht', Hp'|by rewrite Hl'].
Qed.

Lemma held_only lanes past (b e : E) : held lanes b e ->
  (forall k u, tips b !! k = Some u -> exists l, l ∈ lanes /\ ln_key l k) -> pendings b = ∅ ->
  (forall p, p ∈ past -> (p, true) ∈ e_log b) -> only lanes past e.
Proof.
  intros Hh Ht Hp Hl. split; [by eapply held_durable|apply (held_safe _ _ _ Hh)| |].
  - split; [intros k u Hk|intros x p Hx].
    + destruct (held_tips _ _ _ Hh k u Hk) as [Hb|?]; [by eapply Ht|done].
    + destruct (held_pendings _ _ _ Hh x p Hx) as [Hb|?]; [by rewrite Hp, lookup_empty in Hb|done].
  - intros p Hin. by apply (held_past _ _ _ Hh), Hl.
Qed.

(** What a goroutine by itself on its lane keeps; [b'] is where its queue counts from. *)
Definition alone (l : lane) (b b' e : E) : Prop := held [l] b e /\ held_queue [l] b' e.

Lemma solo_lane l (b b' : E) {A} (p : code A) Q e : lane_wf l -> alone l b b' e -> rg (rely l) (guar l) p Q e ->
  under (held [l] b) p (fun a e' => alone l b b' e' /\ Q a e') e.
Proof.
  intros Hl Ha Hp. eapply under_mono; [| |apply (rg_assert (alone l b b') aside (guar l)); [..|exact Ha|]].
  - by intros e' [? _].
  - intros a e' Hx. exact Hx.
  - intros e1 e2 ((Hq & Hh & _) & _) [H1h [Hd Hu]]. split; [by eapply held_quiet|]. split; [by apply Hq|]. by rewrite Hh.
  - intros e1 e2 HG [H1h H1q]. assert (lanes_step [l] e1 e2) as Hstep by (by exists O, l).
    split; [|by eapply lanes_step_queue]. eapply lanes_step_held; [|exact Hstep|done]. split.
    + intros i l' Hi. by apply list_lookup_singleton_Some in Hi as [_ <-].
    + intros i j l1 l2 Hi Hj Hne. apply list_lookup_singleton_Some in Hi as [-> _], Hj as [-> _]. done.
  - eapply rg_rely; [|exact Hp]. intros e1 e2 Hs. by apply calm_rely, aside_calm.
Qed.
End only.

Lemma all_Some_list {A} (l : list (option A)) : (forall i x, l !! i = Some x -> is_Some x) -> exists rs, l = Some <$> rs.
Proof.
  induction l as [|x l IH]; intros Hl; [by exists []|]. destruct (Hl O x eq_refl) as [a ->].
  destruct IH as [rs ->]; [intros i y Hi; by apply (Hl (S i))|]. by exists (a :: rs).
Qed.

Lemma ceilDiv_small n d : ceilDiv n d < two63.
Proof.
  unfold ceilDiv. destruct (Z.leb_spec d 0); [unfold two63; lia|].
  assert (i64 (i64 (n + d) - 1) < two63) as Hr.
  { unfold i64 at 1. pose proof (Z.mod_pos_bound (i64 (n + d) - 1 + two63) two64). unfold two63, two64 in *. lia. }
  set (x := i64 (i64 (n + d) - 1)) in *. clearbody x.
  destruct (Z.le_gt_cases 0 x).
  - rewrite Z.quot_div_nonneg by lia. assert (x / d <= x) by (apply Z.div_le_upper_bound; nia). lia.
  - assert (Z.quot x d <= 0); [|unfold two63; lia]. pose proof (Z.quot_opp_l x d). pose proof (Z.quot_pos (- x) d). lia.
Qed.

(** ** Fixed parameters *)

Section frozen.
Context `{Sdk} `{Prometheus} {D : Type} `{DurableStore D} {W : Type} `{World W}.

Abbreviation E := (Engine (D:=D) (W:=W)).

(** The bootstrap parameters cannot be changed any more. *)
Definition locked (e : E) : Prop := e_bootstrapLocked e = true.
Definition frozen (e : E) : Prop := locked e \/ sBootstrapStage (e_state e) <> StageNone \/ queued e <> [].

Lemma frozen_aside (e e' : E) : aside e e' -> frozen e -> frozen e'.
Proof. intros ((_ & Hh & _) & Hl & Hs & _). unfold frozen, locked. by rewrite Hl, Hs, Hh. Qed.

Lemma frozen_funded (e : E) : frozen e -> funded e = true.
Proof.
  unfold funded, locked. intros [->|[Hs|Hq]]; [done| |].
  - rewrite bool_decide_eq_false_2 by done. cbn [negb]. by rewrite orb_true_r.
  - assert (Queue.len (e_queue e) =? 0 = false) as ->; [|cbn [negb]; by rewrite !orb_true_r].
    unfold queued in Hq. apply Z.eqb_neq. unfold Queue.len. by destruct (Queue.heap (e_queue e)).
Qed.

#[export] Instance locked_frame : Frame (fun (_ : W) _ (k : bool) _ _ => k = true).
Proof. by split. Qed.

#[export] Instance locked_chains : ChainFrame (fun (_ : W) _ (k : bool) _ _ => k = true).
Proof. by intros w l k c n n'. Qed.

(** What runs once they are locked keeps them so. *)
Lemma stays_locked {A} (I : E -> Prop) (p : prog E A) Q e : preserves (framed (fun _ _ k _ _ => k = true)) p -> locked e ->
  rg aside (fun _ e' => I e') p Q e -> rg aside (fun _ e' => I e' /\ frozen e') p (fun a e' => Q a e' /\ locked e') e.
Proof.
  intros Hp Hl Hrg. eapply rg_weaken; [|apply (rg_also locked); [exact Hp| |exact Hl|exact Hrg]].
  - intros e1 e2 [? ?]. split; [done|by left].
  - intros e1 e2 (_ & Hk & _). unfold locked. by rewrite Hk.
Qed.
End frozen.

(** ** [Run] from its bootstrap

    [I] is what holds after every action, [ready] what a bootstrap that succeeds
    leaves to the chains. *)

Section from_bootstrap.
Context `{SdkLaws} `{!TxidLaws} `{Prometheus} {D : Type} `{DurableStoreLaws D} {W : Type} `{World W}.

Abbreviation E := (Engine (D:=D) (W:=W)).
Abbreviation code := (prog E).
Abbreviation under I p Q e := (rg aside (fun _ e' => I e') p Q e).

Context (m : Mode) (I ready : E -> Prop) (HI : forall e e', quiet e e' -> I e -> I e').
Context (Hready : forall e, ready e -> chains_ready m e) (Hheld : forall e e', ready e -> held (chain_lanes m (queued e)) e e' -> I e').

Definition guarded (e : E) : Prop := I e /\ frozen e.

Lemma guarded_aside (e e' : E) : aside e e' -> guarded e -> guarded e'.
Proof using HI. intros Ha [Hi Hf]. split; [eapply HI, Hi; apply Ha|by eapply frozen_aside]. Qed.

(** *** Before the parameters are locked *)

(** [P] is what is known meanwhile, [n] the length of the queue. *)
Section waiting.
Context (P : E -> Prop) (stage : string) (n : Z) (HPa : forall e e', aside e e' -> P e -> P e') (HPg : forall e, P e -> guarded e).
Context (HPs : forall e, P e -> sBootstrapStage (e_state e) = stage) (HPn : forall e, P e -> Queue.len (e_queue e) = n).
Context (HPm : forall s e, sBootstrapStage s = stage -> P e -> P (set_state s e)).

(** An action that does not end it. *)
Lemma waiting_act {A B} (f : E -> B * E) (g : B -> code A) Q (e : E) : P e -> (forall e', P e' -> P (f e').2) ->
  (forall e', P e' -> under guarded (g (f e').1) Q (f e').2) -> under guarded (act f ≫= g) Q e.
Proof using HPa HPg.
  intros He Hf Hg. apply under_act. intros e' Ha. apply (HPa _ _ Ha) in He. split; [by apply HPg, Hf|by apply Hg].
Qed.

Lemma Snapshot_rule (e : E) : P e -> under guarded Snapshot (fun s e' => P e' /\ sBootstrapStage s = stage) e.
Proof using HPa HPg HPs.
  intros He. unfold Snapshot. apply waiting_act; [done|done|]. intros e1 He1. cbn [fst snd].
  pose proof (HPs e1 He1) as Hs.
  apply waiting_act; [done|done|]. intros e2 He2. cbn [fst snd].
  apply waiting_act; [done|done|]. intros e3 He3. cbn [fst snd].
  apply waiting_act; [done|done|]. intros e4 He4. cbn [fst snd].
  apply waiting_act; [done|done|]. intros e5 He5. cbn [fst snd].
  intros e6 Ha. split; [by eapply HPa|done].
Qed.

(** [bootstrap] of an engine that need not wait for funding. *)
Lemma bootstrap_prefix fuel Q (e : E) : P e -> bool_decide (stage = StageNone) && (n =? 0) = false ->
  (forall e', P e' -> under guarded (lockAndDispatch stage n) Q e') -> under guarded (bootstrap fuel) Q e.
Proof using HPa HPg HPs HPn HPm.
  intros He Hno Hlock. unfold bootstrap, queueLen. apply waiting_act; [done|done|]. intros e1 He1. cbn [fst snd]. rewrite (HPn e1 He1).
  apply waiting_act; [done|intros e2 He2; apply HPm; [by apply HPs|done]|]. intros e2 He2. cbn [fst snd].
  apply aside_bind. eapply rg_mono; [|apply Snapshot_rule, HPm; [by apply HPs|done]].
  intros s e3 [He3 Hs]. cbv beta zeta. rewrite Hs, Hno. by apply Hlock.
Qed.
End waiting.

(** *** Afterwards *)

(** Calm actions. *)
Lemma after_calm {A} (p : code A) (e : E) : all_calm p -> preserves (framed (fun _ _ k _ _ => k = true)) p -> I e -> locked e ->
  under guarded p (fun _ e' => I e' /\ locked e') e.
Proof using HI.
  intros Hc Hp He Hl. apply stays_locked; [done|done|]. apply rg_calm_under; [|done|done|done].
  intros e1 e2 [Hq _]. by apply HI.
Qed.

Lemma Run_rule fuel wfuel cfuel (e : E) : guarded e ->
  under guarded (bootstrap fuel) (fun r e' => (r = Finished None -> ready e') /\ locked e') e ->
  under guarded (Run fuel wfuel cfuel) (fun _ e' => I e' /\ frozen e') e.
Proof using All.
  intros He Hboot. assert (forall (r : outcome) (e2 : E), I e2 -> locked e2 ->
    under guarded (modify (set_acceptedTPS 0);; Ret r : code outcome) (fun _ e' => I e' /\ frozen e') e2) as Hend.
  { intros r e2 Hi2 Hl2. apply aside_bind. eapply rg_mono; [|apply after_calm; [|by apply fr_modify|done|done]].
    - intros [] e3 [Hi3 Hl3] e4 Ha. apply (guarded_aside e3); [done|]. split; [done|by left].
    - apply all_calm_modify. intros e3. split; [|done]. intros Hd. by split_and!. }
  unfold Run. apply aside_bind.
  pose proof (rg_assert guarded _ _ _ _ _ guarded_aside (fun _ _ Hx _ => Hx) He Hboot) as Hb. eapply rg_mono; [|exact Hb].
  intros r e1 ([Hi1 Hf1] & Hr & Hl1). destruct r as [[x|]|]; [| |intros e2 Ha; by apply (guarded_aside e1)].
  - apply aside_bind. eapply rg_mono; [|apply after_calm; [apply all_calm_world|auto with framed|done|done]].
    intros c e2 [Hi2 Hl2]. apply aside_bind. eapply rg_mono; [|apply after_calm; [| |done|done]].
    + intros [] e3 [Hi3 Hl3]. by apply Hend.
    + destruct c; auto with calm nocore.
    + destruct c; [by apply fr_modify|apply fr_setStateNow, locked_frame].
  - pose proof (Hr eq_refl) as Hrdy. apply aside_bind.
    eapply rg_mono; [|apply stays_locked; [apply fr_runChains; apply _|exact Hl1|]].
    2: { eapply under_mono; [..|apply (rg_assert (held (chain_lanes m (queued e1)) e1) aside
           (fun e2 e3 => forall b, keeps (held (chain_lanes m (queued e1)) b) e2 e3))].
         - intros e2. by apply Hheld.
         - intros a e2 Hx. exact Hx.
         - intros e2 e3 [[Hq2 _] _]. by apply held_quiet.
         - intros e2 e3 Hk. apply Hk.
         - by apply ready_held, Hready.
         - eapply rg_rely; [apply aside_calm|]. by apply runChains_rg, Hready. }
    intros rs' e2 [[Hh2 _] Hl2]. apply Hend; [by eapply Hheld|done].
Qed.
End from_bootstrap.

(** ** The stages of a bootstrap *)

Section growth.
Context `{SdkLaws} `{!TxidLaws} `{Prometheus} {D : Type} `{DurableStoreLaws D} {W : Type} `{World W}.

Abbreviation E := (Engine (D:=D) (W:=W)).
Abbreviation code := (prog E).
Abbreviation under I p Q e := (rg aside (fun _ e' => I e') p Q e).

(** A funded engine: it has one output, stored and queued, and nothing was broadcast. *)
Record funded_engine (m : Mode) (seed : UTXO) (e : E) : Prop := {
  fe_durable : durable e;
  fe_mode : e_mode e = m;
  fe_queue : queued e = [seed];
  fe_tips : tips e = {[ keyOf seed := seed ]};
  fe_pendings : pendings e = ∅;
  fe_log : e_log e = [];
  fe_stage : sBootstrapStage (e_state e) = StageNone;
}.

Section stages.
Context (m : Mode) (nc fs : Z) (seed : UTXO) (Hroot : rooted m seed) (Hnc : nc < two63).

(** The fanout of the funding output, and its lane. *)
Definition l1_record : option PendingBroadcast := fanRecord StageL1Done m seed (ceilDiv nc fs).
Definition l1_lane : lane := fan_lane StageL1Done m seed (ceilDiv nc fs).

(** The fanouts of its outputs, in the order [ps] they are taken in. *)
Definition l2_records (ps : list UTXO) : list (option PendingBroadcast) :=
  imap (fun i p => fanRecord StageL2Partial m p (l2_size nc ps i)) ps.

(** The bootstrap is at the funding output, at the L1 outputs, or has made the chains. *)
Definition stage_inv (e : E) : Prop :=
  only [l1_lane] [] e \/
  (exists r ps, l1_record = Some r /\ ps ≡ₚ pCreated r /\ only (fan_lanes m nc ps) [r] e) \/
  (exists r ps rs, l1_record = Some r /\ ps ≡ₚ pCreated r /\ l2_records ps = Some <$> rs /\
     Z.of_nat (length (rs ≫= pCreated)) = nc /\
     only (chain_lanes m (rs ≫= pCreated)) (r :: rs) e).

Lemma stage_inv_quiet (e e' : E) : quiet e e' -> stage_inv e -> stage_inv e'.
Proof using.
  intros Hq [Ho|[(r & ps & Hr & Hps & Ho)|(r & ps & rs & Hr & Hps & Hrs & Hlen & Ho)]]; apply (only_quiet _ _ _ _ Hq) in Ho.
  - by left.
  - right; left. by exists r, ps.
  - right; right. by exists r, ps, rs.
Qed.

Lemma l1_record_Some r : l1_record = Some r -> exists tx outs,
  BuildFanout seed (ceilDiv nc fs) (Some m) = Ok (tx, outs) /\ r = fanoutPending tx seed outs StageL1Done /\ links seed tx outs.
Proof using H0. apply fanRecord_Some. Qed.

(** An L1 output is a child of the funding output, and rooted too. *)
Lemma l1_output r p : l1_record = Some r -> p ∈ pCreated r -> child m seed p /\ rooted m p.
Proof using All.
  intros (tx & outs & Hb & -> & _)%l1_record_Some Hp. assert (child m seed p) as Hc by (by eapply child_fan).
  split; [done|]. by eapply rooted_child.
Qed.

(** What is known once the L1 fanout is committed. *)
Record l1_done (r : PendingBroadcast) (e : E) : Prop := {
  ld_durable : durable e;
  ld_mode : e_mode e = m;
  ld_tips k u : tips e !! k = Some u <-> u ∈ pCreated r /\ k = keyOf u;
  ld_pendings : pendings e = ∅;
  ld_log p c : (p, c) ∈ e_log e -> pTxID p = pTxID r;
  ld_past : (r, true) ∈ e_log e;
}.

Lemma l1_done_quiet r (e e' : E) : quiet e e' -> l1_done r e -> l1_done r e'.
Proof using.
  intros Hq [Hd Hm Ht Hp Hl Hpast]. destruct (Hq Hd) as (Hd' & Hm' & Ht' & Hp' & Hl').
  split; rewrite ?Hm', ?Ht', ?Hp', ?Hl'; done.
Qed.

Lemma l1_at (b : E) : funded_engine m seed b -> lane_at l1_lane 0 false Clear b.
Proof using All.
  intros [Hd Hm Hq Ht Hp Hl _]. split_and!; [done|..|done].
  - intros k [->|(r & u & Hr & Hu & ->)]; rewrite Ht; [done|]. simpl.
    destruct (fan_tips StageL1Done m [seed] seed (ceilDiv nc fs) r (rooted_parent m seed Hroot)) as [Hf _]; [by left|done|apply ceilDiv_small|].
    rewrite lookup_singleton_ne; [done|]. intros Hk. specialize (Hf u Hu). simpl in Hf. by rewrite Hk, lookup_singleton_eq in Hf.
  - intros k r _. rewrite Hl. split; [by intros ?%elem_of_nil|lia].
  - intros x _. by rewrite Hp.
Qed.

(** From the lane of the L1 fanout to what it leaves. *)
Lemma l1_committed (b e : E) r : funded_engine m seed b -> l1_record = Some r -> held [l1_lane] b e ->
  lane_at l1_lane 1 false Clear e -> l1_done r e.
Proof using All.
  intros Hf Hr Hh (_ & B1 & B2 & B3 & _).
  destruct (fan_tips StageL1Done m [seed] seed (ceilDiv nc fs) r (rooted_parent m seed Hroot)) as (_ & Hs & Hc); [by left|done|apply ceilDiv_small|].
  fold l1_lane in Hs, Hc.
  assert (forall k u, ln_key l1_lane k -> tips e !! k = Some u -> u ∈ pCreated r /\ k = keyOf u) as Hkey.
  { intros k u Hk Ht. rewrite (B1 k Hk) in Ht. destruct Hk as [->|(r' & w & Hr' & Hw & ->)]; [congruence|].
    unfold l1_record in Hr. simplify_eq. rewrite (Hc w Hw) in Ht. by simplify_eq. }
  split.
  - by eapply held_durable.
  - rewrite (held_mode _ _ _ Hh). by apply fe_mode in Hf.
  - intros k u. split; [intros Ht|intros [Hu ->]].
    + destruct (held_tips _ _ _ Hh k u Ht) as [Hb|(l & ->%list_elem_of_singleton & Hl)]; [|by apply Hkey].
      apply Hkey; [|done]. left. rewrite (fe_tips _ _ _ Hf) in Hb. by apply lookup_singleton_Some in Hb as [<- _].
    + rewrite B1; [by apply Hc|]. right. by exists r, u.
  - apply map_eq. intros x. rewrite lookup_empty. destruct (pendings e !! x) as [p|] eqn:Hx; [|done].
    destruct (held_pendings _ _ _ Hh x p Hx) as [Hb|(l & ->%list_elem_of_singleton & Hl)].
    + by rewrite (fe_pendings _ _ _ Hf), lookup_empty in Hb.
    + by rewrite (B3 x Hl) in Hx.
  - intros p c Hp. destruct (held_log _ _ _ Hh p c Hp) as [Hb|(l & ->%list_elem_of_singleton & (r' & Hr' & Hx))].
    + by rewrite (fe_log _ _ _ Hf), elem_of_nil in Hb.
    + unfold l1_record in Hr. by simplify_eq.
  - apply (B2 O r); [done|lia].
Qed.

(** The L2 fanout may start. *)
Lemma l1_l2_ready r (e : E) : l1_record = Some r -> l1_done r e -> queued e ≡ₚ pCreated r -> l2_ready m e.
Proof using All.
  intros Hr [Hd Hm Ht Hp Hl _] Hq. pose proof (l1_record_Some r Hr) as (tx & outs & Hb & Hrec & Hlinks).
  assert (pCreated r = outs) as Ho by (by rewrite Hrec). split; [done|done|..].
  - eapply fanout_parents; [done|exact Hb|apply ceilDiv_small|by rewrite Hq, Ho].
  - intros p Hin. rewrite Hq in Hin. by apply Ht.
  - intros p n r' Hin Hr'. rewrite Hq in Hin. destruct (l1_output r p Hr Hin) as [Hc Hrp].
    assert (forall t o, links p t o -> NewHashFromHex (TxID t) <> NewHashFromHex (TxID tx)) as Hid.
    { intros t o Hlp. eapply rooted_link; [exact Hroot|exact Hlinks|by apply tc_once|exact Hlp]. }
    pose proof Hr' as (tx' & outs' & Hb' & Hrec' & Hl')%fanRecord_Some. split_and!.
    + intros u Hu. destruct (tips e !! keyOf u) as [w|] eqn:Hw; [|done]. exfalso.
      apply Ht in Hw as [Hw [= Hh _]%keyOf_outpoint]. rewrite (fan_output_hash StageL2Partial m p n r' u Hr' Hu) in Hh.
      apply (Hid tx' outs' Hl'). rewrite Hrec' in Hh. simpl in Hh. rewrite Hh.
      assert (TxHash w = pTxID r) as -> by (by eapply fan_output_hash). by rewrite Hrec.
    + by rewrite Hp.
    + intros Hin'. apply Hl in Hin'. apply (Hid tx' outs' Hl'). rewrite Hrec, Hrec' in Hin'. simpl in Hin'. by rewrite Hin'.
Qed.

(** *** From the L2 fanouts to the chains *)

Section chains.
Context (r : PendingBroadcast) (Hr : l1_record = Some r) (ps : list UTXO) (Hps : ps ≡ₚ pCreated r).
Context (rs : list PendingBroadcast) (Hrs : l2_records ps = Some <$> rs).

Lemma l2_record_at i p : ps !! i = Some p ->
  exists rec, rs !! i = Some rec /\ fanRecord StageL2Partial m p (l2_size nc ps i) = Some rec.
Proof using Hrs.
  intros Hi. assert (l2_records ps !! i = Some (fanRecord StageL2Partial m p (l2_size nc ps i))) as Hl.
  { unfold l2_records. by rewrite list_lookup_imap, Hi. }
  rewrite Hrs, list_lookup_fmap in Hl. destruct (rs !! i) as [rec|]; [|done]. injection Hl as Hl. by exists rec.
Qed.

Lemma l2_record_of i rec : rs !! i = Some rec ->
  exists p, ps !! i = Some p /\ fanRecord StageL2Partial m p (l2_size nc ps i) = Some rec.
Proof using Hrs.
  intros Hi. assert (l2_records ps !! i = Some (Some rec)) as Hl by (by rewrite Hrs, list_lookup_fmap, Hi).
  unfold l2_records in Hl. rewrite list_lookup_imap in Hl. destruct (ps !! i) as [p|]; [|done].
  injection Hl as Hl. by exists p.
Qed.

(** A chain starts at an output of the fanout of an L1 output. *)
Lemma chain_seed c : c ∈ rs ≫= pCreated -> exists i p rec, ps !! i = Some p /\ rs !! i = Some rec /\
  fanRecord StageL2Partial m p (l2_size nc ps i) = Some rec /\ c ∈ pCreated rec /\
  child m p c /\ rooted m c /\ child m seed p /\ rooted m p.
Proof using All.
  intros (rec & Hc & [i Hi]%list_elem_of_lookup)%list_elem_of_bind. destruct (l2_record_of i rec Hi) as (p & Hp & Hrec).
  assert (p ∈ pCreated r) as Hin by (rewrite <- Hps; by eapply list_elem_of_lookup_2).
  destruct (l1_output r p Hr Hin) as [Hsp Hrp].
  assert (child m p c) as Hpc.
  { apply fanRecord_Some in Hrec as (tx & outs & Hb & -> & _). by eapply child_fan. }
  exists i, p, rec. split_and!; try done. by eapply rooted_child.
Qed.

Lemma chain_seed_value c : c ∈ rs ≫= pCreated -> Value c <> 0.
Proof using All.
  intros (i & p & rec & Hp & _ & (tx & outs & Hb & -> & _)%fanRecord_Some & Hc & _)%chain_seed.
  apply BuildFanout_outputs in Hb as (per & Hper & ->); [|by eapply l2_size_small].
  by apply list_elem_of_fmap in Hc as (k & -> & _).
Qed.

Lemma parents_apart p p' : p ∈ ps -> p' ∈ ps -> p <> p' -> apart m p p'.
Proof using All.
  rewrite Hps. pose proof (l1_record_Some r Hr) as (tx & outs & Hb & -> & _). intros Hp Hp' Hne.
  eapply fanout_apart; [exact Hroot|exact Hb|apply ceilDiv_small|done..].
Qed.

Lemma parents_NoDup' : NoDup ps.
Proof using All.
  rewrite Hps. pose proof (l1_record_Some r Hr) as (tx & outs & Hb & -> & _).
  eapply fanout_NoDup; [exact Hb|apply ceilDiv_small].
Qed.

(** Two L2 fanouts that share an output are one. *)
Lemma l2_meet i j rec rec' c c' : rs !! i = Some rec -> rs !! j = Some rec' -> c ∈ pCreated rec -> c' ∈ pCreated rec' ->
  ~ apart m c c' -> i = j.
Proof using All.
  intros Hi Hj Hc Hc' Hna. destruct (l2_record_of i rec Hi) as (p & Hp & Hrec), (l2_record_of j rec' Hj) as (p' & Hp' & Hrec').
  destruct (decide (p = p')) as [<-|Hne]; [by eapply NoDup_lookup; [apply parents_NoDup'|..]|]. exfalso. apply Hna.
  apply (apart_child m p p'); [apply parents_apart; [by eapply list_elem_of_lookup_2..|done]|..].
  - apply fanRecord_Some in Hrec as (tx & outs & Hb & -> & _). by eapply child_fan.
  - apply fanRecord_Some in Hrec' as (tx & outs & Hb & -> & _). by eapply child_fan.
Qed.

Lemma chain_seeds_independent : independent m (rs ≫= pCreated).
Proof using All.
  apply apart_independent.
  - apply NoDup_bind.
    + intros rec rec' c [i Hi]%list_elem_of_lookup [j Hj]%list_elem_of_lookup Hc Hc'.
      assert (i = j) as -> by (eapply (l2_meet i j rec rec' c c); [done..|apply apart_irrefl]). congruence.
    + intros rec [i Hi]%list_elem_of_lookup. destruct (l2_record_of i rec Hi) as (p & Hp & (tx & outs & Hb & -> & _)%fanRecord_Some).
      eapply fanout_NoDup; [exact Hb|by eapply l2_size_small].
    + apply NoDup_alt. intros i j rec Hi Hj.
      destruct (l2_record_of i rec Hi) as (p & Hp & (tx & outs & _ & Hrec & _)%fanRecord_Some).
      destruct (l2_record_of j rec Hj) as (p' & Hp' & (tx' & outs' & _ & Hrec' & _)%fanRecord_Some).
      rewrite Hrec in Hrec'. injection Hrec' as _ _ Heq _. rewrite Heq in Hp. by eapply NoDup_lookup; [apply parents_NoDup'|..].
  - intros c (i & p & rec & _ & _ & _ & _ & _ & Hrc & _)%chain_seed. done.
  - intros c c' Hc Hc' Hne. apply chain_seed in Hc as (i & p & rec & Hp & Hi & Hrec & Hc & Hpc & _ & _ & Hrp).
    apply chain_seed in Hc' as (j & p' & rec' & Hp' & Hj & Hrec' & Hc' & Hpc' & _).
    destruct (decide (i = j)) as [<-|Hij].
    + rewrite Hp in Hp'. injection Hp' as <-. rewrite Hrec in Hrec'. injection Hrec' as <-.
      apply fanRecord_Some in Hrec as (tx & outs & Hb & -> & _).
      eapply fanout_apart; [exact Hrp|exact Hb|by eapply l2_size_small|done..].
    + apply (apart_child m p p'); [|done|done]. apply parents_apart; [by eapply list_elem_of_lookup_2..|].
      intros ->. apply Hij. by eapply NoDup_lookup; [apply parents_NoDup'|..].
Qed.

(** The id of a hop of a chain is none of the fanouts'. *)
Lemma hop_fresh c n p : c ∈ rs ≫= pCreated -> hopAt m c n = Some p ->
  pTxID p <> pTxID r /\ forall i rec, rs !! i = Some rec -> pTxID p <> pTxID rec.
Proof using All.
  intros Hc (u & tx & next & Hu & [Hl _]%BuildSustain_links & -> & _)%hopAt_Some. simpl.
  apply chain_seed in Hc as (i & p & rec & Hp & Hi & _ & Hc & Hpc & _ & Hsp & Hrp).
  apply tipAt_rtc in Hu as [Hu _]. assert (tc (child m) p u) as Hpu by (by eapply child_tc). split.
  - intros Heq. pose proof (l1_record_Some r Hr) as (tx1 & outs1 & _ & -> & Hl1). simpl in Heq.
    eapply (rooted_link m seed tx1 outs1 u tx [next]); [done|done| |done|by rewrite Heq]. eapply tc_l; [exact Hsp|done].
  - intros j rec' Hj Heq. destruct (l2_record_of j rec' Hj) as (p' & Hp' & (tx' & outs' & _ & -> & Hl')%fanRecord_Some).
    simpl in Heq. destruct (decide (p' = p)) as [->|Hne].
    + eapply (rooted_link m p tx' outs' u tx [next]); [done|done|done|done|by rewrite Heq].
    + assert (apart m p' p) as Hap by (apply parents_apart; [by eapply list_elem_of_lookup_2..|done]).
      apply (Hap p' u); [apply rtc_refl|by apply tc_rtc|]. symmetry.
      apply (links_meet m u tx [next] p' tx' outs'); [done|done|by rewrite Heq].
Qed.

(** With every L2 fanout committed the chains may start. *)
Lemma l2_chains_ready (b e : E) : l1_done r b -> fan_inv m nc ps b e ->
  (forall i p, ps !! i = Some p -> lane_at (fan_lane StageL2Partial m p (l2_size nc ps i)) 1 false Clear e) ->
  queued e ≡ₚ rs ≫= pCreated ->
  chains_ready m e /\ forall p, p ∈ r :: rs -> (p, true) ∈ e_log e.
Proof using All.
  intros Hb Hinv Hat Hq. assert (parents_independent m ps) as Hind.
  { pose proof (l1_record_Some r Hr) as (tx & outs & Hbf & Hrec & _). rewrite Hrec in Hps.
    eapply fanout_parents; [exact Hroot|exact Hbf|apply ceilDiv_small|exact Hps]. }
  assert (forall i p rec, ps !! i = Some p -> rs !! i = Some rec ->
    tips e !! keyOf p = None /\ (forall u, u ∈ pCreated rec -> tips e !! keyOf u = Some u) /\
    pendings e !! pTxID rec = None /\ (rec, true) ∈ e_log e) as Hone.
  { intros i p rec Hp Hi. destruct (l2_record_of i rec Hi) as (p' & Hp' & Hrec). rewrite Hp in Hp'. injection Hp' as <-.
    destruct (Hat i p Hp) as (_ & B1 & B2 & B3 & _).
    destruct (fan_tips StageL2Partial m ps p (l2_size nc ps i) rec Hind) as (_ & Hs & Hc);
      [by eapply list_elem_of_lookup_2|done|by eapply l2_size_small|]. split_and!.
    - by rewrite B1 by (by left).
    - intros u Hu. rewrite B1 by (right; by exists rec, u). by apply Hc.
    - apply B3. by exists rec.
    - apply (B2 O rec Hrec). lia. }
  assert (forall k u, tips e !! k = Some u -> u ∈ rs ≫= pCreated /\ k = keyOf u) as Htips.
  { intros k u Hk. assert (exists i p, ps !! i = Some p /\ ln_key (fan_lane StageL2Partial m p (l2_size nc ps i)) k) as (i & p & Hp & Hl).
    { destruct (held_tips _ _ _ Hinv k u Hk) as [Ht|(l & (i & p & Hp & ->)%fan_lanes_elem & Hl)]; [|by exists i, p].
      apply (ld_tips r b Hb) in Ht as [Hu ->]. rewrite <- Hps in Hu. apply list_elem_of_lookup in Hu as [i Hi].
      exists i, u. split; [done|]. by left. }
    destruct (l2_record_at i p Hp) as (rec & Hi & Hrec). destruct (Hone i p rec Hp Hi) as (Hn & Hc & _).
    destruct Hl as [->|(rec' & w & Hrec' & Hw & ->)]; [congruence|]. rewrite Hrec in Hrec'. injection Hrec' as <-.
    rewrite (Hc w Hw) in Hk. injection Hk as <-. split; [|done]. apply list_elem_of_bind. exists rec. split; [done|].
    by eapply list_elem_of_lookup_2. }
  assert (forall c, c ∈ Queue.heap (e_queue e) <-> c ∈ rs ≫= pCreated) as Hheap.
  { intros c. by rewrite <- Hq. }
  split; [split|].
  - by eapply held_durable.
  - rewrite (held_mode _ _ _ Hinv). by apply ld_mode in Hb.
  - pose proof chain_seeds_independent as [Hnd Hi]. split; [by rewrite Hq|]. intros s s' n u Hs Hs'. rewrite Hheap in Hs, Hs'. by apply Hi.
  - intros c Hc. apply Hheap, chain_seed in Hc as (i & p & rec & Hp & _ & (tx & outs & Hbf & -> & _)%fanRecord_Some & Hc & _).
    apply BuildFanout_outputs in Hbf as (per & Hper & ->); [|by eapply l2_size_small].
    by apply list_elem_of_fmap in Hc as (k & -> & _).
  - intros k u. rewrite Hheap. split; [by apply Htips|]. intros [Hu ->].
    apply chain_seed in Hu as (i & p & rec & Hp & Hi & _ & Hu & _). by apply (Hone i p rec).
  - apply map_eq. intros x. rewrite lookup_empty. destruct (pendings e !! x) as [q|] eqn:Hx; [|done]. exfalso.
    destruct (held_pendings _ _ _ Hinv x q Hx) as [Hbx|(l & (i & p & Hp & ->)%fan_lanes_elem & (rec & Hrec & ->))].
    + by rewrite (ld_pendings r b Hb), lookup_empty in Hbx.
    + destruct (l2_record_at i p Hp) as (rec' & Hi & Hrec'). rewrite Hrec in Hrec'. injection Hrec' as <-.
      destruct (Hone i p rec Hp Hi) as (_ & _ & Hn & _). congruence.
  - intros c n p Hc Hhop Hin. rewrite Hheap in Hc. destruct (hop_fresh c n p Hc Hhop) as [Hf1 Hf2].
    destruct (held_log _ _ _ Hinv p true Hin) as [Hbx|(l & (i & q & Hq' & ->)%fan_lanes_elem & (rec & Hrec & Hx))].
    + by apply Hf1, (ld_log r b Hb p true).
    + destruct (l2_record_at i q Hq') as (rec' & Hi & Hrec'). rewrite Hrec in Hrec'. injection Hrec' as <-. by apply (Hf2 i rec).
  - intros p [->|Hp]%elem_of_cons; [apply (held_past _ _ _ Hinv), (ld_past r b Hb)|].
    apply list_elem_of_lookup in Hp as [i Hi]. destruct (l2_record_of i p Hi) as (q & Hq' & _). by apply (Hone i q p).
Qed.
End chains.

(** *** The program *)

Section program.
Context (b : E) (Hf : funded_engine m seed b) (Hcfg : bootstrapConfigLocked b = mkBootstrapConfig nc fs (SustainFee m)).

(** The parameters are those the engine was funded with. *)
Definition same_config (e : E) : Prop := bootstrapConfigLocked e = bootstrapConfigLocked b.

#[local] Instance config_frame : Frame (fun (_ : W) _ _ c _ => c = bootstrapConfigLocked b).
Proof. by split. Qed.

(** A part of the engine's program keeps them. *)
Lemma with_config {A} I (p : code A) Q e : preserves (framed (fun _ _ _ c _ => c = bootstrapConfigLocked b)) p ->
  same_config e -> under I p Q e -> under I p (fun a e' => Q a e' /\ same_config e') e.
Proof using.
  intros Hp Hc Hrg. eapply rg_weaken; [|apply (rg_also same_config); [exact Hp| |exact Hc|exact Hrg]].
  - by intros e1 e2 [? _].
  - intros e1 e2 ((_ & _ & Hn) & _) He1. unfold same_config in *. congruence.
Qed.

(** The funding output is as it was, and [q] is queued. *)
Definition at_seed (q : list UTXO) (e : E) : Prop := (quiet b e /\ queued e = q) /\ same_config e.

Lemma at_seed_calm q (e e' : E) : calm e e' -> at_seed q e -> at_seed q e'.
Proof using. intros (Hq & Hh & Hn) [[Hq' Hh'] Hc]. split; [split; [by eapply quiet_trans|congruence]|]. unfold same_config in *. congruence. Qed.

Lemma seed_held : held [l1_lane] b b.
Proof using All.
  apply held_start; [by apply fe_durable in Hf|]. intros l ->%list_elem_of_singleton. exists O, false, Clear. split; [by apply l1_at|done].
Qed.

Lemma held_stage (e : E) : held [l1_lane] b e -> stage_inv e.
Proof using All.
  intros Hh. left. apply (held_only _ _ b); [done| |by apply fe_pendings in Hf|by intros p ?%elem_of_nil].
  intros k u Hk. rewrite (fe_tips _ _ _ Hf) in Hk. apply lookup_singleton_Some in Hk as [<- <-].
  exists l1_lane. split; [by left|]. by left.
Qed.

Lemma seed_stage (e : E) : quiet b e -> stage_inv e.
Proof using All. intros Hq. apply held_stage. eapply held_quiet; [exact Hq|apply seed_held]. Qed.

(** The chains of a completed bootstrap, before they start. *)
Definition chains_start (e : E) : Prop :=
  exists r ps rs, l1_record = Some r /\ ps ≡ₚ pCreated r /\ l2_records ps = Some <$> rs /\
    Z.of_nat (length (rs ≫= pCreated)) = nc /\ queued e ≡ₚ rs ≫= pCreated /\ chains_ready m e /\
    forall p, p ∈ r :: rs -> (p, true) ∈ e_log e.

Lemma chains_start_calm (e e' : E) : calm e e' -> chains_start e -> chains_start e'.
Proof using.
  intros (Hq & Hh & _) (r & ps & rs & Hr & Hps & Hrs & Hlen & Hqe & Hrdy & Hlog). exists r, ps, rs.
  pose proof (ready_durable m e Hrdy) as Hd. destruct (Hq Hd) as (_ & _ & _ & _ & Hl').
  split_and!; try done; [by rewrite Hh|by eapply ready_quiet|by rewrite Hl'].
Qed.

Lemma chains_stage cs r ps rs (e0 e : E) : l1_record = Some r -> ps ≡ₚ pCreated r -> l2_records ps = Some <$> rs ->
  Z.of_nat (length (rs ≫= pCreated)) = nc -> chains_ready m e0 -> queued e0 ≡ₚ rs ≫= pCreated ->
  (forall p, p ∈ r :: rs -> (p, true) ∈ e_log e0) -> cs = queued e0 -> held (chain_lanes m cs) e0 e -> stage_inv e.
Proof using.
  intros Hr Hps Hrs Hlen Hrdy Hq Hlog -> Hh. right; right. exists r, ps, rs. split_and!; try done.
  assert (chain_lanes m (queued e0) ≡ₚ chain_lanes m (rs ≫= pCreated)) as Hperm by (unfold chain_lanes; by rewrite Hq).
  rewrite Hperm in Hh. apply (held_only _ _ e0); [done| |by eapply ready_pendings|done].
  intros k u Hk. apply (ready_tips m e0 Hrdy) in Hk as [Hu ->]. exists (chain_lane m u). split.
  - apply chain_lanes_elem. right. exists u. split; [|done]. by rewrite <- Hq.
  - by exists O, u.
Qed.

Lemma chains_start_stage (e : E) : chains_start e -> stage_inv e.
Proof using All.
  intros (r & ps & rs & Hr & Hps & Hrs & Hlen & Hqe & Hrdy & Hlog).
  eapply (chains_stage (queued e)); try done. by apply ready_held.
Qed.

(** The L2 fanout from the L1 outputs. *)
Lemma l2_rule r (e : E) : l1_record = Some r -> l1_done r e -> queued e ≡ₚ pCreated r -> same_config e ->
  under stage_inv bootstrapL2 (fun x e' => x = None -> chains_start e') e.
Proof using All.
  intros Hr Hd Hq Hc. pose proof (l1_l2_ready r e Hr Hd Hq) as Hrdy.
  assert (e_numChains e = nc) as Hn by (unfold same_config in Hc; rewrite Hcfg in Hc; by injection Hc).
  set (ps := l2_order e). assert (ps ≡ₚ pCreated r) as Hps by (rewrite <- Hq; apply l2_order_perm, Hrdy).
  eapply under_mono; [..|apply (bootstrapL2_spec m e Hrdy); lia]; rewrite Hn; fold ps.
  - intros e' Hinv. right; left. exists r, ps. split_and!; [done|done|].
    apply (held_only _ _ e); [exact Hinv| |by eapply ld_pendings|intros p ->%list_elem_of_singleton; by eapply ld_past].
    intros k u Hk. apply (ld_tips r e Hd) in Hk as [Hu ->]. rewrite <- Hps in Hu. apply list_elem_of_lookup in Hu as [i Hi].
    exists (fan_lane StageL2Partial m u (l2_size nc ps i)). split; [apply fan_lanes_elem; by exists i, u|]. by left.
  - intros x e' Hpost ->. destruct Hpost as (_ & Hlen & Hinv & rs2 & Hlen2 & Hqe & Hall).
    destruct (all_Some_list (l2_records ps)) as [rs Hrs].
    { intros i x. unfold l2_records. rewrite list_lookup_imap. destruct (ps !! i) as [p|] eqn:Hp; [|done]. intros [= <-].
      destruct (lookup_lt_is_Some_2 rs2 i) as [r2 Hr2]; [rewrite Hlen2; by eapply lookup_lt_Some|].
      destruct (Hall i r2 p Hr2 Hp) as (_ & [tx Hb] & _). unfold fanRecord. by rewrite Hb. }
    assert (l2_outputs rs2 = rs ≫= pCreated) as Hout.
    { transitivity (concat (pCreated <$> rs)); [|clear; induction rs as [|y rs IH]; [done|]; simpl; f_equal; exact IH].
      unfold l2_outputs. f_equal. apply list_eq. intros i. rewrite !list_lookup_fmap.
      destruct (ps !! i) as [p|] eqn:Hp.
      - destruct (lookup_lt_is_Some_2 rs2 i) as [r2 Hr2]; [rewrite Hlen2; by eapply lookup_lt_Some|]. rewrite Hr2. simpl.
        destruct (Hall i r2 p Hr2 Hp) as (-> & [tx Hb] & _).
        destruct (l2_record_at ps rs Hrs i p Hp) as (rec & -> & Hrec). unfold fanRecord in Hrec. rewrite Hb in Hrec. by injection Hrec as <-.
      - assert (rs2 !! i = None) as -> by (apply lookup_ge_None; rewrite Hlen2; by apply lookup_ge_None).
        destruct (rs !! i) as [rec|] eqn:Hi; [|done]. destruct (l2_record_of ps rs Hrs i rec Hi) as (p & ? & _). congruence. }
    rewrite Hout in Hqe. exists r, ps, rs.
    destruct (l2_chains_ready r Hr ps Hps rs Hrs e e') as [Hready Hlog]; [done|done| |done|].
    { intros i p Hp. destruct (lookup_lt_is_Some_2 rs2 i) as [r2 Hr2]; [rewrite Hlen2; by eapply lookup_lt_Some|]. by apply (Hall i r2 p). }
    split_and!; try done. by rewrite <- Hqe.
Qed.

Lemma at_seed_mode q (e : E) : at_seed q e -> e_mode e = m.
Proof using All. intros [[Hq _] _]. destruct (Hq (fe_durable _ _ _ Hf)) as (_ & -> & _). by apply fe_mode in Hf. Qed.

Lemma at_seed_config q (e : E) : at_seed q e -> bootstrapConfigLocked e = mkBootstrapConfig nc fs (SustainFee m).
Proof using All. intros [_ Hc]. by rewrite Hc. Qed.

(** The funding output goes back on the queue. *)
Lemma push_seed_rule x (e : E) : held [l1_lane] b e ->
  under stage_inv (queuePush seed;; Ret (Some x) : code (option err)) (fun r e' => r = None -> chains_start e') e.
Proof using All.
  intros Hh. apply under_act. intros e1 ((Hq & _) & _). cbn [fst snd]. split; [|by intros e2 _].
  apply held_stage. eapply held_quiet; [apply quiet_push|]. by eapply held_quiet.
Qed.

(** The L1 fanout once its transaction is built. *)
Lemma l1_rule r (e : E) : l1_record = Some r -> at_seed [] e ->
  under stage_inv (broadcastWithRetry r) (fun x e' => same_config e' /\ alone l1_lane b e e' /\
    match x with None => here l1_lane m 0 true Held e' | Some _ => exists h, here l1_lane m 0 false h e' end) e.
Proof using All.
  intros Hr [[Hq He] Hc]. assert (lane_wf l1_lane) as Hwf by apply fan_lane_wf.
  destruct (Hq (fe_durable _ _ _ Hf)) as (Hd & Hm & _).
  assert (here l1_lane m 0 false Clear e) as Hhere.
  { split; [done|]. split; [rewrite Hm; by apply fe_mode in Hf|]. split; [|intros u _; rewrite He; apply not_elem_of_nil].
    apply (lane_at_quiet _ _ _ _ b); [by apply fe_durable in Hf|done|by apply l1_at]. }
  eapply under_mono; [apply held_stage| |apply with_config; [apply fr_attempts; apply _|done|]].
  2: { apply (solo_lane l1_lane b e); [done| |apply (broadcastAttempts_rule l1_lane m 0 r 2 1 Clear); [done|exact Hr|done]].
       split; [eapply held_quiet; [exact Hq|apply seed_held]|]. split; [done|]. intros u Hu. by left. }
  intros x e' [[Ha Hx] Hc']. done.
Qed.

(** What [bootstrapFull] does after the L1 fanout was accepted. *)
Lemma l1_commit_rule r (e0 e : E) : l1_record = Some r -> queued e0 = [] -> same_config e -> alone l1_lane b e0 e ->
  here l1_lane m 0 true Held e ->
  under stage_inv (onQueue (Queue.commit (pTxID r) (pSpent r) (pCreated r)))
    (fun x e' => x = None -> l1_done r e' /\ held [l1_lane] b e' /\ queued e' = [] /\ same_config e') e.
Proof using All.
  intros Hr He0 Hc Ha Hhere. assert (lane_wf l1_lane) as Hwf by apply fan_lane_wf.
  eapply under_mono; [apply held_stage| |apply with_config; [apply fr_onQueue|exact Hc|]].
  2: { apply (solo_lane l1_lane b e0); [done|done|]. exact (lane_commit l1_lane Hwf m 0 r Hr e Hhere). }
  intros x e' [[[Hh [_ Hu]] Hx] Hc'] ->. destruct Hx as (_ & _ & Hat & Hno). split_and!; try done.
  - by eapply l1_committed.
  - destruct (queued e') as [|u q] eqn:Hq; [done|]. exfalso. assert (u ∈ u :: q) as Hin by left.
    destruct (Hu u Hin) as [Hin'|(l & ->%list_elem_of_singleton & Hl)]; [|by apply (Hno u Hl)].
    rewrite He0 in Hin'. by apply elem_of_nil in Hin'.
Qed.

(** The L1 outputs are queued and fanned out. *)
Lemma l1_outputs_rule r (e : E) : l1_record = Some r -> l1_done r e -> held [l1_lane] b e -> queued e = [] -> same_config e ->
  under stage_inv (recordBroadcastOk;; setBootstrapStage StageL1Done;; pushAll (pCreated r);; bootstrapL2 : code (option err))
    (fun x e' => x = None -> chains_start e') e.
Proof using All.
  intros Hr Hd Hh Hq Hc.
  set (P := fun e1 => quiet e e1 /\ queued e1 = [] /\ same_config e1).
  assert (forall e1 e2 : E, calm e1 e2 -> P e1 -> P e2) as HP.
  { intros e1 e2 (Hq12 & Hh12 & Hn12) (Hq1 & Hh1 & Hc1). split_and!; [by eapply quiet_trans|congruence|].
    unfold same_config in *. congruence. }
  assert (forall e1 : E, quiet e e1 -> stage_inv e1) as HI.
  { intros e1 Hq1. apply held_stage. by eapply held_quiet. }
  assert (P e) as Pe by (by split_and!; [apply quiet_refl| |]).
  apply aside_bind. eapply under_mono; [..|apply (rg_calm_under P (quiet e)); [done|by intros e1 [? _]|apply all_calm_ok|exact Pe]]; [done|].
  intros [] e1 Pe1. apply aside_bind.
  eapply under_mono; [..|apply (rg_calm_under P (quiet e)); [done|by intros e2 [? _]|apply all_calm_stage|exact Pe1]]; [done|].
  intros [] e2 (Hq2 & Hh2 & Hc2). apply aside_bind.
  eapply under_mono; [exact HI| |apply with_config; [apply fr_pushAll; apply _|exact Hc2|]].
  2: { apply (pushAll_spec _ [] e); [by eapply ld_durable|done|by rewrite Hh2]. }
  intros [] e3 [[Hq3 Hp3] Hc3]. rewrite app_nil_r in Hp3. apply (l2_rule r); [done|by eapply l1_done_quiet|done|done].
Qed.

Lemma bootstrapFull_rule (e : E) : at_seed [seed] e ->
  under stage_inv bootstrapFull (fun r e' => r = None -> chains_start e') e.
Proof using All.
  intros He. assert (forall q (e1 : E), at_seed q e1 -> stage_inv e1) as HI by (intros q e1 [[? _] _]; by apply seed_stage).
  unfold bootstrapFull. apply aside_bind.
  eapply rg_mono; [|apply (rg_calm_under (at_seed [seed]) stage_inv); [apply at_seed_calm|apply HI|apply all_calm_stage|exact He]].
  intros [] e1 He1. apply under_act. intros e2 Ha2. apply (at_seed_calm _ _ _ (aside_calm _ _ Ha2)) in He1.
  clear Ha2. destruct He1 as [[Hq2 Hh2] Hc2]. destruct (Hq2 (fe_durable _ _ _ Hf)) as (Hd2 & _).
  pose proof (quiet_pop e2 Hd2) as Hpop. cbv beta. destruct (Queue.pop (e_queue e2)) as [u q]. cbn [fst snd].
  destruct Hpop as [Hqp Hu]. rewrite Hh2 in Hu. destruct u as [u|]; [|by destruct Hu].
  apply Permutation_singleton_r in Hu. injection Hu as -> Hempty.
  assert (at_seed [] (set_queue q e2)) as He3 by (split; [split; [by eapply quiet_trans|exact Hempty]|exact Hc2]).
  set (e3 := set_queue q e2) in *. clearbody e3. split; [by eapply HI|].
  apply under_act. intros e4 Ha4. apply (at_seed_calm _ _ _ (aside_calm _ _ Ha4)) in He3. cbn [fst snd].
  split; [by eapply HI|]. rewrite (at_seed_config _ _ He3). cbn [bcNumChains bcFanoutSize].
  apply under_act. intros e5 Ha5. apply (at_seed_calm _ _ _ (aside_calm _ _ Ha5)) in He3. cbn [fst snd].
  split; [by eapply HI|]. rewrite (at_seed_mode _ _ He3).
  destruct (BuildFanout seed (ceilDiv nc fs) (Some m)) as [[tx outs]|x] eqn:Hb.
  2: { apply push_seed_rule. eapply held_quiet; [apply He3|apply seed_held]. }
  set (r := fanoutPending tx seed outs StageL1Done).
  assert (l1_record = Some r) as Hr by (unfold l1_record, fanRecord; by rewrite Hb).
  cbv zeta. apply aside_bind. eapply rg_mono; [|by apply (l1_rule r)].
  intros [x|] e6 (Hc6 & Ha6 & Hx6); [apply push_seed_rule, Ha6|].
  apply aside_bind. eapply rg_mono; [|apply (l1_commit_rule r e5); [done|apply He3|done|done|done]].
  intros [x|] e7 H7; [by intros e8 _|]. destruct (H7 eq_refl) as (Hd7 & Hh7 & Hq7 & Hc7).
  by apply (l1_outputs_rule r).
Qed.

(** *** [Run] *)

Abbreviation guarded := (guarded stage_inv).

(** The engine before it locks its parameters. *)
Definition waiting (e : E) : Prop := at_seed [seed] e /\ sBootstrapStage (e_state e) = StageNone.

Lemma waiting_guarded (e : E) : waiting e -> guarded e.
Proof using All.
  intros [[[Hq Hh] _] _]. split; [by apply seed_stage|]. right; right. by rewrite Hh.
Qed.

Lemma bootstrap_rule fuel (e : E) : waiting e ->
  under guarded (bootstrap fuel) (fun r e' => (r = Finished None -> chains_start e') /\ locked e') e.
Proof using All.
  intros He. apply (bootstrap_prefix stage_inv waiting StageNone 1); try done.
  - intros e1 e2 Ha [He1 Hs]. split; [by eapply at_seed_calm; [apply aside_calm|]|]. by destruct Ha as (_ & _ & -> & _).
  - apply waiting_guarded.
  - by intros e1 [_ Hs].
  - intros e1 [[[_ Hh] _] _]. unfold Queue.len. unfold queued in Hh. by rewrite Hh.
  - intros st e1 Hst [He1 _]. by split.
  - clear He e. intros e He. unfold lockAndDispatch. apply under_act. intros e1 Ha. cbn [fst snd].
    assert (at_seed [seed] e1) as He1 by (eapply at_seed_calm; [by apply aside_calm|apply He]).
    rewrite (at_seed_config _ _ He1). set (e2 := set_bootstrapLocked true e1).
    assert (at_seed [seed] e2) as He2 by exact He1. split; [split; [by apply seed_stage, He2|by left]|].
    apply aside_bind. eapply rg_mono; [|unfold dispatch; cbn [bcNumChains bcFanoutSize];
      repeat rewrite (bool_decide_eq_false_2 (StageNone = _)) by done; cbn [Z.eqb];
      apply stays_locked; [apply fr_bootstrapFull; apply _|done|by apply bootstrapFull_rule]].
    intros r e6 [Hr Hl] e7 Ha7. split.
    + intros [= ->]. eapply chains_start_calm; [by apply aside_calm|by apply Hr].
    + destruct Ha7 as (_ & Hk & _). unfold locked in *. by rewrite Hk.
Qed.

(** Whatever others do aside, the bootstrap stands somewhere after every action. *)
Lemma Run_grows fuel wfuel cfuel (e : E) : waiting e ->
  under guarded (Run fuel wfuel cfuel) (fun _ e' => guarded e') e.
Proof using All.
  intros He. apply (Run_rule m stage_inv chains_start); [apply stage_inv_quiet| | |by apply waiting_guarded|by apply bootstrap_rule].
  - by intros e1 (r & ps & rs & _ & _ & _ & _ & _ & Hrdy & _).
  - intros e1 e2 (r & ps & rs & Hr & Hps & Hrs & Hlen & Hq & Hrdy & Hlog) Hh. by eapply (chains_stage (queued e1)).
Qed.
End program.
End stages.
End growth.

(** ** Told of the outputs *)

Section told.
Context `{SdkLaws} `{!TxidLaws} `{Prometheus} {D : Type} `{DurableStoreLaws D} {W : Type} `{World W}.

Abbreviation E := (Engine (D:=D) (W:=W)).

(** Where the bootstrap of [seed] into [nc] chains stands, by what the store and the
    network know.  Either the funding output is there or has been replaced by the
    outputs of its accepted fanout; or its fanout [r] is accepted and every output of
    it is there or has been replaced by those of its own accepted fanout; or all
    fanouts are accepted, [nc] chains were made, and each is at one of its hops.  In
    each case an accepted transaction that the store has not applied has its record
    pending, and nothing else is stored or pending. *)
Definition growth (m : Mode) (nc fs : Z) (seed : UTXO) (e : E) : Prop :=
  (fan_status StageL1Done m seed (ceilDiv nc fs) e /\ confined [l1_lane m nc fs seed] e) \/
  (exists r ps, l1_record m nc fs seed = Some r /\ ps ≡ₚ pCreated r /\ (r, true) ∈ e_log e /\
     (forall i p, ps !! i = Some p -> fan_status StageL2Partial m p (l2_size nc ps i) e) /\
     confined (fan_lanes m nc ps) e) \/
  (exists r ps rs, l1_record m nc fs seed = Some r /\ ps ≡ₚ pCreated r /\ l2_records m nc ps = Some <$> rs /\
     (forall p, p ∈ r :: rs -> (p, true) ∈ e_log e) /\ Z.of_nat (length (rs ≫= pCreated)) = nc /\
     (forall s, s ∈ rs ≫= pCreated -> chain_status m s e) /\ confined (chain_lanes m (rs ≫= pCreated)) e).

Lemma stage_growth m nc fs seed (e : E) : rooted m seed -> nc < two63 -> stage_inv m nc fs seed e -> growth m nc fs seed e.
Proof.
  intros Hroot Hnc [Ho|[(r & ps & Hr & Hps & Ho)|(r & ps & rs & Hr & Hps & Hrs & Hlen & Ho)]].
  - left. split; [|by eapply only_confined]. apply (lane_safe_fan StageL1Done m [seed]); [by apply rooted_parent|by left|apply ceilDiv_small|].
    apply (only_safe _ _ _ Ho). by left.
  - right; left. exists r, ps. split_and!; [done|done|apply (only_past _ _ _ Ho); by left| |by eapply only_confined].
    intros i p Hp. apply (lane_safe_fan StageL2Partial m ps); [|by eapply list_elem_of_lookup_2|by eapply l2_size_small|].
    + pose proof Hr as (tx & outs & Hb & -> & _)%l1_record_Some.
      eapply fanout_parents; [exact Hroot|exact Hb|apply ceilDiv_small|done].
    + apply (only_safe _ _ _ Ho), fan_lanes_elem. by exists i, p.
  - right; right. exists r, ps, rs. split_and!; try done; [by apply (only_past _ _ _ Ho)| |by eapply only_confined].
    intros s Hs. apply (lane_safe_status m (rs ≫= pCreated)); [by eapply chain_seeds_independent|done|by eapply chain_seed_value|].
    apply (only_safe _ _ _ Ho), chain_lanes_elem. right. by exists s.
Qed.
End told.

(** ** An engine that has its chains *)

Section resumed.
Context `{SdkLaws} `{!TxidLaws} `{Prometheus} {D : Type} `{DurableStoreLaws D} {W : Type} `{World W}.

Abbreviation E := (Engine (D:=D) (W:=W)).

Context (m : Mode) (b : E) (Hb : chains_ready m b).

(** Its chains are safe since [b]. *)
Definition chains_held (e : E) : Prop := held (chain_lanes m (queued b)) b e.

(** Before they start. *)
Definition resuming (e : E) : Prop := (quiet b e /\ queued e = queued b) /\ sBootstrapStage (e_state e) = StageL2Done.

Lemma resuming_guarded (e : E) : resuming e -> guarded chains_held e.
Proof using All.
  intros [[Hq Hh] Hs]. split; [eapply held_quiet; [exact Hq|by apply ready_held]|]. right; left. by rewrite Hs.
Qed.

Lemma resuming_calm (e e' : E) : calm e e' -> quiet b e /\ queued e = queued b -> quiet b e' /\ queued e' = queued b.
Proof using. intros (Hq & Hh & _) [Hq' Hh']. split; [by eapply quiet_trans|congruence]. Qed.

Lemma Run_resumes fuel wfuel cfuel (e : E) : resuming e ->
  rg aside (fun _ e' => guarded chains_held e') (Run fuel wfuel cfuel) (fun _ e' => guarded chains_held e') e.
Proof using All.
  intros He. set (ready := fun e1 : E => quiet b e1 /\ queued e1 = queued b).
  apply (Run_rule m chains_held ready); [by intros e1 e2; apply held_quiet| | |by apply resuming_guarded|].
  - intros e1 [Hq Hh]. by eapply ready_quiet.
  - intros e1 e2 [Hq Hh] He2. unfold chains_held. rewrite Hh in He2. destruct (Hq (ready_durable m b Hb)) as (_ & Hm & Ht & Hp & Hl).
    destruct He2 as [A1 A2 A3 A4 A5 A6 A7]. rewrite Hm, ?Ht, ?Hp, ?Hl in *. split; done.
  - apply (bootstrap_prefix chains_held resuming StageL2Done (Queue.len (e_queue b))); try done.
    + intros e1 e2 Ha [He1 Hs]. split; [by eapply resuming_calm; [apply aside_calm|]|]. by destruct Ha as (_ & _ & -> & _).
    + apply resuming_guarded.
    + by intros e1 [_ Hs].
    + intros e1 [[_ Hh] _]. unfold Queue.len. unfold queued in Hh. by rewrite Hh.
    + intros st e1 Hst [He1 _]. by split.
    + clear He e. intros e He. unfold lockAndDispatch. apply under_act. intros e1 Ha. cbn [fst snd].
      set (e2 := set_bootstrapLocked true e1).
      assert (ready e2) as He2 by (eapply (resuming_calm e e1); [by apply aside_calm|apply He]).
      split; [split; [eapply held_quiet; [apply He2|by apply ready_held]|by left]|].
      apply aside_bind. unfold dispatch. rewrite (bool_decide_eq_true_2 (StageL2Done = StageL2Done)) by done.
      intros e3 Ha3 e4 Ha4. pose proof (aside_trans _ _ _ Ha3 Ha4) as Ha5. split.
      * intros _. eapply (resuming_calm e2); [by apply aside_calm|exact He2].
      * destruct Ha5 as (_ & Hk & _). unfold locked. by rewrite Hk.
Qed.
End resumed.
