(* ===== verification/Restart.v ===== *)
(** * Restarting in the middle of it

    What a restart makes of what a crash left, for the chains and for a bootstrap at any
    of its stages.  [Recovery.v] shows that every lane goes on from the transitions the
    network had accepted, and perhaps one more that was pending ([resumed]); here this is
    said of the outputs the queue then holds.  Chains that are restarted can start
    again, so they survive any number of crashes. *)

From S2P Require Import Prelude Prog Script TxBuilder Backoff Float Metrics Store Heap Queue Engine Lane Chain Bootstrap Recovery Frame Growth.
Open Scope Z_scope.

(** ** Chains *)

Section restart.
Context `{SdkLaws} `{!TxidLaws} `{Prometheus} {D : Type} `{DurableStoreLaws D} {W : Type} `{World W}.

Abbreviation E := (Engine (D:=D) (W:=W)).

(** A chain may be counted from any of its tips. *)
Lemma tipAt_add m s n u k : tipAt m s n = Some u -> tipAt m s (n + k) = tipAt m u k.
Proof using.
  intros Hu. induction k as [|k IH]; [by rewrite Nat.add_0_r|]. rewrite Nat.add_succ_r. cbn [tipAt]. by rewrite IH.
Qed.

Lemma hopAt_add m s n u k : tipAt m s n = Some u -> hopAt m s (n + k) = hopAt m u k.
Proof using. intros Hu. unfold hopAt. by rewrite (tipAt_add m s n u k Hu). Qed.

Lemma only_crash lanes past (e : E) : only lanes past e -> crash_state lanes e.
Proof using. intros [Hd Hs [_ Hp] _]. done. Qed.

(** What is stored after the restart belongs to a lane, and is where the lane is. *)
Lemma resumed_tip lanes past (e e2 : E) k u : only lanes past e -> resumed lanes e e2 -> tips e2 !! k = Some u ->
  exists l n, l ∈ lanes /\ ln_key l k /\ goes_on l n e e2 /\ ln_tips l n !! k = Some u.
Proof using.
  intros [_ _ [Hc _] _] [_ _ _ Hl Ht] Hu.
  assert (exists l, l ∈ lanes /\ ln_key l k) as (l & Hin & Hk) by (destruct (Ht k u Hu) as [He|?]; [by eapply Hc|done]).
  destruct (Hl l Hin) as [n Hn]. exists l, n. split_and!; try done. destruct Hn as (_ & Hag & _). by rewrite <- Hag.
Qed.

Lemma resumed_queue lanes (e e2 : E) u : resumed lanes e e2 -> u ∈ queued e2 <-> tips e2 !! keyOf u = Some u.
Proof using All. intros [Hd _ Hq _ _]. by apply tips_in_queue. Qed.

Lemma resumed_NoDup lanes (e e2 : E) : resumed lanes e e2 -> NoDup (queued e2).
Proof using All.
  intros [[[_ Hwf] [d Hst]] _ -> _ _]. rewrite Hst in Hwf. apply NoDup_fmap_2_strong; [|apply NoDup_map_to_list].
  intros [k u] [k' u'] Hk%elem_of_map_to_list Hk'%elem_of_map_to_list. simpl. intros ->. f_equal.
  unfold tips in Hk, Hk'. rewrite Hst in Hk, Hk'. transitivity (keyOf u'); [|symmetry]; by apply (utxos_keyed d).
Qed.

Section chains.
Context (m : Mode) (seeds : list UTXO) (Hind : independent m seeds) (Hval : forall s, s ∈ seeds -> Value s <> 0).
Context (past : list PendingBroadcast) (e e2 : E) (Ho : only (chain_lanes m seeds) past e) (Hr : resumed (chain_lanes m seeds) e e2).

(** An output of the queue is the tip at which one of the chains goes on. *)
Lemma resumed_seed u : u ∈ queued e2 -> exists s n, s ∈ seeds /\ tipAt m s n = Some u /\ Value u <> 0 /\ goes_on (chain_lane m s) n e e2.
Proof using All.
  rewrite (resumed_queue _ _ _ u Hr). intros Hu.
  destruct (resumed_tip _ _ _ _ _ _ Ho Hr Hu) as (l & n & [->|(s & Hs & ->)]%chain_lanes_elem & Hk & Hn & Ht); [done|].
  pose proof Hn as ([t Htip]%tipAt_reached & _). rewrite (chain_lane_tips m s n t Htip (Hval s Hs)) in Ht.
  destruct (Z.eqb_spec (Value t) 0); [done|]. apply lookup_singleton_Some in Ht as [_ <-]. by exists s, n.
Qed.

Lemma goes_on_once s n n' u u' : s ∈ seeds -> u ∈ queued e2 -> u' ∈ queued e2 -> tipAt m s n = Some u -> tipAt m s n' = Some u' -> n = n'.
Proof using All.
  intros Hs Hu Hu' Htu Htu'. destruct (resumed_chain m seeds e e2 s Hind Hs (Hval s Hs) Hr) as (k & a & _ & _ & Hq & _).
  apply (Hq n u Htu) in Hu as [-> _]. by apply (Hq n' u' Htu') in Hu' as [-> _].
Qed.

(** The chains may start again. *)
Lemma resumed_ready : e_mode e2 = m -> e_log e2 = e_log e -> chains_ready m e2.
Proof using All.
  intros Hm Hlog. pose proof Hr as [Hd Hp Hq _ _]. split; [done|done|..].
  - split; [by eapply resumed_NoDup|]. intros u u' k w Hu Hu' Hw Heq.
    destruct (resumed_seed u Hu) as (s & n & Hs & Hn & _), (resumed_seed u' Hu') as (s' & n' & Hs' & Hn' & _).
    rewrite <- (tipAt_add m s n u k Hn) in Hw.
    destruct (lineages_meet m seeds s s' (n + k) n' w u' Hind Hs Hs' Hw Hn' Heq) as [<- Hk].
    pose proof (goes_on_once s n n' u u' Hs Hu Hu' Hn Hn') as <-. assert (k = O) as -> by lia. split; [congruence|done].
  - intros u Hu. by destruct (resumed_seed u Hu) as (s & n & _ & _ & ? & _).
  - intros k u. split; [|by intros [Hu%(resumed_queue _ _ _ u Hr) ->]]. intros Hu.
    assert (k = keyOf u) as ->; [|by split; [apply (resumed_queue _ _ _ u Hr)|]].
    destruct Hd as [[_ Hwf] [d Hst]]. rewrite Hst in Hwf. unfold tips in Hu. rewrite Hst in Hu. by apply (utxos_keyed d).
  - done.
  - intros u k p Hu Hh. destruct (resumed_seed u Hu) as (s & n & Hs & Hn & _ & _ & _ & a & Ha & Hacc).
    rewrite <- (hopAt_add m s n u k Hn) in Hh. rewrite Hlog, (Hacc _ _ Hh). destruct Ha as [->|[-> _]]; lia.
Qed.
End chains.

(** ** Fanouts *)

(** Where the fanout of [p] into [n] outputs stands after the restart, by the queue: [p]
    is still to be fanned out, and then the network had not accepted its fanout, or it
    is replaced by all the outputs of the fanout, which was accepted or pending. *)
Definition fan_resumed (stage : string) (m : Mode) (p : UTXO) (n : Z) (e e2 : E) : Prop :=
  match fanRecord stage m p n with
  | None => p ∈ queued e2
  | Some r =>
      (p ∈ queued e2 /\ (forall u, u ∈ pCreated r -> u ∉ queued e2) /\ (r, true) ∉ e_log e) \/
      ((p ∉ queued e2) /\ (forall u, u ∈ pCreated r -> u ∈ queued e2) /\
       ((r, true) ∈ e_log e \/ is_Some (pendings e !! pTxID r)))
  end.

(** The outputs a fanout is about. *)
Definition of_fan (stage : string) (m : Mode) (p : UTXO) (n : Z) (u : UTXO) : Prop :=
  u = p \/ exists r, fanRecord stage m p n = Some r /\ u ∈ pCreated r.

Lemma fan_redoes stage m p n : redoes (fan_lane stage m p n).
Proof using H0. intros [|i] r Hr; [|done]. by apply fanRecord_Some in Hr as (tx & outs & _ & -> & _). Qed.

Lemma fan_goes_on stage m ps p n k lanes (e e2 : E) : parents_independent m ps -> p ∈ ps -> n < two63 ->
  resumed lanes e e2 -> goes_on (fan_lane stage m p n) k e e2 -> fan_resumed stage m p n e e2.
Proof using All.
  intros Hind Hp Hn Hr (B0 & B1 & a & Ha & Hacc). unfold fan_resumed. pose proof (resumed_queue lanes e e2) as Hq.
  assert (ln_key (fan_lane stage m p n) (keyOf p)) as Hkp by (by left).
  destruct k as [|[|k]]; [| |by destruct B0].
  - assert (p ∈ queued e2) as Hpq by (rewrite Hq by done; rewrite B1 by done; apply lookup_singleton_eq).
    destruct (fanRecord stage m p n) as [r|] eqn:Hrec; [|done]. left.
    destruct (fan_tips stage m ps p n r Hind Hp Hrec Hn) as (Hf & _). split_and!; [done|..].
    + intros u Hu. rewrite Hq, B1, Hf by (done || (right; by exists r, u)). done.
    + destruct Ha as [<-|[? _]]; [|lia]. rewrite (Hacc O r Hrec). lia.
  - destruct B0 as [r Hrec]. simpl in Hrec. rewrite Hrec. right.
    destruct (fan_tips stage m ps p n r Hind Hp Hrec Hn) as (_ & Hf1 & Hf2). split_and!.
    + rewrite Hq, B1, Hf1 by done. done.
    + intros u Hu. rewrite Hq, B1 by (done || (right; by exists r, u)). by apply Hf2.
    + destruct Ha as [<-|[[= <-] (r' & Hr' & Hx)]]; [left; apply (Hacc O r Hrec); lia|right]. simpl in Hr'. by simplify_eq.
Qed.

Lemma apply_created_elem (spent created : list UTXO) T k u : apply_tips spent created T !! k = Some u -> T !! k = Some u \/ u ∈ created.
Proof using.
  unfold apply_tips. intros Hu.
  assert (foldl (fun m w => delete (keyOf w) m) T spent !! k = Some u \/ u ∈ created) as [Hs|?]; [|left|by right].
  { revert Hu. generalize (foldl (fun m w => delete (keyOf w) m) T spent). induction created as [|w created IH]; intros T'; [by left|].
    simpl. intros Hu%IH. destruct Hu as [Hu|?]; [|right; by right]. destruct (Value w =? 0); [by left|].
    apply lookup_insert_Some in Hu as [[_ <-]|[_ ?]]; [right; left|by left]. }
  clear Hu. revert T Hs. induction spent as [|w spent IH]; intros T; [done|]. simpl. intros Hu%IH. by apply lookup_delete_Some in Hu as [_ ?].
Qed.

Lemma fan_tips_elem stage m p n i k u : ln_tips (fan_lane stage m p n) i !! k = Some u -> of_fan stage m p n u.
Proof using.
  revert k u. induction i as [|i IH]; intros k u Hu; [simpl in Hu; left; by apply lookup_singleton_Some in Hu as [_ <-]|].
  cbn [ln_tips] in Hu. destruct (ln_rec (fan_lane stage m p n) i) as [r|] eqn:Hr; [|by eapply IH].
  apply apply_created_elem in Hu as [Hu|Hu]; [by eapply IH|]. destruct i; [|done]. right. by exists r.
Qed.

(** ** The bootstrap *)

(** Where the bootstrap of [seed] into [nc] chains stands after a restart on what [e]
    left, by the queue: at its L1 fanout; or that was accepted, and every output of it
    is at its own; or all were accepted, [nc] chains were made, and each of them goes
    on from one tip.  The queue holds nothing else. *)
Definition regrowth (m : Mode) (nc fs : Z) (seed : UTXO) (e e2 : E) : Prop :=
  (fan_resumed StageL1Done m seed (ceilDiv nc fs) e e2 /\
   forall u, u ∈ queued e2 -> of_fan StageL1Done m seed (ceilDiv nc fs) u) \/
  (exists r ps, l1_record m nc fs seed = Some r /\ ps ≡ₚ pCreated r /\ (r, true) ∈ e_log e /\
     (forall i p, ps !! i = Some p -> fan_resumed StageL2Partial m p (l2_size nc ps i) e e2) /\
     (forall u, u ∈ queued e2 -> exists i p, ps !! i = Some p /\ of_fan StageL2Partial m p (l2_size nc ps i) u)) \/
  (exists r ps rs, l1_record m nc fs seed = Some r /\ ps ≡ₚ pCreated r /\ l2_records m nc ps = Some <$> rs /\
     (forall p, p ∈ r :: rs -> (p, true) ∈ e_log e) /\ Z.of_nat (length (rs ≫= pCreated)) = nc /\
     (forall s, s ∈ rs ≫= pCreated -> exists n a,
        (n = a \/ n = S a /\ exists p, hopAt m s a = Some p /\ is_Some (pendings e !! pTxID p)) /\
        (forall k p, hopAt m s k = Some p -> (p, true) ∈ e_log e <-> (k < a)%nat) /\
        (forall k w, tipAt m s k = Some w -> w ∈ queued e2 <-> k = n /\ Value w <> 0)) /\
     (forall u, u ∈ queued e2 -> exists s n, s ∈ rs ≫= pCreated /\ tipAt m s n = Some u) /\
     (e_mode e2 = m -> e_log e2 = e_log e -> chains_ready m e2)).

(** Lanes that share nothing and can be replayed. *)
Definition sound (lanes : list lane) : Prop := lanes_wf lanes /\ forall l, l ∈ lanes -> redoes l.

Section bootstrap.
Context (m : Mode) (nc fs : Z) (seed : UTXO) (Hroot : rooted m seed) (Hnc : nc < two63).

Lemma l1_parents r ps : l1_record m nc fs seed = Some r -> ps ≡ₚ pCreated r -> parents_independent m ps.
Proof using All.
  intros (tx & outs & Hb & -> & _)%l1_record_Some Hps. eapply fanout_parents; [exact Hroot|exact Hb|apply ceilDiv_small|done].
Qed.

Lemma l1_sound : sound [l1_lane m nc fs seed].
Proof using All.
  split; [|by intros l ->%list_elem_of_singleton; apply fan_redoes]. split.
  - intros i l Hi. apply list_lookup_singleton_Some in Hi as [_ <-]. apply fan_lane_wf.
  - intros i j l l' Hi Hj. apply list_lookup_singleton_Some in Hi as [-> _], Hj as [-> _]. done.
Qed.

Lemma l2_sound r ps : l1_record m nc fs seed = Some r -> ps ≡ₚ pCreated r -> sound (fan_lanes m nc ps).
Proof using All.
  intros Hr Hps. split; [by eapply fan_lanes_wf; [eapply l1_parents|]|]. intros l (i & p & _ & ->)%fan_lanes_elem. apply fan_redoes.
Qed.

Lemma chains_sound r ps rs : l1_record m nc fs seed = Some r -> ps ≡ₚ pCreated r -> l2_records m nc ps = Some <$> rs ->
  sound (chain_lanes m (rs ≫= pCreated)).
Proof using All.
  intros Hr Hps Hrs. split; [|apply chain_lanes_redo]. by eapply chain_lanes_wf; [eapply chain_seeds_independent|].
Qed.

Lemma stage_crash (e : E) : stage_inv m nc fs seed e -> exists lanes, sound lanes /\ crash_state lanes e.
Proof using All.
  intros [Ho|[(r & ps & Hr & Hps & Ho)|(r & ps & rs & Hr & Hps & Hrs & _ & Ho)]]; eexists; (split; [|by eapply only_crash]).
  - apply l1_sound.
  - by eapply l2_sound.
  - by eapply chains_sound.
Qed.

(** After the restart. *)
Lemma stage_regrowth (e e2 : E) : stage_inv m nc fs seed e ->
  (forall lanes, sound lanes -> crash_state lanes e -> resumed lanes e e2) ->
  regrowth m nc fs seed e e2.
Proof using All.
  intros [Ho|[(r & ps & Hr & Hps & Ho)|(r & ps & rs & Hr & Hps & Hrs & Hlen & Ho)]] Hres;
    pose proof (only_crash _ _ _ Ho) as Hc.
  - left. apply Hres in Hc as Hrs; [|apply l1_sound].
    destruct (res_lanes _ _ _ Hrs (l1_lane m nc fs seed)) as [k Hk]; [by left|]. split.
    + eapply (fan_goes_on _ _ [seed]); [by apply rooted_parent|by left|apply ceilDiv_small|exact Hrs|exact Hk].
    + intros u Hu%(resumed_queue _ _ _ u Hrs).
      destruct (resumed_tip _ _ _ _ _ _ Ho Hrs Hu) as (l & n & ->%list_elem_of_singleton & _ & _ & Ht). by eapply fan_tips_elem.
  - right; left. exists r, ps. apply Hres in Hc as Hrs; [|by eapply l2_sound].
    split_and!; [done|done|apply (only_past _ _ _ Ho); by left|..].
    + intros i p Hi. destruct (res_lanes _ _ _ Hrs (fan_lane StageL2Partial m p (l2_size nc ps i))) as [k Hk]; [apply fan_lanes_elem; by exists i, p|].
      eapply (fan_goes_on _ _ ps); [by eapply l1_parents|by eapply list_elem_of_lookup_2|by eapply l2_size_small|exact Hrs|exact Hk].
    + intros u Hu%(resumed_queue _ _ _ u Hrs).
      destruct (resumed_tip _ _ _ _ _ _ Ho Hrs Hu) as (l & n & (i & p & Hi & ->)%fan_lanes_elem & _ & _ & Ht).
      exists i, p. split; [done|]. by eapply fan_tips_elem.
  - right; right. exists r, ps, rs. assert (independent m (rs ≫= pCreated)) as Hind by (by eapply chain_seeds_independent).
    apply Hres in Hc as Hrm; [|by eapply chains_sound].
    assert (forall s, s ∈ rs ≫= pCreated -> Value s <> 0) as Hval by (intros s Hs; by eapply chain_seed_value).
    split_and!; try done; [by apply (only_past _ _ _ Ho)|..].
    + intros s Hs. destruct (resumed_chain m _ e e2 s Hind Hs (Hval s Hs) Hrm) as (n & a & Ha & Hacc & Hq & _). by exists n, a.
    + intros u Hu. destruct (resumed_seed m _ Hind Hval _ e e2 Ho Hrm u Hu) as (s & n & Hs & Hn & _). by exists s, n.
    + by apply (resumed_ready m _ Hind Hval _ e e2 Ho Hrm).
Qed.
End bootstrap.
End restart.
