(* ===== verification/Config.v ===== *)
(** * Configuration (internal/config/config.go)

    [load] reads the environment through [reader], which collects every parse
    error; [Redacted] and [MarshalJSON] are what logs and the API show of it. *)

From S2P Require Import Prelude Text Strconv Json JsonFacts Script TxBuilder Backoff.
Open Scope Z_scope.

Module Config.
Import Strconv.

Definition DefaultPort : string := "8080".
Definition DefaultStatePath : string := "./state.db".
Definition DefaultLogLevel : string := "info".
Definition DefaultLogFormat : string := "json".
Definition DefaultArcadeBaseURL : string := "https://arcade-v2-us-1.bsvblockchain.tech".
Definition DefaultWOCBaseURL : string := "https://api.whatsonchain.com/v1/bsv/main".
Definition DefaultNumChains : Z := 10000.
Definition DefaultFanoutSize : Z := 100.
Definition DefaultMaxTPS : Z := 10000.
Definition DefaultBroadcastConcurrency : Z := 64.
Definition DefaultBroadcastRetryMax : Z := 3.
Definition DefaultHTTPTimeout : Z := 30 * Backoff.Second.
Definition DefaultSSEReconnectInitial : Z := Backoff.Second.
Definition DefaultSSEReconnectMax : Z := 30 * Backoff.Second.
Definition DefaultSlackChannel : string := "#alerts".
Definition DefaultEnvironment : string := "production".

Definition redactedValue : string := "***".

Record Config := mkConfig {
  AdminToken : string;
  Port : string;
  StatePath : string;
  LogLevel : string;
  LogFormat : string;
  ArcadeBaseURL : string;
  ArcadeCallbackToken : string;
  WOCBaseURL : string;
  PrivateKey : string;
  InstanceID : string;
  Environment : string;
  NumChains : Z;
  FanoutSize : Z;
  SustainFee : Z;
  MaxTPS : Z;
  BroadcastConcurrency : Z;
  BroadcastRetryMax : Z;
  HTTPTimeout : Z;
  SSEReconnectMin : Z;
  SSEReconnectMax : Z;
  SlackWebhookURL : string;
  SlackChannel : string;
}.

(** ** The reader *)

Record reader := mkReader { getenv : string -> string; errs : list err }.

Definition read (A : Type) : Type := reader -> A * reader.
#[export] Instance read_ret : MRet read := fun A a r => (a, r).
#[export] Instance read_bind : MBind read := fun A B f m r => let '(a, r') := m r in f a r'.

(** [r.errs = append(r.errs, fmt.Errorf("%w: key=%q must be ...", ErrInvalidValue, ...))] *)
Definition invalid (key must : string) : read unit := fun r =>
  (tt, mkReader (getenv r) (errs r ++ [Wrap (String.append key must) ErrInvalidValue])).

(** [reader.string] *)
Definition rstring (key def : string) : read string := fun r =>
  let v := trim (getenv r key) in
  (if bool_decide (v = ""%string) then def else v, r).

Definition oneOf (key def : string) (allowed : list string) : read string :=
  raw ← rstring key "";
  if bool_decide (raw = ""%string) then mret def else
  let value := of_bytes (ToLower (to_bytes raw)) in
  if negb (bool_decide (value ∈ allowed)) then invalid key " must be one of";; mret def
  else mret value.

Definition positiveInt (key : string) (def : Z) : read Z :=
  raw ← rstring key "";
  if bool_decide (raw = ""%string) then mret def else
  match Atoi (to_bytes raw) with
  | Some v => if v <=? 0 then invalid key " must be a positive integer";; mret def else mret v
  | None => invalid key " must be a positive integer";; mret def
  end.

Definition positiveUint64 (key : string) (def : Z) : read Z :=
  raw ← rstring key "";
  if bool_decide (raw = ""%string) then mret def else
  match ParseUint 64 (to_bytes raw) with
  | Some v => if v =? 0 then invalid key " must be a positive integer";; mret def else mret v
  | None => invalid key " must be a positive integer";; mret def
  end.

Definition duration (key : string) (def : Z) : read Z :=
  raw ← rstring key "";
  if bool_decide (raw = ""%string) then mret def else
  match ParseDuration (to_bytes raw) with
  | Some v => if v <=? 0 then invalid key " must be a positive duration such as 30s";; mret def else mret v
  | None => invalid key " must be a positive duration such as 30s";; mret def
  end.

(** ** load *)

(** The composite literal of [load], in evaluation order. *)
Definition fields : read Config :=
  privateKey ← rstring "PRIVATE_KEY" "";
  let defaultFee := if bool_decide (privateKey = ""%string) then DefaultSustainFee else DefaultP2PKHSustainFee in
  adminToken ← rstring "ADMIN_TOKEN" "";
  port ← rstring "PORT" DefaultPort;
  statePath ← rstring "STATE_PATH" DefaultStatePath;
  logLevel ← oneOf "LOG_LEVEL" DefaultLogLevel ["debug"; "info"; "warn"; "error"]%string;
  logFormat ← oneOf "LOG_FORMAT" DefaultLogFormat ["json"; "text"]%string;
  arcadeBaseURL ← rstring "ARCADE_BASE_URL" DefaultArcadeBaseURL;
  arcadeCallbackToken ← rstring "ARCADE_CALLBACK_TOKEN" "";
  wocBaseURL ← rstring "WOC_BASE_URL" DefaultWOCBaseURL;
  instanceID ← rstring "INSTANCE_ID" "";
  environment ← rstring "ENVIRONMENT" DefaultEnvironment;
  numChains ← positiveInt "NUM_CHAINS" DefaultNumChains;
  fanoutSize ← positiveInt "FANOUT_SIZE" DefaultFanoutSize;
  sustainFee ← positiveUint64 "SUSTAIN_FEE" defaultFee;
  maxTPS ← positiveInt "MAX_TPS" DefaultMaxTPS;
  broadcastConcurrency ← positiveInt "BROADCAST_CONCURRENCY" DefaultBroadcastConcurrency;
  broadcastRetryMax ← positiveInt "BROADCAST_RETRY_MAX" DefaultBroadcastRetryMax;
  httpTimeout ← duration "HTTP_TIMEOUT" DefaultHTTPTimeout;
  sseReconnectInitial ← duration "SSE_RECONNECT_INITIAL" DefaultSSEReconnectInitial;
  sseReconnectMin ← duration "SSE_RECONNECT_MIN" sseReconnectInitial;
  sseReconnectMax ← duration "SSE_RECONNECT_MAX" DefaultSSEReconnectMax;
  slackWebhookURL ← rstring "SLACK_WEBHOOK_URL" "";
  slackChannel ← rstring "SLACK_CHANNEL" DefaultSlackChannel;
  mret (mkConfig adminToken port statePath logLevel logFormat arcadeBaseURL arcadeCallbackToken wocBaseURL
    privateKey instanceID environment numChains fanoutSize sustainFee maxTPS broadcastConcurrency
    broadcastRetryMax httpTimeout sseReconnectMin sseReconnectMax slackWebhookURL slackChannel).

Definition load (getenv : string -> string) : result Config :=
  let '(c, env) := fields (mkReader getenv []) in
  match join_errs (errs env) with
  | Some e => Err e
  | None =>
      if bool_decide (AdminToken c = ""%string) then Err ErrAdminTokenRequired
      else if bool_decide (InstanceID c = ""%string) then Err ErrConfigInstanceIDRequired
      else Ok c
  end.

(** ** What is shown of it *)

(** [if *secret != "" { *secret = redactedValue }] *)
Definition redact (secret : string) : string :=
  if bool_decide (secret = ""%string) then secret else redactedValue.

Definition Redacted (c : Config) : Config :=
  mkConfig (redact (AdminToken c)) (Port c) (StatePath c) (LogLevel c) (LogFormat c) (ArcadeBaseURL c)
    (redact (ArcadeCallbackToken c)) (WOCBaseURL c) (redact (PrivateKey c)) (InstanceID c) (Environment c)
    (NumChains c) (FanoutSize c) (SustainFee c) (MaxTPS c) (BroadcastConcurrency c) (BroadcastRetryMax c)
    (HTTPTimeout c) (SSEReconnectMin c) (SSEReconnectMax c) (redact (SlackWebhookURL c)) (SlackChannel c).

Definition jstr (s : string) : json := JStr (to_bytes s).
Definition jint (z : Z) : json := JNum (to_bytes (pretty z)).

(** The members of [plain], by the tags of [Config]. *)
Definition members (c : Config) : list (bytes * json) :=
  (fun m : string * json => (to_bytes m.1, m.2)) <$>
  [("adminToken", jstr (AdminToken c)); ("port", jstr (Port c)); ("statePath", jstr (StatePath c));
   ("logLevel", jstr (LogLevel c)); ("logFormat", jstr (LogFormat c)); ("arcadeBaseUrl", jstr (ArcadeBaseURL c));
   ("arcadeCallbackToken", jstr (ArcadeCallbackToken c)); ("wocBaseUrl", jstr (WOCBaseURL c));
   ("privateKey", jstr (PrivateKey c)); ("instanceId", jstr (InstanceID c)); ("environment", jstr (Environment c));
   ("numChains", jint (NumChains c)); ("fanoutSize", jint (FanoutSize c)); ("sustainFee", jint (SustainFee c));
   ("maxTps", jint (MaxTPS c)); ("broadcastConcurrency", jint (BroadcastConcurrency c));
   ("broadcastRetryMax", jint (BroadcastRetryMax c)); ("httpTimeout", jint (HTTPTimeout c));
   ("sseReconnectMin", jint (SSEReconnectMin c)); ("sseReconnectMax", jint (SSEReconnectMax c));
   ("slackWebhookUrl", jstr (SlackWebhookURL c)); ("slackChannel", jstr (SlackChannel c))]%string.

Definition MarshalJSON (c : Config) : bytes := Json.print (JObj (members (Redacted c))).

(** [String]; marshaling strings and integers never fails. *)
Definition String_ (c : Config) : bytes :=
  let encoded := MarshalJSON c in
  match Json.Indent [] (to_bytes "  ") encoded with
  | Some indented => indented
  | None => encoded
  end.

(** ** What load accepts

    A variable is unset when it is blank.  Otherwise its trimmed text is read by
    [parse]; [None] is an invalid value. *)

Definition setting {A} (parse : string -> option A) (key : string) (def : A) (g : string -> string) : option A :=
  let v := trim (g key) in if bool_decide (v = ""%string) then Some def else parse v.

Definition positive (v : Z) : option Z := if 0 <? v then Some v else None.
Definition parse_int (raw : string) : option Z := Atoi (to_bytes raw) ≫= positive.
Definition parse_uint (raw : string) : option Z := ParseUint 64 (to_bytes raw) ≫= positive.
Definition parse_duration (raw : string) : option Z := ParseDuration (to_bytes raw) ≫= positive.
Definition parse_one (allowed : list string) (raw : string) : option string :=
  let value := of_bytes (ToLower (to_bytes raw)) in if bool_decide (value ∈ allowed) then Some value else None.

(** [v] is what the environment sets [key] to. *)
Definition set_to {A} (parse : string -> option A) (g : string -> string) (key : string) (def v : A) : Prop :=
  setting parse key def g = Some v.

(** Every field is what its variable says. *)
Record configured (g : string -> string) (c : Config) : Prop := {
  cf_AdminToken : set_to Some g "ADMIN_TOKEN" ""%string (AdminToken c);
  cf_Port : set_to Some g "PORT" "8080"%string (Port c);
  cf_StatePath : set_to Some g "STATE_PATH" "./state.db"%string (StatePath c);
  cf_LogLevel : set_to (parse_one ["debug"; "info"; "warn"; "error"]%string) g "LOG_LEVEL" "info"%string (LogLevel c);
  cf_LogFormat : set_to (parse_one ["json"; "text"]%string) g "LOG_FORMAT" "json"%string (LogFormat c);
  cf_ArcadeBaseURL : set_to Some g "ARCADE_BASE_URL" DefaultArcadeBaseURL (ArcadeBaseURL c);
  cf_ArcadeCallbackToken : set_to Some g "ARCADE_CALLBACK_TOKEN" ""%string (ArcadeCallbackToken c);
  cf_WOCBaseURL : set_to Some g "WOC_BASE_URL" DefaultWOCBaseURL (WOCBaseURL c);
  cf_PrivateKey : set_to Some g "PRIVATE_KEY" ""%string (PrivateKey c);
  cf_InstanceID : set_to Some g "INSTANCE_ID" ""%string (InstanceID c);
  cf_Environment : set_to Some g "ENVIRONMENT" "production"%string (Environment c);
  cf_NumChains : set_to parse_int g "NUM_CHAINS" 10000 (NumChains c);
  cf_FanoutSize : set_to parse_int g "FANOUT_SIZE" 100 (FanoutSize c);
  cf_SustainFee : set_to parse_uint g "SUSTAIN_FEE" (if bool_decide (PrivateKey c = ""%string) then 7 else 20) (SustainFee c);
  cf_MaxTPS : set_to parse_int g "MAX_TPS" 10000 (MaxTPS c);
  cf_BroadcastConcurrency : set_to parse_int g "BROADCAST_CONCURRENCY" 64 (BroadcastConcurrency c);
  cf_BroadcastRetryMax : set_to parse_int g "BROADCAST_RETRY_MAX" 3 (BroadcastRetryMax c);
  cf_HTTPTimeout : set_to parse_duration g "HTTP_TIMEOUT" (30 * Backoff.Second) (HTTPTimeout c);
  cf_SSEReconnectMin : exists initial, set_to parse_duration g "SSE_RECONNECT_INITIAL" Backoff.Second initial /\
    set_to parse_duration g "SSE_RECONNECT_MIN" initial (SSEReconnectMin c);
  cf_SSEReconnectMax : set_to parse_duration g "SSE_RECONNECT_MAX" (30 * Backoff.Second) (SSEReconnectMax c);
  cf_SlackWebhookURL : set_to Some g "SLACK_WEBHOOK_URL" ""%string (SlackWebhookURL c);
  cf_SlackChannel : set_to Some g "SLACK_CHANNEL" "#alerts"%string (SlackChannel c);
}.

(** The complaint about a variable that is set to what cannot be parsed. *)
Definition complaint {A} (parse : string -> option A) (key must : string) (g : string -> string) : list err :=
  let v := trim (g key) in
  if bool_decide (v = ""%string) then [] else
  match parse v with Some _ => [] | None => [Wrap (String.append key must) ErrInvalidValue] end.

(** One complaint for every malformed variable, in the order of the fields. *)
Definition malformed (g : string -> string) : list err :=
  complaint (parse_one ["debug"; "info"; "warn"; "error"]%string) "LOG_LEVEL" " must be one of" g ++
  complaint (parse_one ["json"; "text"]%string) "LOG_FORMAT" " must be one of" g ++
  complaint parse_int "NUM_CHAINS" " must be a positive integer" g ++
  complaint parse_int "FANOUT_SIZE" " must be a positive integer" g ++
  complaint parse_uint "SUSTAIN_FEE" " must be a positive integer" g ++
  complaint parse_int "MAX_TPS" " must be a positive integer" g ++
  complaint parse_int "BROADCAST_CONCURRENCY" " must be a positive integer" g ++
  complaint parse_int "BROADCAST_RETRY_MAX" " must be a positive integer" g ++
  complaint parse_duration "HTTP_TIMEOUT" " must be a positive duration such as 30s" g ++
  complaint parse_duration "SSE_RECONNECT_INITIAL" " must be a positive duration such as 30s" g ++
  complaint parse_duration "SSE_RECONNECT_MIN" " must be a positive duration such as 30s" g ++
  complaint parse_duration "SSE_RECONNECT_MAX" " must be a positive duration such as 30s" g.

(** [reads m s es]: [m] returns what [s] finds in the environment, and collects the
    errors [es], which are none just when [s] finds something. *)
Definition reads {A} (m : read A) (s : (string -> string) -> option A) (es : (string -> string) -> list err) : Prop := forall r,
  (m r).2 = mkReader (getenv r) (errs r ++ es (getenv r)) /\
  match s (getenv r) with Some a => (m r).1 = a /\ es (getenv r) = [] | None => es (getenv r) <> [] end.

Lemma reads_bind {A B} (m : read A) (f : A -> read B) s t es es' :
  reads m s es -> (forall a, reads (f a) (t a) es') -> reads (m ≫= f) (fun g => s g ≫= fun a => t a g) (fun g => es g ++ es' g).
Proof.
  intros Hm Hf r. destruct (Hm r) as [Hr Hs]. unfold mbind, read_bind. destruct (m r) as [a r']. simpl in Hr, Hs. subst r'.
  destruct (Hf a (mkReader (getenv r) (errs r ++ es (getenv r)))) as [Hr' Ht]. simpl in Hr', Ht. rewrite Hr', (assoc_L (++)). split; [done|].
  destruct (s (getenv r)) as [a'|]; simpl; [|by destruct (es (getenv r))]. destruct Hs as [<- Hes]. rewrite Hes in *. simpl.
  exact Ht.
Qed.

Lemma reads_ret {A} (a : A) : reads (mret a) (fun _ => Some a) (fun _ => []).
Proof. intros r. simpl. rewrite app_nil_r. by destruct r. Qed.

Lemma rstring_reads key def : reads (rstring key def) (setting Some key def) (fun _ => []).
Proof. intros r. unfold setting, rstring. rewrite app_nil_r. split; [by destruct r|]. by case_bool_decide. Qed.

(** The readers of one shape: the trimmed text, a default when it is blank, a parser
    and a complaint. *)
Lemma reads_setting {A} (m : string -> read A) (parse : string -> option A) key must (def : A) :
  (forall raw r, m raw r = match parse raw with Some a => (a, r) | None => (def, (invalid key must r).2) end) ->
  reads (raw ← rstring key ""; if bool_decide (raw = ""%string) then mret def else m raw) (setting parse key def) (complaint parse key must).
Proof.
  intros Hm r. unfold mbind at 1 2, read_bind at 1 2, rstring, setting, complaint.
  destruct (decide (trim (getenv r key) = ""%string)) as [->|Hv].
  - simpl. rewrite app_nil_r. by destruct r.
  - rewrite !(bool_decide_eq_false_2 (trim (getenv r key) = ""%string)) by done. rewrite Hm.
    destruct (parse (trim (getenv r key))); simpl; [rewrite app_nil_r; by destruct r|done].
Qed.

Lemma oneOf_reads key def allowed :
  reads (oneOf key def allowed) (setting (parse_one allowed) key def) (complaint (parse_one allowed) key " must be one of").
Proof. apply reads_setting. intros raw r. unfold parse_one. by case_bool_decide. Qed.

Lemma positiveInt_reads key def :
  reads (positiveInt key def) (setting parse_int key def) (complaint parse_int key " must be a positive integer").
Proof.
  apply reads_setting. intros raw r. unfold parse_int. destruct (Atoi (to_bytes raw)) as [v|]; [|done].
  simpl. unfold positive. destruct (Z.leb_spec v 0), (Z.ltb_spec 0 v); try lia; done.
Qed.

Lemma positiveUint64_reads key def :
  reads (positiveUint64 key def) (setting parse_uint key def) (complaint parse_uint key " must be a positive integer").
Proof.
  apply reads_setting. intros raw r. unfold parse_uint.
  destruct (ParseUint 64 (to_bytes raw)) as [v|] eqn:Hp; [|done]. apply ParseUint_range in Hp.
  simpl. unfold positive. destruct (Z.eqb_spec v 0), (Z.ltb_spec 0 v); try lia; done.
Qed.

Lemma duration_reads key def :
  reads (duration key def) (setting parse_duration key def) (complaint parse_duration key " must be a positive duration such as 30s").
Proof.
  apply reads_setting. intros raw r. unfold parse_duration.
  destruct (ParseDuration (to_bytes raw)) as [v|]; [|done].
  simpl. unfold positive. destruct (Z.leb_spec v 0), (Z.ltb_spec 0 v); try lia; done.
Qed.

Create HintDb reads.
#[local] Hint Resolve reads_ret rstring_reads oneOf_reads positiveInt_reads positiveUint64_reads duration_reads : reads.

Ltac erewrite_setting :=
  match goal with H : setting ?p ?k ?d ?g = Some _ |- context [setting ?p' ?k ?d' ?g] =>
    change (setting p' k d' g) with (setting p k d g); rewrite H end.

(** [fields] as a whole: the configuration of the environment, or the complaints. *)
Lemma fields_reads : exists s es, reads fields s es /\ (forall g c, s g = Some c <-> configured g c) /\ forall g, es g = malformed g.
Proof.
  eexists _, _. split_and!.
  - unfold fields. repeat (eapply reads_bind; [solve [auto with reads]|intros ?]). apply reads_ret.
  - intros g c. split.
    + intros Hs. repeat (apply bind_Some in Hs as (? & ? & Hs)). injection Hs as <-.
      constructor; simpl; try assumption. by eexists.
    + intros [? ? ? ? ? ? ? ? ? ? ? ? ? ? ? ? ? ? (initial & ? & ?) ? ? ?].
      unfold set_to in *. destruct c; simpl in *.
      by repeat (erewrite_setting; cbn [mbind option_bind]).
  - intros g. unfold malformed. cbn [app]. rewrite ?app_nil_r. reflexivity.
Qed.

(** Joining errors of one kind gives an error of that kind. *)
Lemma join_errs_is es t : es <> [] -> Forall (fun e => errors_is e t) es ->
  exists e, join_errs es = Some e /\ errors_is e t.
Proof.
  intros Hne Hes. destruct es as [|e es]; [done|]. eexists. split; [done|].
  apply Forall_cons in Hes as [He Hes]. clear Hne. revert e He.
  induction Hes as [|e' es He' _ IH]; intros e He; [done|]. simpl. apply IH.
  simpl. apply Is_true_true in He as ->. by rewrite orb_true_r.
Qed.

Lemma malformed_invalid g : Forall (fun e => errors_is e ErrInvalidValue) (malformed g).
Proof.
  assert (forall A (parse : string -> option A) key must, Forall (fun e => errors_is e ErrInvalidValue) (complaint parse key must g)) as Hc.
  { intros A parse key must. unfold complaint. case_bool_decide; [done|]. case_match; by repeat constructor. }
  unfold malformed. repeat (apply Forall_app_2; [apply Hc|]). apply Hc.
Qed.

(** [load], once the fields are read. *)
Lemma fields_load g : exists c,
  load g = match join_errs (malformed g) with
           | Some e => Err e
           | None =>
               if bool_decide (AdminToken c = ""%string) then Err ErrAdminTokenRequired
               else if bool_decide (InstanceID c = ""%string) then Err ErrConfigInstanceIDRequired else Ok c
           end /\
  (malformed g = [] /\ configured g c \/ malformed g <> [] /\ ~ exists c, configured g c).
Proof.
  destruct fields_reads as (s & es & Hs & Hc & Hes). destruct (Hs (mkReader g [])) as [Hr Hm]. unfold load.
  destruct (fields (mkReader g [])) as [c r]. simpl in Hr, Hm. subst r. rewrite Hes in *. exists c. split; [done|].
  destruct (s g) as [c'|] eqn:Hg; [|right; split; [done|]; intros [c' Hc'%Hc]; congruence].
  destruct Hm as [-> Hm]. left. split; [done|]. by apply Hc.
Qed.

(** C27: loading succeeds exactly when every variable that is set to something can
    be parsed and the admin token and the instance id are set; then every field is
    the value its variable says, or its default when the variable is blank.  A value
    that cannot be parsed never falls back to a default: the error that is returned
    joins exactly one [ErrInvalidValue] for every malformed variable, which names it;
    only an environment that parses is refused for a missing variable. *)
Theorem load_spec (g : string -> string) :
  match load g with
  | Ok c => malformed g = [] /\ configured g c /\ AdminToken c <> ""%string /\ InstanceID c <> ""%string
  | Err e =>
      (malformed g <> [] /\ join_errs (malformed g) = Some e /\ errors_is e ErrInvalidValue /\ ~ exists c, configured g c) \/
      exists c, malformed g = [] /\ configured g c /\
        ((e = ErrAdminTokenRequired /\ AdminToken c = ""%string) \/
         (e = ErrConfigInstanceIDRequired /\ AdminToken c <> ""%string /\ InstanceID c = ""%string))
  end.
Proof.
  destruct (fields_load g) as (c & Hl & [(Hm & Hc)|(Hm & Hno)]); rewrite Hl.
  - rewrite Hm. simpl. repeat case_bool_decide; eauto 10.
  - destruct (join_errs_is (malformed g) ErrInvalidValue Hm (malformed_invalid g)) as (e & He & Hi). rewrite He. by left.
Qed.

(** A configuration that can be run: numbers in the range of their Go type and
    positive, names from their lists, nothing required left blank. *)
Record config_wf (c : Config) : Prop := {
  wf_required : AdminToken c <> ""%string /\ InstanceID c <> ""%string;
  wf_nonempty : Forall (fun s => s <> ""%string)
    [Port c; StatePath c; ArcadeBaseURL c; WOCBaseURL c; Environment c; SlackChannel c];
  wf_names : LogLevel c ∈ ["debug"; "info"; "warn"; "error"]%string /\ LogFormat c ∈ ["json"; "text"]%string;
  wf_ints : Forall (fun n => 0 < n < two63)
    [NumChains c; FanoutSize c; MaxTPS c; BroadcastConcurrency c; BroadcastRetryMax c;
     HTTPTimeout c; SSEReconnectMin c; SSEReconnectMax c];
  wf_fee : 0 < SustainFee c < two64;
}.

Lemma set_to_inv {A} (P : A -> Prop) (parse : string -> option A) g key def v :
  set_to parse g key def v -> P def -> (forall raw a, raw <> ""%string -> parse raw = Some a -> P a) -> P v.
Proof.
  unfold set_to, setting. case_bool_decide as Hv; [by intros [= <-]|]. intros Hp _ Hall. by eapply Hall.
Qed.

Lemma positive_Some z v : positive z = Some v -> v = z /\ 0 < v.
Proof. unfold positive. destruct (Z.ltb_spec 0 z); [|done]. by intros [= <-]. Qed.

Lemma parse_int_range raw v : parse_int raw = Some v -> 0 < v < two63.
Proof. intros (n & Hn & [-> ?]%positive_Some)%bind_Some. apply Atoi_range in Hn. unfold is_i64 in Hn. lia. Qed.

Lemma parse_duration_range raw v : parse_duration raw = Some v -> 0 < v < two63.
Proof. intros (n & Hn & [-> ?]%positive_Some)%bind_Some. apply ParseDuration_range in Hn. unfold is_i64 in Hn. lia. Qed.

Lemma parse_uint_range raw v : parse_uint raw = Some v -> 0 < v < two64.
Proof. intros (n & Hn & [-> ?]%positive_Some)%bind_Some. apply ParseUint_range in Hn. change (2 ^ 64) with two64 in Hn. lia. Qed.

Lemma parse_one_in allowed raw v : parse_one allowed raw = Some v -> v ∈ allowed.
Proof. unfold parse_one. by case_bool_decide; intros [= <-]. Qed.

(** A configuration that loads is the one of the environment. *)
Lemma load_configured (g : string -> string) (c : Config) :
  load g = Ok c -> configured g c /\ AdminToken c <> ""%string /\ InstanceID c <> ""%string.
Proof.
  intros Hl. destruct (fields_load g) as (c' & Hr & [(Hm & Hc)|(Hm & _)]); rewrite Hr in Hl.
  - rewrite Hm in Hl. simpl in Hl. repeat case_bool_decide; simplify_eq. done.
  - by destruct (malformed g).
Qed.

(** C28: every configuration that loads is well formed: nothing required is blank,
    the log level and format are among the known ones, and every number is positive
    and fits the integer type of its field. *)
Theorem load_wf (g : string -> string) (c : Config) : load g = Ok c -> config_wf c.
Proof.
  intros Hl. destruct (load_configured g c Hl) as (Hc & Ha & Hi). destruct Hc.
  assert (forall key def v, def <> ""%string -> set_to Some g key def v -> v <> ""%string) as Hstr.
  { intros key def v Hd Hv. eapply (set_to_inv (fun v => v <> ""%string)); [done..|]. by intros raw a Hr [= <-]. }
  assert (forall key def v, 0 < def < two63 -> set_to parse_int g key def v -> 0 < v < two63) as Hint.
  { intros key def v Hd Hv. eapply (set_to_inv (fun v => 0 < v < two63)); [done..|]. intros raw a _. apply parse_int_range. }
  assert (forall key def v, 0 < def < two63 -> set_to parse_duration g key def v -> 0 < v < two63) as Hdur.
  { intros key def v Hd Hv. eapply (set_to_inv (fun v => 0 < v < two63)); [done..|]. intros raw a _. apply parse_duration_range. }
  constructor; [done|..].
  - repeat (apply Forall_cons_2); try apply Forall_nil_2; (eapply Hstr; [|eassumption]; done).
  - split; [eapply (set_to_inv (fun v => v ∈ _)); [exact cf_LogLevel0|..]|eapply (set_to_inv (fun v => v ∈ _)); [exact cf_LogFormat0|..]];
      first [intros raw a _; by apply parse_one_in|apply (bool_decide_eq_true_1 _); reflexivity].
  - destruct cf_SSEReconnectMin0 as (i & Hini & Hmin). apply Hdur in Hini; [|done].
    repeat (apply Forall_cons_2); try apply Forall_nil_2; first [eapply Hint; [|eassumption]|eapply Hdur; [|eassumption]]; done.
  - eapply (set_to_inv (fun v => 0 < v < two64)); [eassumption|by case_bool_decide|intros raw a _; apply parse_uint_range].
Qed.

(** ** Redaction *)

(** The four secrets, and a configuration with other ones. *)
Definition secrets (c : Config) : list string :=
  [AdminToken c; PrivateKey c; ArcadeCallbackToken c; SlackWebhookURL c].

Definition with_secrets (admin key callback slack : string) (c : Config) : Config :=
  mkConfig admin (Port c) (StatePath c) (LogLevel c) (LogFormat c) (ArcadeBaseURL c) callback (WOCBaseURL c) key
    (InstanceID c) (Environment c) (NumChains c) (FanoutSize c) (SustainFee c) (MaxTPS c) (BroadcastConcurrency c)
    (BroadcastRetryMax c) (HTTPTimeout c) (SSEReconnectMin c) (SSEReconnectMax c) slack (SlackChannel c).

(** The strings that are shown. *)
Definition shown (c : Config) : list string :=
  [Port c; StatePath c; LogLevel c; LogFormat c; ArcadeBaseURL c; WOCBaseURL c; InstanceID c; Environment c; SlackChannel c].

Definition utf8 (s : string) : Prop := JsonFacts.sanitize (to_bytes s) = to_bytes s.

Lemma redact_cases s : redact s = ""%string \/ redact s = redactedValue.
Proof. unfold redact. case_bool_decide; auto. Qed.

Lemma redact_utf8 s : utf8 (redact s).
Proof. destruct (redact_cases s) as [-> | ->]; by vm_compute. Qed.

Lemma redact_same s t : (s = ""%string <-> t = ""%string) -> redact s = redact t.
Proof. intros Hst. unfold redact. repeat case_bool_decide; naive_solver. Qed.

Lemma valid_jstr s : utf8 s -> JsonFacts.valid_tree (jstr s) = jstr s.
Proof. intros Hs. unfold jstr. cbn [JsonFacts.valid_tree]. by rewrite Hs. Qed.

Lemma members_valid c : Forall utf8 (shown c) ->
  JsonFacts.valid_tree (JObj (members (Redacted c))) = JObj (members (Redacted c)).
Proof.
  intros Hs. repeat (apply Forall_cons in Hs as [? Hs]). cbn [JsonFacts.valid_tree]. f_equal.
  unfold members. rewrite <- list_fmap_compose.
  cbn [Redacted AdminToken Port StatePath LogLevel LogFormat ArcadeBaseURL ArcadeCallbackToken WOCBaseURL PrivateKey
    InstanceID Environment NumChains FanoutSize SustainFee MaxTPS BroadcastConcurrency BroadcastRetryMax HTTPTimeout
    SSEReconnectMin SSEReconnectMax SlackWebhookURL SlackChannel].
  pose proof (redact_utf8 (AdminToken c)). pose proof (redact_utf8 (ArcadeCallbackToken c)).
  pose proof (redact_utf8 (PrivateKey c)). pose proof (redact_utf8 (SlackWebhookURL c)).
  apply list_fmap_ext. intros i [k j] Hi. unfold compose. cbn [fst snd]. f_equal.
  - do 22 (destruct i as [|i]; [by injection Hi as <- <-|]). done.
  - do 22 (destruct i as [|i]; [injection Hi as <- <-; (by apply valid_jstr) || reflexivity|]). done.
Qed.

Lemma members_numbers c : JsonFacts.numbers_ok (JObj (members c)).
Proof.
  cbn [JsonFacts.numbers_ok members fmap list_fmap foldr snd jstr jint].
  split_and!; done || apply JsonFacts.is_number_pretty.
Qed.

(** C29: what is shown of a configuration, to a client or in a log, tells nothing
    about its secrets but which ones are set: two configurations that differ only in
    the text of their secrets are printed alike, and every secret is printed as
    "***".  Everything else can be read back exactly from the JSON text and from the
    indented one, when it is valid UTF-8. *)
Theorem MarshalJSON_redacts (c : Config) (admin key callback slack : string) :
  Forall2 (fun s t => s = ""%string <-> t = ""%string) [admin; key; callback; slack] (secrets c) ->
  Forall utf8 (shown c) ->
  MarshalJSON (with_secrets admin key callback slack c) = MarshalJSON c /\
  String_ (with_secrets admin key callback slack c) = String_ c /\
  Json.Unmarshal (MarshalJSON c) = Some (JObj (members (Redacted c))) /\
  Json.Unmarshal (String_ c) = Some (JObj (members (Redacted c))) /\
  Forall (fun s => s = ""%string \/ s = "***"%string) (secrets (Redacted c)).
Proof.
  intros Hsec Hs. unfold secrets in Hsec. repeat (apply Forall2_cons in Hsec as [? Hsec]).
  assert (MarshalJSON (with_secrets admin key callback slack c) = MarshalJSON c) as Hsame.
  { unfold MarshalJSON. do 3 f_equal. unfold Redacted. simpl. f_equal; by apply redact_same. }
  pose proof (members_numbers (Redacted c)) as Hn. pose proof (members_valid c Hs) as Hv.
  split_and!; [done|unfold String_; by rewrite Hsame|..].
  - unfold MarshalJSON. by rewrite JsonFacts.Unmarshal_print, Hv.
  - unfold String_, MarshalJSON. destruct (JsonFacts.Indent_print [] (to_bytes "  ") (JObj (members (Redacted c)))) as (t & -> & Ht);
      [by repeat constructor..|done|done|]. by rewrite Ht, Hv.
  - repeat (apply Forall_cons_2); try apply Forall_nil_2; apply redact_cases.
Qed.

(** ** A configuration *)

Definition sample_env (key : string) : string :=
  if bool_decide (key = "ADMIN_TOKEN"%string) then " s3cret "%string
  else if bool_decide (key = "INSTANCE_ID"%string) then "runner-7"%string
  else if bool_decide (key = "NUM_CHAINS"%string) then "250"%string
  else if bool_decide (key = "LOG_LEVEL"%string) then "WARN"%string
  else if bool_decide (key = "SSE_RECONNECT_INITIAL"%string) then "1.5s"%string
  else ""%string.

Definition sample : Config := Eval vm_compute in
  match load sample_env with Ok c => c | Err _ => mkConfig "" "" "" "" "" "" "" "" "" "" "" 0 0 0 0 0 0 0 0 0 "" "" end.

Lemma sample_load : load sample_env = Ok sample.
Proof. vm_compute. reflexivity. Qed.

Lemma load_wf_witness :
  config_wf sample /\ AdminToken sample = "s3cret"%string /\ LogLevel sample = "warn"%string /\
  SSEReconnectMin sample = 1500000000 /\ SustainFee sample = 7.
Proof. split; [exact (load_wf sample_env sample sample_load)|done]. Defined.

Example invalid_never_defaults :
  load (fun key => if bool_decide (key = "NUM_CHAINS"%string) then "ten"%string else sample_env key) =
  Err (Wrap "NUM_CHAINS must be a positive integer" ErrInvalidValue).
Proof. vm_compute. reflexivity. Qed.

Lemma MarshalJSON_redacts_witness :
  MarshalJSON (with_secrets "other" "" "" "" sample) = MarshalJSON sample /\
  Json.Unmarshal (String_ sample) = Some (JObj (members (Redacted sample))) /\ AdminToken (Redacted sample) = "***"%string.
Proof.
  destruct (MarshalJSON_redacts sample "other" "" "" "") as (H1 & _ & _ & H2 & _);
    [repeat constructor; done|repeat constructor; vm_compute; reflexivity|].
  split_and!; [exact H1|exact H2|reflexivity].
Defined.

End Config.
