(* ===== verification/HttpClient.v ===== *)
(** * HTTP clients (internal/httpclient/httpclient.go)

    The settings of the transports and clients the program makes; what [net/http] does
    with them is outside.  A time limit of 0 is none. *)

From S2P Require Import Prelude Backoff.
Open Scope Z_scope.

Module HttpClient.

(** The fields of [http.Transport] that are set, with those of its dialer and the
    minimal TLS version. *)
Record Transport := mkTransport {
  MaxIdleConnsPerHost : Z; MaxIdleConns : Z; IdleConnTimeout : Z; ForceAttemptHTTP2 : bool;
  dialTimeout : Z; dialKeepAlive : Z; tlsMinVersion : Z; TLSHandshakeTimeout : Z;
  ResponseHeaderTimeout : Z; ExpectContinueTimeout : Z;
}.

(** [tls.VersionTLS12] *)
Definition VersionTLS12 : Z := 0x0303.

Definition NewPooledTransport : Transport :=
  mkTransport 128 256 (90 * Backoff.Second) true (5 * Backoff.Second) (30 * Backoff.Second) VersionTLS12 (5 * Backoff.Second) (10 * Backoff.Second) (1 * Backoff.Second).

Definition NewStreamTransport : Transport :=
  mkTransport 32 64 (90 * Backoff.Second) false (5 * Backoff.Second) (30 * Backoff.Second) VersionTLS12 (10 * Backoff.Second) 0 0.

(** [http.Client] *)
Record Client := mkClient { transport : Transport; Timeout : Z }.

Definition New (transport : Transport) (timeout : Z) : Client := mkClient transport timeout.

(** A client whose requests end: connecting, waiting for the answer and the whole
    request have limits. *)
Definition bounded (c : Client) : Prop :=
  0 < Timeout c /\ 0 < dialTimeout (transport c) /\ 0 < TLSHandshakeTimeout (transport c) /\ 0 < ResponseHeaderTimeout (transport c).

(** One for streams that may idle: connecting has limits, the rest has none. *)
Definition streaming (c : Client) : Prop :=
  Timeout c = 0 /\ ResponseHeaderTimeout (transport c) = 0 /\ 0 < dialTimeout (transport c) /\ 0 < TLSHandshakeTimeout (transport c).
End HttpClient.
