(* ===== verification/Http.v ===== *)
(** * Requests to the outside (net/http, and what the clients share)

    The network, the clock, the context, [select] and the random source are the
    class [Net], an arbitrary oracle with its own state.  [Clients] is the state the
    HTTP clients of the program act on: the slots of the Arcade client, the metrics
    and the outside.

    Three fields are not in the source: [c_log] lists every request with the call
    that made it and its answer, [c_holders] and [c_inflight] the calls that hold a
    slot and those that wait for an answer. *)

From S2P Require Import Prelude Prog Backoff Float Metrics.
Open Scope Z_scope.

Record Request := mkRequest {
  rqMethod : string;
  rqURL : string;
  rqHeader : list (string * string);
  rqBody : bytes;
  (* the shortest time limit on the request; 0 is none *)
  rqTimeout : Z;
}.

(** The body is what can be read of it; then reading fails or reports its end. *)
Record Response := mkResponse { rsStatus : Z; rsBody : bytes; rsReadErr : option err }.

Class Net (N : Type) := {
  (* [http.NewRequestWithContext]: why a method and URL make no request *)
  NewRequest : string -> string -> option err;
  (* [http.Client.Do] *)
  HttpDo : Request -> N -> result Response * N;
  (* [time.Now] *)
  Clock : N -> Z * N;
  (* [ctx.Err] *)
  Done : N -> option err * N;
  (* which of its [n] cases a blocking [select] takes; with the duration of its timer,
     when it has one *)
  Choose : nat -> option Z -> N -> nat * N;
  (* [rand.Int64N] *)
  Random : N -> (Z -> Z) * N;
}.

(** [io.ReadAll(io.LimitReader(resp.Body, limit))]: beyond the limit nothing is
    read, so an error there is not seen. *)
Definition readAll (limit : Z) (rs : Response) : bytes * option err :=
  if limit <=? Z.of_nat (length (rsBody rs)) then (take (Z.to_nat limit) (rsBody rs), None)
  else (rsBody rs, rsReadErr rs).

(** [t.Sub(u)], which saturates. *)
Definition time_sub (t u : Z) : Z := Z.max (- two63) (Z.min (two63 - 1) (t - u)).

Section clients.
Context `{Prometheus} {N : Type} `{Net N}.

Record Clients := mkClients {
  c_slots : Z;
  c_metrics : Metrics.t;
  c_net : N;
  c_log : list (nat * Request * result Response);
  c_holders : gset nat;
  c_inflight : gset nat;
}.

Abbreviation code := (prog Clients).

Definition net {B} (f : N -> B * N) : code B :=
  act (fun s => let '(b, n) := f (c_net s) in
    (b, mkClients (c_slots s) (c_metrics s) n (c_log s) (c_holders s) (c_inflight s))).

Definition measure (f : Metrics.t -> Metrics.t) : code unit :=
  modify (fun s => mkClients (c_slots s) (f (c_metrics s)) (c_net s) (c_log s) (c_holders s) (c_inflight s)).

(** [client.Do(req)] by the call [me]: the request goes out, then it is answered. *)
Definition sendRequest (me : nat) (req : Request) : code (result Response) :=
  modify (fun s => mkClients (c_slots s) (c_metrics s) (c_net s) (c_log s) (c_holders s) ({[me]} ∪ c_inflight s));;
  act (fun s => let '(r, n) := HttpDo req (c_net s) in
    (r, mkClients (c_slots s) (c_metrics s) n (c_log s ++ [(me, req, r)]) (c_holders s) (c_inflight s ∖ {[me]}))).

(** [backoff.Sleep] *)
Definition sleep (d : Z) : code (option err) :=
  c ← net (Choose 2 (Some d));
  match c with O => net Done | _ => Ret None end.

(** The exchanges of the call [me]. *)
Definition own (me : nat) (s : Clients) : list (Request * result Response) :=
  (fun x => (x.1.2, x.2)) <$> filter (fun x => x.1.1 = me) (c_log s).

(** ** One call among others

    What a call knows of the state while others run: whether it holds a slot,
    whether its request is under way, and its own exchanges. *)

Record local := mkLocal { l_holds : bool; l_flying : bool; l_own : list (Request * result Response) }.

Definition view (me : nat) (s : Clients) : local :=
  mkLocal (bool_decide (me ∈ c_holders s)) (bool_decide (me ∈ c_inflight s)) (own me s).

(** No more slots are taken than there are, by the calls [ids], and every request
    under way holds one. *)
Definition slots_ok (cap : Z * gset nat) (s : Clients) : Prop :=
  c_slots s = Z.of_nat (size (c_holders s)) /\ c_slots s <= cap.1 /\ c_inflight s ⊆ c_holders s /\ c_holders s ⊆ cap.2.

Definition others_keep (me : nat) (s s' : Clients) : Prop := view me s' = view me s.

Definition step_of (cap : Z * gset nat) (me : nat) (s s' : Clients) : Prop :=
  (slots_ok cap s -> slots_ok cap s') /\ forall j, j <> me -> view j s' = view j s.

(** From a state that looks like [P], the call [p] ends in one that looks like [Q]. *)
Definition call {A} (cap : Z * gset nat) (me : nat) (P : local) (p : code A) (Q : A -> local -> Prop) : Prop :=
  forall s, view me s = P -> rg (others_keep me) (step_of cap me) p (fun a s' => Q a (view me s')) s.

Lemma others_keep_refl me : reflexive _ (others_keep me).
Proof. done. Qed.

Lemma others_keep_trans me : transitive _ (others_keep me).
Proof. unfold others_keep. intros s1 s2 s3 -> ->. done. Qed.

Lemma call_ret {A} cap me P (a : A) (Q : A -> local -> Prop) : Q a P -> call cap me P (Ret a) Q.
Proof. intros HQ s Hs s' Hk. unfold others_keep in Hk. by rewrite Hk, Hs. Qed.

Lemma call_bind {A B} cap me P (p : code A) (g : A -> code B) (Q : A -> local -> Prop) Q' :
  call cap me P p Q -> (forall a P', Q a P' -> call cap me P' (g a) Q') -> call cap me P (p ≫= g) Q'.
Proof.
  intros Hp Hg s Hs. apply rg_bind; [apply others_keep_refl|apply others_keep_trans|].
  eapply rg_mono; [|by apply Hp]. simpl. intros a s' HQ. by apply (Hg a (view me s')).
Qed.

Lemma call_mono {A} cap me P (p : code A) (Q Q' : A -> local -> Prop) :
  (forall a P', Q a P' -> Q' a P') -> call cap me P p Q -> call cap me P p Q'.
Proof. intros HQ Hp s Hs. eapply rg_mono; [|by apply Hp]. simpl. auto. Qed.

Lemma call_act {B} cap me P (f : Clients -> B * Clients) (Q : B -> local -> Prop) :
  (forall s, view me s = P -> step_of cap me s (f s).2 /\ Q (f s).1 (view me (f s).2)) ->
  call cap me P (act f) Q.
Proof.
  intros Hf s Hs. apply rg_act. intros s' Hk. unfold others_keep in *. rewrite Hs in Hk.
  destruct (Hf s' Hk) as [HG HQ]. split; [done|]. intros s'' ->. done.
Qed.

(** A question to the outside, and a metric, change nothing a call knows. *)
Lemma call_net {B} cap me P (f : N -> B * N) : call cap me P (net f) (fun _ P' => P' = P).
Proof. apply call_act. intros s Hs. destruct (f (c_net s)) as [b n]. done. Qed.

Lemma call_measure cap me P f : call cap me P (measure f) (fun _ P' => P' = P).
Proof. apply call_act. done. Qed.

Lemma call_sleep cap me P d : call cap me P (sleep d) (fun _ P' => P' = P).
Proof.
  eapply call_bind; [apply call_net|]. intros c P' ->. destruct c; [apply call_net|by apply call_ret].
Qed.

Lemma own_snoc me s j req r : own me (mkClients (c_slots s) (c_metrics s) (c_net s) (c_log s ++ [(j, req, r)]) (c_holders s) (c_inflight s)) =
  own me s ++ if bool_decide (j = me) then [(req, r)] else [].
Proof.
  unfold own. simpl. rewrite filter_app, fmap_app. f_equal. rewrite filter_cons. simpl.
  by case_bool_decide as Hj; [rewrite decide_True|rewrite decide_False].
Qed.

(** A request by a call that holds a slot is answered, once. *)
Lemma call_send cap me l req :
  call cap me (mkLocal true false l) (sendRequest me req)
    (fun r P' => P' = mkLocal true false (l ++ [(req, r)])).
Proof.
  eapply (call_bind _ _ _ _ _ (fun _ P' => P' = mkLocal true true l)).
  - apply call_act. intros s Hs. injection Hs as Hh Hf Hl. apply bool_decide_eq_true_1 in Hh. split.
    + split.
      * intros (Hsl & Hcap & Hin & Hid). split_and!; [done|done| |done]. simpl. set_solver.
      * intros j Hj. unfold view. simpl. f_equal. apply bool_decide_ext. set_solver.
    + unfold view. simpl. f_equal; [by apply bool_decide_eq_true_2|apply bool_decide_eq_true_2; set_solver|done].
  - intros [] P' ->. apply call_act. intros s Hs. injection Hs as Hh Hf Hl. destruct (HttpDo req (c_net s)) as [r n].
    assert (forall j, own j (mkClients (c_slots s) (c_metrics s) n (c_log s ++ [(me, req, r)]) (c_holders s) (c_inflight s ∖ {[me]})) =
      own j s ++ if bool_decide (me = j) then [(req, r)] else []) as Hown by (intros j; apply (own_snoc j s me req r)).
    split.
    + split.
      * intros (Hsl & Hcap & Hin & Hid). split_and!; [done|done| |done]. simpl. set_solver.
      * intros j Hj. unfold view. simpl. rewrite Hown, (bool_decide_eq_false_2 (me = j)), app_nil_r by done.
        f_equal. apply bool_decide_ext. set_solver.
    + unfold view. simpl. rewrite Hown, (bool_decide_eq_true_2 (me = me)) by done.
      f_equal; [done|apply bool_decide_eq_false_2; set_solver|by rewrite Hl].
Qed.

(** ** One call alone

    What a call adds to the exchanges when it runs by itself. *)

Definition ends {A} (p : code A) (s : Clients) (Q : A -> list (nat * Request * result Response) -> Prop) : Prop :=
  exists l, c_log (run p s).2 = c_log s ++ l /\ Q (run p s).1 l.

Lemma ends_ret {A} (a : A) s (Q : A -> _ -> Prop) : Q a [] -> ends (Ret a) s Q.
Proof. intros HQ. exists []. simpl. by rewrite app_nil_r. Qed.

Lemma ends_bind {A B} (p : code A) (g : A -> code B) s Q Q' :
  ends p s Q -> (forall a l s', Q a l -> ends (g a) s' (fun b l' => Q' b (l ++ l'))) -> ends (p ≫= g) s Q'.
Proof.
  intros (l & Hl & HQ) Hg. unfold ends, mbind, prog_bind. rewrite run_bind. destruct (run p s) as [a s']. simpl in *.
  destruct (Hg a l s' HQ) as (l' & Hl' & HQ'). exists (l ++ l'). split; [|done]. by rewrite Hl', Hl, (assoc_L (++)).
Qed.

Lemma ends_mono {A} (p : code A) s (Q Q' : A -> _ -> Prop) : (forall a l, Q a l -> Q' a l) -> ends p s Q -> ends p s Q'.
Proof. intros HQ (l & ? & ?). exists l. auto. Qed.

Lemma ends_net {B} (f : N -> B * N) s : ends (net f) s (fun _ l => l = []).
Proof. exists []. simpl. destruct (f (c_net s)). by rewrite app_nil_r. Qed.

Lemma ends_answer {B} (f : N -> B * N) s : ends (net f) s (fun b l => l = [] /\ exists n, b = (f n).1).
Proof. exists []. simpl. destruct (f (c_net s)) as [b n] eqn:Hf. rewrite app_nil_r. split_and!; [done|done|]. exists (c_net s). by rewrite Hf. Qed.

Lemma ends_measure f s : ends (measure f) s (fun _ l => l = []).
Proof. exists []. simpl. by rewrite app_nil_r. Qed.

Lemma ends_sleep d s : ends (sleep d) s (fun _ l => l = []).
Proof. eapply ends_bind; [apply ends_net|]. intros [] l s' ->; [apply ends_net|by apply ends_ret]. Qed.

(** A sleep that is cut short returns the error of the context. *)
Lemma ends_sleep_from d s : ends (sleep d) s (fun r l => l = [] /\ forall e, r = Some e -> exists n, (Done n).1 = Some e).
Proof.
  eapply ends_bind; [apply ends_net|]. intros [] l s' ->; [|by apply ends_ret].
  eapply ends_mono; [|apply ends_answer]. intros r l (-> & n & Hn). split; [done|]. intros e He. exists n. by rewrite <- Hn.
Qed.

Lemma ends_send me req s : ends (sendRequest me req) s (fun r l => l = [(me, req, r)]).
Proof. exists [(me, req, (run (sendRequest me req) s).1)]. simpl. by destruct (HttpDo req (c_net s)). Qed.

(** Calls made concurrently: whatever the schedule, each keeps its postcondition
    and the slots are never overcommitted. *)
Lemma calls_par {A} cap (ps : list (code A)) (Q : nat -> A -> local -> Prop) sched s :
  slots_ok cap s ->
  (forall i p, ps !! i = Some p -> call cap i (view i s) p (Q i)) ->
  wpi (slots_ok cap) (par sched ps) (fun l s' => length l = length ps /\
    forall i a, l !! i = Some a -> Q i a (view i s')) s.
Proof.
  intros Hok Hps. apply (rg_wpi _ eq); [done|done|].
  apply (par_rg others_keep (step_of cap) (fun i a s' => Q i a (view i s')) eq).
  - intros i. apply others_keep_refl.
  - intros i. apply others_keep_trans.
  - done.
  - by intros s1 s2 s3 -> ->.
  - intros i j s1 s2 Hij [_ HG]. by apply HG.
  - intros i s1 s2 ->. done.
  - intros i s1 s2 [HG _]. exact HG.
  - intros i p Hi. by apply (Hps i p Hi).
Qed.

End clients.
