(* ===== verification/Arcade.v ===== *)
(** * The Arcade client (internal/arcade/client.go)

    Broadcasts with their retries and slots, the status and health requests, and
    what is logged of an answer.  [me] names the call, for the ghost record of who
    sent what. *)

From S2P Require Import Prelude Prog Text Strconv Json Backoff Float Metrics HttpClient Http.
Open Scope Z_scope.

Module Arcade.

Definition DefaultBaseURL : string := "https://arcade-v2-us-1.bsvblockchain.tech".
Definition defaultTimeout : Z := 30 * Backoff.Second.
Definition defaultConcurrency : Z := 64.
Definition maxResponseBytes : Z := 4096.
Definition maxLoggedBytes : Z := 4096.
Definition reachableTimeout : Z := 2 * Backoff.Second.
Definition broadcastKind : string := "tx".

(** Of [net/http]. *)
Abbreviation StatusOK := 200.
Abbreviation StatusAccepted := 202.
Abbreviation StatusTooManyRequests := 429.
Abbreviation StatusInternalServerError := 500.

Record Options := mkOptions {
  oBaseURL : string; oCallbackToken : string; oTimeout : Z; oConcurrency : Z; oRetryMax : Z;
}.

(** The client; its slots are in [Clients]. *)
Record Client := mkClient {
  baseURL : string; callbackToken : string; http : HttpClient.Client; concurrency : Z; retryMax : Z;
}.

Definition timeout (c : Client) : Z := HttpClient.Timeout (http c).

Definition New (opts : Options) : Client :=
  let base := if bool_decide (oBaseURL opts = ""%string) then DefaultBaseURL else oBaseURL opts in
  mkClient (of_bytes (Strconv.trim_slashes (to_bytes base))) (oCallbackToken opts)
    (HttpClient.New HttpClient.NewPooledTransport (if oTimeout opts <=? 0 then defaultTimeout else oTimeout opts))
    (if oConcurrency opts <=? 0 then defaultConcurrency else oConcurrency opts)
    (Z.max (oRetryMax opts) 1).

(** [Truncate] *)
Definition Truncate (s : bytes) (limit : Z) : bytes :=
  if (limit <=? 0) || (Z.of_nat (length s) <=? limit) then s
  else take (Z.to_nat limit) s ++ to_bytes "...[truncated]".

(** [TxStatusFromBody] *)
Definition TxStatusFromBody (body : bytes) : bytes :=
  match Json.UnmarshalMap body with
  | None => []
  | Some payload =>
      match Json.lookup_string payload "txStatus", Json.lookup_string payload "tx_status",
            Json.lookup_string payload "status" with
      | Some s, _, _ => s
      | None, Some s, _ => s
      | None, None, Some s => s
      | None, None, None => []
      end
  end.

(** How a broadcast ended: with Go's result, or still waiting for a slot when the
    fuel of the wait ran out. *)
Inductive outcome := Returned (r : option err) | Blocked.

#[export] Instance outcome_eq_dec : EqDecision outcome.
Proof. solve_decision. Defined.

Section arcade.
Context `{Prometheus} {N : Type} `{Net N}.

Abbreviation code := (prog (Clients (N := N))).

(** [acquire]: each round [select] waits for a slot or for the context; a case that
    is not ready is not taken. *)
Fixpoint acquire (fuel : nat) (c : Client) (me : nat) : code outcome :=
  match fuel with
  | O => Ret Blocked
  | S fuel =>
      k ← net (Choose 2 None);
      match k with
      | O =>
          taken ← act (fun s =>
            if c_slots s <? concurrency c
            then (true, mkClients (c_slots s + 1) (c_metrics s) (c_net s) (c_log s) ({[me]} ∪ c_holders s) (c_inflight s))
            else (false, s));
          if (taken : bool) then Ret (Returned None) else acquire fuel c me
      | _ =>
          e ← net Done;
          match e with Some e => Ret (Returned (Some e)) | None => acquire fuel c me end
      end
  end.

(** [release] *)
Definition release (me : nat) : code unit :=
  modify (fun s => mkClients (c_slots s - 1) (c_metrics s) (c_net s) (c_log s) (c_holders s ∖ {[me]}) (c_inflight s)).

(** [do]: the status and up to 4 KiB of the body; what cannot be read is dropped. *)
Definition do (me : nat) (req : Request) : code (Z * bytes * option err) :=
  r ← sendRequest me req;
  match r with
  | Err e => Ret (0, [], Some (Wrap "arcade" e))
  | Ok rs => Ret (rsStatus rs, (readAll maxResponseBytes rs).1, None)
  end.

(** The request of a broadcast. *)
Definition postRequest (c : Client) (ef : bytes) : Request :=
  mkRequest "POST" (String.append (baseURL c) "/tx")
    (("Content-Type", "application/octet-stream")%string ::
     if bool_decide (callbackToken c = ""%string) then [] else [("X-CallbackToken"%string, callbackToken c)])
    ef (timeout c).

Definition post (c : Client) (me : nat) (ef : bytes) : code (Z * bytes * option err) :=
  match NewRequest "POST" (String.append (baseURL c) "/tx") with
  | Some e => Ret (0, [], Some (Wrap "build broadcast request" e))
  | None => do me (postRequest c ef)
  end.

(** The loop of [Broadcast] from attempt number [attempt] on, with [tries] left. *)
Fixpoint attempts (tries : nat) (attempt : Z) (lastErr : option err) (c : Client) (me : nat) (ef : bytes)
    : code (option err) :=
  match tries with
  | O => Ret lastErr
  | S tries =>
      start ← net Clock;
      '(status, body, e) ← post c me ef;
      finish ← net Clock;
      measure (Metrics.ObserveBroadcastLatency broadcastKind (time_sub finish start));;
      if bool_decide (e = None) && (status =? StatusAccepted) then
        measure (Metrics.IncBroadcast broadcastKind "ok");; Ret None
      else
        '(lastErr, retryable) ← match e with
          | Some e => done ← net Done; Ret (e, bool_decide (done = None))
          | None => Ret (Wrap "HTTP" ErrRejected,
              (status =? StatusTooManyRequests) || (StatusInternalServerError <=? status))
          end;
        if negb retryable || (attempt =? retryMax c) then
          measure (Metrics.IncBroadcast broadcastKind "error");; Ret (Some lastErr)
        else
          rand ← net Random;
          measure (Metrics.IncBroadcast broadcastKind "retry");;
          r ← sleep (Backoff.Retry rand attempt);
          match r with
          | Some e => Ret (Some e)
          | None => attempts tries (attempt + 1) (Some lastErr) c me ef
          end
  end.

Definition Broadcast (fuel : nat) (c : Client) (me : nat) (ef : bytes) : code outcome :=
  a ← acquire fuel c me;
  match a with
  | Blocked => Ret Blocked
  | Returned (Some e) => Ret (Returned (Some e))
  | Returned None =>
      r ← attempts (Z.to_nat (retryMax c)) 1 None c me ef;
      release me;;
      Ret (Returned r)
  end.

(** [TxStatus] *)
Definition TxStatus (c : Client) (me : nat) (txid : string) : code (Z * bytes * option err) :=
  let url := String.append (baseURL c) (String.append "/tx/" txid) in
  match NewRequest "GET" url with
  | Some e => Ret (0, [], Some (Wrap "build status request" e))
  | None => do me (mkRequest "GET" url [("Accept", "application/json")%string] [] (timeout c))
  end.

(** [Reachable]; the health check has its own limit of two seconds. *)
Definition Reachable (c : Client) (me : nat) : code (option err) :=
  let url := String.append (baseURL c) "/health" in
  match NewRequest "GET" url with
  | Some e => Ret (Some (Wrap "build health request" e))
  | None =>
      '(status, _, e) ← do me (mkRequest "GET" url [] [] (Z.min (timeout c) reachableTimeout));
      match e with
      | Some e => Ret (Some e)
      | None =>
          if StatusInternalServerError <=? status then Ret (Some (Wrap "HTTP" ErrUnhealthy)) else Ret None
      end
  end.

(** ** What a broadcast does *)

(** An answer that ends a broadcast with success, and one after which it is tried
    again (a transport error is, while the context is alive). *)
Definition accepts (a : result Response) : bool :=
  match a with Ok rs => rsStatus rs =? 202 | Err _ => false end.
Definition retries (a : result Response) : bool :=
  match a with Ok rs => (rsStatus rs =? 429) || (500 <=? rsStatus rs) | Err _ => true end.

Definition rejected (r : option err) : bool := match r with Some e => errors_is e ErrRejected | None => false end.

(** The exchanges [l] of one call of [Broadcast] with [n] attempts, and its result. *)
Record broadcast_ok (c : Client) (ef : bytes) (n : nat) (l : list (Request * result Response)) (r : option err) : Prop := {
  bo_requests : Forall (fun x => x.1 = postRequest c ef) l;
  bo_bound : (length l <= n)%nat;
  bo_accepted : r = None <-> exists x, last l = Some x /\ accepts x.2 = true;
  bo_retried : forall i x, l !! i = Some x -> (S i < length l)%nat -> retries x.2 = true;
  bo_rejected : forall x rs, last l = Some x -> x.2 = Ok rs -> accepts x.2 = false ->
    retries x.2 = false \/ length l = n -> rejected r;
}.

(** After an exchange that is tried again come those of the remaining attempts. *)
Lemma broadcast_ok_cons c ef n a l r :
  accepts a = false -> retries a = true -> (0 < n)%nat -> broadcast_ok c ef n l r ->
  broadcast_ok c ef (S n) ((postRequest c ef, a) :: l) r.
Proof.
  intros Hacc Hret Hn [H1 H2 H3 H4 H5]. split.
  - by constructor.
  - simpl. lia.
  - destruct l as [|x l]; [|exact H3]. rewrite H3. split; [by intros (? & ? & ?)|].
    intros (y & [= <-] & Hy). simpl in Hy. congruence.
  - intros [|i] x Hi Hlen; simpl in *; [by simplify_eq|]. apply (H4 i); [done|lia].
  - intros x rs Hx Hrs Hax Hor. destruct l as [|y l].
    + simpl in Hx. simplify_eq/=. destruct Hor; [congruence|lia].
    + apply (H5 x rs Hx Hrs Hax). destruct Hor as [?|?]; [by left|right; simpl in *; lia].
Qed.

(** One more attempt allowed, when the call ended without using it. *)
Lemma broadcast_ok_nil c ef n e : broadcast_ok c ef n [] (Some e).
Proof. split; [done|simpl; lia|split; [done|by intros (? & ? & ?)]|done|done]. Qed.

Lemma broadcast_ok_one c ef n a r :
  (r = None <-> accepts a = true) ->
  (forall rs, a = Ok rs -> accepts a = false -> retries a = false \/ n = 0%nat -> rejected r) ->
  broadcast_ok c ef (S n) [(postRequest c ef, a)] r.
Proof.
  intros Hr Hrej. split.
  - by repeat constructor.
  - simpl. lia.
  - rewrite Hr. split; [intros; by eexists|by intros (x & [= <-] & ?)].
  - intros [|i] x Hi Hlen; simpl in *; [lia|done].
  - intros x rs [= <-] Hrs Hax Hor. simpl in *. apply (Hrej rs Hrs Hax). destruct Hor; [by left|right; lia].
Qed.

(** What [post] returns, when it has sent the request. *)
Definition answered (a : result Response) (status : Z) (e : option err) : Prop :=
  match a with Ok rs => status = rsStatus rs /\ e = None | Err _ => e <> None end.

Lemma call_post cap c me ef l :
  call cap me (mkLocal true false l) (post c me ef) (fun x P' =>
    (exists a, answered a x.1.1 x.2 /\ P' = mkLocal true false (l ++ [(postRequest c ef, a)])) \/
    (x.2 <> None /\ P' = mkLocal true false l)).
Proof.
  unfold post. destruct (NewRequest _ _); [apply call_ret; by right|].
  eapply call_bind; [apply call_send|]. intros r P' ->. destruct r as [rs|e]; apply call_ret; left; [by exists (Ok rs)|by exists (Err e)].
Qed.

(** The loop sends what [broadcast_ok] allows. *)
Lemma call_attempts cap c me ef tries attempt lastErr l : (0 < tries)%nat -> attempt + Z.of_nat tries = retryMax c + 1 ->
  call cap me (mkLocal true false l) (attempts tries attempt lastErr c me ef) (fun r P' =>
    exists l', broadcast_ok c ef tries l' r /\ P' = mkLocal true false (l ++ l')).
Proof.
  revert attempt lastErr l. induction tries as [|tries IH]; intros attempt lastErr l Ht Ha; [lia|]. cbn [attempts].
  eapply call_bind; [apply call_net|]. intros start P' ->.
  eapply call_bind; [apply call_post|]. intros [[status body] e] P' Hpost. cbn [fst snd] in Hpost.
  eapply call_bind; [apply call_net|]. intros finish P'' ->.
  eapply call_bind; [apply call_measure|]. intros [] P'' ->.
  destruct (bool_decide (e = None) && (status =? StatusAccepted)) eqn:Hok.
  { eapply call_bind; [apply call_measure|]. intros [] P'' ->. apply call_ret. bool_to_prop.
    apply bool_decide_eq_true_1 in H1. subst e. destruct Hpost as [(a & Hans & ->)|[? _]]; [|done].
    destruct a as [rs|]; [|done]. destruct Hans as [-> _]. eexists. split; [|done].
    apply broadcast_ok_one; simpl; [by rewrite H2|]. intros rs' _. rewrite H2. done. }
  eapply (call_bind _ _ _ _ _ (fun x Q => Q = P' /\
    (e = None -> x = (Wrap "HTTP" ErrRejected, (status =? 429) || (500 <=? status))))).
  { destruct e; [|by apply call_ret]. eapply call_bind; [apply call_net|]. intros d Q ->. by apply call_ret. }
  intros [le retryable] Q [-> Hle].
  assert (forall n r, (n = 0%nat -> rejected r \/ e <> None) -> r <> None -> (retryable = false -> rejected r \/ e <> None) ->
    exists l', broadcast_ok c ef (S n) l' r /\ P' = mkLocal true false (l ++ l')) as Hlast.
  { intros n r Hn Hr Hre. destruct Hpost as [(a & Hans & ->)|[_ ->]].
    - eexists. split; [|done]. destruct a as [rs|]; simpl in Hans.
      + destruct Hans as [-> ->]. specialize (Hle eq_refl). simplify_eq. simpl in Hok.
        apply broadcast_ok_one; simpl; [by rewrite Hok|]. intros rs' _ _ [Hno|Hz].
        * by destruct (Hre Hno).
        * by destruct (Hn Hz).
      + apply broadcast_ok_one; [by destruct r|]. by intros rs'.
    - exists []. rewrite app_nil_r. destruct r; [|done]. split; [apply broadcast_ok_nil|done]. }
  destruct (negb retryable || (attempt =? retryMax c)) eqn:Hstop.
  { eapply call_bind; [apply call_measure|]. intros [] P'' ->. apply call_ret.
    apply Hlast; [|done|]; (destruct e; [by right|left; by injection (Hle eq_refl) as -> _]). }
  bool_to_prop. eapply call_bind; [apply call_net|]. intros rand P'' ->.
  eapply call_bind; [apply call_measure|]. intros [] P'' ->.
  eapply call_bind; [apply call_sleep|]. intros r P'' ->.
  destruct r as [x|]; [apply call_ret; apply Hlast; [lia|done|congruence]|].
  destruct Hpost as [(a & Hans & ->)|[_ ->]].
  - eapply call_mono; [|apply IH; lia]. intros r P'' (l' & Hl' & ->). eexists. rewrite <- (assoc_L (++)). split; [|done].
    apply broadcast_ok_cons; [| |lia|done]; destruct a as [rs|]; try done; destruct Hans as [-> ->];
      specialize (Hle eq_refl); simplify_eq; simpl in *; [exact Hok|done].
  - eapply call_mono; [|apply IH; lia]. intros r P'' (l' & [B1 B2 B3 B4 B5] & ->). exists l'. split; [|done].
    split; [done|lia|done|done|]. intros y rs Hy Hrs Hacc [?|Hlen]; [by eapply B5; eauto|lia].
Qed.

Lemma view_acquired c ids (s : Clients (N := N)) me l : me ∈ ids -> view me s = mkLocal false false l -> c_slots s < concurrency c ->
  let s' := mkClients (c_slots s + 1) (c_metrics s) (c_net s) (c_log s) ({[me]} ∪ c_holders s) (c_inflight s) in
  step_of (concurrency c, ids) me s s' /\ view me s' = mkLocal true false l.
Proof.
  intros Hid Hv Hc. injection Hv as Hh Hf Hl. apply bool_decide_eq_false_1 in Hh. split; [split|].
  - intros (Hsl & Hcap & Hin & Hids). split_and!; simpl in *; [|lia|set_solver|set_solver]. rewrite size_union by set_solver.
    rewrite size_singleton. lia.
  - intros j Hj. unfold view. simpl. f_equal. apply bool_decide_ext. set_solver.
  - unfold view. simpl. f_equal; [apply bool_decide_eq_true_2; set_solver|done|exact Hl].
Qed.

Lemma call_acquire fuel c ids me l : me ∈ ids ->
  call (concurrency c, ids) me (mkLocal false false l) (acquire fuel c me) (fun r P' =>
    P' = mkLocal (bool_decide (r = Returned None)) false l).
Proof.
  intros Hid. induction fuel as [|fuel IH]; [by apply call_ret|]. cbn [acquire].
  eapply call_bind; [apply call_net|]. intros k P' ->. destruct k.
  - eapply (call_bind _ _ _ _ _ (fun t P' => P' = mkLocal t false l)).
    + apply call_act. intros s Hs. case_if; [|done]. bool_to_prop. by apply view_acquired.
    + intros [] P' ->; [by apply call_ret|done].
  - eapply call_bind; [apply call_net|]. intros [e|] P' ->; [by apply call_ret|done].
Qed.

Lemma call_release cap me l :
  call cap me (mkLocal true false l) (release me) (fun _ P' => P' = mkLocal false false l).
Proof.
  apply call_act. intros s Hv. injection Hv as Hh Hf Hl. apply bool_decide_eq_true_1 in Hh.
  apply bool_decide_eq_false_1 in Hf. split; [split|].
  - intros (Hsl & Hcap & Hin & Hids). split_and!; simpl; [|lia|set_solver|set_solver].
    rewrite size_difference by set_solver. rewrite size_singleton.
    assert (size (C:=gset nat) {[me]} <= size (c_holders s))%nat as Hs by (apply subseteq_size; set_solver).
    rewrite size_singleton in Hs. lia.
  - intros j Hj. unfold view. simpl. f_equal. apply bool_decide_ext. set_solver.
  - unfold view. simpl. f_equal; [apply bool_decide_eq_false_2; set_solver|by apply bool_decide_eq_false_2|exact Hl].
Qed.

(** The whole call: it sends nothing while it waits for a slot, and gives the slot
    back on every path. *)
Definition broadcast_done (c : Client) (ef : bytes) (l : list (Request * result Response)) (r : outcome) : Prop :=
  match r with
  | Blocked => l = []
  | Returned r => broadcast_ok c ef (Z.to_nat (retryMax c)) l r
  end.

Lemma call_Broadcast fuel c ids me ef l : 1 <= retryMax c -> me ∈ ids ->
  call (concurrency c, ids) me (mkLocal false false l) (Broadcast fuel c me ef) (fun r P' =>
    exists l', broadcast_done c ef l' r /\ P' = mkLocal false false (l ++ l')).
Proof.
  intros Hn Hid. eapply call_bind; [by apply call_acquire|]. intros a P' ->. destruct a as [[e|]|].
  - apply call_ret. exists []. rewrite app_nil_r. split; [apply broadcast_ok_nil|done].
  - eapply call_bind; [apply call_attempts; lia|]. intros r P' (l' & Hl' & ->).
    eapply call_bind; [apply call_release|]. intros [] P' ->. apply call_ret. by exists l'.
  - apply call_ret. exists []. by rewrite app_nil_r.
Qed.

(** Calls made concurrently, from a client that is idle: at every moment, and in the
    end. *)
Lemma broadcasts_run (opts : Options) (fuel : nat) (efs : list bytes) sched (s0 : Clients (N := N)) :
  c_slots s0 = 0 -> c_holders s0 = ∅ -> c_inflight s0 = ∅ -> c_log s0 = [] ->
  let c := New opts in
  let calls := par sched (imap (fun i ef => Broadcast fuel c i ef) efs) in
  (forall s, reaches calls s0 s -> Z.of_nat (size (c_inflight s)) <= concurrency c /\ c_inflight s ⊆ list_to_set (seq 0 (length efs))) /\
  let '(rs, s) := run calls s0 in
  length rs = length efs /\ c_slots s = 0 /\
  forall i ef, efs !! i = Some ef -> exists r, rs !! i = Some r /\ broadcast_done c ef (own i s) r /\ i ∉ c_inflight s.
Proof.
  intros Hs0 Hh0 Hf0 Hl0 c calls. set (ids := list_to_set (seq 0 (length efs)) : gset nat).
  assert (1 <= retryMax c) as Hn by (unfold c, New; simpl; lia).
  assert (1 <= concurrency c) as Hcap.
  { unfold c, New. simpl. destruct (Z.leb_spec (oConcurrency opts) 0); [done|lia]. }
  assert (slots_ok (concurrency c, ids) s0) as Hok.
  { split_and!; rewrite ?Hs0, ?Hh0, ?Hf0; [by rewrite size_empty|cbn [fst]; lia|set_solver|set_solver]. }
  assert (forall i, view i s0 = mkLocal false false []) as Hv0.
  { intros i. unfold view, own. rewrite Hh0, Hf0, Hl0. f_equal; apply bool_decide_eq_false_2; set_solver. }
  assert (forall i ef, efs !! i = Some ef -> i ∈ ids) as Hids.
  { intros i ef Hi%lookup_lt_Some. apply elem_of_list_to_set, elem_of_seq. lia. }
  unshelve epose proof (calls_par (concurrency c, ids) (imap (fun i ef => Broadcast fuel c i ef) efs)
    (fun i r P' => exists ef l', efs !! i = Some ef /\ broadcast_done c ef l' r /\ P' = mkLocal false false l') sched s0 Hok _) as Hpar.
  { intros i p Hi. rewrite list_lookup_imap in Hi. apply fmap_Some in Hi as (ef & Hef & ->). rewrite Hv0.
    eapply call_mono; [|by apply call_Broadcast; eauto]. intros r P' (l' & Hd & ->). by exists ef, l'. }
  split.
  { intros s Hr. pose proof (wpi_reaches _ _ _ _ _ Hok Hpar Hr) as (Hsl & Hle & Hin & Hid).
    cbn [fst snd] in *. split; [|set_solver]. apply subseteq_size in Hin. lia. }
  destruct (run calls s0) as [rs s] eqn:Hrun.
  pose proof (wpi_run _ _ _ _ _ _ (wpi_inv _ _ _ _ Hok Hpar) Hrun) as ((Hsl & _ & _ & Hsub) & Hlen & Hrs).
  rewrite length_imap in Hlen.
  assert (forall i ef, efs !! i = Some ef -> exists r, rs !! i = Some r /\ (i ∉ c_holders s) /\
    broadcast_done c ef (own i s) r /\ (i ∉ c_inflight s)) as Hall.
  { intros i ef Hef. destruct (lookup_lt_is_Some_2 rs i) as [r Hr]; [rewrite Hlen; by eapply lookup_lt_Some|].
    destruct (Hrs i r Hr) as (ef' & l' & Hef' & Hd & Hv). simplify_eq. exists r.
    injection Hv as Hh Hf <-. apply bool_decide_eq_false_1 in Hh, Hf. done. }
  split_and!; [done| |].
  - assert (c_holders s = ∅) as Hempty; [|by rewrite Hsl, Hempty, size_empty].
    apply leibniz_equiv. intros i. split; [|set_solver]. intros Hi. pose proof (Hsub i Hi) as Hin.
    apply elem_of_list_to_set, elem_of_seq in Hin. destruct (lookup_lt_is_Some_2 efs i) as [ef Hef]; [lia|].
    by destruct (Hall i ef Hef) as (? & _ & ? & _).
  - intros i ef Hef. destruct (Hall i ef Hef) as (r & ? & _ & ?). by exists r.
Qed.

(** C12: broadcasts made concurrently by any number of goroutines, in whatever
    interleaving.  At every moment no more requests are under way than the client's
    concurrency.  In the end every slot is free again, and each call has sent at
    most [retryMax] requests, all of them POSTs of its transaction; it returned nil
    exactly when its last request was answered 202 Accepted, it sent another request
    only after a 429, a 5xx or a transport error (so never after an acceptance), and
    it returned ErrRejected when its last answer was final. *)
Theorem concurrent_broadcasts (opts : Options) (fuel : nat) (efs : list bytes) sched (s0 : Clients (N := N)) :
  c_slots s0 = 0 -> c_holders s0 = ∅ -> c_inflight s0 = ∅ -> c_log s0 = [] ->
  let c := New opts in
  let calls := par sched (imap (fun i ef => Broadcast fuel c i ef) efs) in
  (forall s, reaches calls s0 s -> Z.of_nat (size (c_inflight s)) <= concurrency c) /\
  let '(rs, s) := run calls s0 in
  length rs = length efs /\ c_slots s = 0 /\
  forall i ef, efs !! i = Some ef -> exists r, rs !! i = Some r /\ broadcast_done c ef (own i s) r.
Proof.
  intros Hs0 Hh0 Hf0 Hl0 c calls. destruct (broadcasts_run opts fuel efs sched s0 Hs0 Hh0 Hf0 Hl0) as [Hall Hend].
  split; [intros s Hr; by apply Hall|]. destruct (run calls s0) as [rs s] eqn:Hrun. unfold calls, c in Hrun. rewrite Hrun in Hend.
  destruct Hend as (Hlen & Hsl & Hrs). split_and!; [done|done|]. intros i ef Hef. destruct (Hrs i ef Hef) as (r & ? & ? & _). by exists r.
Qed.

(** *** Stopping in the middle *)

(** The call [i] has had the exchanges [l] (and, if [b], a request after them was under
    way): it still has them, and that request is under way or answered. *)
Definition grown (i : nat) (l : list (Request * result Response)) (b : bool) (s : Clients (N := N)) : Prop :=
  l `prefix_of` own i s /\ (b = true -> i ∈ c_inflight s \/ (length l < length (own i s))%nat).

Lemma grown_send i l b me req : preserves (grown i l b) (sendRequest me req).
Proof.
  split; [|intros u; split; [|done]].
  - intros s [Hl Hb]. split; [done|]. intros Hb'. destruct (Hb Hb') as [?|?]; [left; simpl; set_solver|by right].
  - intros s [Hl Hb]. destruct (HttpDo req (c_net s)) as [r n]. cbn [snd].
    pose proof (own_snoc i s me req r) as Hown. unfold grown, own in *. cbn [c_log c_inflight] in *. rewrite Hown.
    split; [by apply prefix_app_r|]. intros Hb'. rewrite length_app. destruct (Hb Hb') as [Hin|?]; [|right; lia].
    case_bool_decide as Hme; [right|left; set_solver]. apply prefix_length in Hl. simpl in *. lia.
Qed.

Lemma grown_net {B} i l b (f : N -> B * N) : preserves (grown i l b) (net f).
Proof. split; [|done]. intros s Hs. by destruct (f (c_net s)). Qed.

Lemma grown_measure i l b f : preserves (grown i l b) (measure f).
Proof. by split. Qed.

Lemma grown_acquire i l b fuel c me : preserves (grown i l b) (acquire fuel c me).
Proof.
  induction fuel as [|fuel IH]; [done|]. cbn [acquire]. apply preserves_bind; [apply grown_net|]. intros [|k].
  - apply preserves_bind; [|by intros []]. split; [|done]. intros s Hs. by case_match.
  - apply preserves_bind; [apply grown_net|]. by intros [].
Qed.

Lemma grown_attempts i l b tries attempt le c me ef : preserves (grown i l b) (attempts tries attempt le c me ef).
Proof.
  revert attempt le. induction tries as [|tries IH]; intros attempt le; [done|]. cbn [attempts].
  apply preserves_bind; [apply grown_net|]. intros start.
  apply preserves_bind.
  { unfold post. case_match; [done|]. apply preserves_bind; [apply grown_send|]. by intros []. }
  intros [[status body] e]. apply preserves_bind; [apply grown_net|]. intros finish.
  apply preserves_bind; [apply grown_measure|]. intros _. case_match.
  { apply preserves_bind; [apply grown_measure|done]. }
  apply preserves_bind; [destruct e; [apply preserves_bind; [apply grown_net|done]|done]|]. intros [le' retryable]. case_match.
  { apply preserves_bind; [apply grown_measure|done]. }
  apply preserves_bind; [apply grown_net|]. intros rand. apply preserves_bind; [apply grown_measure|]. intros _.
  apply preserves_bind; [apply preserves_bind; [apply grown_net|]; intros []; [apply grown_net|done]|]. intros [x|]; [done|apply IH].
Qed.

Lemma grown_Broadcast i l b fuel c me ef : preserves (grown i l b) (Broadcast fuel c me ef).
Proof.
  apply preserves_bind; [apply grown_acquire|]. intros [[x|]|]; [done| |done].
  apply preserves_bind; [apply grown_attempts|]. intros r. by split.
Qed.

Lemma accepts_retries a : retries a = true -> accepts a = false.
Proof. destruct a as [rs|]; [|done]. unfold retries, accepts. intros [Hr%Z.eqb_eq|Hr%Z.leb_le]%orb_true_iff; apply Z.eqb_neq; lia. Qed.

Lemma prefix_lookup_Some {A} (l l' : list A) i x : l `prefix_of` l' -> l !! i = Some x -> l' !! i = Some x.
Proof. intros [k ->] Hi. by apply lookup_app_l_Some. Qed.

(** C13: a process may be stopped in the middle of its broadcasts, its retries
    interleaved in any way.  Whenever that happens, at most as many requests are under
    way as the concurrency allows; the requests each call has had answered are at most
    [retryMax] POSTs of its own transaction, and each of them but the last was answered
    by a 429, a 5xx or a transport error; and while a request of a call is under way,
    every answer before it was such a one, so that none is sent after an acceptance or
    a final rejection. *)
Theorem stopped_broadcasts (opts : Options) (fuel : nat) (efs : list bytes) sched (s0 s : Clients (N := N)) :
  c_slots s0 = 0 -> c_holders s0 = ∅ -> c_inflight s0 = ∅ -> c_log s0 = [] ->
  let c := New opts in
  reaches (par sched (imap (fun i ef => Broadcast fuel c i ef) efs)) s0 s ->
  Z.of_nat (size (c_inflight s)) <= concurrency c /\
  forall i ef, efs !! i = Some ef ->
    Forall (fun x => x.1 = postRequest c ef) (own i s) /\ Z.of_nat (length (own i s)) <= retryMax c /\
    (forall j x, own i s !! j = Some x -> (S j < length (own i s))%nat -> retries x.2 = true /\ accepts x.2 = false) /\
    (i ∈ c_inflight s -> Z.of_nat (length (own i s)) < retryMax c /\
       forall j x, own i s !! j = Some x -> retries x.2 = true /\ accepts x.2 = false).
Proof.
  intros Hs0 Hh0 Hf0 Hl0 c Hr. destruct (broadcasts_run opts fuel efs sched s0 Hs0 Hh0 Hf0 Hl0) as [Hall Hend].
  split; [by apply (Hall s Hr)|]. intros i ef Hef.
  destruct (reaches_rest _ _ _ Hr) as (p' & Hrun & Hp). cbv zeta in Hend. fold c in Hend. rewrite Hrun in Hend. destruct (run p' s) as [rs s'] eqn:Hs'.
  destruct Hend as (_ & _ & Hrs). destruct (Hrs i ef Hef) as (r & _ & Hd & Hout).
  assert (grown i (own i s) (bool_decide (i ∈ c_inflight s)) s') as [Hpre Hin].
  { refine (preserves_reaches _ p' s s' (Hp _ _) _ _); [| |pose proof (reaches_run p' s) as Hx; by rewrite Hs' in Hx].
    - apply preserves_par. intros q (j & Hj)%list_elem_of_lookup. rewrite list_lookup_imap in Hj.
      apply fmap_Some in Hj as (ef' & _ & ->). apply grown_Broadcast.
    - split; [done|]. intros Hb%bool_decide_eq_true_1. by left. }
  assert (Forall (fun x => x.1 = postRequest c ef) (own i s') /\ Z.of_nat (length (own i s')) <= retryMax c /\
    forall j x, own i s' !! j = Some x -> (S j < length (own i s'))%nat -> retries x.2 = true) as (Hreq & Hlen & Hret).
  { assert (1 <= retryMax c) as Hn by (unfold c, New; simpl; lia). destruct r as [r|]; cbn [broadcast_done] in Hd.
    - destruct Hd as [B1 B2 _ B4 _]. split_and!; [done|lia|done].
    - rewrite Hd. split_and!; [done|cbn [length]; lia|done]. }
  pose proof (prefix_length _ _ Hpre) as Hle. split_and!.
  - destruct Hpre as [k Hk]. rewrite Hk in Hreq. by apply Forall_app in Hreq as [? _].
  - lia.
  - intros j x Hj Hlt. assert (retries x.2 = true) by (eapply Hret; [by eapply prefix_lookup_Some|lia]). auto using accepts_retries.
  - intros Hi. destruct (Hin ltac:(by apply bool_decide_eq_true_2)) as [?|Hlt]; [done|]. split; [lia|]. intros j x Hj.
    assert (retries x.2 = true) by (eapply Hret; [by eapply prefix_lookup_Some|apply lookup_lt_Some in Hj; lia]). auto using accepts_retries.
Qed.

End arcade.
End Arcade.
