(* ===== verification/Woc.v ===== *)
(** * The WhatsOnChain client (internal/woc/client.go)

    The lookup of the unspent outputs of a script: one request with its decoding
    ([fetchOnce]) and the retries around it ([FetchUTXOs]). *)

From S2P Require Import Prelude Prog Text Strconv Json JsonFacts Script TxBuilder Backoff Float Metrics HttpClient Http.
Open Scope Z_scope.

Module Woc.
Import Json.

Definition DefaultBaseURL : string := "https://api.whatsonchain.com/v1/bsv/main".
Definition defaultTimeout : Z := 30 * Backoff.Second.
Definition maxResponseBytes : Z := Z.shiftl 32 20.
Definition maxErrorBytes : Z := 4096.

Record Options := mkOptions { oBaseURL : string; oTimeout : Z; oRetryMax : Z }.
Record Client := mkClient { baseURL : string; http : HttpClient.Client; retryMax : Z }.

Definition timeout (c : Client) : Z := HttpClient.Timeout (http c).

Definition New (opts : Options) : Client :=
  let base := if bool_decide (oBaseURL opts = ""%string) then DefaultBaseURL else oBaseURL opts in
  mkClient (of_bytes (Strconv.trim_slashes (to_bytes base)))
    (HttpClient.New HttpClient.NewPooledTransport (if oTimeout opts <=? 0 then defaultTimeout else oTimeout opts)) (Z.max (oRetryMax opts) 1).

(** ** The listing *)

Record wocUTXO := mkWoc { wHeight : Z; wTxHash : string; wTxPos : Z; wValue : Z }.
Definition zeroWoc : wocUTXO := mkWoc 0 "" 0 0.

Record unspentResponse := mkUnspent { uResult : list wocUTXO; uError : string }.

Definition wocFields : fields wocUTXO :=
  [("height"%string, fun j u => (fun v => mkWoc v (wTxHash u) (wTxPos u) (wValue u)) <$> decInt 64 j (wHeight u));
   ("tx_hash"%string, fun j u => (fun v => mkWoc (wHeight u) v (wTxPos u) (wValue u)) <$> decString j (wTxHash u));
   ("tx_pos"%string, fun j u => (fun v => mkWoc (wHeight u) (wTxHash u) v (wValue u)) <$> decUint 32 j (wTxPos u));
   ("value"%string, fun j u => (fun v => mkWoc (wHeight u) (wTxHash u) (wTxPos u) v) <$> decUint 64 j (wValue u))].

Definition unspentFields : fields unspentResponse :=
  [("result"%string, fun j r => (fun v => mkUnspent v (uError r)) <$> decSlice zeroWoc (decStruct wocFields) j (uResult r));
   ("error"%string, fun j r => (fun v => mkUnspent (uResult r) v) <$> decString j (uError r))].

(** [json.Unmarshal(body, &envelope)] *)
Definition decodeUnspent (body : bytes) : option unspentResponse :=
  UnmarshalInto (decStruct unspentFields) body (mkUnspent [] "").

Definition toUTXO (r : wocUTXO) : UTXO := mkUTXO (wTxHash r) (Z.to_N (wTxPos r)) (wValue r) (wHeight r).

(** What one answer means: the outputs, or an error and whether to try again. *)
Definition readAnswer (rs : Response) : result (list UTXO) * bool :=
  match readAll maxResponseBytes rs with
  | (_, Some e) => (Err (Wrap "read whatsonchain response" e), true)
  | (body, None) =>
      if negb (rsStatus rs =? 200) then
        (Err (Wrap "HTTP" ErrRequestFailed), (rsStatus rs =? 429) || (500 <=? rsStatus rs))
      else
        match decodeUnspent body with
        | None => (Err (Wrap "decode whatsonchain response" (External "json")), false)
        | Some envelope =>
            if negb (bool_decide (uError envelope = ""%string)) then (Err (Wrap (uError envelope) ErrRequestFailed), false)
            else (Ok (toUTXO <$> uResult envelope), false)
        end
  end.

Section woc.
Context `{Prometheus} {N : Type} `{Net N}.

Abbreviation code := (prog (Clients (N := N))).

Definition getRequest (c : Client) (url : string) : Request := mkRequest "GET" url [] [] (timeout c).

Definition fetchOnce (c : Client) (me : nat) (url : string) : code (result (list UTXO) * bool) :=
  match NewRequest "GET" url with
  | Some e => Ret (Err (Wrap "build request" e), false)
  | None =>
      r ← sendRequest me (getRequest c url);
      match r with
      | Err e => done ← net Done; Ret (Err (Wrap "whatsonchain request" e), bool_decide (done = None))
      | Ok rs => Ret (readAnswer rs)
      end
  end.

Definition unspentURL (c : Client) (scriptHash : string) : string :=
  String.append (baseURL c) (String.append "/script/" (String.append scriptHash "/unspent/all")).

(** The loop of [FetchUTXOs] from attempt number [attempt] on, with [tries] left;
    [lastErr] is nil before the first attempt. *)
Fixpoint fetchLoop (tries : nat) (attempt : Z) (lastErr : option err) (c : Client) (me : nat) (url : string)
    : code (list UTXO * option err) :=
  match tries with
  | O => Ret ([], lastErr)
  | S tries =>
      '(r, retryable) ← fetchOnce c me url;
      match r with
      | Ok utxos => Ret (utxos, None)
      | Err e =>
          if negb retryable || (attempt =? retryMax c) then Ret ([], Some e) else
          rand ← net Random;
          s ← sleep (Backoff.Retry rand attempt);
          match s with
          | Some e => Ret ([], Some e)
          | None => fetchLoop tries (attempt + 1) (Some e) c me url
          end
      end
  end.

Definition FetchUTXOs (c : Client) (me : nat) (scriptHash : string) : code (list UTXO * option err) :=
  fetchLoop (Z.to_nat (retryMax c)) 1 None c me (unspentURL c scriptHash).

(** ** What a lookup does *)

(** What is read of a body of an answer: all of it, or its first [maxResponseBytes]
    bytes; reading fails only below that. *)
Inductive delivers (rs : Response) : bytes -> Prop :=
  | delivers_all : Z.of_nat (length (rsBody rs)) < maxResponseBytes -> rsReadErr rs = None -> delivers rs (rsBody rs)
  | delivers_some : maxResponseBytes <= Z.of_nat (length (rsBody rs)) ->
      delivers rs (take (Z.to_nat maxResponseBytes) (rsBody rs)).
Definition unreadable (rs : Response) (t : err) : Prop :=
  Z.of_nat (length (rsBody rs)) < maxResponseBytes /\ rsReadErr rs = Some t.

(** An answer that lists the outputs [us]: a 200 with a listing and no error. *)
Inductive lists : result Response -> list UTXO -> Prop :=
  | lists_outputs rs body envelope us :
      delivers rs body -> rsStatus rs = 200 -> decodeUnspent body = Some envelope -> uError envelope = ""%string ->
      Forall2 (fun w u => TxHash u = wTxHash w /\ TxPos u = Z.to_N (wTxPos w) /\ Value u = wValue w /\ Height u = wHeight w)
        (uResult envelope) us ->
      lists (Ok rs) us.

(** The error that any other answer is. *)
Inductive fails : result Response -> err -> Prop :=
  | fails_transport t : fails (Err t) (Wrap "whatsonchain request" t)
  | fails_body rs t : unreadable rs t -> fails (Ok rs) (Wrap "read whatsonchain response" t)
  | fails_status rs body : delivers rs body -> rsStatus rs <> 200 -> fails (Ok rs) (Wrap "HTTP" ErrRequestFailed)
  | fails_decode rs body : delivers rs body -> rsStatus rs = 200 -> decodeUnspent body = None ->
      fails (Ok rs) (Wrap "decode whatsonchain response" (External "json"))
  | fails_reported rs body envelope : delivers rs body -> rsStatus rs = 200 -> decodeUnspent body = Some envelope ->
      uError envelope <> ""%string -> fails (Ok rs) (Wrap (uError envelope) ErrRequestFailed).

(** The answers after which a lookup is tried again: a transport error, an unreadable
    body, a 429 or a 5xx. *)
Inductive tries_again : result Response -> Prop :=
  | again_transport t : tries_again (Err t)
  | again_body rs t : unreadable rs t -> tries_again (Ok rs)
  | again_status rs body : delivers rs body -> rsStatus rs = 429 \/ 500 <= rsStatus rs -> tries_again (Ok rs).

Lemma readAll_spec rs :
  match readAll maxResponseBytes rs with (body, None) => delivers rs body | (_, Some t) => unreadable rs t end.
Proof.
  unfold readAll. destruct (Z.leb_spec maxResponseBytes (Z.of_nat (length (rsBody rs)))); [by constructor|].
  destruct (rsReadErr rs) eqn:He; [done|by constructor].
Qed.

Lemma delivers_unreadable rs body t : delivers rs body -> unreadable rs t -> False.
Proof. intros [] []; [congruence|lia]. Qed.

Lemma delivers_fun rs body body' : delivers rs body -> delivers rs body' -> body = body'.
Proof. intros [] []; done || lia. Qed.

(** A retry never follows a listing, and an answer is a listing or an error. *)
Lemma lists_fails a us e : lists a us -> fails a e -> False.
Proof.
  intros [rs body env us' Hb Hs Hd He _]. inversion 1; subst; try congruence; try by eapply delivers_unreadable.
  all: match goal with H1 : delivers ?rs ?b, H2 : delivers ?rs ?b' |- _ => rewrite (delivers_fun _ _ _ H1 H2) in * end; congruence.
Qed.

Lemma readAnswer_spec rs :
  match readAnswer rs with
  | (Ok us, _) => lists (Ok rs) us
  | (Err e, again) => fails (Ok rs) e /\ (again = true <-> tries_again (Ok rs))
  end.
Proof.
  pose proof (readAll_spec rs) as Hr. unfold readAnswer. destruct (readAll maxResponseBytes rs) as [body [t|]].
  { split; [by constructor|]. split; [intros _; by eapply again_body|done]. }
  assert (tries_again (Ok rs) <-> rsStatus rs = 429 \/ 500 <= rsStatus rs) as Ha.
  { split; [|by eapply again_status]. inversion 1; subst; [exfalso; by eapply delivers_unreadable|done]. }
  destruct (Z.eqb_spec (rsStatus rs) 200) as [Hs|Hs]; cbn [negb].
  - assert (~ tries_again (Ok rs)) as Hno by (rewrite Ha; lia).
    destruct (decodeUnspent body) as [env|] eqn:Hd; [|split; [by econstructor|done]].
    case_bool_decide as He; cbn [negb]; [|split; [by eapply fails_reported|done]].
    econstructor; [done..|]. apply Forall2_fmap_r. clear. induction (uResult env); by constructor.
  - split; [by econstructor|]. rewrite Ha. bool_to_prop. destruct (Z.eqb_spec (rsStatus rs) 429), (Z.leb_spec 500 (rsStatus rs)); simpl; split; (done || lia || (intros [|]; lia)).
Qed.

(** The exchanges of one lookup of [req] with at most [n] attempts, and its result. *)
Record lookup_ok (req : Request) (me n : nat) (l : list (nat * Request * result Response)) (us : list UTXO) (r : option err) : Prop := {
  lo_requests : Forall (fun x => x.1 = (me, req)) l;
  lo_bound : (length l <= n)%nat;
  lo_found : r = None <-> exists x, last l = Some x /\ lists x.2 us;
  lo_failed : r <> None -> us = [];
  lo_retried : forall i x, l !! i = Some x -> (S i < length l)%nat -> tries_again x.2;
  (* the error is that of a request that cannot be made, that of the last attempt, or
     that of the context *)
  lo_error : forall e, r = Some e ->
    (l = [] /\ exists t, NewRequest "GET" (rqURL req) = Some t /\ e = Wrap "build request" t) \/
    exists x, last l = Some x /\
      ((fails x.2 e /\
        (length l = n \/ ~ tries_again x.2 \/ ((exists t, x.2 = Err t) /\ exists o t, (Done o).1 = Some t))) \/
       ((length l < n)%nat /\ tries_again x.2 /\ exists o, (Done o).1 = Some e));
}.

Lemma lookup_ok_found req me n a us : lists a us -> lookup_ok req me (S n) [(me, req, a)] us None.
Proof.
  intros Ha. split; try done.
  - by repeat constructor.
  - simpl. lia.
  - split; [by eexists|done].
  - intros [|i] x Hi Hlen; simpl in *; [lia|done].
Qed.

Lemma lookup_ok_failed req me n a e t : fails a t ->
  ((e = t /\ (n = O \/ ~ tries_again a \/ ((exists t, a = Err t) /\ exists o t, (Done o).1 = Some t))) \/
   (n <> O /\ tries_again a /\ exists o, (Done o).1 = Some e)) ->
  lookup_ok req me (S n) [(me, req, a)] [] (Some e).
Proof.
  intros Ha Hend. split; try done.
  - by repeat constructor.
  - simpl. lia.
  - split; [done|]. intros (x & [= <-] & Hl). by destruct (lists_fails _ _ _ Hl Ha).
  - intros [|i] x Hi Hlen; simpl in *; [lia|done].
  - intros e' [= <-]. right. eexists. split; [done|]. cbn [snd length].
    destruct Hend as [[-> [->|Hend]]|(Hn & Hend)]; [left; by auto|left; by auto|right; split; [lia|done]].
Qed.

Lemma lookup_ok_cons req me n a l us r t : fails a t -> tries_again a -> l <> [] ->
  lookup_ok req me n l us r -> lookup_ok req me (S n) ((me, req, a) :: l) us r.
Proof.
  intros Ha Ht Hne [H1' H2' H3' H4' H5' H6']. destruct l as [|y l]; [done|]. split.
  - by constructor.
  - simpl in *. lia.
  - exact H3'.
  - done.
  - intros [|i] x Hi Hlen; simpl in *; [by simplify_eq|]. apply (H5' i); [done|simpl; lia].
  - intros e He. destruct (H6' e He) as [[? _]|(x & Hx & Hend)]; [done|]. right. exists x. split; [exact Hx|].
    destruct Hend as [[Hf [Hn|Hr]]|(Hn & Hr)]; [left; split; [done|left; simpl in *; lia]|left; by auto|right; split; [simpl in *; lia|done]].
Qed.

Lemma fetchOnce_ends c me url s :
  ends (fetchOnce c me url) s (fun x l =>
    (l = [] /\ exists t, NewRequest "GET" url = Some t /\ x = (Err (Wrap "build request" t), false)) \/
    NewRequest "GET" url = None /\ exists a, l = [(me, getRequest c url, a)] /\
      match x with
      | (Ok us, _) => lists a us
      | (Err e, true) => fails a e /\ tries_again a
      | (Err e, false) => fails a e /\ (~ tries_again a \/ ((exists t, a = Err t) /\ exists o t, (Done o).1 = Some t))
      end).
Proof.
  unfold fetchOnce. destruct (NewRequest _ _) as [e|]; [apply ends_ret; left; by eauto|].
  eapply ends_bind; [apply ends_send|]. intros [rs|e] l s' ->.
  - apply ends_ret. right. split; [done|]. exists (Ok rs). split; [done|]. pose proof (readAnswer_spec rs) as Hr.
    destruct (readAnswer rs) as [[us|e] [|]]; [done|done| |]; destruct Hr as [Hf Ht]; split; try done.
    + by apply Ht.
    + left. intros Hagain%Ht. done.
  - eapply ends_bind; [apply ends_answer|]. intros d l s'' (-> & o & Hd). apply ends_ret. right. split; [done|]. exists (Err e).
    split; [done|]. case_bool_decide as Hn; (split; [constructor|]); [constructor|].
    right. split; [by eauto|]. destruct d as [t|]; [|done]. by exists o, t.
Qed.

Lemma fetchLoop_ends c me url tries attempt lastErr s :
  (0 < tries)%nat -> attempt + Z.of_nat tries = retryMax c + 1 ->
  ends (fetchLoop tries attempt lastErr c me url) s (fun x l =>
    lookup_ok (getRequest c url) me tries l x.1 x.2 /\ (NewRequest "GET" url = None -> l <> [])).
Proof.
  revert attempt lastErr s. induction tries as [|tries IH]; intros attempt lastErr s Ht Ha; [lia|]. cbn [fetchLoop].
  eapply ends_bind; [apply fetchOnce_ends|]. intros [r retryable] l s' Hone.
  destruct Hone as [[-> (t & Ht' & [= -> ->])]|(Hreq & a & -> & Hans)].
  { apply ends_ret. cbn [negb orb app fst snd]. split; [|congruence]. split; try done; [simpl; lia|by split; [|intros (? & ? & ?)]|].
    intros e [= <-]. left. split; [done|]. by exists t. }
  destruct r as [us|e].
  { apply ends_ret. split; [by apply lookup_ok_found|done]. }
  assert (fails a e) as Hf by (by destruct retryable, Hans).
  destruct (negb retryable || (attempt =? retryMax c)) eqn:Hstop.
  { apply ends_ret. split; [|done]. eapply lookup_ok_failed; [done|]. left. split; [done|].
    destruct retryable; [left|right; apply Hans]. cbn in Hstop. apply Z.eqb_eq in Hstop. lia. }
  destruct retryable; [|done]. cbn in Hstop. apply Z.eqb_neq in Hstop. destruct Hans as [_ Hagain].
  eapply ends_bind; [apply ends_net|]. intros rand l s'' ->.
  eapply ends_bind; [apply ends_sleep_from|]. intros [x|] l s3 (-> & Hsleep).
  { apply ends_ret. split; [|done]. eapply lookup_ok_failed; [done|]. right. split_and!; [lia|done|by apply Hsleep]. }
  eapply ends_mono; [|apply IH; lia]. intros [us r] l [Hl Hne]. split; [|done].
  by eapply lookup_ok_cons; [done|done|apply Hne|].
Qed.

(** C25: a lookup sends at most [retryMax] GETs of the script's listing.  It returns
    outputs exactly when its last answer was a 200 whose body decodes to a listing
    without an error, and then exactly the outputs listed there; every earlier
    request was answered by a 429, a 5xx, an unreadable body or a transport error.
    When it fails it returns no outputs and the error of a request that cannot be
    made, the error of its last attempt (made when no other is left, when the answer
    is not one to try again after, or when a transport error finds the context
    done), or, when the wait before another attempt is cut short, the error of the
    context. *)
Theorem FetchUTXOs_spec (opts : Options) (me : nat) (scriptHash : string) (s : Clients (N := N)) :
  let c := New opts in
  let '((us, r), s') := run (FetchUTXOs c me scriptHash) s in
  exists l, c_log s' = c_log s ++ l /\
    lookup_ok (getRequest c (unspentURL c scriptHash)) me (Z.to_nat (retryMax c)) l us r.
Proof.
  intros c. assert (1 <= retryMax c) as Hn by (unfold c, New; simpl; lia).
  destruct (fetchLoop_ends c me (unspentURL c scriptHash) (Z.to_nat (retryMax c)) 1 None s) as (l & Hl & Hok & _); [lia..|].
  unfold FetchUTXOs. destruct (run (fetchLoop _ _ _ _ _ _) s) as [[us r] s']. by exists l.
Qed.

End woc.

(** ** The listing, back and forth *)

Definition jstr (s : string) : json := JStr (to_bytes s).
Definition jint (z : Z) : json := JNum (to_bytes (pretty z)).

(** The members of a listing as the service writes it. *)
Definition listed (u : UTXO) : list (bytes * json) :=
  (fun m : string * json => (to_bytes m.1, m.2)) <$>
  [("height", jint (Height u)); ("tx_hash", jstr (TxHash u)); ("tx_pos", jint (Z.of_N (TxPos u))); ("value", jint (Value u))]%string.
Definition listing (us : list UTXO) : list (bytes * json) :=
  (fun m : string * json => (to_bytes m.1, m.2)) <$> [("result", JArr ((fun u => JObj (listed u)) <$> us)); ("error", jstr "")]%string.

(** An output as a Go value, with a hash that is text. *)
Definition utxo_fits (u : UTXO) : Prop :=
  is_i64 (Height u) /\ (TxPos u < 2 ^ 32)%N /\ is_u64 (Value u) /\
  JsonFacts.sanitize (to_bytes (TxHash u)) = to_bytes (TxHash u).

Lemma of_to_bytes s : of_bytes (to_bytes s) = s.
Proof. apply String.string_of_list_byte_of_string. Qed.

Lemma decode_listed u : utxo_fits u -> toUTXO <$> decStruct wocFields (JsonFacts.valid_tree (JObj (listed u))) zeroWoc = Some u.
Proof.
  intros (Hh & Hp & Hv & Hu).
  assert (0 <= Z.of_N (TxPos u) < 2 ^ 32) as Hp'
    by (change (2 ^ 32)%N with 4294967296%N in Hp; change (2 ^ 32) with 4294967296; lia).
  rewrite JsonFacts.decStruct_print;
    [|apply (bool_decide_eq_true_1 _); vm_compute; reflexivity|reflexivity|repeat constructor; vm_compute; reflexivity].
  unfold listed, jint, jstr. cbn [fmap list_fmap snd JsonFacts.valid_tree]. rewrite Hu.
  cbn [JsonFacts.decFields wocFields snd decInt decUint decString].
  rewrite Strconv.ParseInt_pretty by exact Hh. cbn [fmap option_fmap option_map mbind option_bind].
  rewrite (Strconv.ParseUint_pretty 32) by exact Hp'.
  cbn [fmap option_fmap option_map mbind option_bind].
  rewrite (Strconv.ParseUint_pretty 64) by exact Hv. cbn [fmap option_fmap option_map mbind option_bind].
  rewrite of_to_bytes. unfold toUTXO. cbn. rewrite N2Z.id. by destruct u.
Qed.

Lemma decode_listing us : Forall utxo_fits us ->
  exists ws, mapM (fun j => decStruct wocFields j zeroWoc) (JsonFacts.valid_tree <$> ((fun u => JObj (listed u)) <$> us)) = Some ws /\
    toUTXO <$> ws = us.
Proof.
  induction 1 as [|u us Hu _ (ws & IH & Hws)]; [by exists []|].
  pose proof (decode_listed u Hu) as Hd. apply fmap_Some in Hd as (w & Hw & ->).
  exists (w :: ws). split; [|cbn [fmap list_fmap]; by rewrite Hws]. cbn [fmap list_fmap mapM]. rewrite Hw. cbn [mbind option_bind].
  by rewrite IH.
Qed.

(** A listing is decoded to the outputs it lists, in order and with every field
    intact, when it is within the size limit: what the service prints is what the
    bootstrap sees. *)
Theorem listing_roundtrip (us : list UTXO) :
  Forall utxo_fits us -> Z.of_nat (length (print (JObj (listing us)))) < maxResponseBytes ->
  readAnswer (mkResponse 200 (print (JObj (listing us))) None) = (Ok us, false).
Proof.
  intros Hus Hlen. unfold readAnswer, readAll. cbn [rsBody rsStatus rsReadErr].
  rewrite (proj2 (Z.leb_gt _ _)) by done. cbn [negb Z.eqb Pos.eqb].
  unfold decodeUnspent, UnmarshalInto. rewrite JsonFacts.Unmarshal_print.
  - cbn [mbind option_bind]. destruct (decode_listing us Hus) as (ws & Hws & Heq).
    rewrite JsonFacts.decStruct_print;
      [|apply (bool_decide_eq_true_1 _); vm_compute; reflexivity|reflexivity|repeat constructor; vm_compute; reflexivity].
    unfold listing. cbn [fmap list_fmap snd JsonFacts.valid_tree]. cbn [JsonFacts.decFields unspentFields snd decSlice decString jstr].
    rewrite Hws. cbn. by rewrite Heq.
  - cbn. split_and!; [|done..]. clear. induction us as [|u us IH]; [done|]. cbn. split; [|exact IH].
    split_and!; done || apply JsonFacts.is_number_pretty.
  - assert (foldr (fun j n => Z.max (JsonFacts.nesting j) n) 0 ((fun u => JObj (listed u)) <$> us) <= 1) as Hn.
    { clear. induction us as [|u us IH]; [done|]. cbn [fmap list_fmap foldr]. apply Z.max_lub; [done|exact IH]. }
    unfold listing. cbn [JsonFacts.nesting fmap list_fmap foldr snd jstr].
    change (list_fmap UTXO json (fun u => JObj (listed u)) us) with ((fun u => JObj (listed u)) <$> us). unfold maxNestingDepth. lia.
Qed.

End Woc.
