(* ===== verification/Network.v ===== *)
(** * The clients as [Run] configures them (internal/app/app.go)

    The options the application gives to the Arcade and to the WhatsOnChain client.  The
    engine knows them only as its [World]: an arbitrary one, so that what is proved of
    the engine holds however broadcasts and lookups overlap and whatever they answer;
    what the clients do, overlapping and stopped anywhere, is in [Arcade.v] and
    [Woc.v]. *)

From S2P Require Import Prelude Config Arcade Woc.
Open Scope Z_scope.

Module Network.

Definition arcadeOptions (cfg : Config.Config) : Arcade.Options :=
  Arcade.mkOptions (Config.ArcadeBaseURL cfg) (Config.ArcadeCallbackToken cfg) (Config.HTTPTimeout cfg)
    (Config.BroadcastConcurrency cfg) (Config.BroadcastRetryMax cfg).

Definition wocOptions (cfg : Config.Config) : Woc.Options :=
  Woc.mkOptions (Config.WOCBaseURL cfg) (Config.HTTPTimeout cfg) (Config.BroadcastRetryMax cfg).

End Network.
