(* ===== verification/Notifier.v ===== *)
(** * Slack notifications (internal/notifier/notifier.go)

    A reorg is posted to a webhook at most once per height every five minutes.  Of
    the state only [n_last] and the outside are the program's: [n_sent] records each
    key let through with its time, [n_posts] each request that was sent. *)

From S2P Require Import Prelude Prog Text Strconv Json JsonFacts Backoff Float Metrics HttpClient Http.
Open Scope Z_scope.

Module Notifier.

Definition dedupeWindow : Z := 300 * Backoff.Second.
Definition postTimeout : Z := 10 * Backoff.Second.
Definition deepReorg : Z := 3.
Definition reorgUsername : string := "txgen-reorg".

Record Options := mkOptions { oWebhookURL : string; oChannel : string; oEnvironment : string; oInstanceID : string }.

(** The fixed fields of a [Notifier]. *)
Record t := mkNotifier { webhook : string; channel : string; env : string; instance : string; http : HttpClient.Client }.

Definition New (opts : Options) : t :=
  mkNotifier (oWebhookURL opts) (oChannel opts) (oEnvironment opts) (oInstanceID opts)
    (HttpClient.New HttpClient.NewPooledTransport postTimeout).

Section notifier.
Context {N : Type} `{Net N}.

Record State := mkState {
  n_last : gmap string Z;
  n_net : N;
  n_sent : list (string * Z);
  n_posts : list Request;
}.

Definition fresh (w : N) : State := mkState ∅ w [] [].

Abbreviation code := (prog State).

Definition net {B} (f : N -> B * N) : code B :=
  act (fun s => let '(b, n) := f (n_net s) in (b, mkState (n_last s) n (n_sent s) (n_posts s))).

(** Whether [key] was sent within the window before [now]. *)
Definition recent (now : Z) (last : gmap string Z) (key : string) : bool :=
  match last !! key with Some at_ => time_sub now at_ <? dedupeWindow | None => false end.

(** [shouldSend], under the lock. *)
Definition shouldSend (key : string) : code bool :=
  act (fun s =>
    let '(now, n) := Clock (n_net s) in
    if recent now (n_last s) key then (false, mkState (n_last s) n (n_sent s) (n_posts s)) else
    let last := <[key := now]> (n_last s) in
    let last := filter (fun kv => ~ dedupeWindow <= time_sub now kv.2) last in
    (true, mkState last n (n_sent s ++ [(key, now)]) (n_posts s))).

(** [json.Marshal(webhookPayload{...})] *)
Definition payload (n : t) (msg : bytes) (username : string) : list (bytes * json) :=
  (to_bytes "text", JStr msg) ::
  (if bool_decide (channel n = ""%string) then [] else [(to_bytes "channel", JStr (to_bytes (channel n)))]) ++
  [(to_bytes "username", JStr (to_bytes username))].

(** The request of [post]. *)
Definition postRequest (n : t) (msg : bytes) (username : string) : Request :=
  mkRequest "POST" (webhook n) [("Content-Type", "application/json")%string]
    (Json.print (JObj (payload n msg username))) (HttpClient.Timeout (http n)).

Definition post (n : t) (msg : bytes) (username : string) : code (option err) :=
  match NewRequest "POST" (webhook n) with
  | Some e => Ret (Some (Wrap "build slack request" e))
  | None =>
      r ← act (fun s => let req := postRequest n msg username in
        let '(r, w) := HttpDo req (n_net s) in (r, mkState (n_last s) w (n_sent s) (n_posts s ++ [req])));
      match r with
      | Err e => Ret (Some (Wrap "post to slack" e))
      | Ok rs => if negb (rsStatus rs ÷ 100 =? 2) then Ret (Some (Wrap "HTTP" ErrWebhookFailed)) else Ret None
      end
  end.

(** The message of a reorg. *)
Definition reorgMessage (n : t) (height depth chainsImpacted : Z) (tipBefore tipAfter : string) : bytes :=
  let emoji := if deepReorg <? depth then ":rotating_light:"%string else ":warning:"%string in
  to_bytes emoji ++ to_bytes " Reorg detected: height=" ++ to_bytes (pretty height) ++
  to_bytes " depth=" ++ to_bytes (pretty depth) ++ to_bytes " chains=" ++ to_bytes (pretty chainsImpacted) ++
  to_bytes " tip " ++ to_bytes tipBefore ++ to_bytes "->" ++ to_bytes tipAfter ++
  to_bytes " [" ++ to_bytes (env n) ++ to_bytes "/" ++ to_bytes (instance n) ++ to_bytes "]".

(** The key of a height. *)
Definition reorgKey (height : Z) : string := String.append "reorg-" (pretty height).

(** [ReportReorg]; a failure is only logged. *)
Definition ReportReorg (n : t) (height depth chainsImpacted : Z) (tipBefore tipAfter : string) : code unit :=
  send ← shouldSend (reorgKey height);
  if negb send then Ret tt else
  post n (reorgMessage n height depth chainsImpacted tipBefore tipAfter) reorgUsername;;
  Ret tt.

(** ** The window *)

(** A clock that does not run backwards, as Go's monotonic one: [reading] is what it
    shows at least. *)
Class MonotonicClock := {
  reading : N -> Z;
  clock_reads : forall n, reading n <= (Clock n).1 <= reading (Clock n).2;
  do_reads : forall req n, reading n <= reading (HttpDo req n).2;
}.

(** The times at which a key was let through, oldest first. *)
Definition sendings (key : string) (s : State) : list Z := (filter (fun x => x.1 = key) (n_sent s)).*2.

(** Times that are at least a window apart. *)
Fixpoint spaced (l : list Z) : Prop :=
  match l with
  | t1 :: ((t2 :: _) as l') => t1 + dedupeWindow <= t2 /\ spaced l'
  | _ => True
  end.

Lemma spaced_snoc l t0 : spaced l -> (forall u, last l = Some u -> u + dedupeWindow <= t0) -> spaced (l ++ [t0]).
Proof.
  induction l as [|t1 l IH]; [done|]. intros Hs Hl. destruct l as [|t2 l].
  - simpl. split; [by apply Hl|done].
  - destruct Hs as [H12 Hs]. simpl. split; [done|]. apply IH; [done|]. intros u Hu. apply Hl. exact Hu.
Qed.

Lemma time_sub_window now at_ : time_sub now at_ < dedupeWindow <-> now - at_ < dedupeWindow.
Proof. unfold time_sub, dedupeWindow, Backoff.Second, two63. lia. Qed.

(** What the map remembers: the last sending of each key, unless that is a window
    old; and nothing older. *)
Record remembers `{!MonotonicClock} (s : State) : Prop := {
  rm_spaced : forall key, spaced (sendings key s);
  rm_last : forall key u, last (sendings key s) = Some u ->
    u <= reading (n_net s) /\ (n_last s !! key = Some u \/ (n_last s !! key = None /\ u + dedupeWindow <= reading (n_net s)));
  rm_known : forall key u, n_last s !! key = Some u -> last (sendings key s) = Some u;
}.

Lemma sendings_snoc key key' now s last n posts :
  sendings key (mkState last n (n_sent s ++ [(key', now)]) posts) =
  sendings key s ++ if bool_decide (key' = key) then [now] else [].
Proof.
  unfold sendings. simpl. rewrite filter_app, fmap_app. f_equal. rewrite filter_cons. simpl.
  by case_bool_decide as Hj; [rewrite decide_True|rewrite decide_False].
Qed.

(** Time passes. *)
Lemma remembers_later `{!MonotonicClock} s n posts : reading (n_net s) <= reading n -> remembers s ->
  remembers (mkState (n_last s) n (n_sent s) posts).
Proof.
  intros Ht [Hs Hl Hk]. split; [exact Hs| |exact Hk]. intros key u Hu. destruct (Hl key u Hu) as [Hle [?|[? ?]]]; simpl.
  - split; [lia|by left].
  - split; [lia|right; split; [done|lia]].
Qed.

Lemma shouldSend_remembers `{!MonotonicClock} key : preserves remembers (shouldSend key).
Proof.
  split; [|done]. intros s Hr. pose proof (clock_reads (n_net s)) as Hc. destruct (Clock (n_net s)) as [now n]. simpl in Hc.
  case_if; [by apply remembers_later; [lia|]|]. simpl. pose proof Hr as [Hs Hl Hk].
  assert (forall u, last (sendings key s) = Some u -> u + dedupeWindow <= now) as Hold.
  { intros u Hu. destruct (Hl key u Hu) as [_ [Hin|[_ Hw]]]; [|lia].
    unfold recent in E. rewrite Hin in E. apply Z.ltb_ge in E. destruct (Z.lt_ge_cases (now - u) dedupeWindow) as [Hlt|]; [|lia].
    apply time_sub_window in Hlt. lia. }
  assert (forall k u, filter (fun kv => ~ dedupeWindow <= time_sub now kv.2) (<[key:=now]> (n_last s)) !! k = Some u <->
    (k = key /\ u = now) \/ (k <> key /\ n_last s !! k = Some u /\ now < u + dedupeWindow)) as Hfil.
  { intros k u. rewrite map_lookup_filter_Some, Z.nle_gt. simpl. rewrite lookup_insert_Some, time_sub_window.
    split; [intros [[[<- <-]|[Hne Hu]] Hw]; [by left|right; split_and!; [done|done|lia]]|].
    intros [[-> ->]|(Hne & Hu & Hw)]; [split; [by left|unfold dedupeWindow, Backoff.Second; lia]|split; [right; done|lia]]. }
  split.
  - intros k. rewrite sendings_snoc. case_bool_decide as Hk'; [subst k; by apply spaced_snoc|by rewrite app_nil_r].
  - intros k u. rewrite sendings_snoc. case_bool_decide as Hk'; simpl.
    + subst k. rewrite last_snoc. intros [= <-]. split; [lia|left; apply Hfil; auto].
    + rewrite app_nil_r. intros Hu. destruct (Hl k u Hu) as [Hle Hor]. split; [lia|].
      destruct (decide (now < u + dedupeWindow)) as [Hw|Hw].
      * destruct Hor as [Hin|[_ ?]]; [|lia]. left. apply Hfil. right. done.
      * right. split; [|lia]. apply eq_None_not_Some. intros [v Hv]. apply Hfil in Hv as [[? _]|(_ & Hv & Hvw)]; [done|].
        destruct Hor as [Hin|[Hno _]]; simplify_eq.
  - intros k u Hu. rewrite sendings_snoc. apply Hfil in Hu as [[-> ->]|(Hne & Hu & _)].
    + rewrite bool_decide_eq_true_2 by done. apply last_snoc.
    + rewrite bool_decide_eq_false_2, app_nil_r by done. by apply Hk.
Qed.

Lemma post_remembers `{!MonotonicClock} n msg username : preserves remembers (post n msg username).
Proof.
  unfold post. destruct (NewRequest _ _); [done|]. split; [|intros [rs|]; simpl; [by case_if|done]].
  intros s Hr. pose proof (do_reads (postRequest n msg username) (n_net s)) as Hd.
  destruct (HttpDo _ (n_net s)) as [r w]. by apply remembers_later.
Qed.

Lemma ReportReorg_remembers `{!MonotonicClock} n h d c b a : preserves remembers (ReportReorg n h d c b a).
Proof.
  apply preserves_bind; [apply shouldSend_remembers|]. intros []; [|done].
  apply preserves_bind; [apply post_remembers|done].
Qed.

(** A report, as the arguments of [ReportReorg]. *)
Definition report : Type := Z * Z * Z * string * string.
Definition report_code (n : t) (r : report) : code unit :=
  let '(h, d, c, b, a) := r in ReportReorg n h d c b a.

(** C26: however many goroutines report reorgs, in whatever interleaving, and
    wherever they are stopped, two reports let through for one height are at least
    five minutes apart on a monotonic clock; and the map holds only heights that
    were let through. *)
Theorem reorgs_deduplicated `{!MonotonicClock} (n : t) (reports : list (list report)) sched (w : N) (s : State) :
  reaches (par sched ((fun rs => seq_all (report_code n <$> rs)) <$> reports)) (fresh w) s ->
  (forall height, spaced (sendings (reorgKey height) s)) /\
  (forall key u, n_last s !! key = Some u -> last (sendings key s) = Some u).
Proof.
  intros Hr. assert (remembers s) as [Hs _ Hk].
  { eapply preserves_reaches; [| |exact Hr].
    - apply preserves_par. intros p (rs & -> & _)%list_elem_of_fmap. apply preserves_seq_all.
      intros q ([[[[h d] c] b] a] & -> & _)%list_elem_of_fmap. apply ReportReorg_remembers.
    - split; [done|done|]. intros key u Hu. simpl in Hu. by rewrite lookup_empty in Hu. }
  split; [intros h; apply Hs|exact Hk].
Qed.

(** A report that is let through is posted once, as JSON that says what was
    reported and flags a reorg deeper than three blocks; a repeat within the window
    posts nothing and forgets nothing. *)
Theorem ReportReorg_posts (n : t) (height depth chains : Z) (tipBefore tipAfter : string) (s : State) :
  NewRequest "POST" (webhook n) = None ->
  let now := (Clock (n_net s)).1 in
  let s' := (run (ReportReorg n height depth chains tipBefore tipAfter) s).2 in
  let msg := reorgMessage n height depth chains tipBefore tipAfter in
  if recent now (n_last s) (reorgKey height)
  then n_posts s' = n_posts s /\ n_last s' = n_last s
  else
    n_posts s' = n_posts s ++ [postRequest n msg reorgUsername] /\ n_last s' !! reorgKey height = Some now /\
    Json.Unmarshal (rqBody (postRequest n msg reorgUsername)) =
      Some (JsonFacts.valid_tree (JObj (payload n msg reorgUsername))).
Proof.
  intros Hreq now s' msg. subst s' now. unfold ReportReorg, mbind, prog_bind. cbn [shouldSend act pbind run].
  destruct (Clock (n_net s)) as [now w]. cbn [fst].
  destruct (recent now (n_last s) (reorgKey height)); [done|]. cbn [negb]. unfold post. rewrite Hreq. cbn [act pbind run].
  fold msg. cbn [n_net n_last n_sent n_posts]. destruct (HttpDo (postRequest n msg reorgUsername) w) as [r w'] eqn:Hdo.
  set (rest := run _ _). assert (rest.2 = mkState (filter (fun kv => ~ dedupeWindow <= time_sub now kv.2)
    (<[reorgKey height:=now]> (n_last s))) w' (n_sent s ++ [(reorgKey height, now)]) (n_posts s ++ [postRequest n msg reorgUsername])) as ->.
  { subst rest. unfold mbind, prog_bind. cbn [act pbind run n_net n_last n_sent n_posts]. rewrite Hdo.
    destruct r as [rs|]; [|done]. by case_if. }
  split_and!; [done| |].
  - apply map_lookup_filter_Some. rewrite lookup_insert_eq. split; [done|]. simpl. apply Z.nle_gt, time_sub_window.
    unfold dedupeWindow, Backoff.Second. lia.
  - apply JsonFacts.Unmarshal_print; unfold payload; by case_bool_decide.
Qed.

End notifier.
End Notifier.
