(* ===== verification/Sse.v ===== *)
(** * Event streams (internal/sse/sse.go)

    The line scanner and the event parser of a stream, the three handlers, and the
    loop that keeps a stream connected.  The code runs against the interface
    [StreamEnv]: the sink of chain events (the engine), the reporter (the notifier),
    the metrics and the outside. *)

From S2P Require Import Prelude Prog Text Strconv Json JsonFacts Backoff Float Metrics HttpClient Http Arcade.
Open Scope Z_scope.

(** [EventSink], [ReorgReporter] and what else a stream acts on. *)
Class StreamEnv (T N : Type) `{Prometheus} `{Net N} := {
  sNet : forall {B}, (N -> B * N) -> prog T B;
  sMeasure : (Metrics.t -> Metrics.t) -> prog T unit;
  sRecordTip : Z -> string -> Z -> prog T unit;
  sRecordReorg : Z -> Z -> string -> string -> prog T Z;
  (* nil without a webhook *)
  sReporter : option (Z -> Z -> Z -> string -> string -> prog T unit);
}.

Module Sse.
Import Strconv Json.

Definition StreamTip : string := "tip".
Definition StreamReorg : string := "reorg".
Definition StreamArcadeTx : string := "arcade_tx".
Definition defaultIdleTimeout : Z := 60 * Backoff.Second.
Definition defaultReconnectInitial : Z := Backoff.Second.
Definition defaultReconnectMax : Z := 30 * Backoff.Second.
Definition maxEventBytes : Z := Z.shiftl 1 20.

(** ** Lines and events *)

(** A line ends at its newline, or where the stream ends; [cur] is what was read of
    it, backwards.  A line that does not fit the buffer stops the scanner. *)
Definition dropCR (cur : bytes) : bytes := reverse (match cur with x0d :: cur' => cur' | _ => cur end).
Definition tooLong (cur : bytes) : bool := maxEventBytes <=? Z.of_nat (length cur).

Fixpoint scanLines (cur : bytes) (s : bytes) : list bytes * bool :=
  match s with
  | [] => if tooLong cur then ([], true) else (match cur with [] => [] | _ => [dropCR cur] end, false)
  | b :: s' =>
      if bool_decide (b = x0a) then
        if tooLong cur then ([], true) else
        let '(ls, long) := scanLines [] s' in (dropCR cur :: ls, long)
      else scanLines (b :: cur) s'
  end.

(** What a line adds to the event under way. *)
Definition trimSpacePrefix (s : bytes) : bytes := match s with x20 :: s' => s' | _ => s end.
Definition addLine (event line : bytes) : bytes :=
  match CutPrefix line (to_bytes "data:") with
  | Some data => event ++ trimSpacePrefix data ++ [x0a]
  | None => event
  end.

(** [strings.TrimSuffix(event, "\n")] *)
Definition trimNewline (event : bytes) : bytes :=
  match reverse event with x0a :: e => reverse e | _ => event end.

(** The payloads that are dispatched, in order, from [event] on. *)
Fixpoint eventsOf (event : bytes) (ls : list bytes) : list bytes :=
  match ls with
  | [] => match event with [] => [] | _ => [trimNewline event] end
  | [] :: ls' => match event with [] => eventsOf [] ls' | _ => trimNewline event :: eventsOf [] ls' end
  | line :: ls' => eventsOf (addLine event line) ls'
  end.

(** The payloads of a stream, and whether a line was too long. *)
Definition readEvents (body : bytes) : list bytes * bool :=
  let '(ls, long) := scanLines [] body in (eventsOf [] ls, long).

(** ** The data *)

Record BlockHeader := mkHeader {
  hVersion : Z; hPrevHash : string; hMerkleRoot : string; hTimestamp : Z;
  hBits : Z; hNonce : Z; hHeight : Z; hHash : string;
}.
Definition zeroHeader : BlockHeader := mkHeader 0 "" "" 0 0 0 0 "".

Record ReorgEvent := mkReorg {
  rOrphanedHashes : list string; rCommonAncestor : option BlockHeader; rNewTip : option BlockHeader; rDepth : Z;
}.
Definition zeroReorg : ReorgEvent := mkReorg [] None None 0.

Definition headerFields : fields BlockHeader :=
  [("version"%string, fun j h => (fun v => mkHeader v (hPrevHash h) (hMerkleRoot h) (hTimestamp h) (hBits h) (hNonce h) (hHeight h) (hHash h)) <$> decInt 32 j (hVersion h));
   ("previousHash"%string, fun j h => (fun v => mkHeader (hVersion h) v (hMerkleRoot h) (hTimestamp h) (hBits h) (hNonce h) (hHeight h) (hHash h)) <$> decString j (hPrevHash h));
   ("merkleRoot"%string, fun j h => (fun v => mkHeader (hVersion h) (hPrevHash h) v (hTimestamp h) (hBits h) (hNonce h) (hHeight h) (hHash h)) <$> decString j (hMerkleRoot h));
   ("time"%string, fun j h => (fun v => mkHeader (hVersion h) (hPrevHash h) (hMerkleRoot h) v (hBits h) (hNonce h) (hHeight h) (hHash h)) <$> decUint 32 j (hTimestamp h));
   ("bits"%string, fun j h => (fun v => mkHeader (hVersion h) (hPrevHash h) (hMerkleRoot h) (hTimestamp h) v (hNonce h) (hHeight h) (hHash h)) <$> decUint 32 j (hBits h));
   ("nonce"%string, fun j h => (fun v => mkHeader (hVersion h) (hPrevHash h) (hMerkleRoot h) (hTimestamp h) (hBits h) v (hHeight h) (hHash h)) <$> decUint 32 j (hNonce h));
   ("height"%string, fun j h => (fun v => mkHeader (hVersion h) (hPrevHash h) (hMerkleRoot h) (hTimestamp h) (hBits h) (hNonce h) v (hHash h)) <$> decUint 32 j (hHeight h));
   ("hash"%string, fun j h => (fun v => mkHeader (hVersion h) (hPrevHash h) (hMerkleRoot h) (hTimestamp h) (hBits h) (hNonce h) (hHeight h) v) <$> decString j (hHash h))].

Definition reorgFields : fields ReorgEvent :=
  [("orphanedHashes"%string, fun j r => (fun v => mkReorg v (rCommonAncestor r) (rNewTip r) (rDepth r)) <$> decSlice ""%string decString j (rOrphanedHashes r));
   ("commonAncestor"%string, fun j r => (fun v => mkReorg (rOrphanedHashes r) v (rNewTip r) (rDepth r)) <$> decPtr zeroHeader (decStruct headerFields) j (rCommonAncestor r));
   ("newTip"%string, fun j r => (fun v => mkReorg (rOrphanedHashes r) (rCommonAncestor r) v (rDepth r)) <$> decPtr zeroHeader (decStruct headerFields) j (rNewTip r));
   ("depth"%string, fun j r => (fun v => mkReorg (rOrphanedHashes r) (rCommonAncestor r) (rNewTip r) v) <$> decUint 32 j (rDepth r))].

(** [reorgHeight], on [uint32] heights. *)
Definition reorgHeight (r : ReorgEvent) : Z :=
  match rCommonAncestor r with
  | Some a => hHeight a + 1
  | None =>
      match rNewTip r with
      | Some t => if (0 <? rDepth r) && (rDepth r <=? hHeight t) then (hHeight t - rDepth r) mod two32 + 1 else 0
      | None => 0
      end
  end.

(** [jsonString]; a missing string is empty. *)
Fixpoint jsonString (payload : list (bytes * json)) (keys : list string) : bytes :=
  match keys with
  | [] => []
  | k :: keys' => match lookup_string payload k with Some v => v | None => jsonString payload keys' end
  end.

(** What a transaction event says, and whether it is logged as a warning. *)
Record TxEvent := mkTxEvent { teTxid : bytes; teStatus : bytes; teType : bytes; teInfo : bytes; teWarn : bool }.

Definition readTxEvent (data : bytes) : option TxEvent :=
  payload ← UnmarshalMap data;
  let nested := match lookup_any payload "data" with Some (JObj ms) => ms | _ => [] end in
  let field keys := match jsonString payload keys with [] => jsonString nested keys | v => v end in
  let status := field ["txStatus"; "tx_status"; "status"]%string in
  Some (mkTxEvent (field ["txid"; "txId"; "transactionId"; "transactionID"]%string) status
    (field ["type"; "event"; "eventType"]%string) (field ["extraInfo"; "extra_info"; "reason"; "message"]%string)
    (bool_decide (foldName status = foldName (to_bytes "rejected")))).

(** ** Streams *)

Record Options := mkOptions { oReconnectMin : Z; oReconnectMax : Z; oIdleTimeout : Z; oBaseURL : string; oCallbackToken : string }.
Record subscriber := mkSubscriber { reconnectMin : Z; reconnectMax : Z; idleTimeout : Z }.

Definition newSubscriber (opts : Options) : subscriber :=
  let rmin := if oReconnectMin opts <=? 0 then defaultReconnectInitial else oReconnectMin opts in
  let rmax := if oReconnectMax opts <=? 0 then defaultReconnectMax else oReconnectMax opts in
  mkSubscriber rmin (Z.max rmax rmin) (if oIdleTimeout opts <=? 0 then defaultIdleTimeout else oIdleTimeout opts).

(** The attempt that the next reconnect counts as, after a connection that was up
    for [uptime]. *)
Definition nextAttempt (s : subscriber) (attempt uptime : Z) : Z :=
  (if reconnectMax s <=? uptime then 0 else attempt) + 1.

Section streams.
Context {T N : Type} `{env : StreamEnv T N}.

Abbreviation code := (prog T).

Definition handleTip (data : bytes) : code unit :=
  match UnmarshalInto (decStruct headerFields) data zeroHeader with
  | None => Ret tt
  | Some h => sRecordTip (hHeight h) (hHash h) (hTimestamp h * Backoff.Second)
  end.

Definition handleReorg (data : bytes) : code unit :=
  match UnmarshalInto (decStruct reorgFields) data zeroReorg with
  | None => Ret tt
  | Some r =>
      let height := reorgHeight r in
      let tipBefore := default ""%string (head (rOrphanedHashes r)) in
      let tipAfter := match rNewTip r with Some t => hHash t | None => ""%string end in
      chainsImpacted ← sRecordReorg height (rDepth r) tipBefore tipAfter;
      sMeasure (Metrics.IncReorg (rDepth r));;
      match sReporter with
      | Some report => report height (rDepth r) chainsImpacted tipBefore tipAfter
      | None => Ret tt
      end
  end.

Definition handleArcadeTx (data : bytes) : code unit :=
  match readTxEvent data with
  | None => Ret tt
  | Some _ => sMeasure (Metrics.IncSSEEvent StreamArcadeTx)
  end.

(** [connect]'s loop over the lines of the body; [event] is its [strings.Builder]. *)
Fixpoint readLoop (handle : bytes -> code unit) (event : bytes) (ls : list bytes) : code unit :=
  let dispatch := match event with [] => Ret tt | _ => handle (trimNewline event) end in
  match ls with
  | [] => dispatch
  | [] :: ls' => dispatch;; readLoop handle [] ls'
  | line :: ls' => readLoop handle (addLine event line) ls'
  end.

(** The client of a subscriber. *)
Definition client : HttpClient.Client := HttpClient.New HttpClient.NewStreamTransport 0.

Definition streamRequest (url : string) : Request :=
  mkRequest "GET" url [("Accept", "text/event-stream"); ("Cache-Control", "no-cache")]%string [] (HttpClient.Timeout client).

(** [connect]: the uptime and the error; [EOF] when the stream ended cleanly. *)
Definition connect (url name : string) (handle : bytes -> code unit) : code (Z * err) :=
  match NewRequest "GET" url with
  | Some e => Ret (0, Wrap "build SSE request" e)
  | None =>
      r ← sNet (HttpDo (streamRequest url));
      match r with
      | Err e => Ret (0, Wrap "connect SSE stream" e)
      | Ok rs =>
          if negb (rsStatus rs =? 200) then Ret (0, ErrUnexpectedStatus) else
          established ← sNet Clock;
          sMeasure (Metrics.IncSSEEvent name);;
          sMeasure (Metrics.SetSSEConnected true name);;
          let '(ls, long) := scanLines [] (rsBody rs) in
          readLoop handle [] ls;;
          now ← sNet Clock;
          let uptime := Z.max (time_sub now established) 1 in
          sMeasure (Metrics.SetSSEConnected false name);;
          match (if (long : bool) then Some (External "bufio.Scanner: token too long") else rsReadErr rs) with
          | Some e => Ret (uptime, Wrap "read SSE stream" e)
          | None => Ret (uptime, EOF)
          end
      end
  end.

(** [streamLoop] for at most [fuel] connections. *)
Fixpoint streamLoop (fuel : nat) (s : subscriber) (attempt : Z) (url name : string) (handle : bytes -> code unit) : code unit :=
  match fuel with
  | O => Ret tt
  | S fuel =>
      e ← sNet Done;
      match e with
      | Some _ => Ret tt
      | None =>
          '(uptime, _) ← connect url name handle;
          e ← sNet Done;
          match e with
          | Some _ => Ret tt
          | None =>
              let attempt := nextAttempt s attempt uptime in
              sMeasure (Metrics.IncSSEDisconnect name);;
              sMeasure (Metrics.SetSSEConnected false name);;
              rand ← sNet Random;
              let delay := Backoff.Reconnect rand (reconnectMin s) (reconnectMax s) attempt in
              c ← sNet (Choose 2 (Some delay));
              match c with
              | O =>
                  e ← sNet Done;
                  match e with Some _ => Ret tt | None => streamLoop fuel s attempt url name handle end
              | _ => streamLoop fuel s attempt url name handle
              end
          end
      end
  end.

(** [Start]: one goroutine per stream. *)
Definition Start (fuel : nat) (opts : Options) : list (code unit) :=
  let s := newSubscriber opts in
  let trimmed := of_bytes (trim_slashes (to_bytes (oBaseURL opts))) in
  let base := if bool_decide (trimmed = ""%string) then Arcade.DefaultBaseURL else trimmed in
  [streamLoop fuel s 0 (String.append base "/chaintracks/v2/tip/stream") StreamTip handleTip;
   streamLoop fuel s 0 (String.append base "/chaintracks/v2/reorg/stream") StreamReorg handleReorg] ++
  (if bool_decide (oCallbackToken opts = ""%string) then [] else
   [streamLoop fuel s 0 (String.append base (String.append "/events?callbackToken=" (of_bytes (QueryEscape (to_bytes (oCallbackToken opts))))))
      StreamArcadeTx handleArcadeTx]).

(** ** Delivery *)

(** Handling payloads one after the other. *)
Definition handleAll (handle : bytes -> code unit) (ps : list bytes) : code unit :=
  foldr (fun p k => handle p;; k) (Ret tt) ps.

Lemma run_then (p : code unit) (k : code unit) s : run (p;; k) s = run k (run p s).2.
Proof. unfold mbind, prog_bind. rewrite run_bind. by destruct (run p s). Qed.

(** The loop handles the payloads of the stream, in order. *)
Lemma readLoop_events handle event ls s : run (readLoop handle event ls) s = run (handleAll handle (eventsOf event ls)) s.
Proof.
  revert event s. induction ls as [|line ls IH]; intros event s.
  - destruct event as [|b event]; [done|]. cbn [readLoop eventsOf handleAll foldr].
    rewrite run_then. simpl. by destruct (run (handle (trimNewline (b :: event))) s) as [[] s'].
  - destruct line as [|c line].
    + cbn [readLoop eventsOf]. rewrite run_then, IH. destruct event as [|b event]; [done|].
      cbn [handleAll foldr]. by rewrite run_then.
    + cbn [readLoop eventsOf]. apply IH.
Qed.

(** What every call of the interface keeps, the streams keep. *)
Section preserved.
Context (P : T -> Prop).
Context (Pnet : forall B (f : N -> B * N), preserves P (sNet f)).
Context (Pmeasure : forall f, preserves P (sMeasure f)).
Context (Ptip : forall h hash t, preserves P (sRecordTip h hash t)).
Context (Preorg : forall h d b a, preserves P (sRecordReorg h d b a)).
Context (Preport : forall report h d c b a, sReporter = Some report -> preserves P (report h d c b a)).

Lemma handleTip_preserves data : preserves P (handleTip data).
Proof using Ptip. unfold handleTip. destruct (UnmarshalInto _ _ _); [apply Ptip|done]. Qed.

Lemma handleReorg_preserves data : preserves P (handleReorg data).
Proof using Pmeasure Preorg Preport.
  unfold handleReorg. destruct (UnmarshalInto _ _ _) as [r|]; [|done].
  apply preserves_bind; [apply Preorg|]. intros c. apply preserves_bind; [apply Pmeasure|]. intros _.
  destruct sReporter eqn:Hr; [by eapply Preport|done].
Qed.

Lemma handleArcadeTx_preserves data : preserves P (handleArcadeTx data).
Proof using Pmeasure. unfold handleArcadeTx. destruct (readTxEvent data); [apply Pmeasure|done]. Qed.

Lemma readLoop_preserves handle event ls : (forall data, preserves P (handle data)) -> preserves P (readLoop handle event ls).
Proof.
  intros Hh. revert event. induction ls as [|line ls IH]; intros event.
  - simpl. destruct event; [done|apply Hh].
  - destruct line; cbn [readLoop]; [|apply IH]. apply preserves_bind; [destruct event; [done|apply Hh]|]. intros _. apply IH.
Qed.

Lemma connect_preserves url name handle : (forall data, preserves P (handle data)) -> preserves P (connect url name handle).
Proof using Pnet Pmeasure.
  intros Hh. unfold connect. destruct (NewRequest _ _); [done|]. apply preserves_bind; [apply Pnet|]. intros [rs|]; [|done].
  case_if; [done|]. apply preserves_bind; [apply Pnet|]. intros est.
  apply preserves_bind; [apply Pmeasure|]. intros _. apply preserves_bind; [apply Pmeasure|]. intros _.
  destruct (scanLines [] (rsBody rs)) as [ls long]. apply preserves_bind; [by apply readLoop_preserves|]. intros _.
  apply preserves_bind; [apply Pnet|]. intros now. apply preserves_bind; [apply Pmeasure|]. intros _.
  by destruct (if long then _ else _).
Qed.

Lemma streamLoop_preserves fuel s attempt url name handle : (forall data, preserves P (handle data)) ->
  preserves P (streamLoop fuel s attempt url name handle).
Proof using Pnet Pmeasure.
  intros Hh. revert attempt. induction fuel as [|fuel IH]; intros attempt; [done|]. cbn [streamLoop].
  apply preserves_bind; [apply Pnet|]. intros [?|]; [done|].
  apply preserves_bind; [by apply connect_preserves|]. intros [uptime e].
  apply preserves_bind; [apply Pnet|]. intros [?|]; [done|].
  apply preserves_bind; [apply Pmeasure|]. intros _. apply preserves_bind; [apply Pmeasure|]. intros _.
  apply preserves_bind; [apply Pnet|]. intros rand. apply preserves_bind; [apply Pnet|]. intros [|c]; [|apply IH].
  apply preserves_bind; [apply Pnet|]. intros [?|]; [done|apply IH].
Qed.

Lemma Start_preserves fuel opts p : p ∈ Start fuel opts -> preserves P p.
Proof using Pnet Pmeasure Ptip Preorg Preport.
  unfold Start. intros Hp. repeat (apply elem_of_app in Hp as [Hp|Hp] || apply elem_of_cons in Hp as [->|Hp]);
    try (apply streamLoop_preserves; first [apply handleTip_preserves|apply handleReorg_preserves]); try by apply elem_of_nil in Hp.
  case_bool_decide; [by apply elem_of_nil in Hp|]. apply elem_of_cons in Hp as [->|Hp]; [|by apply elem_of_nil in Hp].
  apply streamLoop_preserves, handleArcadeTx_preserves.
Qed.
End preserved.

End streams.

(** *** What a server sends *)

(** A payload as its lines. *)
Fixpoint splitLines (p : bytes) : list bytes :=
  match p with
  | [] => [[]]
  | b :: p' =>
      if bool_decide (b = x0a) then [] :: splitLines p'
      else match splitLines p' with l :: ls => (b :: l) :: ls | [] => [[b]] end
  end.

(** An event as the protocol writes it. *)
Definition renderLine (l : bytes) : bytes := to_bytes "data: " ++ l ++ [x0a].
Definition render (p : bytes) : bytes := concat (renderLine <$> splitLines p) ++ [x0a].

(** Each line fits the scanner's buffer and does not end in a carriage return. *)
Definition deliverable (p : bytes) : Prop :=
  Forall (fun l => Z.of_nat (length l) + 6 < maxEventBytes /\ last l <> Some x0d) (splitLines p).

Lemma splitLines_nonempty p : splitLines p <> [].
Proof. destruct p as [|b p]; [done|]. cbn [splitLines]. case_bool_decide; [done|]. by destruct (splitLines p). Qed.

Lemma splitLines_no_newline p : Forall (fun l => x0a ∉ l) (splitLines p).
Proof.
  induction p as [|b p IH]; [repeat constructor; set_solver|]. cbn [splitLines].
  case_bool_decide as Hb; [constructor; [set_solver|done]|].
  destruct (splitLines p) as [|l ls]; [repeat constructor; set_solver|].
  apply Forall_cons in IH as [Hl Hls]. constructor; [set_solver|done].
Qed.

Lemma splitLines_join p : concat ((fun l => l ++ [x0a]) <$> splitLines p) = p ++ [x0a].
Proof.
  induction p as [|b p IH]; [done|]. cbn [splitLines]. case_bool_decide as Hb.
  - subst b. cbn [fmap list_fmap concat app]. by f_equal.
  - pose proof (splitLines_nonempty p). destruct (splitLines p) as [|l ls]; [done|].
    cbn [fmap list_fmap concat app] in *. by f_equal.
Qed.

Lemma scanLines_line cur l s : x0a ∉ l ->
  scanLines cur (l ++ x0a :: s) =
  if tooLong (reverse l ++ cur) then ([], true) else
  let '(ls, long) := scanLines [] s in (dropCR (reverse l ++ cur) :: ls, long).
Proof.
  revert cur. induction l as [|b l IH]; intros cur Hl; [done|].
  cbn [app scanLines]. rewrite bool_decide_eq_false_2 by set_solver. rewrite IH by set_solver.
  by rewrite reverse_cons, <- (assoc_L (++)).
Qed.

Lemma dropCR_reverse l : last l <> Some x0d -> dropCR (reverse l) = l.
Proof.
  intros Hl. unfold dropCR. destruct (reverse l) as [|b r] eqn:Hr.
  - apply (f_equal reverse) in Hr. by rewrite reverse_involutive in Hr.
  - assert (l = reverse (b :: r)) as -> by (by rewrite <- Hr, reverse_involutive).
    rewrite reverse_cons, last_snoc in Hl. rewrite reverse_cons. destruct b; first [done|by rewrite reverse_cons].
Qed.

Lemma scan_rendered p s : deliverable p ->
  scanLines [] (render p ++ s) =
  let '(ls, long) := scanLines [] s in (((fun l => to_bytes "data: " ++ l) <$> splitLines p) ++ [] :: ls, long).
Proof.
  unfold deliverable, render. intros Hd. pose proof (splitLines_no_newline p) as Hn.
  induction (splitLines p) as [|l ls IH]; [by cbn; destruct (scanLines [] s)|].
  apply Forall_cons in Hd as [[Hlen Hcr] Hd]. apply Forall_cons in Hn as [Hl Hn].
  specialize (IH Hd Hn).
  assert ((concat (renderLine <$> l :: ls) ++ [x0a]) ++ s =
    (to_bytes "data: " ++ l) ++ x0a :: (concat (renderLine <$> ls) ++ [x0a]) ++ s) as ->.
  { cbn [fmap list_fmap concat]. unfold renderLine at 1. by rewrite <- !(assoc_L (++)). }
  rewrite scanLines_line.
  2: { rewrite not_elem_of_app. split; [|exact Hl]. apply (bool_decide_eq_true_1 _). reflexivity. }
  rewrite app_nil_r. unfold tooLong. rewrite length_reverse, length_app.
  rewrite (proj2 (Z.leb_gt _ _)) by (change (length (to_bytes "data: ")) with 6%nat; lia).
  rewrite dropCR_reverse by (rewrite last_app; destruct (last l); done).
  rewrite IH. by destruct (scanLines [] s).
Qed.

Lemma addLine_data event l : addLine event (to_bytes "data: " ++ l) = event ++ l ++ [x0a].
Proof.
  unfold addLine. change (to_bytes "data: " ++ l) with (to_bytes "data:" ++ x20 :: l).
  by rewrite (proj2 (CutPrefix_Some _ _ (x20 :: l)) eq_refl).
Qed.

Lemma eventsOf_data event ls rest :
  eventsOf event (((fun l => to_bytes "data: " ++ l) <$> ls) ++ rest) =
  eventsOf (event ++ concat ((fun l => l ++ [x0a]) <$> ls)) rest.
Proof.
  revert event. induction ls as [|l ls IH]; intros event; cbn [fmap list_fmap app concat]; [by rewrite app_nil_r|].
  rewrite (assoc_L (++)), <- (addLine_data event l). apply IH.
Qed.

Lemma trimNewline_snoc p : trimNewline (p ++ [x0a]) = p.
Proof. unfold trimNewline. rewrite reverse_snoc. apply reverse_involutive. Qed.

Lemma readEvents_rendered ps : Forall deliverable ps -> readEvents (concat (render <$> ps)) = (ps, false).
Proof.
  unfold readEvents. induction 1 as [|p ps Hp _ IH]; [done|]. cbn [fmap list_fmap concat].
  rewrite (scan_rendered p _ Hp). destruct (scanLines [] (concat (render <$> ps))) as [ls long]. injection IH as IH ->.
  f_equal. rewrite eventsOf_data. cbn [app]. rewrite splitLines_join.
  destruct (p ++ [x0a]) as [|b q] eqn:Hq; [by destruct p|]. cbn [eventsOf]. rewrite <- Hq, trimNewline_snoc, IH. done.
Qed.

(** C20: what a server writes in the event-stream format is handled payload by
    payload, in order and unchanged: an established stream whose body is the
    rendering of [ps] makes [connect] run the handler on exactly [ps], and then end
    with [EOF].  A payload may hold newlines; its lines must fit the scanner. *)
Theorem stream_delivers {T N : Type} `{env : StreamEnv T N} (handle : bytes -> prog T unit) (url name : string) (ps : list bytes) (s : T) :
  Forall deliverable ps -> NewRequest "GET" url = None ->
  let '(r, s1) := run (sNet (HttpDo (streamRequest url))) s in
  r = Ok (mkResponse 200 (concat (render <$> ps)) None) ->
  let '((uptime, e), s') := run (connect url name handle) s in
  e = EOF /\ 1 <= uptime /\ exists s2 s3,
    s2 = (run (sMeasure (Metrics.SetSSEConnected true name)) (run (sMeasure (Metrics.IncSSEEvent name)) (run (sNet Clock) s1).2).2).2 /\
    s3 = (run (handleAll handle ps) s2).2 /\
    s' = (run (sMeasure (Metrics.SetSSEConnected false name)) (run (sNet Clock) s3).2).2.
Proof.
  intros Hps Hreq. pose proof (readEvents_rendered ps Hps) as Hev. unfold readEvents in Hev.
  unfold connect. rewrite Hreq. unfold mbind, prog_bind. rewrite run_bind.
  destruct (run (sNet (HttpDo (streamRequest url))) s) as [r s1]. intros ->. cbn [rsStatus rsBody rsReadErr negb Z.eqb Pos.eqb].
  rewrite run_bind. destruct (run (sNet Clock) s1) as [established s1'] eqn:Hclk. rewrite !run_bind.
  destruct (run (sMeasure (Metrics.IncSSEEvent name)) s1') as [u1 s1''] eqn:Hm1.
  rewrite run_bind. destruct (run (sMeasure (Metrics.SetSSEConnected true name)) s1'') as [u2 s2] eqn:Hm2.
  destruct (scanLines [] (concat (render <$> ps))) as [ls long]. injection Hev as Hev ->.
  rewrite run_bind, readLoop_events, Hev. destruct (run (handleAll handle ps) s2) as [u3 s3] eqn:Hh.
  rewrite run_bind. destruct (run (sNet Clock) s3) as [now s4] eqn:Hclk'. rewrite run_bind.
  destruct (run (sMeasure (Metrics.SetSSEConnected false name)) s4) as [u5 s5] eqn:Hm. cbn [run].
  split_and!; [done|lia|]. exists s2, s3. cbn [snd]. rewrite Hh, Hclk'. cbn [snd]. rewrite Hm, Hm1. cbn [snd]. by rewrite Hm2.
Qed.

(** ** Reconnecting *)

(** The attempt number after connections that were up for [uptimes]. *)
Definition attemptAfter (s : subscriber) (uptimes : list Z) : Z := foldl (nextAttempt s) 0 uptimes.

Lemma attemptAfter_short s a uptimes : Forall (fun u => u < reconnectMax s) uptimes ->
  foldl (nextAttempt s) a uptimes = a + Z.of_nat (length uptimes).
Proof.
  intros Hu. revert a. induction Hu as [|u us Hu _ IH]; intros a; simpl; [lia|]. rewrite IH.
  unfold nextAttempt. rewrite (proj2 (Z.leb_gt _ _)) by done. lia.
Qed.

(** C32: reconnects are paced.  Whatever delays are configured (a maximum below the
    minimum is raised to it, missing ones take their defaults), after any history of
    connections the next delay is at least the minimum and at most one and a half
    times the maximum.  Connections that all ended early are counted one by one; a
    connection that stayed up for the maximum delay starts the count again, so the
    reconnect after it waits at most one and a half times the minimum. *)
Theorem reconnects_paced (opts : Options) (rand : Z -> Z) (uptimes : list Z) (uptime : Z) :
  Backoff.uniform rand -> oReconnectMin opts <= 2 ^ 62 -> oReconnectMax opts <= 2 ^ 62 ->
  let s := newSubscriber opts in
  let attempt := attemptAfter s (uptimes ++ [uptime]) in
  let delay := Backoff.Reconnect rand (reconnectMin s) (reconnectMax s) attempt in
  reconnectMin s <= delay <= reconnectMax s + reconnectMax s / 2 /\
  (Forall (fun u => u < reconnectMax s) (uptimes ++ [uptime]) -> attempt = Z.of_nat (length uptimes) + 1) /\
  (reconnectMax s <= uptime -> attempt = 1 /\ delay <= reconnectMin s + reconnectMin s / 2).
Proof.
  intros Hr Hmin Hmax s attempt delay.
  assert (0 < reconnectMin s <= reconnectMax s /\ reconnectMax s <= 2 ^ 62) as [Hs1 Hs2].
  { subst s. unfold newSubscriber. cbn [reconnectMin reconnectMax].
    unfold defaultReconnectInitial, defaultReconnectMax, Backoff.Second.
    destruct (Z.leb_spec (oReconnectMin opts) 0), (Z.leb_spec (oReconnectMax opts) 0); lia. }
  destruct (Backoff.Reconnect_bounds rand (reconnectMin s) (reconnectMax s) attempt Hr Hs1 Hs2) as [Hb Hone].
  split_and!; [apply Hb|apply Hb| |].
  - intros Hu. subst attempt. unfold attemptAfter. rewrite attemptAfter_short, length_app by done. simpl. lia.
  - intros Hup. assert (attempt = 1) as Ha.
    { subst attempt. unfold attemptAfter. rewrite foldl_snoc. unfold nextAttempt at 1.
      by rewrite (proj2 (Z.leb_le _ _) Hup). }
    split; [done|]. apply Hone. lia.
Qed.

(** ** Reorgs *)

(** A header and a reorg as decoding leaves them. *)
Definition header_wf (h : BlockHeader) : Prop := 0 <= hHeight h < two32.
Definition reorg_wf (r : ReorgEvent) : Prop :=
  (forall h, rCommonAncestor r = Some h -> header_wf h) /\ (forall h, rNewTip r = Some h -> header_wf h) /\ 0 <= rDepth r < two32.

Lemma decUint_range bits j v v' : 0 <= bits -> 0 <= v < 2 ^ bits -> decUint bits j v = Some v' -> 0 <= v' < 2 ^ bits.
Proof. intros Hb Hv. destruct j; try done; simpl; [by intros [= <-]|by intros ?%ParseUint_range]. Qed.

(** A decoder that keeps a property of what it is given. *)
Definition keeps {A} (P : A -> Prop) (d : dec A) : Prop := forall j v v', P v -> d j v = Some v' -> P v'.

Lemma decStruct_keeps {A} (P : A -> Prop) (fs : fields A) : Forall (fun f => keeps P f.2) fs -> keeps P (decStruct fs).
Proof.
  intros Hfs j v v' Hv. destruct j as [| | | | |ms]; try done; [by intros [= <-]|]. simpl. revert v Hv.
  induction ms as [|[k j] ms IH]; intros v Hv; simpl; [by intros [= <-]|].
  intros (w & Hw & Hrest)%bind_Some. apply (IH w); [|done]. clear IH Hrest.
  unfold field in Hw. destruct (List.find _ fs) as [f|] eqn:Hf; [|by simplify_eq].
  apply List.find_some in Hf as [Hin _]. rewrite Forall_forall in Hfs.
  apply (Hfs f (proj2 (list_elem_of_In _ _) Hin) j v w Hv Hw).
Qed.

Lemma header_keeps : keeps header_wf (decStruct headerFields).
Proof.
  apply decStruct_keeps. unfold headerFields.
  repeat (apply Forall_cons_2; [intros j v v' Hv (x & Hx & ->)%fmap_Some; try exact Hv|]); [|apply Forall_nil_2].
  unfold header_wf in *. change two32 with (2 ^ 32) in *. simpl. by eapply decUint_range.
Qed.

Lemma reorg_keeps : keeps reorg_wf (decStruct reorgFields).
Proof.
  assert (forall j v v', (forall h, v = Some h -> header_wf h) -> decPtr zeroHeader (decStruct headerFields) j v = Some v' ->
    forall h, v' = Some h -> header_wf h) as Hptr.
  { intros j v v' Hv Hd h ->. unfold decPtr in Hd. destruct j; try done;
      apply fmap_Some in Hd as (w & Hd & [= ->]); (eapply header_keeps; [|exact Hd]); destruct v; simpl; auto; by split. }
  apply decStruct_keeps. unfold reorgFields.
  repeat (apply Forall_cons_2; [intros j v v' (Ha & Ht & Hd) (x & Hx & ->)%fmap_Some|]); [..|apply Forall_nil_2];
    (split; [|split]); simpl; try assumption.
  - exact (Hptr j _ x Ha Hx).
  - exact (Hptr j _ x Ht Hx).
  - change two32 with (2 ^ 32) in *. by eapply decUint_range.
Qed.

(** The height a reorg event is recorded at.  For every event that decodes it is
    in the range of a block height plus one, with no wrap-around; it is one above
    the common ancestor when the event names it; without it, a new tip at height [h]
    and a depth [d] no larger give [h - d + 1], the same height when the new branch
    is [d] blocks long; anything else is 0, unknown. *)
Theorem reorgHeight_spec (data : bytes) (r : ReorgEvent) :
  UnmarshalInto (decStruct reorgFields) data zeroReorg = Some r ->
  0 <= reorgHeight r <= two32 /\
  (forall a, rCommonAncestor r = Some a -> reorgHeight r = hHeight a + 1) /\
  (forall t, rCommonAncestor r = None -> rNewTip r = Some t ->
     reorgHeight r = if bool_decide (1 <= rDepth r <= hHeight t) then hHeight t - rDepth r + 1 else 0) /\
  (rCommonAncestor r = None -> rNewTip r = None -> reorgHeight r = 0).
Proof.
  intros (j & _ & Hd)%bind_Some. apply reorg_keeps in Hd as (Ha & Ht & Hdep); [|by split_and!].
  unfold reorgHeight, header_wf in *. destruct (rCommonAncestor r) as [a|].
  { specialize (Ha a eq_refl). split_and!; try done; [lia..|]. by intros ? [= <-]. }
  destruct (rNewTip r) as [t|]; [|split_and!; done].
  specialize (Ht t eq_refl). destruct (Z.ltb_spec 0 (rDepth r)), (Z.leb_spec (rDepth r) (hHeight t)); simpl;
    rewrite ?Z.mod_small by lia; split_and!; try done; try lia; intros ? _ [= <-]; case_bool_decide; lia.
Qed.

(** ** The idle watch

    The goroutine of [watchIdle]: [w_pending] is the buffered activity signal,
    [w_reset] the time of the last [timer.Reset] (or the start). *)

Record watch := mkWatch { w_now : Z; w_reset : Z; w_pending : bool; w_running : bool; w_closed : option Z }.

(** Time passes, a line is read ([signalActivity]), the watch takes one of its
    ready cases, or the stream is left ([close(done)]). *)
Inductive watch_step (idle : Z) : watch -> watch -> Prop :=
  | watch_time w d : 0 <= d ->
      watch_step idle w (mkWatch (w_now w + d) (w_reset w) (w_pending w) (w_running w) (w_closed w))
  | watch_signal w : watch_step idle w (mkWatch (w_now w) (w_reset w) true (w_running w) (w_closed w))
  | watch_timer w : w_running w = true -> w_reset w + idle <= w_now w ->
      watch_step idle w (mkWatch (w_now w) (w_reset w) (w_pending w) false (Some (w_now w)))
  | watch_activity w : w_running w = true -> w_pending w = true ->
      watch_step idle w (mkWatch (w_now w) (w_now w) false true (w_closed w))
  | watch_done w : w_running w = true ->
      watch_step idle w (mkWatch (w_now w) (w_reset w) (w_pending w) false (w_closed w)).

Definition watch_start (now : Z) : watch := mkWatch now now false true None.

(** The watch closes a body only when it has seen no activity for the timeout, and
    closes nothing once it has ended. *)
Lemma watch_closes_idle idle now w : rtc (watch_step idle) (watch_start now) w ->
  w_reset w <= w_now w /\ (w_running w = true -> w_closed w = None) /\
  forall t, w_closed w = Some t -> w_reset w + idle <= t <= w_now w.
Proof.
  revert w. refine (rtc_ind_r _ (watch_start now) _ _); [done|].
  intros w1 w2 _ Hstep (Hle & Hrun & Hcl). destruct Hstep; simpl; split_and!; try done; try lia.
  - intros t Ht. specialize (Hcl t Ht). lia.
  - intros t [= <-]. lia.
  - intros _. by apply Hrun.
  - intros t Ht. rewrite Hrun in Ht by done. done.
Qed.

End Sse.
