(* ===== verification/Server.v ===== *)
(** * The HTTP API (internal/server/server.go)

    Authentication, request validation, the handlers over the engine's calls, and
    the readiness checks.  A handler is a program on [Served]: the engine, the
    server's own state and the clients' state. *)

From S2P Require Import Prelude Prog Text Sha256 Strconv Json JsonFacts Mime Script TxBuilder Backoff Float Metrics Store Heap Queue Engine Config Http Arcade.
Open Scope Z_scope.

Module Server.
Import Strconv Json.

Definition maxConfigBodyBytes : Z := 1024.
Definition txidHexLength : Z := 64.

(** A request: the method and path, the two headers that are read, and the body,
    which ends with [io.EOF] when it is [clean]. *)
Record HttpRequest := mkHttpRequest {
  hqMethod : string; hqPath : string; hqAuthorization : string; hqContentType : string;
  hqBody : bytes; hqClean : bool;
}.

(** What is written: the text of [http.Error], a JSON value, the status and
    readiness reports, Arcade's answer with its content type, or the metrics. *)
Inductive Body :=
  | BError (msg : string)
  | BFailure (e : err)
  | BJson (j : json)
  | BStatus (version : string) (uptime : Z) (cfg : Config.Config) (engine : State)
  | BReady (ready : bool) (engine : string) (snapshot : State) (arcade : option err)
  | BRaw (contentType : string) (body : bytes)
  | BMetrics (text : bytes)
  | BNone.

Record HttpResponse := mkHttpResponse { hpStatus : Z; hpBody : Body }.

(** The fields of [Server] that requests read and write; [sArcade] may be nil. *)
Record t := mkServer {
  sArcade : option Arcade.Client;
  sVersion : string;
  sStartedAt : Z;
  sCfg : Config.Config;
  sEngineRunning : bool;
  sEngineStoppedUnexpected : bool;
}.

Definition set_cfg (v : Config.Config) (s : t) : t :=
  mkServer (sArcade s) (sVersion s) (sStartedAt s) v (sEngineRunning s) (sEngineStoppedUnexpected s).

(** [MarkEngineRunning] and [MarkEngineStopped] *)
Definition MarkEngineRunning (s : t) : t :=
  mkServer (sArcade s) (sVersion s) (sStartedAt s) (sCfg s) true (sEngineStoppedUnexpected s).
Definition MarkEngineStopped (unexpected : bool) (s : t) : t :=
  mkServer (sArcade s) (sVersion s) (sStartedAt s) (sCfg s) false (unexpected || sEngineStoppedUnexpected s).

(** [New]; its routes are in [serve]. *)
Definition New (arcade : option Arcade.Client) (version : string) (now : Z) (cfg : Config.Config) : t :=
  mkServer arcade version now cfg false false.

(** ** Requests *)

Record configRequest := mkConfigRequest {
  crTPS : option Z; crNumChains : option Z; crFanoutSize : option Z; crSustainFee : option Z;
}.

Definition configFields : fields configRequest :=
  [("tps"%string, fun j r => (fun v => mkConfigRequest v (crNumChains r) (crFanoutSize r) (crSustainFee r)) <$> decPtr 0 (decInt 64) j (crTPS r));
   ("numChains"%string, fun j r => (fun v => mkConfigRequest (crTPS r) v (crFanoutSize r) (crSustainFee r)) <$> decPtr 0 (decInt 64) j (crNumChains r));
   ("fanoutSize"%string, fun j r => (fun v => mkConfigRequest (crTPS r) (crNumChains r) v (crSustainFee r)) <$> decPtr 0 (decInt 64) j (crFanoutSize r));
   ("sustainFee"%string, fun j r => (fun v => mkConfigRequest (crTPS r) (crNumChains r) (crFanoutSize r) v) <$> decPtr 0 (decUint 64) j (crSustainFee r))].

(** [http.MaxBytesReader] and [json.NewDecoder(r.Body).Decode(&req)]: of a body over
    the limit only the limit is seen, and its end is an error. *)
Definition decodeRequest (r : HttpRequest) : option configRequest :=
  let limit := Z.to_nat maxConfigBodyBytes in
  j ← Decode (take limit (hqBody r)) (hqClean r && (Z.of_nat (length (hqBody r)) <=? maxConfigBodyBytes));
  decStruct configFields j (mkConfigRequest None None None None).

(** [validate]: the message, or nothing when the request is valid. *)
Definition validate (s : t) (req : configRequest) : option string :=
  let maxTPS := if Config.MaxTPS (sCfg s) <=? 0 then Config.DefaultMaxTPS else Config.MaxTPS (sCfg s) in
  match crTPS req, crNumChains req, crFanoutSize req, crSustainFee req with
  | None, None, None, None => Some "no config fields supplied"%string
  | tps, num, size, fee =>
      if match tps with Some v => (v <? 0) || (maxTPS <? v) | None => false end
      then Some (String.append "tps must be 0-" (pretty maxTPS))
      else if match num with Some v => v <=? 0 | None => false end then Some "numChains must be positive"%string
      else if match size with Some v => v <=? 0 | None => false end then Some "fanoutSize must be positive"%string
      else if match fee with Some v => v =? 0 | None => false end then Some "sustainFee must be positive"%string
      else None
  end.

(** [authorized]; the digests are compared in constant time. *)
Definition authorized (s : t) (r : HttpRequest) : bool :=
  match CutPrefix (to_bytes (hqAuthorization r)) (to_bytes "Bearer ") with
  | None => false
  | Some token =>
      let adminToken := to_bytes (Config.AdminToken (sCfg s)) in
      if bool_decide (token = []) || bool_decide (adminToken = []) then false
      else bool_decide (Sha256.Sum256 token = Sha256.Sum256 adminToken)
  end.

(** [validTxID]: 64 hex characters. *)
Definition validTxID (txid : string) : bool :=
  (Z.of_nat (length (to_bytes txid)) =? txidHexLength) && forallb (fun b => bool_decide (is_Some (hex_val b))) (to_bytes txid).

Definition isJSON (r : HttpRequest) : bool :=
  bool_decide (Mime.ParseMediaType (to_bytes (hqContentType r)) = Some Mime.json_type).

Definition num (z : Z) : json := JNum (to_bytes (pretty z)).
Definition jobj (ms : list (string * json)) : json := JObj ((fun m => (to_bytes m.1, m.2)) <$> ms).

(** A Go map is written with its keys sorted. *)
Definition configResponse (cfg : option BootstrapConfig) (tps : option Z) : json :=
  jobj (match cfg with
        | Some c => [("fanoutSize"%string, num (bcFanoutSize c)); ("numChains"%string, num (bcNumChains c)); ("sustainFee"%string, num (bcSustainFee c))]
        | None => [] end ++
        match tps with Some v => [("tps"%string, num v)] | None => [] end).

Section server.
Context `{Sdk} `{Prometheus} {D : Type} `{DurableStore D} {W : Type} `{World W} {N : Type} `{Net N}.

Abbreviation E := (Engine (D:=D) (W:=W)).

Record Served := mkServed { v_engine : E; v_server : t; v_clients : Clients (N:=N) }.

Abbreviation code := (prog Served).

(** A call of the engine, of the Arcade client, and an access to the server. *)
Definition set_engine (e : E) (s : Served) : Served := mkServed e (v_server s) (v_clients s).
Definition set_clients (c : Clients (N:=N)) (s : Served) : Served := mkServed (v_engine s) (v_server s) c.

Definition onEngine {A} (p : prog E A) : code A := zoom v_engine set_engine p.
Definition onClients {A} (p : prog (Clients (N:=N)) A) : code A := zoom v_clients set_clients p.

Definition server : code t := gets v_server.
Definition updateServer (f : t -> t) : code unit :=
  modify (fun s => mkServed (v_engine s) (f (v_server s)) (v_clients s)).

Definition reply (status : Z) (b : Body) : code HttpResponse := Ret (mkHttpResponse status b).

(** [authorize]: nothing when the request may pass, else the answer. *)
Definition authorize (r : HttpRequest) : code (option HttpResponse) :=
  s ← server;
  if authorized s r then Ret None else
  onEngine (metric Metrics.IncAuthFail);;
  Ret (Some (mkHttpResponse 401 (BError "unauthorized"))).

Definition prepareAuthenticatedPost (r : HttpRequest) : code (option HttpResponse) :=
  a ← authorize r;
  match a with
  | Some resp => Ret (Some resp)
  | None =>
      if isJSON r then Ret None
      else Ret (Some (mkHttpResponse 415 (BError "content-type must be application/json")))
  end.

(** [s.cfg.NumChains, s.cfg.FanoutSize, s.cfg.SustainFee = ...] *)
Definition applyConfig (cfg : BootstrapConfig) (c : Config.Config) : Config.Config :=
  Config.mkConfig (Config.AdminToken c) (Config.Port c) (Config.StatePath c) (Config.LogLevel c) (Config.LogFormat c)
    (Config.ArcadeBaseURL c) (Config.ArcadeCallbackToken c) (Config.WOCBaseURL c) (Config.PrivateKey c)
    (Config.InstanceID c) (Config.Environment c) (bcNumChains cfg) (bcFanoutSize cfg) (bcSustainFee cfg)
    (Config.MaxTPS c) (Config.BroadcastConcurrency c) (Config.BroadcastRetryMax c) (Config.HTTPTimeout c)
    (Config.SSEReconnectMin c) (Config.SSEReconnectMax c) (Config.SlackWebhookURL c) (Config.SlackChannel c).

(** The bootstrap part of a request, when it has one. *)
Definition bootstrapUpdate (req : configRequest) : option BootstrapUpdate :=
  match crNumChains req, crFanoutSize req, crSustainFee req with
  | None, None, None => None
  | n, f, s => Some (mkBootstrapUpdate n f s)
  end.

(** The end of [handleConfig]: the rate, and the response. *)
Definition finishConfig (cfg : option BootstrapConfig) (req : configRequest) : code HttpResponse :=
  match crTPS req with Some tps => onEngine (SetTPS tps) | None => Ret tt end;;
  reply 200 (BJson (configResponse cfg (crTPS req))).

Definition handleConfig (r : HttpRequest) : code HttpResponse :=
  a ← prepareAuthenticatedPost r;
  match a with
  | Some resp => Ret resp
  | None =>
      match decodeRequest r with
      | None => reply 400 (BError "invalid JSON")
      | Some req =>
          s ← server;
          match validate s req with
          | Some msg => reply 400 (BError msg)
          | None =>
              match bootstrapUpdate req with
              | None => finishConfig None req
              | Some update =>
                  c ← onEngine (ConfigureBootstrap update);
                  match c with
                  | Err e => reply 409 (BFailure e)
                  | Ok cfg =>
                      updateServer (fun s => set_cfg (applyConfig cfg (sCfg s)) s);;
                      finishConfig (Some cfg) req
                  end
              end
          end
      end
  end.

Definition handleStop (r : HttpRequest) : code HttpResponse :=
  a ← prepareAuthenticatedPost r;
  match a with
  | Some resp => Ret resp
  | None => onEngine (SetTPS 0);; reply 200 (BJson (jobj [("tps"%string, num 0)]))
  end.

Definition handleHealthz : code HttpResponse :=
  reply 200 (BJson (jobj [("status"%string, JStr (to_bytes "ok"))])).

(** [readiness]; the checks are the fields of [BReady]. *)
Definition readiness : code (bool * Body) :=
  stoppedUnexpected ← gets (fun s => sEngineStoppedUnexpected (v_server s));
  running ← (if (stoppedUnexpected : bool) then Ret false else gets (fun s => sEngineRunning (v_server s)));
  let engine := if (stoppedUnexpected : bool) then "stopped"%string else if (running : bool) then "running"%string else "starting"%string in
  snapshot ← onEngine Snapshot;
  let stopped := bool_decide (sLifecycle snapshot = LifecycleFailed) || bool_decide (sLifecycle snapshot = LifecycleStopping)
                 || bool_decide (sLifecycle snapshot = LifecycleStopped) in
  let ready := running && negb (stopped || negb (bool_decide (sBootstrapStage snapshot = StageL2Done))
                 || (sChainsActive snapshot <=? 0) || (0 <? sConsecutiveArcadeFailures snapshot)) in
  s ← server;
  arcade ← match sArcade s with
           | None => Ret (Some ErrArcadeUnavailable)
           | Some c => onClients (Arcade.Reachable c 0)
           end;
  let ready := ready && bool_decide (arcade = None) in
  Ret (ready, BReady ready engine snapshot arcade).

Definition handleReadyz : code HttpResponse :=
  '(ready, checks) ← readiness;
  reply (if (ready : bool) then 200 else 503) checks.

Definition handleStatus (r : HttpRequest) : code HttpResponse :=
  a ← authorize r;
  match a with
  | Some resp => Ret resp
  | None =>
      s ← server;
      now ← onClients (net Clock);
      snapshot ← onEngine Snapshot;
      reply 200 (BStatus (sVersion s) (time_sub now (sStartedAt s)) (Config.Redacted (sCfg s)) snapshot)
  end.

Definition handleArcadeTxStatus (r : HttpRequest) (txid : string) : code HttpResponse :=
  a ← authorize r;
  match a with
  | Some resp => Ret resp
  | None =>
      if negb (validTxID txid) then reply 400 (BError "invalid txid") else
      s ← server;
      match sArcade s with
      | None => reply 503 (BFailure ErrArcadeUnavailable)
      | Some c =>
          '(status, body, e) ← onClients (Arcade.TxStatus c 0 txid);
          match e with
          | Some e => reply 502 (BFailure e)
          | None =>
              reply status (BRaw (if Valid body then "application/json" else "text/plain; charset=utf-8")%string body)
          end
      end
  end.

(** GET /metrics: [opts.Metrics.Handler()]; the engine has the same metrics. *)
Definition handleMetrics : code HttpResponse :=
  m ← onEngine (gets e_metrics);
  match Metrics.Handler m with
  | (status, Some text) => reply status (BMetrics text)
  | (status, None) => reply status BNone
  end.

(** The routes of [New], for a path the mux does not redirect.  A [GET] pattern
    serves [HEAD] too; a known path with another method is 405. *)
Inductive route := RConfig | RStop | RHealthz | RReadyz | RStatus | RMetrics | RArcadeTx (txid : string).

Definition pathOf (path : string) : option route :=
  if bool_decide (path = "/config"%string) then Some RConfig
  else if bool_decide (path = "/stop"%string) then Some RStop
  else if bool_decide (path = "/healthz"%string) then Some RHealthz
  else if bool_decide (path = "/readyz"%string) then Some RReadyz
  else if bool_decide (path = "/status"%string) then Some RStatus
  else if bool_decide (path = "/metrics"%string) then Some RMetrics
  else match CutPrefix (to_bytes path) (to_bytes "/arcade/tx/") with
       | Some (b :: rest) => if bool_decide (x2f ∈ b :: rest) then None else Some (RArcadeTx (of_bytes (b :: rest)))
       | _ => None
       end.

Definition methods (rt : route) : list string :=
  match rt with RConfig | RStop => ["POST"]%string | _ => ["GET"; "HEAD"]%string end.

Definition serve (r : HttpRequest) : code HttpResponse :=
  match pathOf (hqPath r) with
  | None => reply 404 BNone
  | Some rt =>
      if negb (bool_decide (hqMethod r ∈ methods rt)) then reply 405 BNone else
      match rt with
      | RConfig => handleConfig r
      | RStop => handleStop r
      | RHealthz => handleHealthz
      | RReadyz => handleReadyz
      | RStatus => handleStatus r
      | RMetrics => handleMetrics
      | RArcadeTx txid => handleArcadeTxStatus r txid
      end
  end.

(** ** Properties *)

Lemma run_onEngine {A} (p : prog E A) s :
  run (onEngine p) s = let '(a, e) := run p (v_engine s) in (a, mkServed e (v_server s) (v_clients s)).
Proof. apply (run_zoom v_engine set_engine); by destruct s. Qed.

Lemma run_onClients {A} (p : prog (Clients (N:=N)) A) s :
  run (onClients p) s = let '(a, c) := run p (v_clients s) in (a, mkServed (v_engine s) (v_server s) c).
Proof. apply (run_zoom v_clients set_clients); by destruct s. Qed.

Lemma run_mbind {S A B} (p : prog S A) (g : A -> prog S B) s : run (p ≫= g) s = let '(a, s') := run p s in run (g a) s'.
Proof. apply run_bind. Qed.

Lemma run_authorize r s :
  run (authorize r) s =
  if authorized (v_server s) r then (None, s)
  else (Some (mkHttpResponse 401 (BError "unauthorized")),
        mkServed (set_metrics (Metrics.IncAuthFail (e_metrics (v_engine s))) (v_engine s)) (v_server s) (v_clients s)).
Proof. unfold authorize. rewrite run_mbind. simpl. by destruct (authorized (v_server s) r). Qed.

(** A token is accepted when it has the digest of the admin token. *)
Lemma authorized_spec s r :
  authorized s r = true <-> exists token, to_bytes (hqAuthorization r) = to_bytes "Bearer " ++ token /\ token <> [] /\
    Config.AdminToken (sCfg s) <> ""%string /\ Sha256.Sum256 token = Sha256.Sum256 (to_bytes (Config.AdminToken (sCfg s))).
Proof.
  assert (to_bytes (Config.AdminToken (sCfg s)) = [] <-> Config.AdminToken (sCfg s) = ""%string) as Hadm
    by (by destruct (Config.AdminToken (sCfg s))).
  unfold authorized. destruct (CutPrefix _ _) as [token|] eqn:Hc.
  - apply CutPrefix_Some in Hc. destruct (decide (token = [])) as [->|Ht].
    { rewrite bool_decide_eq_true_2 by done. cbn [orb]. split; [done|]. intros (tok & Heq & Hne & _). rewrite Hc in Heq. by apply app_inv_head in Heq. }
    rewrite (bool_decide_eq_false_2 _ Ht). cbn [orb]. destruct (decide (to_bytes (Config.AdminToken (sCfg s)) = [])) as [Ha|Ha].
    { rewrite (bool_decide_eq_true_2 _ Ha). split; [done|]. intros (? & _ & _ & Hne & _). tauto. }
    rewrite (bool_decide_eq_false_2 _ Ha), bool_decide_eq_true. split.
    + intros Hsum. exists token. split_and!; [done|done|tauto|done].
    + intros (tok & Heq & _ & _ & Hsum). rewrite Hc in Heq. apply app_inv_head in Heq. by subst tok.
  - split; [done|]. intros (tok & Heq & _). rewrite (proj2 (CutPrefix_Some _ _ tok) Heq) in Hc. done.
Qed.

(** The routes that need the token. *)
Definition guarded (rt : route) : bool :=
  match rt with RConfig | RStop | RStatus | RArcadeTx _ => true | _ => false end.

(** Only the metrics of the engine may differ. *)
Definition untouched (s s' : Served) : Prop :=
  v_server s' = v_server s /\ exists m, v_engine s' = set_metrics m (v_engine s).

Lemma untouched_refl s : untouched s s.
Proof. split; [done|]. exists (e_metrics (v_engine s)). by destruct (v_engine s). Qed.

Lemma run_Snapshot (e : E) : exists st, run Snapshot e = (st, e) /\
  sLifecycle st = sLifecycle (e_state e) /\ sBootstrapStage st = sBootstrapStage (e_state e) /\
  sConsecutiveArcadeFailures st = sConsecutiveArcadeFailures (e_state e) /\ sChainsActive st = e_chainsActive e.
Proof. eexists. split; [reflexivity|done]. Qed.

(** What Arcade said to the health check, and what the server makes of it. *)
Definition healthRequest (c : Arcade.Client) : Request :=
  mkRequest "GET" (String.append (Arcade.baseURL c) "/health") [] [] (Z.min (Arcade.timeout c) Arcade.reachableTimeout).

Lemma do_ends me req s : ends (Arcade.do me req) s (fun x l =>
  match x with
  | (_, _, Some _) => exists e, l = [(me, req, Err e)]
  | (status, _, None) => exists rs, l = [(me, req, Ok rs)] /\ status = rsStatus rs
  end).
Proof.
  eapply ends_bind; [apply ends_send|]. intros [rs|e] l s' ->; apply ends_ret; rewrite app_nil_r; eauto.
Qed.

Lemma Reachable_ends c s : ends (Arcade.Reachable c 0) s (fun r l =>
  r = None <-> exists rs, l = [(0%nat, healthRequest c, Ok rs)] /\ rsStatus rs < 500).
Proof.
  unfold Arcade.Reachable. destruct (NewRequest _ _); [apply ends_ret; split; [done|by intros (? & ? & _)]|].
  eapply ends_bind; [apply do_ends|]. intros [[status body] [e|]] l s' Hl.
  - destruct Hl as [e' ->]. apply ends_ret. rewrite app_nil_r. split; [done|]. by intros (rs & ? & _).
  - destruct Hl as (rs & -> & ->). destruct (Z.leb_spec 500 (rsStatus rs)); apply ends_ret; rewrite app_nil_r.
    + split; [done|]. intros (rs' & [= <-] & ?). lia.
    + split; [by exists rs|done].
Qed.

(** A server that is ready: the engine goroutine runs, the bootstrap is complete,
    some chain is active, the last broadcast did not fail, and nothing has stopped. *)
Record engine_ready (s : Served) : Prop := {
  er_running : sEngineRunning (v_server s) = true /\ sEngineStoppedUnexpected (v_server s) = false;
  er_lifecycle : sLifecycle (e_state (v_engine s)) ∉ [LifecycleFailed; LifecycleStopping; LifecycleStopped];
  er_stage : sBootstrapStage (e_state (v_engine s)) = "l2_done"%string;
  er_chains : 0 < e_chainsActive (v_engine s);
  er_failures : sConsecutiveArcadeFailures (e_state (v_engine s)) <= 0;
}.

Lemma run_handleReadyz (s : Served) :
  let '(resp, s') := run handleReadyz s in
  v_engine s' = v_engine s /\ v_server s' = v_server s /\ (hpStatus resp = 200 \/ hpStatus resp = 503) /\
  exists l, c_log (v_clients s') = c_log (v_clients s) ++ l /\
    (hpStatus resp = 200 <-> engine_ready s /\ exists c rs, sArcade (v_server s) = Some c /\
       l = [(0%nat, healthRequest c, Ok rs)] /\ rsStatus rs < 500).
Proof.
  unfold handleReadyz, readiness. rewrite !run_mbind. cbn [gets act run]. rewrite run_mbind.
  assert (run (if sEngineStoppedUnexpected (v_server s) then Ret false else gets (fun s => sEngineRunning (v_server s))) s =
    (negb (sEngineStoppedUnexpected (v_server s)) && sEngineRunning (v_server s), s)) as ->
    by (by destruct (sEngineStoppedUnexpected (v_server s))).
  rewrite run_mbind, run_onEngine. destruct (run_Snapshot (v_engine s)) as (st & -> & Hlc & Hst & Hf & Hca).
  set (s1 := mkServed (v_engine s) (v_server s) (v_clients s)). replace s1 with s by (by destruct s). clear s1.
  rewrite run_mbind. cbn [server gets act run]. rewrite run_mbind.
  set (running := negb _ && sEngineRunning _). set (stopped := bool_decide (sLifecycle st = LifecycleFailed) || _ || _).
  set (ready := running && _).
  assert (ready = true <-> engine_ready s) as Hready.
  { subst ready running stopped. rewrite Hlc, Hst, Hf, Hca. split.
    - intros Hr. repeat (apply andb_prop in Hr as [Hr ?]). bool_to_prop. repeat case_bool_decide; try done.
      split; [done|set_solver|done|done|done].
    - intros [[-> ->] Hl -> Hc Hz]. simpl. rewrite !bool_decide_eq_false_2 by set_solver.
      rewrite (proj2 (Z.leb_gt _ _) Hc), (proj2 (Z.ltb_ge _ _) Hz). done. }
  clearbody ready running. clear stopped.
  destruct (sArcade (v_server s)) as [c|].
  - rewrite run_onClients. destruct (Reachable_ends c (v_clients s)) as (l & Hl & Hr).
    destruct (run (Arcade.Reachable c 0) (v_clients s)) as [r cs]. simpl in *. split_and!; [done|done|case_if; auto|].
    exists l. split; [done|]. destruct ready; simpl.
    + case_bool_decide as Hn; simpl; [|split; [done|]; intros (_ & c' & rs & [= <-] & ? & ?); destruct Hn; apply Hr; eauto].
      split; [|done]. intros _. split; [by apply Hready|]. apply Hr in Hn as (rs & ? & ?). eauto.
    + split; [done|]. intros [?%Hready _]. done.
  - simpl. rewrite andb_false_r. split_and!; [done|done|by right|]. exists []. rewrite app_nil_r. split; [done|].
    split; [done|]. by intros (_ & c & rs & ? & _).
Qed.

(** C30: [/readyz] answers 200 exactly when the engine is ready and Arcade's health
    endpoint, asked with a limit of two seconds, answered below 500; otherwise it
    answers 503.  It changes neither the engine nor the server. *)
Theorem handleReadyz_spec (s : Served) :
  let '(resp, s') := run handleReadyz s in
  v_engine s' = v_engine s /\ v_server s' = v_server s /\ (hpStatus resp = 200 \/ hpStatus resp = 503) /\
  exists l, c_log (v_clients s') = c_log (v_clients s) ++ l /\
    (hpStatus resp = 200 <-> engine_ready s /\ exists c rs, sArcade (v_server s) = Some c /\
       l = [(0%nat, healthRequest c, Ok rs)] /\ rsStatus rs < 500).
Proof. apply run_handleReadyz. Qed.

(** A request without authority: it is counted, and answered 401. *)
Definition refused (s : Served) : HttpResponse * Served :=
  (mkHttpResponse 401 (BError "unauthorized"),
   mkServed (set_metrics (Metrics.IncAuthFail (e_metrics (v_engine s))) (v_engine s)) (v_server s) (v_clients s)).

Lemma guarded_refused r s txid : authorized (v_server s) r = false ->
  run (handleConfig r) s = refused s /\ run (handleStop r) s = refused s /\ run (handleStatus r) s = refused s /\
  run (handleArcadeTxStatus r txid) s = refused s.
Proof.
  intros Ha. unfold handleConfig, handleStop, handleStatus, handleArcadeTxStatus, prepareAuthenticatedPost.
  rewrite !run_mbind, run_authorize, Ha. done.
Qed.

(** C15: without the admin token nothing can be changed.  A request that does not
    carry it (and whose token does not collide with it under SHA-256) leaves the
    server, and all of the engine but its metrics, as they were; on a guarded route
    it is answered 401 and reaches neither Arcade nor the engine, only the counter
    of failed authentications is incremented. *)
Theorem unauthorized_changes_nothing (r : HttpRequest) (s : Served) :
  (forall token, to_bytes (hqAuthorization r) = to_bytes "Bearer " ++ token ->
     Sha256.Sum256 token = Sha256.Sum256 (to_bytes (Config.AdminToken (sCfg (v_server s)))) ->
     token = to_bytes (Config.AdminToken (sCfg (v_server s)))) ->
  to_bytes (hqAuthorization r) <> to_bytes "Bearer " ++ to_bytes (Config.AdminToken (sCfg (v_server s))) ->
  let '(resp, s') := run (serve r) s in
  untouched s s' /\
  forall rt, pathOf (hqPath r) = Some rt -> hqMethod r ∈ methods rt -> guarded rt = true ->
    hpStatus resp = 401 /\ v_clients s' = v_clients s /\
    e_metrics (v_engine s') = Metrics.IncAuthFail (e_metrics (v_engine s)).
Proof.
  intros Hcol Hne. assert (authorized (v_server s) r = false) as Hauth.
  { apply not_true_iff_false. rewrite authorized_spec. intros (token & Heq & _ & _ & Hsum).
    apply Hne. by rewrite <- (Hcol token Heq Hsum). }
  unfold serve. destruct (pathOf (hqPath r)) as [rt|]; [|split; [apply untouched_refl|done]].
  destruct (decide (hqMethod r ∈ methods rt)) as [Hm|Hm].
  2: { rewrite bool_decide_eq_false_2 by done. split; [apply untouched_refl|]. by intros ? [= <-]. }
  rewrite bool_decide_eq_true_2 by done. cbn [negb].
  assert (untouched s (refused s).2) as Href by (split; [done|by eexists]).
  destruct rt as [| | | | | |txid]; try (split; [apply untouched_refl|]; by intros ? [= <-]).
  - rewrite (proj1 (guarded_refused r s "" Hauth)). by split.
  - rewrite (proj1 (proj2 (guarded_refused r s "" Hauth))). by split.
  - pose proof (run_handleReadyz s) as Hr. destruct (run handleReadyz s) as [resp s']. destruct Hr as (He & Hs & _).
    split; [|by intros ? [= <-]]. split; [done|]. exists (e_metrics (v_engine s)). rewrite He. by destruct (v_engine s).
  - rewrite (proj1 (proj2 (proj2 (guarded_refused r s "" Hauth)))). by split.
  - unfold handleMetrics. rewrite run_mbind, run_onEngine. simpl. destruct (Metrics.Handler _) as [status [text|]];
      (split; [|by intros ? [= <-]]); (split; [done|]); exists (e_metrics (v_engine s)); by destruct (v_engine s).
  - rewrite (proj2 (proj2 (proj2 (guarded_refused r s txid Hauth)))). by split.
Qed.

(** What passes [validate]: something is set, the rate is within its bounds and
    every bootstrap parameter that is set is positive. *)
Definition request_valid (s : t) (req : configRequest) : Prop :=
  (crTPS req <> None \/ bootstrapUpdate req <> None) /\
  (forall v, crTPS req = Some v -> 0 <= v <= (if Config.MaxTPS (sCfg s) <=? 0 then 10000 else Config.MaxTPS (sCfg s))) /\
  (forall v, crNumChains req = Some v -> 0 < v) /\ (forall v, crFanoutSize req = Some v -> 0 < v) /\
  (forall v, crSustainFee req = Some v -> v <> 0).

Lemma validate_spec s req : validate s req = None <-> request_valid s req.
Proof.
  unfold validate, request_valid, bootstrapUpdate, Config.DefaultMaxTPS.
  destruct req as [tps num size fee]; cbn [crTPS crNumChains crFanoutSize crSustainFee].
  set (mx := if Config.MaxTPS (sCfg s) <=? 0 then 10000 else Config.MaxTPS (sCfg s)).
  assert (match tps with Some v => (v <? 0) || (mx <? v) | None => false end = false <-> forall v, tps = Some v -> 0 <= v <= mx) as V1.
  { destruct tps as [v|]; [|naive_solver]. split; [intros Hb w [= <-]; bool_to_prop; lia|]. intros Hv. specialize (Hv v eq_refl).
    destruct (Z.ltb_spec v 0), (Z.ltb_spec mx v); lia. }
  assert (forall o, match o with Some v => v <=? 0 | None => false end = false <-> forall v, o = Some v -> 0 < v) as V2.
  { intros [v|]; [|naive_solver]. split; [intros Hb w [= <-]; bool_to_prop; lia|]. intros Hv. specialize (Hv v eq_refl). by apply Z.leb_gt. }
  assert (match fee with Some v => v =? 0 | None => false end = false <-> forall v, fee = Some v -> v <> 0) as V3.
  { destruct fee as [v|]; [|naive_solver]. split; [intros Hb w [= <-]; by bool_to_prop|]. intros Hv. specialize (Hv v eq_refl). by apply Z.eqb_neq. }
  rewrite <- V1, <- (V2 num), <- (V2 size), <- V3. clear V1 V2 V3. clearbody mx.
  destruct tps, num, size, fee; cbn; repeat case_if; naive_solver.
Qed.

Lemma invalidUpdate_valid req u s : request_valid s req -> bootstrapUpdate req = Some u ->
  invalidUpdate u = None /\ u = mkBootstrapUpdate (crNumChains req) (crFanoutSize req) (crSustainFee req).
Proof.
  intros (_ & _ & Hn & Hf & Hs) Hu.
  assert (u = mkBootstrapUpdate (crNumChains req) (crFanoutSize req) (crSustainFee req)) as ->.
  { unfold bootstrapUpdate in Hu. by destruct (crNumChains req), (crFanoutSize req), (crSustainFee req); simplify_eq. }
  split; [|done]. unfold invalidUpdate. cbn.
  assert (match crNumChains req with Some v => v <=? 0 | None => false end = false) as ->
    by (destruct (crNumChains req) as [v|]; [apply Z.leb_gt; eauto|done]).
  assert (match crFanoutSize req with Some v => v <=? 0 | None => false end = false) as ->
    by (destruct (crFanoutSize req) as [v|]; [apply Z.leb_gt; eauto|done]).
  assert (match crSustainFee req with Some v => v =? 0 | None => false end = false) as ->
    by (destruct (crSustainFee req) as [v|]; [apply Z.eqb_neq; eauto|done]).
  done.
Qed.

(** The engine after a request that was accepted. *)
Definition configured_engine (req : configRequest) (e e' : E) : Prop :=
  bootstrapConfigLocked e' = mkBootstrapConfig (default (e_numChains e) (crNumChains req))
    (default (e_fanoutSize e) (crFanoutSize req)) (default (SustainFee (e_mode e)) (crSustainFee req)) /\
  e_tps e' = default (e_tps e) (crTPS req) /\ e_queue e' = e_queue e /\ e_log e' = e_log e /\ e_world e' = e_world e.

Lemma run_finishConfig cfg req s : exists e',
  run (finishConfig cfg req) s = (mkHttpResponse 200 (BJson (configResponse cfg (crTPS req))), mkServed e' (v_server s) (v_clients s)) /\
  bootstrapConfigLocked e' = bootstrapConfigLocked (v_engine s) /\ e_tps e' = default (e_tps (v_engine s)) (crTPS req) /\
  e_queue e' = e_queue (v_engine s) /\ e_log e' = e_log (v_engine s) /\ e_world e' = e_world (v_engine s).
Proof.
  unfold finishConfig. rewrite run_mbind. destruct (crTPS req) as [v|].
  - rewrite run_onEngine. eexists. split; [reflexivity|done].
  - exists (v_engine s). split; [by destruct s|done].
Qed.

(** C14: [POST /config], all or nothing.  A request with another content type is
    answered 415, one that is not JSON or not valid 400, and one that changes
    bootstrap parameters once bootstrap is funded 409; each of these leaves
    everything as it was, the rate included.  Otherwise it is answered 200, exactly
    the fields it names take effect in the engine, and the configuration that
    [/status] shows agrees with the engine on the bootstrap parameters it set. *)
Theorem handleConfig_spec (r : HttpRequest) (s : Served) :
  authorized (v_server s) r = true ->
  let '(resp, s') := run (handleConfig r) s in
  if negb (isJSON r) then hpStatus resp = 415 /\ s' = s else
  match decodeRequest r with
  | None => hpStatus resp = 400 /\ s' = s
  | Some req =>
      (~ request_valid (v_server s) req /\ hpStatus resp = 400 /\ s' = s) \/
      (request_valid (v_server s) req /\
       if bool_decide (is_Some (bootstrapUpdate req)) && funded (v_engine s)
       then resp = mkHttpResponse 409 (BFailure ErrBootstrapLocked) /\ s' = s
       else hpStatus resp = 200 /\ configured_engine req (v_engine s) (v_engine s') /\ v_clients s' = v_clients s /\
         v_server s' = if bool_decide (is_Some (bootstrapUpdate req))
                       then set_cfg (applyConfig (bootstrapConfigLocked (v_engine s')) (sCfg (v_server s))) (v_server s)
                       else v_server s)
  end.
Proof.
  intros Ha. unfold handleConfig, prepareAuthenticatedPost. rewrite !run_mbind, run_authorize, Ha. cbn [run].
  destruct (isJSON r); [|done]. cbn [run negb]. destruct (decodeRequest r) as [req|]; [|done].
  rewrite run_mbind. cbn [server gets act run].
  destruct (validate (v_server s) req) as [msg|] eqn:Hv.
  { left. split_and!; [|done..]. rewrite <- validate_spec, Hv. done. }
  apply validate_spec in Hv. destruct (bootstrapUpdate req) as [u|] eqn:Hu.
  - destruct (invalidUpdate_valid req u _ Hv Hu) as [Hi ->]. rewrite bool_decide_eq_true_2 by eauto. cbn [andb].
    rewrite run_mbind, run_onEngine. unfold ConfigureBootstrap. rewrite Hi. cbn [act run].
    destruct (funded (v_engine s)); [right; split; [done|]; by destruct s|].
    rewrite run_mbind. cbn [updateServer modify act run v_engine v_server v_clients].
    match goal with |- context [finishConfig ?c ?rq] => set (cfg := c) end.
    match goal with |- context [run (finishConfig cfg req) ?s1] =>
      destruct (run_finishConfig cfg req s1) as (e' & -> & Hb & Ht & Hq & Hl & Hw) end.
    cbn [v_engine v_server v_clients] in *. right. split; [done|]. split_and!; [done| |done|].
    + split_and!; [rewrite Hb|rewrite Ht|rewrite Hq|rewrite Hl|rewrite Hw];
        destruct (crNumChains req), (crFanoutSize req), (crSustainFee req); done.
    + f_equal. f_equal. by rewrite Hb.
  - rewrite bool_decide_eq_false_2 by (by intros [? ?]). cbn [andb].
    destruct (run_finishConfig None req s) as (e' & -> & Hb & Ht & Hq & Hl & Hw). right. split; [done|].
    split_and!; [done| |done|done]. unfold configured_engine. cbn [v_engine]. rewrite Hb, Ht.
    assert (crNumChains req = None /\ crFanoutSize req = None /\ crSustainFee req = None) as (-> & -> & ->).
    { unfold bootstrapUpdate in Hu. by destruct (crNumChains req), (crFanoutSize req), (crSustainFee req). }
    done.
Qed.

(** A request to set the number of chains, as it reaches the engine. *)
Definition numChainsRequest (n : Z) : configRequest := mkConfigRequest None (Some n) None None.

(** Two requests that race can leave the configuration that [/status] shows
    different from the engine's.  Each is answered 200 with its own value; the
    engine has the second one, the server the first. *)
Theorem racing_config_requests (r1 r2 : HttpRequest) (n1 n2 : Z) (s : Served) :
  authorized (v_server s) r1 = true -> authorized (v_server s) r2 = true -> isJSON r1 = true -> isJSON r2 = true ->
  decodeRequest r1 = Some (numChainsRequest n1) -> decodeRequest r2 = Some (numChainsRequest n2) ->
  0 < n1 -> 0 < n2 -> funded (v_engine s) = false ->
  let '(resps, s') := run (par [0; 0; 0; 1; 1; 1; 1; 0]%nat [handleConfig r1; handleConfig r2]) s in
  (hpStatus <$> resps) = [200; 200] /\ e_numChains (v_engine s') = n2 /\ Config.NumChains (sCfg (v_server s')) = n1.
Proof.
  intros Ha1 Ha2 Hj1 Hj2 Hd1 Hd2 Hn1 Hn2 Hf.
  assert (forall n srv, 0 < n -> validate srv (numChainsRequest n) = None) as Hval.
  { intros n srv Hn. unfold validate. simpl. by rewrite (proj2 (Z.leb_gt _ _)). }
  assert (forall n, 0 < n -> invalidUpdate (mkBootstrapUpdate (Some n) None None) = None) as Hinv.
  { intros n Hn. unfold invalidUpdate. simpl. by rewrite (proj2 (Z.leb_gt _ _)). }
  unfold handleConfig, prepareAuthenticatedPost, authorize, mbind, prog_bind.
  cbn [par lookup list_lookup insert list_insert server gets act pbind run].
  rewrite Ha1. cbn [pbind]. rewrite Hj1. cbn [pbind]. rewrite Hd1. cbn [pbind par lookup list_lookup insert list_insert server gets act run].
  rewrite (Hval n1) by done. cbn [bootstrapUpdate crNumChains crFanoutSize crSustainFee numChainsRequest].
  unfold ConfigureBootstrap at 1. rewrite (Hinv n1) by done.
  cbn [onEngine zoom set_engine pbind par lookup list_lookup insert list_insert server gets act run v_engine v_server v_clients].
  rewrite Hf. cbn [buNumChains buFanoutSize buSustainFee onEngine zoom set_engine pbind par lookup list_lookup insert list_insert server gets act run v_engine v_server v_clients].
  rewrite Ha2. cbn [pbind]. rewrite Hj2. cbn [pbind]. rewrite Hd2.
  cbn [pbind par lookup list_lookup insert list_insert server gets act run v_engine v_server v_clients].
  rewrite (Hval n2) by done. cbn [bootstrapUpdate crNumChains crFanoutSize crSustainFee numChainsRequest].
  unfold ConfigureBootstrap at 1. rewrite (Hinv n2) by done.
  cbn [onEngine zoom set_engine pbind par lookup list_lookup insert list_insert server gets act run v_engine v_server v_clients].
  match goal with |- context [funded ?e] => change (funded e) with (funded (v_engine s)) end. rewrite Hf.
  cbn. done.
Qed.

End server.
End Server.
