(* ===== verification/App.v ===== *)
(** * The application (internal/app/app.go)

    How a process starts: the guard on the state file, the initial UTXOs and the
    engine built over them; and how its goroutines share what they act on.  [Boot]
    is what exists before the engine does: the open state file and the outside. *)

From S2P Require Import Prelude Prog Script TxBuilder Backoff Float Metrics Store Heap Queue Engine Lane Chain Bootstrap Recovery.
From S2P Require Import Strconv Json Config Http Arcade Notifier Sse Server.
Open Scope Z_scope.

Module App.

Section boot.
Context `{Sdk} `{Prometheus} {D : Type} `{DurableStore D} {W : Type} `{World W}.

Abbreviation E := (Engine (D:=D) (W:=W)).

Record Boot := mkBoot { b_store : D; b_world : W }.

Abbreviation code := (prog Boot).

Definition stored (op : D -> option err * D) : code (option err) :=
  act (fun b => let '(r, d) := op (b_store b) in (r, mkBoot d (b_world b))).

Definition outside {B} (f : W -> B * W) : code B :=
  act (fun b => let '(r, w) := f (b_world b) in (r, mkBoot (b_store b) w)).

(** The end of [ensureStateMatchesMode]: the mode is noted. *)
Definition noteMode (mode : Mode) : code (option err) :=
  r ← stored (ds_SetMeta MetaTxMode (Name mode));
  Ret (option_map (Wrap "write tx_mode") r).

Definition ensureStateMatchesMode (mode : Mode) (hasUTXOs : bool) : code (option err) :=
  let current := ModeScriptHash mode in
  r ← gets (fun b => ds_GetMeta MetaLockScriptHash (b_store b));
  match r with
  | Err e => Ret (Some (Wrap "read lock_script_hash" e))
  | Ok recorded =>
      if negb (bool_decide (recorded = ""%string)) && negb (bool_decide (recorded = current))
      then Ret (Some (Wrap "state has, configured" ErrStateMismatch))
      else if bool_decide (recorded = ""%string) && hasUTXOs
      then Ret (Some (Wrap "refusing to continue" ErrLegacyState))
      else if bool_decide (recorded = ""%string) then
        r ← stored (ds_SetMeta MetaLockScriptHash current);
        match r with
        | Some e => Ret (Some (Wrap "write lock_script_hash" e))
        | None => noteMode mode
        end
      else noteMode mode
  end.

Definition initialUTXOs (mode : Mode) : code (result (list UTXO)) :=
  r ← gets (fun b => ds_LoadAll (b_store b));
  match r with
  | Err e => Ret (Err (Wrap "restore UTXOs" e))
  | Ok utxos =>
      r ← ensureStateMatchesMode mode (negb (bool_decide (utxos = [])));
      match r with
      | Some e => Ret (Err e)
      | None =>
          if negb (bool_decide (utxos = [])) then Ret (Ok utxos) else
          r ← outside (FetchUTXOs (ModeScriptHash mode));
          match r with
          | Err e => Ret (Err (Wrap "fetch UTXOs" e))
          | Ok utxos => Ret (Ok utxos)
          end
      end
  end.

(** The options [Run] gives to the engine. *)
Definition engineOptions (cfg : Config.Config) (mode : Mode) (d : D) (utxos : list UTXO) (m : Metrics.t) : Options :=
  mkOptions (Some mode) true true (Some d) utxos (Config.NumChains cfg) (Config.FanoutSize cfg) 0 m.

(** [Run], from the configuration to the engine; [history] is what the processes
    before this one broadcast. *)
Definition start (cfg : Config.Config) (history : list (PendingBroadcast * bool)) : code (result E) :=
  match NewMode (Config.PrivateKey cfg) (Config.InstanceID cfg) (Config.SustainFee cfg) with
  | Err e => Ret (Err (Wrap "configure transaction mode" e))
  | Ok mode =>
      r ← initialUTXOs mode;
      match r with
      | Err e => Ret (Err e)
      | Ok utxos =>
          r ← gets (fun b => New (engineOptions cfg mode (b_store b) utxos Metrics.New) (b_world b) history);
          match r with
          | Err e => Ret (Err (Wrap "start engine" e))
          | Ok e => Ret (Ok e)
          end
      end
  end.
End boot.

(** ** The guard *)

Section guard.
Context `{Sdk} `{Prometheus} {D : Type} `{DurableStoreLaws D} {W : Type} `{World W}.

Abbreviation E := (Engine (D:=D) (W:=W)).
Abbreviation Boot := (Boot (D:=D) (W:=W)).

(** The lock script the file was created for (empty when it says none), and what it
    holds. *)
Definition recorded (b : Boot) : string := default ""%string (v_meta (ds_view (b_store b)) !! MetaLockScriptHash).
Definition fileTips (b : Boot) : gmap string UTXO := v_utxos (ds_view (b_store b)).
Definition filePending (b : Boot) : gmap string PendingBroadcast := v_pending (ds_view (b_store b)).

(** The file belongs to another lock script, or has UTXOs of an unknown one. *)
Definition refused (mode : Mode) (b : Boot) : Prop :=
  (recorded b <> ""%string /\ recorded b <> ModeScriptHash mode) \/ (recorded b = ""%string /\ fileTips b <> ∅).

(** What the guard may have done to the file: [b'] is [b], but a file without
    UTXOs may now be recorded for the mode. *)
Definition guarded_file (mode : Mode) (b b' : Boot) : Prop :=
  ds_wf (b_store b') /\ fileTips b' = fileTips b /\ filePending b' = filePending b /\
  (recorded b' = recorded b \/ (recorded b = ""%string /\ fileTips b = ∅ /\ recorded b' = ModeScriptHash mode)).

(** [SetMeta] of the guard. *)
Lemma stored_meta k v (b : Boot) : ds_wf (b_store b) ->
  let '(r, b') := run (stored (ds_SetMeta k v)) b in
  ds_wf (b_store b') /\ fileTips b' = fileTips b /\ filePending b' = filePending b /\ b_world b' = b_world b /\
  recorded b' = match r with None => if bool_decide (k = MetaLockScriptHash) then v else recorded b | Some _ => recorded b end.
Proof.
  intros Hwf. cbn [stored act run]. destruct (ds_SetMeta k v (b_store b)) as [r d'] eqn:Hs.
  destruct (SetMeta_law k v _ _ _ Hwf Hs) as [Hwf' Hv]. unfold fileTips, filePending, recorded. cbn [b_store b_world].
  rewrite Hv. destruct r; [done|]. split_and!; [done..|]. cbn. case_bool_decide as Hk; [subst k; by rewrite lookup_insert_eq|].
  by rewrite lookup_insert_ne.
Qed.

(** A write of the guard, as a step. *)
Lemma wpi_meta {A} (I : Boot -> Prop) k v (g : option err -> prog Boot A) Q (b : Boot) : ds_wf (b_store b) ->
  (forall r b', ds_wf (b_store b') -> fileTips b' = fileTips b -> filePending b' = filePending b -> b_world b' = b_world b ->
     recorded b' = match r with None => if bool_decide (k = MetaLockScriptHash) then v else recorded b | Some _ => recorded b end ->
     I b' /\ wpi I (g r) Q b') ->
  wpi I (stored (ds_SetMeta k v) ≫= g) Q b.
Proof.
  intros Hwf Hk. pose proof (stored_meta k v b Hwf) as Hs. apply wpi_bind. cbn [stored act wpi run] in *.
  destruct (ds_SetMeta k v (b_store b)) as [r d']. destruct Hs as (? & ? & ? & ? & ?). by apply Hk.
Qed.

Lemma noteMode_wpi mode (b0 b : Boot) Q : guarded_file mode b0 b ->
  (forall r b', guarded_file mode b0 b' -> b_world b' = b_world b -> recorded b' = recorded b -> Q r b') ->
  wpi (guarded_file mode b0) (noteMode mode) Q b.
Proof.
  intros Hg HQ. pose proof Hg as (Hwf & Ht & Hp & Hr). apply wpi_meta; [done|]. intros r b' Hwf' Ht' Hp' Hw' Hr'.
  assert (recorded b' = recorded b) as Hr2 by (by destruct r).
  assert (guarded_file mode b0 b') as Hg' by (unfold guarded_file; rewrite Ht', Hp', Hr2; done).
  split; [done|]. by apply HQ.
Qed.

Lemma ensureStateMatchesMode_wpi mode hasUTXOs (b : Boot) : ds_wf (b_store b) ->
  (hasUTXOs = true <-> fileTips b <> ∅) ->
  wpi (guarded_file mode b) (ensureStateMatchesMode mode hasUTXOs)
    (fun r b' => guarded_file mode b b' /\ b_world b' = b_world b /\ (r = None -> ~ refused mode b /\ recorded b' = ModeScriptHash mode)) b.
Proof.
  intros Hwf Hhas. assert (guarded_file mode b b) as Hg by (split_and!; auto).
  unfold ensureStateMatchesMode. apply wpi_bind. cbn [gets act wpi fst snd]. split; [done|].
  destruct (ds_GetMeta MetaLockScriptHash (b_store b)) as [rec|x] eqn:Hrec; [|done].
  apply GetMeta_law in Hrec; [|done]. fold (recorded b) in Hrec. subst rec.
  destruct (decide (recorded b = ""%string)) as [He|He].
  - rewrite bool_decide_eq_true_2 by done. cbn [negb andb]. destruct hasUTXOs; [done|].
    assert (fileTips b = ∅) as Hemp by (destruct (decide (fileTips b = ∅)) as [|Hn]; [done|]; by apply Hhas in Hn).
    apply wpi_meta; [done|]. intros r b' Hwf' Ht' Hp' Hw' Hr'.
    assert (guarded_file mode b b') as Hg' by (split_and!; try done; destruct r; auto). split; [done|].
    destruct r as [x|]; [done|]. apply noteMode_wpi; [done|]. intros r b2 Hg2 Hw2 Hr2. split_and!; [done|congruence|].
    intros _. split; [|by rewrite Hr2]. intros [[? _]|[_ ?]]; done.
  - rewrite bool_decide_eq_false_2 by done. cbn [negb andb]. case_bool_decide as Hm; cbn [negb]; [|done].
    apply noteMode_wpi; [done|]. intros r b2 Hg2 Hw2 Hr2. split_and!; [done..|]. intros _.
    split; [|by rewrite Hr2]. intros [[_ ?]|[? _]]; done.
Qed.

Lemma loaded_tips (b : Boot) us : ds_wf (b_store b) -> ds_LoadAll (b_store b) = Ok us ->
  us ≡ₚ (map_to_list (fileTips b)).*2 /\ (us = [] <-> fileTips b = ∅).
Proof.
  intros Hwf Hl%LoadAll_law; [|done]. fold (fileTips b) in Hl. split; [done|]. rewrite <- map_to_list_empty_iff. split.
  - intros ->. symmetry in Hl. by apply Permutation_nil_r, fmap_nil_inv in Hl.
  - intros Hn. rewrite Hn in Hl. by apply Permutation_nil_r in Hl.
Qed.

(** What [initialUTXOs] returned: the stored tips, or, for a file without any, what
    WhatsOnChain lists for the lock script. *)
Definition initial (mode : Mode) (b : Boot) (us : list UTXO) (b' : Boot) : Prop :=
  (us <> [] /\ us ≡ₚ (map_to_list (fileTips b)).*2 /\ b_world b' = b_world b) \/
  (fileTips b = ∅ /\ FetchUTXOs (ModeScriptHash mode) (b_world b) = (Ok us, b_world b')).

Lemma initialUTXOs_wpi mode (b : Boot) : ds_wf (b_store b) ->
  wpi (guarded_file mode b) (initialUTXOs mode) (fun r b' => guarded_file mode b b' /\
    match r with
    | Ok us => ~ refused mode b /\ recorded b' = ModeScriptHash mode /\ initial mode b us b'
    | Err _ => True
    end) b.
Proof.
  intros Hwf. assert (guarded_file mode b b) as Hg by (split_and!; auto).
  unfold initialUTXOs. apply wpi_bind. cbn [gets act wpi fst snd]. split; [done|].
  destruct (ds_LoadAll (b_store b)) as [us|x] eqn:Hl; [|done]. destruct (loaded_tips b us Hwf Hl) as [Hperm Hnil].
  apply wpi_bind. eapply wpi_mono; [done| |apply ensureStateMatchesMode_wpi; [done|]].
  2: { rewrite <- Hnil. by case_bool_decide. }
  intros [x|] b1 (Hg1 & Hw1 & Hok); [done|]. destruct (Hok eq_refl) as [Hnr Hr1].
  case_bool_decide as Hus; cbn [negb].
  - apply wpi_bind. cbn [outside act wpi]. rewrite Hw1. destruct (FetchUTXOs (ModeScriptHash mode) (b_world b)) as [r w] eqn:Hf.
    cbn [fst snd]. assert (guarded_file mode b (mkBoot (b_store b1) w)) as Hg2 by exact Hg1. split; [done|].
    destruct r as [us'|]; cbn [wpi]; [|done]. split_and!; [done|done|done|]. right. by rewrite <- Hnil.
  - cbn [wpi]. split_and!; [done..|]. left. by split_and!.
Qed.

(** C7: chains are never resumed under another lock script.  Whatever the start of
    a process does, and wherever it stops, the file keeps its UTXOs and its pending
    records, and a recorded lock script stays the one it was created with.  When
    UTXOs are returned, the file was not refused, is recorded for the configured
    mode, and they are the stored ones, or, only for a file that has none, those
    listed for the mode's script; and a file to be refused, once read, is reported as
    such and left as it is, with nothing asked of the network. *)
Theorem state_belongs_to_mode mode (b : Boot) :
  ds_wf (b_store b) ->
  (forall b', reaches (initialUTXOs mode) b b' -> guarded_file mode b b') /\
  let '(r, b') := run (initialUTXOs mode) b in
  (forall us, r = Ok us -> ~ refused mode b /\ recorded b' = ModeScriptHash mode /\ initial mode b us b') /\
  (refused mode b -> forall us rec, ds_LoadAll (b_store b) = Ok us -> ds_GetMeta MetaLockScriptHash (b_store b) = Ok rec ->
     b' = b /\ exists x, r = Err x /\ errors_is x (if bool_decide (recorded b = ""%string) then ErrLegacyState else ErrStateMismatch) = true).
Proof.
  intros Hwf. pose proof (initialUTXOs_wpi mode b Hwf) as Hwp. split.
  { intros b' Hr. refine (wpi_reaches _ _ _ _ b' _ Hwp Hr). split_and!; auto. }
  destruct (run (initialUTXOs mode) b) as [r b'] eqn:Hrun. destruct (wpi_run _ _ _ _ _ _ Hwp Hrun) as [_ Hok]. split.
  { intros us ->. exact Hok. }
  intros Href us rec Hl Hrec. revert Hrun. unfold initialUTXOs, ensureStateMatchesMode, mbind, prog_bind.
  cbn [gets act pbind run]. rewrite Hl. cbn [gets act pbind run]. rewrite Hrec.
  apply GetMeta_law in Hrec; [|done]. fold (recorded b) in Hrec. subst rec.
  destruct (loaded_tips b us Hwf Hl) as [_ Hnil]. destruct Href as [[Hne Hm]|[He Ht]].
  - rewrite !(bool_decide_eq_false_2 (recorded b = _)) by done. cbn [negb andb pbind run]. intros [= <- <-]. split; [done|]. by eexists.
  - rewrite !(bool_decide_eq_true_2 (recorded b = ""%string)) by done. rewrite (bool_decide_eq_false_2 (us = [])) by (by rewrite Hnil).
    cbn [negb andb pbind run]. intros [= <- <-]. split; [done|]. by eexists.
Qed.
End guard.

(** ** Restarting the process *)

Section restart.
Context `{SdkLaws} `{!TxidLaws} `{Prometheus} {D : Type} `{DurableStoreLaws D} {W : Type} `{World W}.

Abbreviation E := (Engine (D:=D) (W:=W)).
Abbreviation Boot := (Boot (D:=D) (W:=W)).

(** A start that succeeds has run [restore] on a new engine over the guarded file. *)
Lemma start_restores cfg history (b : Boot) (e2 : E) : ds_wf (b_store b) -> fileTips b <> ∅ ->
  (run (start cfg history) b).1 = Ok e2 ->
  exists mode us e1 e3, loaded us e1 /\ durable e1 /\ tips e1 = fileTips b /\ pendings e1 = filePending b /\
    e_mode e1 = mode /\ e_log e1 = history /\ ~ refused mode b /\
    run (restore us) e1 = (None, e3) /\ e2 = set_metrics (e_metrics e2) e3.
Proof.
  intros Hwf Hne. unfold start. destruct (NewMode _ _ _) as [mode|x] eqn:Hmode; [|done].
  unfold mbind at 1, prog_bind. rewrite run_bind. destruct (run (initialUTXOs mode) b) as [[us|x] b1] eqn:Hrun; [|done].
  destruct (wpi_run _ _ _ _ _ _ (initialUTXOs_wpi mode b Hwf) Hrun) as ((Hwf1 & Ht1 & Hp1 & _) & Hnr & _ & Hus).
  cbn [gets act mbind prog_bind pbind run]. unfold New. cbn [oMode engineOptions oBroadcaster negb].
  set (opts := engineOptions _ _ _ _ _). set (e1 := newEngine opts mode (b_world b1) history).
  destruct (run (startup opts) e1) as [[x|] e2'] eqn:Hst; [done|]. intros [= <-].
  revert Hst. unfold startup, mbind, prog_bind. rewrite run_bind. cbn [oInitialUTXOs opts engineOptions].
  destruct (run (restore us) e1) as [[x|] e3] eqn:Hres; [done|]. intros [= <-].
  exists mode, us, e1, e3. split_and!; try done.
  - right. split; [|done]. destruct Hus as [(_ & Hperm & _)|[He _]]; [|done]. unfold tips, e1, opts. simpl.
    change (v_utxos (ds_view (b_store b1))) with (fileTips b1). by rewrite Ht1.
  - split; [|by eexists]. split; [apply is_heap_nil|exact Hwf1].
Qed.

(** The process is started on the file a crash left. *)
Lemma start_lanes lanes cfg (e' e2 : E) (b : Boot) :
  lanes_wf lanes -> (forall l, l ∈ lanes -> redoes l) -> crash_state lanes e' ->
  Queue.store (e_queue e') = Some (b_store b) -> tips e' <> ∅ ->
  (run (start cfg (e_log e')) b).1 = Ok e2 ->
  recorded b = ModeScriptHash (e_mode e2) /\ e_log e2 = e_log e' /\ resumed lanes e' e2.
Proof.
  intros Hwf Hre Hc Hst Hne Hstart. pose proof Hc as ([[_ Hds] _] & _). rewrite Hst in Hds.
  assert (fileTips b = tips e' /\ filePending b = pendings e') as [Ht Hp] by (unfold tips, pendings; by rewrite Hst).
  destruct (start_restores cfg (e_log e') b e2 Hds) as (mode & us & e1 & e3 & Hl & Hd1 & Ht1 & Hp1 & Hm1 & Hl1 & Hnr & Hrun & He2);
    [by rewrite Ht|done|].
  rewrite Ht in Ht1. rewrite Hp in Hp1.
  destruct (restart_lanes lanes Hwf Hre us e' e1 e3 Hc Hd1 Hl Ht1 Hp1 Hrun) as (Hm3 & Hl3 & Hr3).
  assert (e_mode e2 = mode /\ e_log e2 = e_log e' /\ e_queue e2 = e_queue e3) as (Hm2 & Hl2 & Hq2)
    by (rewrite He2; split_and!; simpl; congruence).
  split_and!; [|done|].
  - rewrite Hm2. destruct (decide (recorded b = ModeScriptHash mode)) as [|Hn]; [done|]. destruct Hnr.
    destruct (decide (recorded b = ""%string)); [right; by rewrite Ht|by left].
  - by apply (resumed_same lanes e' e3).
Qed.

(** *** A start that does not fail *)

Section total.
Context (fine : D -> Prop) `{!ReliableStore fine}.

Lemma initialUTXOs_total mode (b : Boot) : fine (b_store b) -> fileTips b <> ∅ -> recorded b = ModeScriptHash mode -> recorded b <> ""%string ->
  exists us b1, run (initialUTXOs mode) b = (Ok us, b1) /\ fine (b_store b1).
Proof using All.
  intros Hf Hne Hm Hrec. pose proof (fine_wf _ Hf) as Hwf. destruct (fine_LoadAll _ Hf) as [us Hus].
  destruct (fine_GetMeta MetaLockScriptHash _ Hf) as [rec Hr]. pose proof (GetMeta_law _ _ _ Hwf Hr) as Hrb. fold (recorded b) in Hrb.
  destruct (fine_SetMeta MetaTxMode (Name mode) _ Hf) as (d1 & Hd1 & Hf1); [done|].
  assert (us <> []) as Husne by (by rewrite (proj2 (loaded_tips b us Hwf Hus))).
  exists us, (mkBoot d1 (b_world b)). split; [|done]. unfold initialUTXOs, ensureStateMatchesMode, noteMode, mbind, prog_bind.
  cbn [gets act pbind run]. rewrite Hus. cbn [gets act pbind run]. rewrite Hr, Hrb, <- Hm.
  rewrite (bool_decide_eq_false_2 (recorded b = _)), (bool_decide_eq_true_2 (recorded b = recorded b)) by done.
  cbn [negb andb stored act pbind run]. rewrite Hd1. cbn [option_map pbind run]. rewrite (bool_decide_eq_false_2 (us = [])) by done. done.
Qed.

Lemma start_total cfg history mode (b : Boot) : fine (b_store b) -> fileTips b <> ∅ -> keyed (filePending b) ->
  NewMode (Config.PrivateKey cfg) (Config.InstanceID cfg) (Config.SustainFee cfg) = Ok mode -> ~ refused mode b ->
  exists e2, (run (start cfg history) b).1 = Ok e2.
Proof using All.
  intros Hf Hne Hk Hmode Hnr.
  assert (recorded b <> ""%string /\ recorded b = ModeScriptHash mode) as [Hrec Hm].
  { destruct (decide (recorded b = ""%string)) as [He|He]; [destruct Hnr; by right|]. split; [done|].
    destruct (decide (recorded b = ModeScriptHash mode)) as [|Hn]; [done|]. destruct Hnr. by left. }
  destruct (initialUTXOs_total mode b Hf Hne Hm Hrec) as (us & b1 & Hrun & Hf1). pose proof (fine_wf _ Hf) as Hwf.
  destruct (wpi_run _ _ _ _ _ _ (initialUTXOs_wpi mode b Hwf) Hrun) as ((Hwf1 & Ht1 & Hp1 & _) & _ & _ & Hus).
  unfold start. rewrite Hmode. unfold mbind at 1, prog_bind. rewrite run_bind, Hrun.
  cbn [gets act mbind prog_bind pbind run]. unfold New. cbn [oMode engineOptions oBroadcaster negb].
  set (opts := engineOptions _ _ _ _ _). set (e1 := newEngine opts mode (b_world b1) history).
  assert (succeeds fine (restore us) (fun r => r = None) e1) as Hres.
  { apply succeeds_restore; [done|..].
    - unfold pendings, e1, opts. simpl. change (v_pending (ds_view (b_store b1))) with (filePending b1). by rewrite Hp1.
    - split; [split; [apply is_heap_nil|exact Hwf1]|by eexists].
    - destruct Hus as [(_ & Hperm & _)|[He _]]; [|done]. right. split; [|done]. unfold tips, e1, opts. simpl.
      change (v_utxos (ds_view (b_store b1))) with (fileTips b1). by rewrite Ht1.
    - by exists (b_store b1). }
  unfold startup, mbind, prog_bind. rewrite run_bind. cbn [oInitialUTXOs opts engineOptions].
  destruct (run (restore us) e1) as [r e3] eqn:Hr3. destruct (wpi_run _ _ _ _ _ _ Hres Hr3) as [-> _]. by eexists.
Qed.
End total.
End restart.
End App.
