(* ===== verification/Lifecycle.v ===== *)
(** * Running and shutting down (internal/app/app.go, [Run] and [shutdown];
    internal/server/server.go, [ListenAndServe] and [Shutdown])

    What the process does besides its work: the main goroutine starts everything or
    returns why it cannot, waits for its context, stops the HTTP server, waits for
    the other goroutines and closes the state file, while the server's goroutine
    listens, serves and reports a failure.  The state machine moves by [Event]s; an
    event that is not possible in a state has no successor.  Time is a clock that
    only [Tick] advances, so that the two timeouts are deadlines on it; requests
    being served and open transactions of the state file are counted, since
    [http.Server.Shutdown] waits for the former and Bolt's [Close] for the latter. *)

From S2P Require Import Prelude Prog Script TxBuilder Backoff Float Metrics Store Engine Config App.
Open Scope Z_scope.

Module Lifecycle.

Definition serverShutdownTimeout : Z := 5 * Backoff.Second.
Definition drainTimeout : Z := 30 * Backoff.Second.

(** ** States *)

(** The goroutine of the HTTP server: before [s.httpServer] is set, before its
    [ListenAndServe] is called, serving, and with an error to send, then to cancel
    for. *)
Inductive HttpPhase := HStart | HReady | HServing | HFailed (e : err) | HSent | HDone.

(** The main goroutine: waiting for the context, about to shut the server down,
    waiting for it until a deadline, waiting for the others until another, with the
    outcome of that: reading [serveErr], closing the state file, canceling and
    returned. *)
Inductive MainPhase :=
  | MWait | MShutdown
  | MClosing (deadline : Z)
  | MDrain (deadline : Z)
  | MSelect (drained : bool)
  | MClose (drained : bool) (r : option err)
  | MCancel (drained : bool) (r : option err)
  | MReturned (drained : bool) (r : option err).

Record t := mkState {
  signaled : bool;           (* the context [Run] was given is done *)
  canceled : bool;           (* [cancel] was called *)
  httpServer : bool;         (* the field is set *)
  inShutdown : bool;         (* of that [http.Server] *)
  http : HttpPhase;
  workers : list bool;       (* of the engine and of each stream: it runs *)
  serveErr : option err;     (* the channel *)
  main : MainPhase;
  storeOpen : bool;
  now : Z;                   (* nanoseconds *)
  active : nat;              (* requests being served *)
  txs : nat;                 (* open transactions of the state file *)
}.

(** Once [n] workers and the server's goroutine are started. *)
Definition started (n : nat) : t :=
  mkState false false false false HStart (replicate n true) None MWait true 0 0 0.

Definition ctxDone (s : t) : bool := signaled s || canceled s.

(** The wait group is at zero. *)
Definition drained (s : t) : bool := forallb negb (workers s) && match http s with HDone => true | _ => false end.

Definition with_http (h : HttpPhase) (s : t) : t :=
  mkState (signaled s) (canceled s) (httpServer s) (inShutdown s) h (workers s) (serveErr s) (main s) (storeOpen s) (now s) (active s) (txs s).
Definition with_main (m : MainPhase) (s : t) : t :=
  mkState (signaled s) (canceled s) (httpServer s) (inShutdown s) (http s) (workers s) (serveErr s) m (storeOpen s) (now s) (active s) (txs s).
Definition with_workers (ws : list bool) (s : t) : t :=
  mkState (signaled s) (canceled s) (httpServer s) (inShutdown s) (http s) ws (serveErr s) (main s) (storeOpen s) (now s) (active s) (txs s).
Definition with_serveErr (e : option err) (s : t) : t :=
  mkState (signaled s) (canceled s) (httpServer s) (inShutdown s) (http s) (workers s) e (main s) (storeOpen s) (now s) (active s) (txs s).
Definition with_load (a x : nat) (s : t) : t :=
  mkState (signaled s) (canceled s) (httpServer s) (inShutdown s) (http s) (workers s) (serveErr s) (main s) (storeOpen s) (now s) a x.
Definition elapse (d : Z) (s : t) : t :=
  mkState (signaled s) (canceled s) (httpServer s) (inShutdown s) (http s) (workers s) (serveErr s) (main s) (storeOpen s) (now s + d) (active s) (txs s).
Definition signal (s : t) : t :=
  mkState true (canceled s) (httpServer s) (inShutdown s) (http s) (workers s) (serveErr s) (main s) (storeOpen s) (now s) (active s) (txs s).
Definition cancel (s : t) : t :=
  mkState (signaled s) true (httpServer s) (inShutdown s) (http s) (workers s) (serveErr s) (main s) (storeOpen s) (now s) (active s) (txs s).

(** ** The server's goroutine *)

Inductive HttpEvent :=
  | HttpSet                        (* [s.httpServer = srv] *)
  | HttpListen (e : option err)    (* [srv.ListenAndServe] begins; [net.Listen] may fail *)
  | HttpStop (e : err)             (* it ends: [Accept] fails, or the server is shut down *)
  | HttpSend                       (* [serveErr <- listenErr] *)
  | HttpCancel                     (* [cancel()] *)
  | HttpPanic.                     (* recovered by the runner *)

(** [ListenAndServe] of the server returns [e]. *)
Definition listenErr (e : err) : err := Wrap "listen on" e.

(** [Server.ListenAndServe]: the field is set, then the server listens and serves until
    an error.  [http.Server.ListenAndServe] returns [ErrServerClosed] when the server is
    being shut down, and that is no error. *)
Definition ListenAndServe (ev : HttpEvent) (s : t) : option t :=
  match ev, http s with
  | HttpSet, HStart =>
      Some (mkState (signaled s) (canceled s) true (inShutdown s) HReady (workers s) (serveErr s) (main s) (storeOpen s) (now s) (active s) (txs s))
  | HttpListen e, HReady =>
      Some (with_http (if inShutdown s then HDone else match e with None => HServing | Some e => HFailed (listenErr e) end) s)
  | HttpStop e, HServing => Some (with_http (if inShutdown s then HDone else HFailed (listenErr e)) s)
  | _, _ => None
  end.

(** The goroutine around it. *)
Definition httpStep (ev : HttpEvent) (s : t) : option t :=
  match ev, http s with
  | HttpSend, HFailed e => Some (with_serveErr (Some e) (with_http HSent s))
  | HttpCancel, HSent => Some (with_http HDone (cancel s))
  | HttpPanic, (HStart | HReady | HServing) => Some (with_http HDone s)
  | _, _ => ListenAndServe ev s
  end.

(** ** The main goroutine *)

Inductive MainEvent :=
  | MainStep                 (* its next step, when it does not have to wait *)
  | MainTimeout.             (* it stops waiting at a deadline *)

(** [Server.Shutdown]: a server that is set is told to stop, and waited for under the
    timeout of the context; what it returns is only logged. *)
Definition Shutdown (s : t) : t :=
  if httpServer s
  then mkState (signaled s) (canceled s) true true (http s) (workers s) (serveErr s) (MClosing (now s + serverShutdownTimeout)) (storeOpen s) (now s) (active s) (txs s)
  else with_main (MDrain (now s + drainTimeout)) s.

(** [http.Server.Shutdown] returns when no request is being served, or with the error
    of its context. *)
Definition shutdownReturns (deadline : Z) (ev : MainEvent) (s : t) : bool :=
  match ev with MainStep => (active s =? 0)%nat | MainTimeout => deadline <=? now s end.

(** [waitTimeout] reports whether the wait group came to zero in time. *)
Definition waitTimeout (deadline : Z) (ev : MainEvent) (s : t) : option t :=
  match ev with
  | MainStep => if drained s then Some (with_main (MSelect true) s) else None
  | MainTimeout => if deadline <=? now s then Some (with_main (MSelect false) s) else None
  end.

(** The last [select]: an error in the channel is taken. *)
Definition takeServeErr (d : bool) (s : t) : t := with_serveErr None (with_main (MClose d (serveErr s)) s).

(** The deferred [closeStore]: Bolt's [Close] waits for the open transactions. *)
Definition closeStore (d : bool) (r : option err) (s : t) : option t :=
  if (txs s =? 0)%nat
  then Some (mkState (signaled s) (canceled s) (httpServer s) (inShutdown s) (http s) (workers s) (serveErr s) (MCancel d r) false (now s) (active s) (txs s))
  else None.

(** [shutdown], from the end of the context to the drained goroutines. *)
Definition shutdown (ev : MainEvent) (s : t) : option t :=
  match main s, ev with
  | MShutdown, MainStep => Some (Shutdown s)
  | MClosing deadline, _ =>
      if shutdownReturns deadline ev s then Some (with_main (MDrain (now s + drainTimeout)) s) else None
  | MDrain deadline, _ => waitTimeout deadline ev s
  | _, _ => None
  end.

(** [Run] from where everything is started, or from where it gives up. *)
Definition mainStep (ev : MainEvent) (s : t) : option t :=
  match main s, ev with
  | MWait, MainStep => if ctxDone s then Some (with_main MShutdown s) else None
  | (MShutdown | MClosing _ | MDrain _), _ => shutdown ev s
  | MSelect d, MainStep => Some (takeServeErr d s)
  | MClose d r, MainStep => closeStore d r s
  | MCancel d r, MainStep => Some (with_main (MReturned d r) (cancel s))
  | _, _ => None
  end.

(** ** All of it *)

(** Besides the goroutines of [Run] there are the requests and the transactions of the
    engine.  A request begins on a server that serves, or on a connection it had
    accepted before it was told to stop; a closed file opens no transaction. *)
Inductive Event :=
  | Signal                   (* the context of [Run] ends *)
  | Http (ev : HttpEvent)
  | Ended (i : nat)          (* a worker returns, or panics *)
  | RequestBegin | RequestEnd
  | TxBegin | TxEnd
  | Tick (d : Z)             (* time passes *)
  | Main (ev : MainEvent).

Definition step (ev : Event) (s : t) : option t :=
  match ev with
  | Signal => Some (signal s)
  | Http ev => httpStep ev s
  | Ended i => match workers s !! i with Some true => Some (with_workers (<[i := false]> (workers s)) s) | _ => None end
  | RequestBegin =>
      match http s, inShutdown s with HServing, _ | _, true => Some (with_load (S (active s)) (txs s) s) | _, _ => None end
  | RequestEnd => match active s with S a => Some (with_load a (txs s) s) | O => None end
  | TxBegin => if storeOpen s then Some (with_load (active s) (S (txs s)) s) else None
  | TxEnd => match txs s with S x => Some (with_load (active s) x s) | O => None end
  | Tick d => if 0 <? d then Some (elapse d s) else None
  | Main ev => mainStep ev s
  end.

Fixpoint steps (evs : list Event) (s : t) : option t :=
  match evs with
  | [] => Some s
  | ev :: evs => s' ← step ev s; steps evs s'
  end.

(** [s'] comes after [s]. *)
Definition leads (s s' : t) : Prop := exists evs, steps evs s = Some s'.

(** What [Run] returns, once it is known; whether the drain succeeded, once it is
    over. *)
Definition result (s : t) : option (option err) :=
  match main s with MClose _ r | MCancel _ r | MReturned _ r => Some r | _ => None end.

Definition drainOk (s : t) : bool :=
  match main s with MSelect d | MClose d _ | MCancel d _ | MReturned d _ => d | _ => false end.

(** The error of a server that could not listen on, or stopped serving. *)
Definition servingFailed (evs : list Event) (e : err) : Prop :=
  exists x, e = Wrap "listen on" x /\ (Http (HttpListen (Some x)) ∈ evs \/ Http (HttpStop x) ∈ evs).

(** ** Invariants *)

Lemma steps_app evs evs' s : steps (evs ++ evs') s = steps evs s ≫= steps evs'.
Proof. revert s. induction evs as [|ev evs IH]; intros s; [done|]. simpl. destruct (step ev s); [apply IH|done]. Qed.

Lemma steps_ind s0 (P : list Event -> t -> Prop) : P [] s0 ->
  (forall evs ev s s', steps evs s0 = Some s -> P evs s -> step ev s = Some s' -> P (evs ++ [ev]) s') ->
  forall evs s, steps evs s0 = Some s -> P evs s.
Proof.
  intros H0 Hstep. induction evs as [|ev evs IH] using rev_ind; intros s; [by intros [= <-]|].
  rewrite steps_app. destruct (steps evs s0) as [s1|] eqn:Hs1; [|done]. simpl. destruct (step ev s1) as [s2|] eqn:Hs; [|done].
  intros [= <-]. by eapply Hstep; [|apply IH|].
Qed.

Lemma leads_refl s : leads s s.
Proof. by exists []. Qed.

Lemma leads_step s s1 s' ev : leads s s1 -> step ev s1 = Some s' -> leads s s'.
Proof. intros [evs Hs] Hev. exists (evs ++ [ev]). rewrite steps_app, Hs. simpl. by rewrite Hev. Qed.

(** A goroutine that has ended stays so. *)
Lemma drained_ended ws i : forallb negb ws = true -> ws !! i <> Some true.
Proof.
  intros Hws Hi. rewrite forallb_forall in Hws. apply list_elem_of_lookup_2, list_elem_of_In in Hi. by apply Hws in Hi.
Qed.

(** The steps of the others leave the main goroutine where it is, and go back on
    nothing. *)
Record others (s s' : t) : Prop := {
  o_main : main s' = main s;
  o_store : storeOpen s' = storeOpen s;
  o_signaled : signaled s = true -> signaled s' = true;
  o_canceled : canceled s = true -> canceled s' = true;
  o_told : inShutdown s' = inShutdown s;
  o_now : now s <= now s';
  o_drained : drained s = true -> drained s' = true;
  o_txs : storeOpen s = false -> (txs s' <= txs s)%nat;
}.

Definition of_main (ev : Event) : bool := match ev with Main _ => true | _ => false end.

Lemma step_others ev s s' : step ev s = Some s' -> of_main ev = false -> others s s'.
Proof.
  destruct s as [sg cn hs sh ht ws se mn so nw ac tx]. unfold step, httpStep, ListenAndServe. simpl.
  destruct ev as [|ev|i| | | | |d|ev]; intros Hs Hm; try done.
  - injection Hs as <-. by split.
  - destruct ev as [|x|x| | |], ht; simplify_eq; split; unfold drained; simpl; try done; try lia; by rewrite ?andb_false_r.
  - destruct (ws !! i) as [[]|] eqn:Hi; simplify_eq. split; unfold drained; simpl; try done; try lia.
    intros [Hws _]%andb_true_iff. by destruct (drained_ended ws i).
  - destruct ht, sh; simplify_eq; split; try done; simpl; lia.
  - destruct ac; simplify_eq; split; try done; simpl; lia.
  - destruct so; simplify_eq; split; try done; simpl; lia.
  - destruct tx; simplify_eq; split; try done; simpl; lia.
  - destruct (Z.ltb_spec 0 d); simplify_eq; split; try done; simpl; lia.
Qed.

Lemma others_ctx s s' : others s s' -> ctxDone s = true -> ctxDone s' = true.
Proof. intros Ho. unfold ctxDone. rewrite !orb_true_iff. intros [?|?]; [left; by apply Ho|right; by apply Ho]. Qed.

(** What holds of the main goroutine at every moment. *)
Record inv (s : t) : Prop := {
  inv_store : storeOpen s = match main s with MCancel _ _ | MReturned _ _ => false | _ => true end;
  inv_drain : drainOk s = true -> drained s = true;
  inv_ctx : main s <> MWait -> ctxDone s = true;
  inv_txs : storeOpen s = false -> txs s = O;
  inv_deadline : match main s with
                 | MClosing deadline => deadline <= now s + serverShutdownTimeout
                 | MDrain deadline => deadline <= now s + drainTimeout
                 | _ => True
                 end;
}.

Lemma inv_started n : inv (started n).
Proof. by split. Qed.

Lemma inv_others s s' : inv s -> others s s' -> inv s'.
Proof.
  intros [I1 I2 I3 I4 I5] Ho. pose proof Ho as [O1 O2 _ _ _ O6 O7 O8]. split; rewrite ?O1, ?O2.
  - done.
  - unfold drainOk in *. rewrite O1. intros Hd. by apply O7, I2.
  - intros Hm. eapply others_ctx; [done|]. by apply I3.
  - intros Hs. specialize (O8 Hs). specialize (I4 Hs). lia.
  - destruct (main s); [done|done|lia|lia|done..].
Qed.

Lemma inv_mainStep ev s s' : inv s -> mainStep ev s = Some s' -> inv s'.
Proof.
  intros [I1 I2 I3 I4 I5]. destruct s as [sg cn hs sh ht ws se mn so nw ac tx].
  unfold mainStep, shutdown, waitTimeout, shutdownReturns, Shutdown, closeStore in *.
  unfold ctxDone, drained, drainOk in *. simpl in *.
  destruct mn as [| |dl|dl|d|d r|d r|d r], ev; try done; repeat case_match; intros Hs; simplify_eq;
    split; unfold ctxDone, drained, drainOk; simpl in *; try done; try lia;
    try (intros _; by apply I3); try (intros _; by rewrite orb_true_r); try (intros _; by apply Nat.eqb_eq).
Qed.

Lemma inv_step ev s s' : inv s -> step ev s = Some s' -> inv s'.
Proof.
  intros Hi Hs. destruct (of_main ev) eqn:Hm.
  - destruct ev; try done. by eapply inv_mainStep.
  - by eapply inv_others; [|eapply step_others].
Qed.

Lemma leads_inv n s : leads (started n) s -> inv s.
Proof.
  intros [evs Hs]. revert Hs. apply (steps_ind _ (fun _ => inv)); [apply inv_started|].
  intros _ ev s1 s2 _ Hi Hs. by eapply inv_step.
Qed.

(** ** The order of a shutdown *)

(** [s1] is when the main goroutine calls [Shutdown] and [s2] when the call has
    returned: a server that was set has been told to stop, and its requests are over or
    the time for them is. *)
Record server_stopped (s1 s2 : t) : Prop := {
  ss_call : main s1 = MShutdown /\ ctxDone s1 = true;
  ss_return : main s2 = MDrain (now s2 + drainTimeout);
  ss_order : leads s1 s2;
  ss_told : httpServer s1 = true -> inShutdown s2 = true /\ (active s2 = O \/ now s1 + 5 * Backoff.Second <= now s2);
}.

(** At [s3], which comes after [s2], the wait for the goroutines is over with the
    outcome [d]. *)
Record waited (s2 s3 : t) (d : bool) : Prop := {
  w_end : main s3 = MSelect d;
  w_order : leads s2 s3;
  w_why : if d then drained s3 = true else now s2 + 30 * Backoff.Second <= now s3;
}.

Section order.
Context (n : nat).

Definition past (s : t) : Prop :=
  match main s with
  | MWait | MShutdown => True
  | MClosing deadline => exists s1, leads (started n) s1 /\ leads s1 s /\ main s1 = MShutdown /\ ctxDone s1 = true /\
      deadline = now s1 + serverShutdownTimeout /\ inShutdown s = true
  | MDrain deadline => exists s1 s2, leads (started n) s1 /\ server_stopped s1 s2 /\ leads s2 s /\ deadline = now s2 + drainTimeout
  | MSelect d | MClose d _ | MCancel d _ | MReturned d _ =>
      exists s1 s2 s3, leads (started n) s1 /\ server_stopped s1 s2 /\ waited s2 s3 d /\ leads s3 s
  end.

Lemma past_others s s' ev : past s -> step ev s = Some s' -> others s s' -> past s'.
Proof.
  intros Hp Hs [O1 _ _ _ O5 _ _ _]. unfold past in *. rewrite O1. destruct (main s); try done.
  - destruct Hp as (s1 & H1 & H2 & H3 & H4 & H5 & H6). exists s1. rewrite O5. split_and!; try done. by eapply leads_step.
  - destruct Hp as (s1 & s2 & H1 & H2 & H3 & H4). exists s1, s2. split_and!; try done. by eapply leads_step.
  - destruct Hp as (s1 & s2 & s3 & H1 & H2 & H3 & H4). exists s1, s2, s3. split_and!; try done. by eapply leads_step.
  - destruct Hp as (s1 & s2 & s3 & H1 & H2 & H3 & H4). exists s1, s2, s3. split_and!; try done. by eapply leads_step.
  - destruct Hp as (s1 & s2 & s3 & H1 & H2 & H3 & H4). exists s1, s2, s3. split_and!; try done. by eapply leads_step.
  - destruct Hp as (s1 & s2 & s3 & H1 & H2 & H3 & H4). exists s1, s2, s3. split_and!; try done. by eapply leads_step.
Qed.

(** Once the wait is over, the past does not change. *)
Lemma past_over s s' ev : past s -> step ev s = Some s' ->
  match main s with MSelect _ | MClose _ _ | MCancel _ _ => True | _ => False end ->
  match main s' with MClose _ _ | MCancel _ _ | MReturned _ _ => True | _ => False end -> drainOk s' = drainOk s -> past s'.
Proof.
  intros Hp Hs Hm Hm' Hd. unfold past, drainOk in *. destruct (main s); try done;
    destruct Hp as (s1 & s2 & s3 & H1 & H2 & H3 & H4); destruct (main s'); try done; subst;
    exists s1, s2, s3; split_and!; try done; by eapply leads_step.
Qed.

Lemma past_mainStep ev s s' : leads (started n) s -> past s -> mainStep ev s = Some s' -> past s'.
Proof.
  intros Hr Hp Hs. pose proof (leads_inv n s Hr) as Hi. assert (step (Main ev) s = Some s') as Hstep by done.
  assert (leads s s') as Hl by (by eapply leads_step; [apply leads_refl|]).
  unfold mainStep, shutdown, waitTimeout, shutdownReturns, Shutdown, closeStore in Hs.
  destruct (main s) as [| |dl|dl|d|d r|d r|d r] eqn:Hm, ev; try done.
  - destruct (ctxDone s); by simplify_eq.
  - assert (ctxDone s = true) as Hctx by (by apply inv_ctx; rewrite ?Hm).
    destruct (httpServer s) eqn:Hh; injection Hs as <-.
    + exists s. by split_and!.
    + exists s, (with_main (MDrain (now s + drainTimeout)) s). split_and!; [done| |apply leads_refl|done].
      split; [done|done|done|]. by rewrite Hh.
  - destruct (Nat.eqb_spec (active s) 0) as [Ha|]; [|done]. injection Hs as <-. unfold past in Hp. rewrite Hm in Hp.
    destruct Hp as (s1 & H1 & H2 & H3 & H4 & H5 & H6). exists s1, (with_main (MDrain (now s + drainTimeout)) s).
    split_and!; [done| |apply leads_refl|done]. split; [done|done|by eapply leads_step|]. intros _. split; [done|by left].
  - destruct (Z.leb_spec dl (now s)) as [Ht|]; [|done]. injection Hs as <-. unfold past in Hp. rewrite Hm in Hp.
    destruct Hp as (s1 & H1 & H2 & H3 & H4 & H5 & H6). exists s1, (with_main (MDrain (now s + drainTimeout)) s).
    split_and!; [done| |apply leads_refl|done]. split; [done|done|by eapply leads_step|]. intros _. split; [done|right].
    unfold serverShutdownTimeout in H5. simpl. lia.
  - destruct (drained s) eqn:Hd; [|done]. injection Hs as <-. unfold past in Hp. rewrite Hm in Hp.
    destruct Hp as (s1 & s2 & H1 & H2 & H3 & H4). exists s1, s2, (with_main (MSelect true) s).
    split_and!; [done|done| |apply leads_refl]. split; [done|by eapply leads_step|exact Hd].
  - destruct (Z.leb_spec dl (now s)) as [Ht|]; [|done]. injection Hs as <-. unfold past in Hp. rewrite Hm in Hp.
    destruct Hp as (s1 & s2 & H1 & H2 & H3 & H4). exists s1, s2, (with_main (MSelect false) s).
    split_and!; [done|done| |apply leads_refl]. split; [done|by eapply leads_step|]. unfold drainTimeout in H4. simpl. lia.
  - apply (past_over s s' (Main MainStep)); [done|done|by rewrite Hm| |]; injection Hs as <-; [done|]. unfold drainOk. by rewrite Hm.
  - case_match; [|done]. apply (past_over s s' (Main MainStep)); [done|done|by rewrite Hm| |]; injection Hs as <-; [done|]. unfold drainOk. by rewrite Hm.
  - apply (past_over s s' (Main MainStep)); [done|done|by rewrite Hm| |]; injection Hs as <-; [done|]. unfold drainOk. by rewrite Hm.
Qed.

Lemma leads_past s : leads (started n) s -> past s.
Proof.
  intros [evs Hs]. revert Hs. apply (steps_ind _ (fun _ => past)); [done|].
  intros evs' ev s1 s2 Hr Hp Hs. destruct (of_main ev) eqn:Hm.
  - destruct ev; try done. eapply past_mainStep; [by exists evs'|done|done].
  - eapply past_others; [done|done|by eapply step_others].
Qed.

(** C11: the process shuts down in order.  When the state file has been closed, no
    transaction is open, and before that: the context was done when the main goroutine
    called [Shutdown]; a server set by then was told to stop, and its requests had ended
    or five seconds had passed; then the goroutines were waited for until all of them
    had ended, or for thirty seconds; and only in the second case can anything that was
    started still run. *)
Theorem shutdown_in_order s : leads (started n) s -> storeOpen s = false ->
  txs s = O /\
  exists s1 s2 s3 d, leads (started n) s1 /\ server_stopped s1 s2 /\ waited s2 s3 d /\
    leads s3 s /\ storeOpen s3 = true /\
    (d = true -> http s = HDone /\ forall i, workers s !! i <> Some true).
Proof.
  intros Hr Hst. pose proof (leads_inv n s Hr) as Hi. split; [by apply inv_txs|]. pose proof (leads_past s Hr) as Hp.
  pose proof (inv_store s Hi) as I1. pose proof (inv_drain s Hi) as I2. rewrite Hst in I1. unfold past, drainOk in *.
  assert (exists s1 s2 s3 d, (leads (started n) s1 /\ server_stopped s1 s2 /\ waited s2 s3 d /\ leads s3 s) /\
    (d = true -> drained s = true)) as (s1 & s2 & s3 & d & (H1 & H2 & H3 & H4) & Hd).
  { destruct (main s); try done; destruct Hp as (s1 & s2 & s3 & Hp); exists s1, s2, s3; eexists; by split. }
  assert (leads (started n) s3) as Hr3.
  { destruct H1 as [e1 H1], (ss_order _ _ H2) as [e2 He2], (w_order _ _ _ H3) as [e3 He3].
    exists (e1 ++ e2 ++ e3). rewrite !steps_app, H1. simpl. rewrite steps_app, He2. exact He3. }
  exists s1, s2, s3, d. split_and!; try done.
  - rewrite (inv_store s3 (leads_inv n s3 Hr3)), (w_end _ _ _ H3). done.
  - intros Hd'. apply Hd, andb_true_iff in Hd' as [Hws Hh]. split; [by destruct (http s)|]. intros i. by apply drained_ended.
Qed.
End order.

(** ** Its end *)

(** How many steps the main goroutine has left. *)
Definition rank (s : t) : nat :=
  match main s with
  | MWait => 7 | MShutdown => 6 | MClosing _ => 5 | MDrain _ => 4 | MSelect _ => 3 | MClose _ _ => 2 | MCancel _ _ => 1 | MReturned _ _ => 0
  end.

(** The main goroutine waits. *)
Definition blocked (s : t) : Prop := mainStep MainStep s = None /\ mainStep MainTimeout s = None.

(** A run in which the main goroutine is not kept from running: time passes only while
    it waits. *)
Fixpoint prompt (evs : list Event) (s : t) : Prop :=
  match evs with
  | [] => True
  | ev :: evs =>
      match ev with Tick d => blocked (elapse (d - 1) s) | _ => True end /\
      match step ev s with Some s' => prompt evs s' | None => True end
  end.

Lemma mainStep_rank ev s s' : mainStep ev s = Some s' -> (rank s' < rank s)%nat.
Proof.
  unfold rank, mainStep, shutdown, waitTimeout, Shutdown, closeStore. destruct (main s), ev; repeat case_match; try done; intros [= <-]; simpl in *; simplify_eq; lia.
Qed.

Lemma step_rank ev s s' : step ev s = Some s' -> (rank s' + (if of_main ev then 1 else 0) <= rank s)%nat.
Proof.
  intros Hs. destruct (of_main ev) eqn:Hm.
  - destruct ev; try done. apply mainStep_rank in Hs. lia.
  - unfold rank. rewrite (o_main _ _ (step_others _ _ _ Hs Hm)). lia.
Qed.

Lemma step_ctx ev s s' : step ev s = Some s' -> ctxDone s = true -> ctxDone s' = true.
Proof.
  intros Hs Hc. destruct (of_main ev) eqn:Hm; [|by eapply others_ctx; [eapply step_others|]].
  destruct ev; try done. revert Hs. simpl. unfold mainStep, shutdown, waitTimeout, Shutdown, closeStore.
  destruct (main s), ev; repeat case_match; try done; intros [= <-]; try done. unfold ctxDone. simpl. by rewrite orb_true_r.
Qed.

(** The time the main goroutine can still spend waiting before it reads [serveErr]. *)
Definition remaining (s : t) : Z :=
  match main s with
  | MWait | MShutdown => serverShutdownTimeout + drainTimeout
  | MClosing deadline => Z.max 0 (deadline - now s) + drainTimeout
  | MDrain deadline => Z.max 0 (deadline - now s)
  | _ => 0
  end.

Definition waiting (s : t) : bool := match main s with MWait | MShutdown | MClosing _ | MDrain _ => true | _ => false end.

Lemma remaining_main ev s s' : inv s -> mainStep ev s = Some s' -> waiting s' = true -> now s' + remaining s' <= now s + remaining s.
Proof.
  intros _. unfold remaining, waiting, mainStep, shutdown, waitTimeout, Shutdown, closeStore, serverShutdownTimeout, drainTimeout, Backoff.Second.
  destruct (main s) as [| |dl|dl|d|d r|d r|d r], ev; repeat case_match; try done; intros [= <-]; simpl in *; simplify_eq; lia.
Qed.

Lemma blocked_waits s : ctxDone s = true -> waiting s = true -> blocked s ->
  match main s with MClosing deadline | MDrain deadline => now s < deadline | _ => False end.
Proof.
  unfold waiting, blocked, mainStep, shutdown, waitTimeout, shutdownReturns, Shutdown, closeStore. intros Hc Hw [H1 H2].
  destruct (main s); rewrite ?Hc in *; try done; case_match; simplify_eq; bool_to_prop; lia.
Qed.

Lemma remaining_step ev s s' : ctxDone s = true -> inv s -> step ev s = Some s' -> prompt [ev] s -> waiting s' = true ->
  waiting s = true /\ now s' + remaining s' <= now s + remaining s.
Proof.
  intros Hc Hi Hs [Hp _] Hw. destruct (of_main ev) eqn:Hm.
  - destruct ev; try done. split; [|by eapply remaining_main]. revert Hs Hw. simpl.
    unfold waiting, mainStep, shutdown, waitTimeout, Shutdown, closeStore.
    destruct (main s), ev; repeat case_match; try done; intros [= <-]; simpl in *; simplify_eq; done.
  - pose proof (step_others _ _ _ Hs Hm) as [O1 _ _ _ _ O6 _ _]. assert (waiting s = true) as Hw1 by (unfold waiting in *; by rewrite O1 in Hw).
    split; [done|]. destruct ev as [|ev|i| | | | |d|ev]; try done;
      try (assert (now s' = now s) as Hn by (revert Hs; simpl; unfold httpStep, ListenAndServe; repeat case_match; try done; intros [= <-]; done);
           unfold remaining; rewrite O1, Hn; lia).
    simpl in Hs. destruct (Z.ltb_spec 0 d); [|done]. injection Hs as <-.
    pose proof (blocked_waits (elapse (d - 1) s) Hc Hw1 Hp) as Hb. unfold remaining. simpl in *. destruct (main s); try done; lia.
Qed.

Lemma prompt_snoc evs ev s s1 : prompt (evs ++ [ev]) s -> steps evs s = Some s1 -> prompt evs s /\ prompt [ev] s1.
Proof.
  revert s. induction evs as [|e evs IH]; intros s; cbn [app prompt steps]; [by intros Hp [= <-]|].
  destruct (step e s) as [s2|]; [|done]. simpl. intros [H1 H2] Hs. by destruct (IH s2 H2 Hs).
Qed.

(** What the main goroutine can wait for. *)
Lemma blocked_reason s : ctxDone s = true -> blocked s ->
  match main s with
  | MClosing deadline => (0 < active s)%nat /\ now s < deadline
  | MDrain deadline => drained s = false /\ now s < deadline
  | MClose _ _ => (0 < txs s)%nat
  | MReturned _ _ => True
  | _ => False
  end.
Proof.
  unfold blocked, mainStep, shutdown, waitTimeout, shutdownReturns, closeStore. intros Hc [H1 H2].
  destruct (main s) as [| |dl|dl|d|d r|d r|d r]; rewrite ?Hc in *; try done.
  - destruct (Nat.eqb_spec (active s) 0), (Z.leb_spec dl (now s)); try done. lia.
  - destruct (drained s), (Z.leb_spec dl (now s)); done.
  - destruct (Nat.eqb_spec (txs s) 0); [done|lia].
Qed.

Lemma steps_rank evs s s' : steps evs s = Some s' -> (length (filter of_main evs) + rank s' <= rank s)%nat.
Proof.
  revert s. induction evs as [|ev evs IH]; intros s; simpl; [intros [= <-]; simpl; lia|].
  destruct (step ev s) as [s1|] eqn:Hs; [|done]. simpl. intros Hr. specialize (IH s1 Hr). apply step_rank in Hs.
  rewrite filter_cons. case_decide as Hd; destruct (of_main ev); simpl in *; try done; lia.
Qed.

(** The events of a run in which only the main goroutine, time and the end of open
    transactions take part. *)
Definition quiet_event (ev : Event) : bool := match ev with Main _ | Tick _ | TxEnd => true | _ => false end.

Lemma prompt_app evs evs' s s' : steps evs s = Some s' -> prompt evs s -> prompt evs' s' -> prompt (evs ++ evs') s.
Proof.
  revert s. induction evs as [|ev evs IH]; intros s; cbn [app prompt steps]; [by intros [= <-]|].
  destruct (step ev s) as [s1|]; [|done]. simpl. intros Hs [H1 H2] H3. split; [done|by apply IH].
Qed.

Lemma closing_transactions s k : txs s = k -> exists s',
  steps (replicate k TxEnd) s = Some s' /\ prompt (replicate k TxEnd) s /\ txs s' = O /\ main s' = main s /\ ctxDone s' = ctxDone s.
Proof.
  revert s. induction k as [|k IH]; intros s Hk; [by exists s|]. cbn [replicate steps prompt step]. rewrite Hk. simpl.
  destruct (IH (with_load (active s) k s)) as (s' & H1 & H2 & H3 & H4 & H5); [done|]. by exists s'.
Qed.

(** A wait of the main goroutine ends, in the last place by its deadline. *)
Lemma unblocked s : ctxDone s = true -> rank s <> O -> exists evs s1 ev s2,
  steps evs s = Some s1 /\ prompt evs s /\ Forall (fun ev => quiet_event ev = true) evs /\ rank s1 = rank s /\ mainStep ev s1 = Some s2.
Proof.
  intros Hc Hr. destruct (mainStep MainStep s) as [s2|] eqn:H1; [by exists [], s, MainStep, s2|].
  destruct (mainStep MainTimeout s) as [s2|] eqn:H2; [by exists [], s, MainTimeout, s2|].
  assert (forall dl, (main s = MClosing dl /\ (0 < active s)%nat \/ main s = MDrain dl /\ drained s = false) -> now s < dl ->
    exists evs s1 ev s2, steps evs s = Some s1 /\ prompt evs s /\ Forall (fun ev => quiet_event ev = true) evs /\ rank s1 = rank s /\ mainStep ev s1 = Some s2) as Htick.
  { intros dl Hm Hn. assert (now s + (dl - now s) = dl) as Hdl by lia.
    assert (step (Tick (dl - now s)) s = Some (elapse (dl - now s) s)) as Hs.
    { cbn [step]. by rewrite (proj2 (Z.ltb_lt 0 (dl - now s))) by lia. }
    assert (blocked (elapse (dl - now s - 1) s)) as Hb.
    { unfold blocked, mainStep, shutdown, shutdownReturns, waitTimeout. cbn [main elapse now active].
      destruct Hm as [[-> Ha]|[-> Ha]]; rewrite (proj2 (Z.leb_gt dl _)) by lia; (split; [|done]).
      - destruct (Nat.eqb_spec (active s) 0); [lia|done].
      - change (drained (elapse (dl - now s - 1) s)) with (drained s). by rewrite Ha. }
    assert (exists s2, mainStep MainTimeout (elapse (dl - now s) s) = Some s2) as [s2 Hs2].
    { unfold mainStep, shutdown, shutdownReturns, waitTimeout. cbn [main elapse now].
      destruct Hm as [[-> Ha]|[-> Ha]]; rewrite Hdl, Z.leb_refl; by eexists. }
    exists [Tick (dl - now s)], (elapse (dl - now s) s), MainTimeout, s2. cbn [steps prompt]. rewrite Hs.
    split; [done|]. split; [by split|]. split; [by repeat constructor|done]. }
  pose proof (blocked_reason s Hc (conj H1 H2)) as Hb. destruct (main s) as [| |dl|dl|d|d r|d r|d r] eqn:Hm; try done.
  - apply (Htick dl); [left|]; tauto.
  - apply (Htick dl); [right|]; tauto.
  - destruct (closing_transactions s (txs s) eq_refl) as (s1 & Hs1 & Hp1 & Ht1 & Hm1 & _).
    exists (replicate (txs s) TxEnd), s1, MainStep. unfold mainStep, closeStore. rewrite Hm1, Hm, Ht1. eexists. split_and!; [done|done| | |done].
    + by apply Forall_replicate.
    + unfold rank. by rewrite Hm1.
  - unfold rank in Hr. by rewrite Hm in Hr.
Qed.

Lemma steps_ctx evs s s' : steps evs s = Some s' -> ctxDone s = true -> ctxDone s' = true.
Proof.
  revert s. induction evs as [|ev evs IH]; intros s; simpl; [by intros [= <-]|].
  destruct (step ev s) as [s1|] eqn:Hs; [|done]. intros Hr Hc. eapply IH; [exact Hr|by eapply step_ctx].
Qed.

Lemma completes k s : rank s = k -> ctxDone s = true -> exists evs s' d r,
  steps evs s = Some s' /\ prompt evs s /\ Forall (fun ev => quiet_event ev = true) evs /\ main s' = MReturned d r.
Proof.
  revert s. induction k as [k IH] using lt_wf_ind. intros s Hk Hc. destruct (decide (k = O)) as [->|Hne].
  { unfold rank in Hk. destruct (main s) as [| |dl|dl|d|d r|d r|d r] eqn:Hm; try done. by exists [], s, d, r. }
  destruct (unblocked s Hc) as (evs & s1 & ev & s2 & Hs1 & Hp1 & Hq1 & Hr1 & Hs2); [congruence|].
  pose proof (mainStep_rank _ _ _ Hs2) as Hlt.
  destruct (IH (rank s2)) with (s := s2) as (evs' & s' & d & r & Hs' & Hp' & Hq' & Hm'); [lia|done|eapply (step_ctx (Main ev)); [exact Hs2|by eapply steps_ctx]|].
  exists (evs ++ Main ev :: evs'), s', d, r. rewrite steps_app, Hs1. cbn [mbind option_bind steps step]. rewrite Hs2. split_and!; [done| | |done].
  - eapply prompt_app; [done|done|]. cbn [prompt step]. by rewrite Hs2.
  - apply Forall_app. split; [done|]. by constructor.
Qed.

(** C38: shutting down ends.  From any moment at which the context is done, whatever the
    other goroutines, the requests and the transactions do, and as long as the main
    goroutine is run when it can: it takes at most seven steps more; thirty-five seconds
    later it is past its two waits, and until then it waits only for active requests
    or for goroutines that still run, each before its deadline; after that nothing but an
    open transaction of the state file keeps it from its next step; and it does return,
    with no help but that these transactions end. *)
Theorem shutdown_ends n s0 evs s :
  leads (started n) s0 -> ctxDone s0 = true -> steps evs s0 = Some s -> prompt evs s0 ->
  (length (filter of_main evs) + rank s <= 7)%nat /\
  (waiting s = true -> now s <= now s0 + 35 * Backoff.Second) /\
  (blocked s ->
     match main s with
     | MClosing deadline => (0 < active s)%nat /\ now s < deadline
     | MDrain deadline => drained s = false /\ now s < deadline
     | MClose _ _ => (0 < txs s)%nat
     | MReturned _ _ => True
     | _ => False
     end) /\
  exists evs' s' d r, steps evs' s = Some s' /\ prompt evs' s /\
    Forall (fun ev => match ev with Main _ | Tick _ | TxEnd => True | _ => False end) evs' /\ main s' = MReturned d r.
Proof.
  intros Hr Hc Hs Hp.
  assert (inv s /\ ctxDone s = true /\ (waiting s = true -> now s + remaining s <= now s0 + (serverShutdownTimeout + drainTimeout))) as (Hi & Hc' & Hw).
  { revert Hp. pattern evs, s. revert evs s Hs. apply steps_ind.
    - intros _. pose proof (leads_inv n s0 Hr) as Hi. split_and!; [done|done|]. intros _. destruct Hi as [_ _ _ _ I5].
      unfold remaining, serverShutdownTimeout, drainTimeout, Backoff.Second in *. destruct (main s0); lia.
    - intros evs ev s1 s2 Hs1 IH Hev Hp. destruct (prompt_snoc _ _ _ _ Hp Hs1) as [Hp1 Hp2]. destruct (IH Hp1) as (Hi & Hc1 & Hw).
      split_and!; [by eapply inv_step|by eapply step_ctx|]. intros Hw2.
      destruct (remaining_step ev s1 s2) as [Hw1 Hle]; try done. specialize (Hw Hw1). lia. }
  split_and!.
  - pose proof (steps_rank _ _ _ Hs). assert (rank s0 <= 7)%nat by (unfold rank; destruct (main s0); lia). lia.
  - intros Hw'. specialize (Hw Hw'). assert (0 <= remaining s) by (unfold remaining, serverShutdownTimeout, drainTimeout, Backoff.Second; destruct (main s); lia).
    unfold serverShutdownTimeout, drainTimeout in Hw. lia.
  - by apply blocked_reason.
  - destruct (completes (rank s) s eq_refl Hc') as (evs' & s' & d & r & H1 & H2 & H3 & H4). exists evs', s', d, r. split_and!; try done.
    eapply Forall_impl; [exact H3|]. by intros [].
Qed.

(** ** What [Run] returns *)

(** Why the context is canceled, and where the error of the server is. *)
Record why (evs : list Event) (s : t) : Prop := {
  y_cancel : canceled s = true -> signaled s = true \/ is_Some (serveErr s) \/ (exists e, result s = Some (Some e)) \/
    exists d r, main s = MReturned d r;
  y_sent : http s = HSent -> is_Some (serveErr s) \/ is_Some (result s);
  y_result : result s = Some None -> signaled s = true;
  y_http e : http s = HFailed e -> servingFailed evs e;
  y_serve e : serveErr s = Some e -> servingFailed evs e;
  y_error e : result s = Some (Some e) -> servingFailed evs e;
}.

Lemma servingFailed_snoc evs ev e : servingFailed evs e -> servingFailed (evs ++ [ev]) e.
Proof. intros (x & -> & Hx). exists x. split; [done|]. rewrite !elem_of_app. tauto. Qed.

Lemma why_other evs s s' ev : why evs s -> others s s' -> canceled s' = canceled s -> http s' = http s -> serveErr s' = serveErr s -> why (evs ++ [ev]) s'.
Proof.
  intros [Y1 Y2 Y3 Y4 Y5 Y6] [O1 _ O3 _ _ _ _ _] Hc Hh Hse.
  assert (result s' = result s) as Hr by (unfold result; by rewrite O1). split; rewrite ?Hr, ?Hh, ?Hc, ?Hse, ?O1; auto using servingFailed_snoc.
  intros Hcn. destruct (Y1 Hcn) as [?|?]; [left; auto|by right].
Qed.

Lemma why_http evs ev s s' : why evs s -> httpStep ev s = Some s' -> why (evs ++ [Http ev]) s'.
Proof.
  intros [Y1 Y2 Y3 Y4 Y5 Y6]. assert (forall e, servingFailed evs e -> servingFailed (evs ++ [Http ev]) e) as Hsn by (intros; by apply servingFailed_snoc).
  assert (Http ev ∈ evs ++ [Http ev]) as Hin by (apply elem_of_app; right; by left).
  destruct s as [sg cn hs sh ht ws se mn so nw ac tx]. unfold httpStep, ListenAndServe, result in *. simpl in *.
  destruct ev as [|x|x| | |], ht; try done; intros [= <-]; (split; simpl; auto; try done).
  all: try (destruct sh; [done|]); try (destruct x as [x|]; [|done]); try (intros e' [= <-]; exists x; split; [done|]; tauto); try done; eauto.
  - intros e' [= <-]. apply Hsn. by apply Y4.
  - intros _. destruct (Y2 eq_refl) as [Hse|[[e|] Hr]]; [by right; left| |left; by apply Y3]. right; right; left. by exists e.
Qed.

(** The main goroutine before it knows its result. *)
Lemma why_early evs ev s s' : why evs s -> result s = None -> result s' = None -> signaled s' = signaled s -> canceled s' = canceled s ->
  http s' = http s -> serveErr s' = serveErr s -> why (evs ++ [ev]) s'.
Proof.
  intros [Y1 Y2 Y3 Y4 Y5 Y6] Hr Hr' Hs Hc Hh Hse. split; rewrite ?Hr', ?Hh, ?Hc, ?Hse, ?Hs; auto using servingFailed_snoc; try done.
  - intros Hcn. destruct (Y1 Hcn) as [?|[?|[[e He]|(d & r & Hm)]]]; [by left|by right; left|congruence|].
    unfold result in Hr. by rewrite Hm in Hr.
  - intros Hx. destruct (Y2 Hx) as [?|[r ?]]; [by left|congruence].
Qed.

Lemma why_main evs ev s s' : inv s -> why evs s -> mainStep ev s = Some s' -> why (evs ++ [Main ev]) s'.
Proof.
  intros Hi Hy. unfold mainStep, shutdown, waitTimeout, shutdownReturns, Shutdown, closeStore.
  destruct (main s) as [| |dl|dl|d|d r|d r|d r] eqn:Hm, ev; try done.
  1-6: repeat case_match; try done; intros [= <-]; apply (why_early _ _ s); unfold result; by rewrite ?Hm.
  - intros [= <-]. pose proof (inv_ctx s Hi ltac:(by rewrite Hm)) as Hctx. destruct Hy as [Y1 Y2 Y3 Y4 Y5 Y6].
    assert (serveErr s = None -> signaled s = true) as Hsg.
    { intros Hse. destruct (signaled s) eqn:Hs; [done|]. unfold ctxDone in Hctx. rewrite Hs in Hctx. unfold result in Y1. rewrite Hm, Hse in Y1.
      destruct (Y1 Hctx) as [?|[[? ?]|[[? ?]|(? & ? & ?)]]]; done. }
    split; unfold result; simpl; auto using servingFailed_snoc; try done.
    + intros Hc. destruct (serveErr s) as [e|]; [right; right; left; by exists e|left; by apply Hsg].
    + intros [= Hse]. by apply Hsg.
    + intros e [= Hse]. by apply servingFailed_snoc, Y5.
  - case_match; [|done]. intros [= <-]. destruct Hy as [Y1 Y2 Y3 Y4 Y5 Y6]. unfold result in *. rewrite Hm in *.
    split; unfold result; simpl; auto using servingFailed_snoc.
    intros Hc. destruct (Y1 Hc) as [?|[?|[?|(? & ? & ?)]]]; [by left|by right; left|by right; right; left|done].
  - intros [= <-]. destruct Hy as [Y1 Y2 Y3 Y4 Y5 Y6]. unfold result in *. rewrite Hm in *.
    split; unfold result; simpl; auto using servingFailed_snoc. intros _. right; right; right. by exists d, r.
Qed.

Lemma why_step evs ev s s' : inv s -> why evs s -> step ev s = Some s' -> why (evs ++ [ev]) s'.
Proof.
  intros Hi Hy Hs. destruct ev as [|ev|i| | | | |d|ev]; try (by eapply why_main); try (by eapply why_http);
    (eapply why_other; [done|by eapply step_others|..]; revert Hs; unfold step; repeat case_match; try done; intros [= <-]; done).
Qed.

Lemma steps_why n evs s : steps evs (started n) = Some s -> why evs s.
Proof.
  apply (steps_ind _ why); [by split|]. intros evs' ev s1 s2 Hr Hy Hs. eapply why_step; [|done|done].
  apply (leads_inv n). by exists evs'.
Qed.

(** *** The start *)

(** What comes of the start of [Run]: an error, with the state file open or not, or the
    engine, over which everything is then started. *)
Inductive beginning (E : Type) := Refused (opened : bool) (e : err) | Begun (eng : E).
Arguments Refused {E} _ _.
Arguments Begun {E} _.

Section run.
Context `{Sdk} `{Prometheus} `{Bolt} `{Gob UTXO} `{Gob PendingBroadcast} {W : Type} `{World W}.
Context (mkdir : string -> option err) (cfg : Config.Config) (history : list (PendingBroadcast * bool)) (w : W).

Abbreviation E := (Engine (D:=DB) (W:=W)).

(** [Run] down to the goroutines: the mode, the state file, and what is built over it. *)
Definition begin : beginning E :=
  match NewMode (Config.PrivateKey cfg) (Config.InstanceID cfg) (Config.SustainFee cfg) with
  | Err e => Refused false (Wrap "configure transaction mode" e)
  | Ok _ =>
      match Open mkdir (Config.StatePath cfg) with
      | Err e => Refused false e
      | Ok st =>
          match (run (App.start cfg history) (App.mkBoot st w)).1 with
          | Err e => Refused true e
          | Ok eng => Begun eng
          end
      end
  end.

(** The state in which that leaves the process.  An early return runs what is deferred by
    then: the file is closed if it was opened, and the context is canceled; no goroutine
    has been started. *)
Definition begins (n : nat) (b : beginning E) : t :=
  match b with
  | Refused opened e =>
      mkState false false false false HDone [] None (if opened then MClose false (Some e) else MCancel false (Some e)) opened 0 0 0
  | Begun _ => started n
  end.

(** The errors with which [Run] gives up before anything is started. *)
Inductive start_error : err -> Prop :=
  | se_mode x : NewMode (Config.PrivateKey cfg) (Config.InstanceID cfg) (Config.SustainFee cfg) = Err x ->
      start_error (Wrap "configure transaction mode" x)
  | se_open mode x :
      NewMode (Config.PrivateKey cfg) (Config.InstanceID cfg) (Config.SustainFee cfg) = Ok mode ->
      Open mkdir (Config.StatePath cfg) = Err x -> start_error x
  | se_load mode st x :
      NewMode (Config.PrivateKey cfg) (Config.InstanceID cfg) (Config.SustainFee cfg) = Ok mode ->
      Open mkdir (Config.StatePath cfg) = Ok st -> LoadAll st = Err x -> start_error (Wrap "restore UTXOs" x)
  | se_guard mode st utxos b x :
      NewMode (Config.PrivateKey cfg) (Config.InstanceID cfg) (Config.SustainFee cfg) = Ok mode ->
      Open mkdir (Config.StatePath cfg) = Ok st -> LoadAll st = Ok utxos ->
      run (App.ensureStateMatchesMode mode (negb (bool_decide (utxos = [])))) (App.mkBoot st w) = (Some x, b) -> start_error x
  | se_fetch mode st b x w' :
      NewMode (Config.PrivateKey cfg) (Config.InstanceID cfg) (Config.SustainFee cfg) = Ok mode ->
      Open mkdir (Config.StatePath cfg) = Ok st -> LoadAll st = Ok [] ->
      run (App.ensureStateMatchesMode mode false) (App.mkBoot st w) = (None, b) ->
      FetchUTXOs (ModeScriptHash mode) (App.b_world b) = (Err x, w') -> start_error (Wrap "fetch UTXOs" x)
  | se_engine mode st utxos b x :
      NewMode (Config.PrivateKey cfg) (Config.InstanceID cfg) (Config.SustainFee cfg) = Ok mode ->
      Open mkdir (Config.StatePath cfg) = Ok st ->
      run (App.initialUTXOs mode) (App.mkBoot st w) = (Ok utxos, b) ->
      Engine.New (App.engineOptions cfg mode (App.b_store b) utxos Metrics.New) (App.b_world b) history = Err x ->
      start_error (Wrap "start engine" x).

Lemma initialUTXOs_error mode st e b :
  NewMode (Config.PrivateKey cfg) (Config.InstanceID cfg) (Config.SustainFee cfg) = Ok mode ->
  Open mkdir (Config.StatePath cfg) = Ok st ->
  run (App.initialUTXOs mode) (App.mkBoot st w) = (Err e, b) -> start_error e.
Proof.
  intros Hmode Hst. unfold App.initialUTXOs, mbind, prog_bind. cbn [gets act pbind run App.b_store].
  change (ds_LoadAll st) with (LoadAll st). destruct (LoadAll st) as [utxos|x] eqn:Hl; [|intros [= <- _]; by eapply se_load].
  rewrite run_bind. destruct (run (App.ensureStateMatchesMode mode _) _) as [[x|] b1] eqn:Hg; cbn [run].
  { intros [= <- _]. by eapply se_guard. }
  case_bool_decide as Hu; cbn [negb]; [|by intros [=]]. subst utxos. rewrite run_bind. cbn [App.outside act run].
  destruct (FetchUTXOs (ModeScriptHash mode) (App.b_world b1)) as [[us|x] w1] eqn:Hf; cbn [run]; [by intros [=]|].
  intros [= <- _]. by eapply se_fetch.
Qed.

Lemma begin_error o e : begin = Refused o e -> start_error e.
Proof.
  unfold begin. destruct (NewMode _ _ _) as [mode|x] eqn:Hmode; [|intros [= _ <-]; by apply se_mode].
  destruct (Open _ _) as [st|x] eqn:Hst; [|intros [= _ <-]; by eapply se_open].
  unfold App.start. rewrite Hmode. unfold mbind, prog_bind. rewrite run_bind.
  destruct (run (App.initialUTXOs mode) (App.mkBoot st w)) as [[utxos|x] b] eqn:Hi; cbn [run].
  - cbn [gets act pbind run fst]. destruct (Engine.New _ _ _) as [eng|x] eqn:He; cbn [run fst]; [done|].
    intros [= _ <-]. by eapply se_engine.
  - cbn [fst]. intros [= _ <-]. by eapply initialUTXOs_error.
Qed.

(** After an early return nothing runs, and its error stays. *)
Lemma refused_steps n o e evs s : steps evs (begins n (Refused o e)) = Some s ->
  http s = HDone /\ workers s = [] /\ result s = Some (Some e) /\
  storeOpen s = match main s with MClose _ _ => true | _ => false end.
Proof.
  apply (steps_ind _ (fun _ s => http s = HDone /\ workers s = [] /\ result s = Some (Some e) /\
    storeOpen s = match main s with MClose _ _ => true | _ => false end)); [by destruct o|].
  intros _ ev s1 s2 _ (Hh & Hw & Hr & Hst) Hs. destruct (of_main ev) eqn:Hm.
  - destruct ev as [|ev|i| | | | |d|ev]; try done. revert Hs. simpl. unfold result, mainStep, shutdown, closeStore in *.
    destruct (main s1), ev; repeat case_match; try done; intros [= <-]; simpl; split_and!; simpl in *; simplify_eq; done.
  - pose proof (step_others _ _ _ Hs Hm) as [O1 O2 _ _ _ _ _ _]. unfold result. rewrite O1, O2. split_and!; [| |done|done].
    + destruct ev as [|ev|i| | | | |d|ev]; try done; revert Hs; unfold step, httpStep, ListenAndServe; rewrite ?Hh, ?Hw; repeat case_match; try done; intros [= <-]; done.
    + destruct ev as [|ev|i| | | | |d|ev]; try done; revert Hs; unfold step, httpStep, ListenAndServe; rewrite ?Hh, ?Hw; repeat case_match; try done; intros [= <-]; done.
Qed.

(** C39: what [Run] returns, with the state file closed in every case.  When it cannot
    start it returns why, the error of the mode, of opening the file, of its UTXOs, of its
    lock script, of the lookup or of the engine, and has started nothing.  Once started,
    it returns nil only if the context it was given is done, so a process that stops by
    itself reports why; and an error it returns is the one with which the server could
    not listen or stopped serving. *)
Theorem Run_result n evs s d r : steps evs (begins n begin) = Some s -> main s = MReturned d r ->
  storeOpen s = false /\
  match begin with
  | Refused _ e => r = Some e /\ start_error e /\ workers s = [] /\ http s = HDone
  | Begun _ => match r with None => signaled s = true | Some e => servingFailed evs e end
  end.
Proof.
  intros Hs Hm. pose proof begin_error as Hbe. destruct begin as [o e|eng]; cbn [begins] in Hs.
  - destruct (refused_steps n o e evs s Hs) as (Hh & Hw & Hr & Hst). rewrite Hm in Hst. unfold result in Hr. rewrite Hm in Hr.
    injection Hr as ->. split_and!; try done. by eapply Hbe.
  - pose proof (steps_why n evs s Hs) as [_ _ Y3 _ _ Y6]. split.
    + rewrite (inv_store s), Hm; [done|]. apply (leads_inv n). by exists evs.
    + unfold result in Y3, Y6. rewrite Hm in Y3, Y6. destruct r as [e|]; [by apply Y6|by apply Y3].
Qed.
End run.

(** A shutdown that comes before the server has been set misses it: the server then
    begins to listen and serves on while the wait for it times out, after the state
    file was closed and until the process ends. *)
Theorem early_shutdown_misses_server n : exists s, leads (started n) s /\
  main s = MReturned false None /\ storeOpen s = false /\ httpServer s = true /\ inShutdown s = false /\ http s = HServing.
Proof.
  exists (mkState true true true false HServing (replicate n true) None (MReturned false None) false drainTimeout 0 0). split; [|done].
  exists [Signal; Main MainStep; Main MainStep; Http HttpSet; Http (HttpListen None); Tick drainTimeout; Main MainTimeout; Main MainStep; Main MainStep; Main MainStep].
  unfold started. generalize (replicate n true). reflexivity.
Qed.

(** ** A run *)

(** Listening fails: the error is sent, the context canceled, and the others end. *)
Definition failing : list Event :=
  [Http HttpSet; Http (HttpListen (Some (External "address in use"))); Http HttpSend; Http HttpCancel; Ended 0; Main MainStep; Main MainStep;
   Main MainStep; TxBegin; Tick Backoff.Second; TxEnd; Ended 1; Main MainStep; Main MainStep; Main MainStep; Main MainStep].

Definition failed : t :=
  mkState false true true true HDone [false; false] None (MReturned true (Some (listenErr (External "address in use")))) false Backoff.Second 0 0.

Lemma failed_reachable : leads (started 2) failed.
Proof. exists failing. reflexivity. Qed.

Lemma shutdown_in_order_witness : storeOpen failed = false /\
  exists s1 s2, server_stopped s1 s2 /\ leads s2 failed.
Proof.
  split; [reflexivity|].
  destruct (shutdown_in_order 2 failed failed_reachable eq_refl) as (_ & s1 & s2 & s3 & d & _ & H2 & [_ [e3 H3] _] & [e4 H4] & _).
  exists s1, s2. split; [exact H2|]. exists (e3 ++ e4). rewrite steps_app, H3. exact H4.
Defined.

(** A signal while the server runs a request and a worker hangs: the first wait is over
    after five seconds, the second after thirty more. *)
Definition signaledState : t := mkState true false true false HServing [true] None MWait true 7 1 0.

Definition slow : list Event :=
  [Main MainStep; Main MainStep; Tick serverShutdownTimeout; Main MainTimeout; Tick drainTimeout; TxBegin].

Lemma shutdown_ends_witness : exists s, steps slow signaledState = Some s /\ waiting s = true /\ now s = 7 + 35 * Backoff.Second /\
  exists evs' s' d r, steps evs' s = Some s' /\ main s' = MReturned d r.
Proof.
  destruct (steps slow signaledState) as [s|] eqn:Hs; [|discriminate].
  destruct (shutdown_ends 1 signaledState slow s) as (_ & _ & _ & evs' & s' & d & r & H1 & _ & _ & H4).
  - exists [Http HttpSet; Http (HttpListen None); RequestBegin; Tick 7; Signal]. reflexivity.
  - reflexivity.
  - exact Hs.
  - vm_compute. tauto.
  - exists s. injection Hs as <-. split; [reflexivity|]. split; [reflexivity|]. split; [reflexivity|]. exists evs', s', d, r. split; [exact H1|exact H4].
Defined.
End Lifecycle.
