(* ===== verification/Command.v ===== *)
(** * The command (cmd/tx-gen/main.go) and its logger (internal/app/app.go,
    [NewLogger])

    [run]: the flags, the configuration, the logger and the exit code.  What [app.Run]
    returns is an argument: it is [App.start]'s error or the result of [Lifecycle].  The
    build metadata that the linker sets and that [debug.ReadBuildInfo] reports are
    arguments too. *)

From S2P Require Import Prelude Text Strconv Json Config.
Open Scope Z_scope.

Module Command.
Import Utf8 Strconv.

(** ** The [flag] package *)

(** [strconv.ParseBool] *)
Definition ParseBool (s : bytes) : option bool :=
  if bool_decide (s ∈ to_bytes <$> ["1"; "t"; "T"; "true"; "TRUE"; "True"]%string) then Some true
  else if bool_decide (s ∈ to_bytes <$> ["0"; "f"; "F"; "false"; "FALSE"; "False"]%string) then Some false else None.

(** Why [Parse] fails. *)
Inductive FlagError :=
  | ErrHelp
  | BadSyntax (arg : bytes)
  | NotDefined (name : bytes)
  | InvalidBool (value name : bytes).

(** The name and the value of a flag: an equals sign that is not first separates
    them. *)
Fixpoint cutValue (s : bytes) : bytes * option bytes :=
  match s with
  | [] => ([], None)
  | b :: s => if bool_decide (b = x3d) then ([], Some s) else let '(name, v) := cutValue s in (b :: name, v)
  end.

(** One argument: it is not a flag, it ends the flags, it fails, or it sets the version
    flag. *)
Inductive Arg := NotFlag | EndOfFlags | Fails (e : FlagError) | Sets (v : bool).

Definition flagArg (arg name : bytes) : Arg :=
  match name with
  | [] => Fails (BadSyntax arg)
  | b :: rest =>
      if bool_decide (b = x2d) || bool_decide (b = x3d) then Fails (BadSyntax arg) else
      let '(name, value) := cutValue rest in
      let name := b :: name in
      if bool_decide (name = to_bytes "version") then
        match value with
        | None => Sets true
        | Some v => match ParseBool v with Some x => Sets x | None => Fails (InvalidBool v name) end
        end
      else if bool_decide (name = to_bytes "help") || bool_decide (name = to_bytes "h") then Fails ErrHelp
      else Fails (NotDefined name)
  end.

Definition parseOne (arg : bytes) : Arg :=
  match arg with
  | b :: c :: rest =>
      if negb (bool_decide (b = x2d)) then NotFlag
      else if bool_decide (c = x2d) then (if bool_decide (rest = []) then EndOfFlags else flagArg arg rest)
      else flagArg arg (c :: rest)
  | _ => NotFlag
  end.

(** [flags.Parse]: the version flag, or an error. *)
Fixpoint Parse (showVersion : bool) (args : list bytes) : bool + FlagError :=
  match args with
  | [] => inl showVersion
  | arg :: args =>
      match parseOne arg with
      | NotFlag | EndOfFlags => inl showVersion
      | Fails e => inr e
      | Sets v => Parse v args
      end
  end.

(** ** The logger *)

Definition LevelDebug : Z := -4.
Definition LevelInfo : Z := 0.
Definition LevelWarn : Z := 4.
Definition LevelError : Z := 8.

(** [unicode.ToUpper], and [strings.ToUpper]; as for [lower], of the runes beyond ASCII
    only those whose upper case is an ASCII letter are mapped. *)
Definition upper (r : Z) : Z :=
  if (97 <=? r) && (r <=? 122) then r - 32
  else if r =? 0x131 then 73 else if r =? 0x17F then 83 else r.

Definition ToUpper (s : bytes) : bytes := encode (upper <$> runes s).

(** [s] up to its first sign, and from it. *)
Fixpoint cutSign (s : bytes) : bytes * bytes :=
  match s with
  | [] => ([], [])
  | b :: s' => if bool_decide (b = x2b) || bool_decide (b = x2d) then ([], s) else let '(n, o) := cutSign s' in (b :: n, o)
  end.

Definition level_name (name : bytes) : option Z :=
  if bool_decide (name = to_bytes "DEBUG") then Some LevelDebug
  else if bool_decide (name = to_bytes "INFO") then Some LevelInfo
  else if bool_decide (name = to_bytes "WARN") then Some LevelWarn
  else if bool_decide (name = to_bytes "ERROR") then Some LevelError else None.

(** [slog.Level.UnmarshalText]: a name, and perhaps a signed offset. *)
Definition parseLevel (s : bytes) : option Z :=
  let '(name, sign) := cutSign s in
  offset ← (match sign with [] => Some 0 | _ => Atoi sign end);
  base ← level_name (ToUpper name);
  Some (i64 (base + offset)).

Record Logger := mkLogger { level : Z; textFormat : bool }.

(** [NewLogger].  [strings.EqualFold] with text: no rune beyond ASCII folds to one of its
    letters. *)
Definition NewLogger (lvl format : string) : Logger :=
  mkLogger (default LevelInfo (parseLevel (ToLower (to_bytes lvl))))
    (bool_decide (ToLower (to_bytes format) = to_bytes "text")).

(** ** [run] *)

Record BuildInfo := mkBuildInfo { Version : string; Commit : string; Date : string }.

(** [buildInfo]; [modVersion] is the module version, if the binary records one. *)
Definition buildInfo (ldflags : BuildInfo) (modVersion : option string) : BuildInfo :=
  if negb (bool_decide (Version ldflags = "dev"%string)) then ldflags else
  match modVersion with
  | Some v =>
      if negb (bool_decide (v = ""%string)) && negb (bool_decide (v = "(devel)"%string))
      then mkBuildInfo v (Commit ldflags) (Date ldflags) else ldflags
  | None => ldflags
  end.

Definition versionLine (b : BuildInfo) : string :=
  String.concat "" ["tx-gen "; Version b; " (commit "; Commit b; ", built "; Date b; ")"; String (Ascii.ascii_of_nat 10) ""]%string.

(** What a run did: its exit code, the version line it printed, what it complained of,
    and the logger it ran the application with. *)
Inductive Complaint := NoComplaint | FlagComplaint (e : FlagError) | ConfigComplaint (e : err) | Stopped (e : err).

Record Outcome := mkOutcome { code : Z; printed : option string; complaint : Complaint; ran : option (Config.Config * Logger) }.

Definition run (args : list string) (env : string -> string) (build : BuildInfo) (appRun : Config.Config -> option err) : Outcome :=
  match Parse false (to_bytes <$> args) with
  | inr ErrHelp => mkOutcome 0 None (FlagComplaint ErrHelp) None
  | inr e => mkOutcome 2 None (FlagComplaint e) None
  | inl true => mkOutcome 0 (Some (versionLine build)) NoComplaint None
  | inl false =>
      match Config.load env with
      | Err e => mkOutcome 1 None (ConfigComplaint e) None
      | Ok cfg =>
          let logger := NewLogger (Config.LogLevel cfg) (Config.LogFormat cfg) in
          match appRun cfg with
          | Some e => mkOutcome 1 None (Stopped e) (Some (cfg, logger))
          | None => mkOutcome 0 None NoComplaint (Some (cfg, logger))
          end
      end
  end.

(** ** The arguments it takes *)

Definition dashes (d : bytes) : Prop := d = [x2d] \/ d = [x2d; x2d].

(** An argument that sets the version flag to [v]. *)
Inductive version_flag : bool -> bytes -> Prop :=
  | vf_plain d : dashes d -> version_flag true (d ++ to_bytes "version")
  | vf_value d s v : dashes d -> ParseBool s = Some v -> version_flag v (d ++ to_bytes "version=" ++ s).

(** One that asks for help, with or without a value. *)
Inductive help_flag : bytes -> Prop :=
  | hf_plain d n : dashes d -> n ∈ ["h"; "help"]%string -> help_flag (d ++ to_bytes n)
  | hf_value d n s : dashes d -> n ∈ ["h"; "help"]%string -> help_flag (d ++ to_bytes n ++ x3d :: s).

(** One after which no flag is looked for. *)
Definition stops (arg : bytes) : Prop := arg = [] \/ arg = [x2d] \/ arg = [x2d; x2d] \/ exists b rest, arg = b :: rest /\ b <> x2d.

Lemma cutValue_spec s : match cutValue s with (n, None) => s = n | (n, Some v) => s = n ++ x3d :: v end.
Proof.
  induction s as [|b s IH]; [done|]. simpl. case_bool_decide as Hb; [by subst b|].
  destruct (cutValue s) as [n [v|]]; by rewrite IH.
Qed.

Lemma flagArg_spec d arg name : dashes d -> arg = d ++ name ->
  match flagArg arg name with
  | Sets v => version_flag v arg
  | Fails ErrHelp => help_flag arg
  | Fails _ => True
  | _ => False
  end.
Proof.
  intros Hd Harg. destruct name as [|b rest]; [done|]. unfold flagArg.
  destruct (bool_decide (b = x2d) || bool_decide (b = x3d)); [done|].
  pose proof (cutValue_spec rest) as Hcut. destruct (cutValue rest) as [n v].
  destruct (decide (b :: n = to_bytes "version")) as [Hv|Hv];
    [rewrite (bool_decide_eq_true_2 (_ = to_bytes "version")) by done|rewrite (bool_decide_eq_false_2 (_ = to_bytes "version")) by done].
  { destruct v as [v|].
    - destruct (ParseBool v) as [x|] eqn:Hp; [|done]. subst rest.
      assert (arg = d ++ to_bytes "version=" ++ v) as ->; [|by apply vf_value].
      rewrite Harg, app_comm_cons, Hv. done.
    - subst rest. rewrite Harg, Hv. by apply vf_plain. }
  destruct (bool_decide (b :: n = to_bytes "help") || bool_decide (b :: n = to_bytes "h")) eqn:Hh; [|done].
  assert (exists h, h ∈ ["h"; "help"]%string /\ b :: n = to_bytes h) as (h & Hin & Hn).
  { apply orb_true_iff in Hh as [Hh|Hh]; apply bool_decide_eq_true in Hh; [exists "help"%string|exists "h"%string]; (split; [set_solver|done]). }
  destruct v as [v|]; subst rest; rewrite Harg, ?app_comm_cons, Hn; [by apply hf_value|by apply hf_plain].
Qed.

(** What one argument is taken for. *)
Lemma parseOne_spec arg :
  match parseOne arg with
  | NotFlag | EndOfFlags => stops arg
  | Sets v => version_flag v arg
  | Fails ErrHelp => help_flag arg
  | Fails _ => True
  end.
Proof.
  unfold parseOne. destruct arg as [|b [|c rest]].
  - by left.
  - destruct (decide (b = x2d)) as [->|Hb]; [by right; left|]. right; right; right. by exists b, [].
  - case_bool_decide as Hb; cbn [negb]; [|right; right; right; by exists b, (c :: rest)]. subst b.
    case_bool_decide as Hc.
    + subst c. case_bool_decide as Hr; [subst rest; by right; right; left|].
      pose proof (flagArg_spec [x2d; x2d] (x2d :: x2d :: rest) rest (or_intror eq_refl) eq_refl) as Hf. by destruct (flagArg _ _).
    + pose proof (flagArg_spec [x2d] (x2d :: c :: rest) (c :: rest) (or_introl eq_refl) eq_refl) as Hf. by destruct (flagArg _ _).
Qed.

Lemma version_parseOne v arg : version_flag v arg -> parseOne arg = Sets v.
Proof.
  intros [d [-> | ->]|d s x [-> | ->] Hp]; [done|done| |]; simpl; by rewrite Hp.
Qed.

Lemma help_parseOne arg : help_flag arg -> parseOne arg = Fails ErrHelp.
Proof.
  assert (forall n, n ∈ ["h"; "help"]%string -> n = "h"%string \/ n = "help"%string) as Hn by set_solver.
  intros [d n [-> | ->] [-> | ->]%Hn|d n s [-> | ->] [-> | ->]%Hn]; done.
Qed.

Lemma stops_parseOne arg : stops arg -> parseOne arg = NotFlag \/ parseOne arg = EndOfFlags.
Proof.
  intros [->|[->|[->|(b & rest & -> & Hb)]]]; [by left|by left|by right|]. left. simpl. destruct rest; [done|].
  by rewrite bool_decide_eq_false_2.
Qed.

(** The flags [vs] come first, and then nothing, or something that ends them. *)
Definition accepts (args : list bytes) (v : bool) : Prop :=
  exists flags rest vs, args = flags ++ rest /\ Forall2 version_flag vs flags /\
    (rest = [] \/ exists arg rest', rest = arg :: rest' /\ stops arg) /\ v = default false (last vs).

(** The flags come first, then a request for help. *)
Definition asks_help (args : list bytes) : Prop :=
  exists flags arg rest vs, args = flags ++ arg :: rest /\ Forall2 version_flag vs flags /\ help_flag arg.

Lemma Parse_flags b flags vs rest : Forall2 version_flag vs flags -> Parse b (flags ++ rest) = Parse (default b (last vs)) rest.
Proof.
  intros Hall. revert b. induction Hall as [|v arg vs flags Hv _ IH]; intros b; [done|]. simpl.
  rewrite (version_parseOne v arg Hv), IH. f_equal. rewrite last_cons. by destruct (last vs).
Qed.

Lemma Parse_spec b args : exists flags rest vs, args = flags ++ rest /\ Forall2 version_flag vs flags /\
  match Parse b args with
  | inl v => (rest = [] \/ exists arg rest', rest = arg :: rest' /\ stops arg) /\ v = default b (last vs)
  | inr ErrHelp => exists arg rest', rest = arg :: rest' /\ help_flag arg
  | inr e => exists arg rest', rest = arg :: rest' /\ parseOne arg = Fails e
  end.
Proof.
  revert b. induction args as [|arg args IH]; intros b.
  { exists [], [], []. split; [done|]; split; [apply Forall2_nil_2|]. by split; [left|]. }
  simpl. pose proof (parseOne_spec arg) as Harg. destruct (parseOne arg) as [| |e|v] eqn:Ho.
  - exists [], (arg :: args), []. split; [done|]; split; [apply Forall2_nil_2|]. split; [right; by exists arg, args|done].
  - exists [], (arg :: args), []. split; [done|]; split; [apply Forall2_nil_2|]. split; [right; by exists arg, args|done].
  - exists [], (arg :: args), []. split; [done|]; split; [apply Forall2_nil_2|]. destruct e; by exists arg, args.
  - destruct (IH v) as (flags & rest & vs & -> & Hall & Hp). exists (arg :: flags), rest, (v :: vs).
    split; [done|]; split; [by apply Forall2_cons_2|]. rewrite last_cons. destruct (Parse v _) as [x|x]; [|done]. destruct Hp as [Hr ->].
    split; [done|]. by destruct (last vs).
Qed.

Lemma Parse_accepts args v : Parse false args = inl v <-> accepts args v.
Proof.
  split.
  - intros Hp. destruct (Parse_spec false args) as (flags & rest & vs & -> & Hall & Hs). rewrite Hp in Hs. destruct Hs as [Hr ->].
    by exists flags, rest, vs.
  - intros (flags & rest & vs & -> & Hall & Hr & ->). rewrite (Parse_flags _ _ vs) by done.
    destruct Hr as [->|(arg & rest' & -> & Hs%stops_parseOne)]; [done|]. simpl. by destruct Hs as [-> | ->].
Qed.

Lemma Parse_help args : Parse false args = inr ErrHelp <-> asks_help args.
Proof.
  split.
  - intros Hp. destruct (Parse_spec false args) as (flags & rest & vs & -> & Hall & Hs). rewrite Hp in Hs.
    destruct Hs as (arg & rest' & -> & Hh). by exists flags, arg, rest', vs.
  - intros (flags & arg & rest & vs & -> & Hall & Hh%help_parseOne). rewrite (Parse_flags _ _ vs) by done. simpl. by rewrite Hh.
Qed.

(** C40: what the command does with its arguments.  Version flags come first, in any of
    their spellings, the last one counting, and end at the first argument that is none.
    If it then asks for the version, the command prints it and exits with 0; if an
    argument there asks for help, it exits with 0; if one is another flag, with 2; in
    none of these cases is anything run.  Otherwise it exits with 1 if the configuration
    cannot be loaded or the application returns an error, and with 0 if it returns none. *)
Theorem run_spec args env build appRun :
  let bs := to_bytes <$> args in
  let o := run args env build appRun in
  (accepts bs true -> o = mkOutcome 0 (Some (versionLine build)) NoComplaint None) /\
  (asks_help bs -> code o = 0 /\ printed o = None /\ ran o = None) /\
  (~ accepts bs true -> ~ accepts bs false -> ~ asks_help bs -> code o = 2 /\ printed o = None /\ ran o = None) /\
  (accepts bs false -> printed o = None /\
    match Config.load env with
    | Err _ => code o = 1 /\ ran o = None
    | Ok cfg => (fst <$> ran o) = Some cfg /\ (code o = 0 <-> appRun cfg = None) /\ (code o = 1 <-> appRun cfg <> None)
    end).
Proof.
  intros bs o. unfold o, run. fold bs. rewrite <- !Parse_accepts, <- Parse_help.
  destruct (Parse false bs) as [[]|[]]; split_and!; try done.
  intros _. destruct (Config.load env) as [cfg|x]; [|done]. destruct (appRun cfg); simpl; split_and!; naive_solver.
Qed.

(** ** The level *)

Lemma config_level cfg : Config.config_wf cfg ->
  level (NewLogger (Config.LogLevel cfg) (Config.LogFormat cfg)) =
    (if bool_decide (Config.LogLevel cfg = "debug"%string) then -4 else if bool_decide (Config.LogLevel cfg = "info"%string) then 0
     else if bool_decide (Config.LogLevel cfg = "warn"%string) then 4 else 8) /\
  textFormat (NewLogger (Config.LogLevel cfg) (Config.LogFormat cfg)) = bool_decide (Config.LogFormat cfg = "text"%string).
Proof.
  intros Hwf. destruct (Config.wf_names cfg Hwf) as [Hl Hf]. split.
  - rewrite !elem_of_cons, elem_of_nil in Hl. destruct Hl as [->|[->|[->|[->|[]]]]]; vm_compute; reflexivity.
  - rewrite !elem_of_cons, elem_of_nil in Hf. destruct Hf as [->|[->|[]]]; vm_compute; reflexivity.
Qed.

(** Bytes that [ToLower] leaves alone. *)
Definition low (b : Byte.byte) : Prop := b2z b < 65 \/ 90 < b2z b < 128.

Lemma ToLower_low s : Forall low s -> ToLower s = s.
Proof.
  intros Hs. assert (Forall (fun b => b2z b < 128) s) as Ha by (eapply Forall_impl; [exact Hs|]; unfold low; simpl; lia).
  unfold ToLower. rewrite (runes_ascii s Ha). rewrite <- (encode_ascii s Ha) at 2. f_equal. rewrite <- list_fmap_compose.
  apply list_fmap_ext. intros i b Hb. simpl. eapply Forall_lookup_1 in Hb; [|exact Hs]. unfold lower, low in *.
  repeat case_match; bool_to_prop; lia.
Qed.

Lemma digits_low acc s n : digits acc s = Some n -> Forall low s.
Proof. intros Hd%digits_bytes. eapply Forall_impl; [exact Hd|]. unfold low. simpl. lia. Qed.

(** A level may have an offset: [NewLogger] takes a name followed by a sign and a
    number for that many steps above the name, although its comment says that anything
    but the four names means info. *)
Theorem level_takes_offset name (n : Z) format : name ∈ ["debug"; "info"; "warn"; "error"]%string -> 0 <= n < 2 ^ 62 ->
  level (NewLogger (String.append name (String.append "+" (pretty n))) format) = level (NewLogger name format) + n.
Proof.
  intros Hname Hn. pose proof (magnitude_pretty (Z.to_N n)) as Hm. rewrite <- pretty_nonneg, Z2N.id in Hm by lia.
  assert (Forall low (to_bytes (pretty n))) as Hlow.
  { unfold magnitude in Hm. destruct (to_bytes (pretty n)) eqn:Hb; [done|]. by eapply digits_low. }
  assert (Atoi (x2b :: to_bytes (pretty n)) = Some n) as Ha.
  { change (Atoi (x2b :: to_bytes (pretty n))) with (x ← magnitude (to_bytes (pretty n)); if x <? 2 ^ (64 - 1) then Some x else None).
    rewrite Hm. cbn [mbind option_bind]. assert ((n <? 2 ^ (64 - 1)) = true) as -> by (apply Z.ltb_lt; simpl; lia). done. }
  assert (forall base, -4 <= base <= 8 -> i64 (base + n) = base + n) as Hi.
  { intros base Hbase. apply i64_small. unfold is_i64, two63. simpl in Hn |- *. lia. }
  unfold NewLogger. cbn [level].
  assert (ToLower (to_bytes (String.append name (String.append "+" (pretty n)))) = to_bytes name ++ x2b :: to_bytes (pretty n)) as ->.
  { assert (to_bytes (String.append name (String.append "+" (pretty n))) = to_bytes name ++ x2b :: to_bytes (pretty n)) as ->
      by (rewrite !elem_of_cons, elem_of_nil in Hname; by destruct Hname as [->|[->|[->|[->|[]]]]]).
    apply ToLower_low, Forall_app_2; [|by apply Forall_cons_2; [left|]].
    rewrite !elem_of_cons, elem_of_nil in Hname.
    destruct Hname as [->|[->|[->|[->|[]]]]]; repeat (apply Forall_cons_2; [right; by split|]); apply Forall_nil_2. }
  assert (forall x base, x = to_bytes name -> level_name (ToUpper x) = Some base -> cutSign (x ++ x2b :: to_bytes (pretty n)) = (x, x2b :: to_bytes (pretty n)) ->
    -4 <= base <= 8 -> default LevelInfo (parseLevel (x ++ x2b :: to_bytes (pretty n))) = base + n) as Hlev.
  { intros x base _ Hx Hc Hb. unfold parseLevel. rewrite Hc, Ha. cbn [mbind option_bind]. rewrite Hx. simpl. by apply Hi. }
  rewrite !elem_of_cons, elem_of_nil in Hname.
  destruct Hname as [->|[->|[->|[->|[]]]]]; by rewrite (Hlev _ _ eq_refl eq_refl eq_refl) by (vm_compute; split; discriminate).
Qed.
End Command.
