(* ===== verification/Process.v ===== *)
(** * The process (internal/app/app.go, [Run] once the engine exists)

    The goroutines of a process: the engine, its rate tracker, the event streams and
    the requests being served.  They share the engine, the server and the clients
    ([Served]) and the notifier.  The outside of the engine, of the clients and of
    the notifier are three oracles; the metrics of the clients are apart from the
    engine's, since no instrument is written by both. *)

From S2P Require Import Prelude Prog Safe Script TxBuilder Backoff Float Metrics Store Heap Queue Engine Lane Chain Bootstrap Recovery Frame Growth Restart.
From S2P Require Import Strconv Json Config HttpClient Http Arcade Woc Network Notifier Sse Server App.
Open Scope Z_scope.

Module Process.

Section process.
Context `{Sdk} `{Prometheus} {D : Type} `{DurableStore D} {W : Type} `{World W} {N : Type} `{Net N}.

Abbreviation E := (Engine (D:=D) (W:=W)).
Abbreviation Served := (Server.Served (D:=D) (W:=W) (N:=N)).

Record State := mkState { a_served : Served; a_notifier : Notifier.State (N:=N) }.

Abbreviation code := (prog State).

Definition set_served (v : Served) (s : State) : State := mkState v (a_notifier s).
Definition set_notifier (v : Notifier.State (N:=N)) (s : State) : State := mkState (a_served s) v.

Definition onServed {A} (p : prog Served A) : code A := zoom a_served set_served p.
Definition onNotifier {A} (p : prog (Notifier.State (N:=N)) A) : code A := zoom a_notifier set_notifier p.
Definition onEngine {A} (p : prog E A) : code A := onServed (Server.onEngine p).

(** The Arcade client, the server over it and the engine, and the notifier, as [Run]
    makes them. *)
Definition newProcess (cfg : Config.Config) (version : string) (now : Z) (e : E) (w w' : N) : State :=
  mkState (Server.mkServed e (Server.New (Some (Arcade.New (Network.arcadeOptions cfg))) version now cfg)
             (mkClients 0 Metrics.New w [] ∅ ∅))
    (Notifier.fresh w').

(** The streams' sink is the engine, their reporter the notifier. *)
Definition streamEnv (reporter : option Notifier.t) : StreamEnv State N := {|
  sNet B f := onServed (Server.onClients (net f));
  sMeasure f := onEngine (metric f);
  sRecordTip height hash at_ := onEngine (RecordTip height hash at_);
  sRecordReorg height depth before after := onEngine (RecordReorg height depth before after);
  sReporter := (fun n height depth chains before after =>
    onNotifier (Notifier.ReportReorg n height depth chains before after)) <$> reporter;
|}.

(** The reporter and the streams' options, from the configuration. *)
Definition reporterOf (cfg : Config.Config) : option Notifier.t :=
  if bool_decide (Config.SlackWebhookURL cfg = ""%string) then None else
  Some (Notifier.New (Notifier.mkOptions (Config.SlackWebhookURL cfg) (Config.SlackChannel cfg)
    (Config.Environment cfg) (Config.InstanceID cfg))).

Definition streamOptions (cfg : Config.Config) : Sse.Options :=
  Sse.mkOptions (Config.SSEReconnectMin cfg) (Config.SSEReconnectMax cfg) 0 (Config.ArcadeBaseURL cfg)
    (Config.ArcadeCallbackToken cfg).

(** Whatever the configuration, what is asked of Arcade, of WhatsOnChain and of the webhook
    ends, and a stream may idle. *)
Lemma clients_bounded (cfg : Config.Config) :
  HttpClient.bounded (Arcade.http (Arcade.New (Network.arcadeOptions cfg))) /\
  HttpClient.bounded (Woc.http (Woc.New (Network.wocOptions cfg))) /\
  (forall n, reporterOf cfg = Some n -> HttpClient.bounded (Notifier.http n)) /\
  HttpClient.streaming Sse.client.
Proof.
  assert (forall d x, 0 < d -> HttpClient.bounded (HttpClient.New HttpClient.NewPooledTransport (if x <=? 0 then d else x))) as Hp.
  { intros d x Hd. split; [simpl; destruct (Z.leb_spec x 0); lia|done]. }
  split_and!; [by apply Hp|by apply Hp| |done]. intros n. unfold reporterOf. case_bool_decide; [done|]. by intros [= <-].
Qed.

(** The engine's goroutine; one that is out of fuel has not stopped. *)
Definition engineGoroutine (fuel wfuel cfuel : nat) : prog Served unit :=
  Server.updateServer Server.MarkEngineRunning;;
  r ← Server.onEngine (Run fuel wfuel cfuel);
  match r with
  | Unfinished => Ret tt
  | Finished _ =>
      e ← Server.onEngine (world CtxErr);
      Server.updateServer (Server.MarkEngineStopped (bool_decide (e = None)))
  end.

(** What the goroutines may use up: polls for a seed, wake-ups of a wait, turns of a
    chain, seconds of the tracker and connections of a stream. *)
Record Fuel := mkFuel { f_seed : nat; f_wait : nat; f_chain : nat; f_track : nat; f_stream : nat }.

(** [runner.Go], with [OnPanic: m.IncPanic].  Where the goroutine panics, if it does, is
    given. *)
Definition safely (at_ : option (nat * string)) (name : string) (p : code unit) : code unit :=
  Safe.guard (fun name => onEngine (metric (Metrics.IncPanic name))) name (Safe.mayPanic at_ p);;
  Ret tt.

Definition streams (fuel : nat) (cfg : Config.Config) : list (code unit) :=
  Sse.Start (env := streamEnv (reporterOf cfg)) fuel (streamOptions cfg).

Definition streamNames : list string := ["sse_tip"; "sse_reorg"; "sse_arcade_tx"]%string.

(** The goroutines the runner starts, with their names. *)
Definition started (fuel : Fuel) (cfg : Config.Config) : list (string * code unit) :=
  ("engine"%string, onServed (engineGoroutine (f_seed fuel) (f_wait fuel) (f_chain fuel))) ::
  ("tps_tracker"%string, onEngine (trackTPS (f_track fuel))) ::
  zip streamNames (streams (f_stream fuel) cfg).

(** A request; [net/http] recovers the panics of its handlers. *)
Definition request (at_ : option (nat * string)) (r : Server.HttpRequest) : code unit :=
  Safe.mayPanic at_ (onServed (Server.serve r));; Ret tt.

(** [panics] says where which of them panics. *)
Definition goroutines (panics : nat -> option (nat * string)) (fuel : Fuel) (cfg : Config.Config)
    (reqs : list Server.HttpRequest) : list (code unit) :=
  imap (fun i '(name, p) => safely (panics i) name p) (started fuel cfg) ++
  imap (fun i r => request (panics (length (started fuel cfg) + i)%nat) r) reqs.
End process.

(** ** What requests and streams do to an engine whose parameters are fixed *)

Section observers.
Context `{Sdk} `{Prometheus} {D : Type} `{DurableStoreLaws D} {W : Type} `{World W} {N : Type} `{Net N}.

Abbreviation E := (Engine (D:=D) (W:=W)).
Abbreviation Served := (Server.Served (D:=D) (W:=W) (N:=N)).
Abbreviation State := (State (D:=D) (W:=W) (N:=N)).

(** A step that leaves alone what is durable, the queue, the stage and the
    parameters. *)
Definition obs (e e' : E) : Prop := frozen e -> aside e e'.

Lemma obs_refl : reflexive _ obs.
Proof. intros e _. apply aside_refl. Qed.

Lemma obs_trans : transitive _ obs.
Proof.
  intros e1 e2 e3 H12 H23 He. pose proof (H12 He) as Ha. eapply aside_trans; [exact Ha|]. by apply H23, (frozen_aside e1).
Qed.

Lemma aside_same (e e' : E) : e_queue e' = e_queue e -> e_mode e' = e_mode e -> e_log e' = e_log e ->
  e_numChains e' = e_numChains e -> e_fanoutSize e' = e_fanoutSize e -> e_bootstrapLocked e' = e_bootstrapLocked e ->
  sBootstrapStage (e_state e') = sBootstrapStage (e_state e) ->
  (sLifecycle (e_state e) = LifecycleFailed -> sLifecycle (e_state e') = LifecycleFailed) -> aside e e'.
Proof.
  intros Hq Hm Hl Hn Hf Hk Hs Hfl. split; [|done].
  unfold calm, quiet, durable, tips, pendings, queued, bootstrapConfigLocked. by rewrite Hq, Hm, Hl, Hn, Hf.
Qed.

Lemma obs_act {B} (f : E -> B * E) e0 : (forall e, aside e (f e).2) -> preserves (obs e0) (act f).
Proof. intros Hf. split; [|done]. intros e He. apply (obs_trans e0 e); [done|]. intros _. apply Hf. Qed.

Lemma obs_modify (f : E -> E) e0 : (forall e, aside e (f e)) -> preserves (obs e0) (modify f).
Proof. intros Hf. exact (obs_act (fun e => (tt, f e)) e0 Hf). Qed.

Lemma obs_gets {B} (f : E -> B) e0 : preserves (obs e0) (gets f).
Proof. by split. Qed.

Lemma obs_SetTPS tps e0 : preserves (obs e0) (SetTPS tps).
Proof.
  unfold SetTPS, metric, setState, resumeBroadcast.
  repeat (apply preserves_bind; [apply obs_modify|intros _]); [intros e; by apply aside_same..| |apply obs_modify; intros e; by apply aside_same].
  intros e. apply aside_same; try done; simpl; unfold setTPSState; [by repeat case_if|]. intros Hl. simpl. rewrite Hl.
  by rewrite !andb_false_r.
Qed.

(** The parameters cannot be changed any more. *)
Lemma obs_ConfigureBootstrap u e0 : preserves (obs e0) (ConfigureBootstrap u).
Proof.
  unfold ConfigureBootstrap. destruct (invalidUpdate u); [done|]. split; [|done]. intros e He.
  apply (obs_trans e0 e); [done|]. intros Hb. rewrite (frozen_funded e Hb). apply aside_refl.
Qed.

Lemma obs_metric f e0 : preserves (obs e0) (metric f).
Proof. apply obs_modify. intros e. by apply aside_same. Qed.

Lemma obs_RecordTip h hash t e0 : preserves (obs e0) (RecordTip h hash t).
Proof. apply obs_modify. intros e. by apply aside_same. Qed.

Lemma obs_world {B} (f : W -> B * W) e0 : preserves (obs e0) (world f).
Proof. apply obs_act. intros e. destruct (f (e_world e)). by apply aside_same. Qed.

Lemma obs_RecordReorg h d b a e0 : preserves (obs e0) (RecordReorg h d b a).
Proof.
  apply preserves_bind; [apply obs_world|intros t]. apply preserves_bind; [apply obs_gets|intros n].
  apply preserves_bind; [apply obs_modify; intros e; by apply aside_same|done].
Qed.

Lemma obs_Snapshot e0 : preserves (obs e0) Snapshot.
Proof. unfold Snapshot. repeat (apply preserves_bind; [apply obs_gets|intros ?]). done. Qed.

Lemma obs_trackTPS fuel e0 : preserves (obs e0) (trackTPS fuel).
Proof.
  induction fuel as [|fuel IH]; [done|]. cbn [trackTPS]. apply preserves_bind; [apply obs_world|intros [|c]; [done|]].
  apply preserves_bind; [|done]. apply preserves_bind; [|intros n; apply obs_modify; intros e; by apply aside_same].
  apply obs_act. intros e. by apply aside_same.
Qed.

(** *** On the state of the server *)

Definition obsS (s s' : Served) : Prop := obs (Server.v_engine s) (Server.v_engine s').

Lemma obsS_onEngine {A} (p : prog E A) s0 : (forall e0, preserves (obs e0) p) -> preserves (obsS s0) (Server.onEngine p).
Proof.
  intros Hp. apply (preserves_zoom _ _ _ obs); [|done|apply obs_refl]. intros s e Hs He. by eapply obs_trans.
Qed.

Lemma preserves_any {S A} (p : prog S A) : preserves (fun _ => True) p.
Proof. induction p; [done|]. by split. Qed.

Lemma obsS_onClients {A} (p : prog (Clients (N:=N)) A) s0 : preserves (obsS s0) (Server.onClients p).
Proof. apply (preserves_zoom _ _ _ (fun _ _ => True)); [done|intros _; apply preserves_any|done]. Qed.

Lemma obsS_gets {B} (f : Served -> B) s0 : preserves (obsS s0) (gets f).
Proof. by split. Qed.

Lemma obsS_updateServer f s0 : preserves (obsS s0) (Server.updateServer f).
Proof. by split. Qed.

Lemma obsS_authorize r s0 : preserves (obsS s0) (Server.authorize r).
Proof.
  apply preserves_bind; [apply obsS_gets|intros s]. case_if; [done|].
  apply preserves_bind; [apply obsS_onEngine; intros; apply obs_metric|done].
Qed.

Lemma obsS_post r s0 : preserves (obsS s0) (Server.prepareAuthenticatedPost r).
Proof. apply preserves_bind; [apply obsS_authorize|]. intros [resp|]; [done|]. by case_if. Qed.

Lemma obsS_finishConfig cfg req s0 : preserves (obsS s0) (Server.finishConfig cfg req).
Proof.
  apply preserves_bind; [|done]. destruct (Server.crTPS req); [|done]. apply obsS_onEngine. intros e0. apply obs_SetTPS.
Qed.

Lemma obsS_handleConfig r s0 : preserves (obsS s0) (Server.handleConfig r).
Proof.
  apply preserves_bind; [apply obsS_post|]. intros [resp|]; [done|].
  destruct (Server.decodeRequest r) as [req|]; [|done]. apply preserves_bind; [apply obsS_gets|intros s].
  destruct (Server.validate s req); [done|]. destruct (Server.bootstrapUpdate req) as [u|]; [|apply obsS_finishConfig].
  apply preserves_bind; [apply obsS_onEngine; intros; apply obs_ConfigureBootstrap|]. intros [cfg|x]; [|done].
  apply preserves_bind; [apply obsS_updateServer|intros _; apply obsS_finishConfig].
Qed.

Lemma obsS_readyz s0 : preserves (obsS s0) Server.handleReadyz.
Proof.
  apply preserves_bind; [|intros [ready checks]; done]. unfold Server.readiness.
  apply preserves_bind; [apply obsS_gets|intros stopped].
  apply preserves_bind; [destruct stopped; [done|apply obsS_gets]|intros running].
  apply preserves_bind; [apply obsS_onEngine; intros; apply obs_Snapshot|intros snapshot].
  apply preserves_bind; [apply obsS_gets|intros s].
  apply preserves_bind; [destruct (Server.sArcade s); [apply obsS_onClients|done]|done].
Qed.

(** Every request. *)
Lemma obsS_serve r s0 : preserves (obsS s0) (Server.serve r).
Proof.
  unfold Server.serve. destruct (Server.pathOf _) as [rt|]; [|done]. case_if; [done|].
  destruct rt; try done; [apply obsS_handleConfig| |apply obsS_readyz|..].
  - apply preserves_bind; [apply obsS_post|]. intros [resp|]; [done|].
    apply preserves_bind; [apply obsS_onEngine; intros; apply obs_SetTPS|done].
  - apply preserves_bind; [apply obsS_authorize|]. intros [resp|]; [done|].
    apply preserves_bind; [apply obsS_gets|intros s]. apply preserves_bind; [apply obsS_onClients|intros now].
    apply preserves_bind; [apply obsS_onEngine; intros; apply obs_Snapshot|done].
  - apply preserves_bind; [apply obsS_onEngine; intros; apply obs_gets|]. intros m. by destruct (Metrics.Handler m) as [status [text|]].
  - apply preserves_bind; [apply obsS_authorize|]. intros [resp|]; [done|]. case_if; [done|].
    apply preserves_bind; [apply obsS_gets|intros s]. destruct (Server.sArcade s); [|done].
    apply preserves_bind; [apply obsS_onClients|]. intros [[status body] [x|]]; done.
Qed.

(** *** On the state of the process *)

Definition engine (s : State) : E := Server.v_engine (a_served s).
Definition obsA (s s' : State) : Prop := obs (engine s) (engine s').

Lemma obsA_onServed {A} (p : prog Served A) s0 : (forall s1, preserves (obsS s1) p) -> preserves (obsA s0) (onServed p).
Proof.
  intros Hp. apply (preserves_zoom _ _ _ obsS); [|done|intros s; apply obs_refl]. intros s v Hs Hv. by eapply obs_trans.
Qed.

Lemma obsA_onEngine {A} (p : prog E A) s0 : (forall e0, preserves (obs e0) p) -> preserves (obsA s0) (onEngine p).
Proof. intros Hp. apply obsA_onServed. intros s1. by apply obsS_onEngine. Qed.

Lemma obsA_streams fuel cfg p s0 : p ∈ streams fuel cfg -> preserves (obsA s0) p.
Proof.
  apply (Sse.Start_preserves (env := streamEnv (reporterOf cfg)) (obsA s0)); cbn [sNet sMeasure sRecordTip sRecordReorg sReporter streamEnv].
  - intros B f. apply obsA_onServed. intros s1. apply obsS_onClients.
  - intros f. apply obsA_onEngine. intros e0. apply obs_metric.
  - intros h hash t. apply obsA_onEngine. intros e0. apply obs_RecordTip.
  - intros h d b a. apply obsA_onEngine. intros e0. apply obs_RecordReorg.
  - intros report h d c b a (n & _ & ->)%fmap_Some. apply (preserves_zoom _ _ _ (fun _ _ => True)); [done|intros _; apply preserves_any|done].
Qed.
End observers.

(** ** The engine among them *)

Section whole.
Context `{SdkLaws} `{!TxidLaws} `{Prometheus} {D : Type} `{DurableStoreLaws D} {W : Type} `{World W} {N : Type} `{Net N}.

Abbreviation E := (Engine (D:=D) (W:=W)).
Abbreviation Served := (Server.Served (D:=D) (W:=W) (N:=N)).
Abbreviation State := (State (D:=D) (W:=W) (N:=N)).

(** Every goroutine but the engine's. *)
Lemma obsA_safely at_ name p (s0 : State) : preserves (obsA s0) p -> preserves (obsA s0) (safely at_ name p).
Proof using.
  intros Hp. apply preserves_bind; [|done]. apply preserves_bind; [by apply Safe.preserves_mayPanic|]. intros [[]|v]; [done|].
  apply preserves_bind; [apply obsA_onEngine; intros; apply obs_metric|done].
Qed.

Lemma observer_goroutines panics fuel cfg reqs p (s0 : State) : p ∈ tail (goroutines panics fuel cfg reqs) -> preserves (obsA s0) p.
Proof using.
  unfold goroutines, started. rewrite !imap_cons. cbn [tail app]. rewrite elem_of_cons, elem_of_app. intros [->|[Hp|Hp]].
  - apply obsA_safely, obsA_onEngine. intros e0. apply obs_trackTPS.
  - apply elem_of_lookup_imap in Hp as (i & [name q] & -> & Hi). apply obsA_safely.
    apply lookup_zip_Some in Hi as [_ Hi]. by eapply obsA_streams, list_elem_of_lookup_2.
  - apply elem_of_lookup_imap in Hp as (i & r & -> & _). apply preserves_bind; [|done].
    apply Safe.preserves_mayPanic, obsA_onServed. intros s1. apply obsS_serve.
Qed.

(** What holds after every action of [Run], whatever is done aside, holds wherever the
    process is. *)
Section keeps.
Context (J : E -> Prop) (HJa : forall e e', aside e e' -> J e -> J e') (HJf : forall e, J e -> frozen e).

Abbreviation goes p e := (rg aside (fun _ e' => J e') p (fun _ e' => J e') e).

(** The goroutine of the engine. *)
Lemma engineGoroutine_rg fuel wfuel cfuel (s : Served) : J (Server.v_engine s) -> goes (Run fuel wfuel cfuel) (Server.v_engine s) ->
  rg obsS (fun _ s' => J (Server.v_engine s')) (engineGoroutine fuel wfuel cfuel) (fun _ _ => True) s.
Proof using All.
  intros Hs Hrun. pose proof (rg_when frozen aside (fun _ e' => J e') _ _ _ frozen_aside (fun _ _ => HJf _) (HJf _ Hs) Hrun) as Hobs.
  assert (forall s1 s2 : Served, obsS s1 s2 -> J (Server.v_engine s1) -> J (Server.v_engine s2)) as HJ.
  { intros s1 s2 Ho HJ1. apply (HJa (Server.v_engine s1)); [by apply Ho, HJf|done]. }
  assert (forall A B (p : prog Served A) (g : A -> prog Served B) Q s1,
    rg obsS (fun _ s' => J (Server.v_engine s')) p (fun a s' => rg obsS (fun _ s' => J (Server.v_engine s')) (g a) Q s') s1 ->
    rg obsS (fun _ s' => J (Server.v_engine s')) (p ≫= g) Q s1) as Hbind.
  { intros A B p g Q s1. apply rg_bind; [intros s2; apply obs_refl|intros s2 s3 s4; apply obs_trans]. }
  unfold engineGoroutine. apply Hbind, rg_act. intros s1 Ho. pose proof (HJ _ _ Ho Hs) as Hs1. split; [exact Hs1|].
  intros s2 Ho2. apply Hbind.
  eapply rg_mono; [|apply (rg_zoom Server.v_engine Server.set_engine obs (fun _ e' => J e') obsS (fun _ s' => J (Server.v_engine s')));
    [done|done|done|]].
  2: { eapply rg_stable; [apply obs_trans| |exact Hobs]. eapply obs_trans; [exact Ho|exact Ho2]. }
  intros r s3 Hs3. cbv beta in Hs3. eapply rg_mono; [|apply (rg_assert (fun s' => J (Server.v_engine s')) _ obsS); [exact HJ|exact HJ|exact Hs3|]].
  { intros a s4 _. exact I. }
  apply preserves_rg; [intros s4; apply obs_refl|].
  intros s4. destruct r; [|done]. apply preserves_bind; [apply obsS_onEngine; intros; apply obs_world|].
  intros x. apply obsS_updateServer.
Qed.

(** Even when it panics. *)
Lemma engine_rg at_ fuel wfuel cfuel (s : State) : J (engine s) -> goes (Run fuel wfuel cfuel) (engine s) ->
  rg obsA (fun _ s' => J (engine s')) (safely at_ "engine" (onServed (engineGoroutine fuel wfuel cfuel))) (fun _ _ => True) s.
Proof using All.
  intros Hs Hrun.
  assert (forall s1 s2 : State, obsA s1 s2 -> J (engine s1) -> J (engine s2)) as HJ.
  { intros s1 s2 Ho HJ1. apply (HJa (engine s1)); [by apply Ho, HJf|done]. }
  assert (forall A B (p : prog State A) (g : A -> prog State B) Q s1,
    rg obsA (fun _ s' => J (engine s')) p (fun a s' => rg obsA (fun _ s' => J (engine s')) (g a) Q s') s1 ->
    rg obsA (fun _ s' => J (engine s')) (p ≫= g) Q s1) as Hbind.
  { intros A B p g Q s1. apply rg_bind; [intros s2; apply obs_refl|intros s2 s3 s4; apply obs_trans]. }
  unfold safely, Safe.guard. do 2 apply Hbind.
  eapply rg_mono; [|apply (rg_assert (fun s' => J (engine s')) obsA (fun _ s' => J (engine s'))); [exact HJ|done|exact Hs|]].
  2: { apply Safe.rg_mayPanic, (rg_zoom a_served set_served obsS (fun _ v => J (Server.v_engine v)) _ _ _ (fun _ _ => True));
       [done|done|done|by apply engineGoroutine_rg]. }
  intros [[]|v] s1 [Hs1 _]; [by intros s2 _|]. cbv beta iota.
  eapply rg_mono; [|apply (rg_assert (fun s' => J (engine s')) obsA obsA); [exact HJ|exact HJ|exact Hs1|]].
  - intros a s2 _. by intros s3 _.
  - apply preserves_rg; [intros s2; apply obs_refl|]. intros s2.
    apply preserves_bind; [apply obsA_onEngine; intros; apply obs_metric|done].
Qed.

Lemma process_keeps panics fuel cfg reqs sched (s s' : State) : J (engine s) ->
  goes (Run (f_seed fuel) (f_wait fuel) (f_chain fuel)) (engine s) ->
  reaches (par sched (goroutines panics fuel cfg reqs)) s s' -> J (engine s').
Proof using All.
  intros Hs Hrun Hreach. set (I := fun s1 : State => J (engine s1)).
  enough (wpi I (par sched (goroutines panics fuel cfg reqs)) (fun _ _ => True) s) as Hwp
    by apply (wpi_reaches _ _ _ _ s' Hs Hwp Hreach).
  apply (rg_wpi I eq); [done|done|]. eapply rg_mono; [done|].
  apply (par_rg (fun i => match i with O => obsA | _ => fun _ _ => True end)
    (fun i => match i with O => fun _ s2 : State => I s2 | _ => obsA end) (fun _ _ _ => True) eq).
  - intros [|i]; [intros s1; apply obs_refl|by intros s1].
  - intros [|i]; [intros s1 s2 s3; apply obs_trans|by intros s1].
  - by intros s1.
  - by intros s1 s2 s3 -> ->.
  - by intros [|i] [|j] s1 s2 Hij HG.
  - intros [|i] s1 s2 ->; [apply obs_refl|done].
  - intros [|i] s1 s2 HG HJ1; [done|]. apply (HJa (engine s1)); [by apply HG, HJf|done].
  - intros [|i] p Hi.
    + assert (p = safely (panics O) "engine" (onServed (engineGoroutine (f_seed fuel) (f_wait fuel) (f_chain fuel)))) as ->
        by (symmetry; exact (Some_inj _ _ Hi)). by apply engine_rg.
    + apply preserves_rg; [intros s1; apply obs_refl|]. intros s1.
      apply observer_goroutines with (panics := panics) (fuel := fuel) (cfg := cfg) (reqs := reqs). apply (list_elem_of_lookup_2 _ i). exact Hi.
Qed.
End keeps.

(** Of an engine that has its chains. *)
Definition bootstrapped (e : E) : Prop := sBootstrapStage (e_state e) = StageL2Done.

(** *** A panic of the engine's goroutine *)

Definition flags (s : Server.t) : bool * bool := (Server.sEngineRunning s, Server.sEngineStoppedUnexpected s).

Lemma flags_onEngine {A} (p : prog E A) x : preserves (fun s : Served => flags (Server.v_server s) = x) (Server.onEngine p).
Proof using. apply (preserves_zoom _ _ _ (fun _ _ => True)); [done|intros _; apply preserves_any|done]. Qed.

Lemma flags_onServed {A} (p : prog Served A) P : Safe.keeps_until P p -> Safe.keeps_until (fun s : State => P (a_served s)) (onServed p).
Proof using.
  unfold onServed. induction p as [a|B f g IH]; [done|]. intros Hp s Hs. specialize (Hp _ Hs). simpl.
  destruct (f (a_served s)) as [b v]. simpl in *. destruct Hp as [[Hv Hg]|[a ->]]; [left|right; by exists a]. split; [done|by apply IH].
Qed.

(** A panic of the engine's goroutine goes unnoticed.  Wherever in it (once it has
    begun) the panic is, it is recovered, and the server goes on saying that the
    engine runs: the line that marks it stopped is skipped. *)
Theorem engine_panic_unnoticed k v v' fuel wfuel cfuel (s s' : State) :
  run (Safe.mayPanic (Some (S k, v)) (onServed (engineGoroutine fuel wfuel cfuel))) s = (Safe.Panicked v', s') ->
  flags (Server.v_server (a_served s')) = (true, Server.sEngineStoppedUnexpected (Server.v_server (a_served s))).
Proof using.
  cbn [Safe.mayPanic]. unfold engineGoroutine. intros Hrun.
  refine (Safe.keeps_panic_S (fun s1 : State => flags (Server.v_server (a_served s1)) = (true, Server.sEngineStoppedUnexpected (Server.v_server (a_served s))))
    k v v' _ _ s s' _ _ Hrun); [done|].
  apply (flags_onServed _ (fun s1 => flags (Server.v_server s1) = _)).
  apply (Safe.keeps_until_bind _ (Server.onEngine (Run fuel wfuel cfuel))); [apply flags_onEngine|]. intros [x|]; [|done].
  apply Safe.keeps_until_bind; [apply flags_onEngine|]. intros e s1 _. right. by exists tt.
Qed.

Lemma process_inv m panics fuel cfg reqs sched (s s' : State) :
  chains_ready m (engine s) -> bootstrapped (engine s) -> reaches (par sched (goroutines panics fuel cfg reqs)) s s' ->
  only (chain_lanes m (Queue.heap (e_queue (engine s)))) [] (engine s').
Proof.
  intros Hr Hb Hreach. assert (resuming (engine s) (engine s)) as Hres by (by split; [split; [apply quiet_refl|]|]).
  assert (guarded (chains_held m (engine s)) (engine s')) as [Hh _].
  { eapply (process_keeps _ (guarded_aside _ ltac:(by intros e1 e2; apply held_quiet))); [by intros e1 [_ ?]| | |exact Hreach].
    - by apply resuming_guarded.
    - by apply Run_resumes. }
  eapply held_only; [exact Hh| |by apply (ready_pendings m)|by intros p ?%elem_of_nil].
  intros k u [Hu ->]%(ready_tips m _ Hr). exists (chain_lane m u). split; [apply chain_lanes_elem; right; by exists u|by exists O, u].
Qed.

Lemma process_stage m panics fuel cfg reqs sched (s s' : State) seed :
  funded_engine m seed (engine s) -> rooted m seed -> e_numChains (engine s) < two63 ->
  reaches (par sched (goroutines panics fuel cfg reqs)) s s' ->
  stage_inv m (e_numChains (engine s)) (e_fanoutSize (engine s)) seed (engine s').
Proof.
  intros Hf Hroot Hnc Hreach.
  assert (waiting seed (engine s) (engine s)) as Hw.
  { split; [|by eapply fe_stage]. split; [split; [apply quiet_refl|by eapply fe_queue]|done]. }
  assert (bootstrapConfigLocked (engine s) = mkBootstrapConfig (e_numChains (engine s)) (e_fanoutSize (engine s)) (SustainFee m)) as Hcfg
    by (rewrite <- (fe_mode _ _ _ Hf); done).
  eapply (process_keeps (guarded (stage_inv m (e_numChains (engine s)) (e_fanoutSize (engine s)) seed)));
    [apply guarded_aside, stage_inv_quiet|by intros e1 [_ ?]| | |exact Hreach].
  - by eapply waiting_guarded.
  - by eapply Run_grows.
Qed.

(** C3: a bootstrap stopped anywhere is recoverable.  A funded engine fans its output
    out and runs its chains while the event streams deliver what they will and any
    requests are served, whoever sends them.  Whatever the interleaving, and wherever
    the process is stopped, the store and the network agree on where the bootstrap
    stands: at the funding output, at the outputs of its accepted fanout, or at the
    chains; whatever the network accepted is either applied in the store or pending
    there; and nothing else is stored or pending. *)
Theorem process_bootstrap_crash_safe m panics fuel cfg reqs sched (s s' : State) seed :
  funded_engine m seed (engine s) -> rooted m seed -> e_numChains (engine s) < two63 ->
  reaches (par sched (goroutines panics fuel cfg reqs)) s s' ->
  growth m (e_numChains (engine s)) (e_fanoutSize (engine s)) seed (engine s').
Proof. intros Hf Hroot Hnc Hreach. apply stage_growth; [done|done|]. by eapply process_stage. Qed.

(** C2: the whole process.  The engine of a bootstrapped instance runs its chains
    while its rate is tracked, the event streams deliver what they will, and any
    requests are served, whoever sends them.  Whatever the interleaving, and
    wherever the process is stopped, every chain is recoverable: the store holds
    exactly its tip at some hop, the network has accepted exactly the hops before it,
    or those and the next, whose pending record is in the store, and nothing else of
    it is pending. *)
Theorem process_crash_safe m panics fuel cfg reqs sched (s s' : State) seed :
  chains_ready m (engine s) -> bootstrapped (engine s) -> seed ∈ Queue.heap (e_queue (engine s)) ->
  reaches (par sched (goroutines panics fuel cfg reqs)) s s' -> chain_status m seed (engine s').
Proof.
  intros Hr Hb Hseed Hreach. pose proof (process_inv m panics fuel cfg reqs sched s s' Hr Hb Hreach) as Ho.
  apply (lane_safe_status m (Queue.heap (e_queue (engine s))));
    [by apply (ready_seeds m)|done|by eapply (ready_values m)|].
  apply (only_safe _ _ _ Ho), chain_lanes_elem. right. by exists seed.
Qed.

(** C1: a crash of the process loses no accepted transaction and spends no output
    twice.  Stop it anywhere and start it again on the file it left: if it starts,
    it is with the lock script the file was created for, and every chain continues
    from one tip: the one after the last hop the network accepted, or, when one more
    hop was pending, the one after that; the queue holds that tip (unless it is worth
    nothing) and no other tip of the chain, and nothing of the chain is pending.  In
    the same mode the chains are then ready as they were before, so that all this
    holds of the next crash too. *)
Theorem process_restart m panics fuel cfg cfg' reqs sched (s s' : State) seed (b : App.Boot) (e2 : E) :
  chains_ready m (engine s) -> bootstrapped (engine s) -> seed ∈ Queue.heap (e_queue (engine s)) ->
  reaches (par sched (goroutines panics fuel cfg reqs)) s s' ->
  Queue.store (e_queue (engine s')) = Some (App.b_store b) -> tips (engine s') <> ∅ ->
  (run (App.start cfg' (e_log (engine s'))) b).1 = Ok e2 ->
  App.recorded b = ModeScriptHash (e_mode e2) /\ e_log e2 = e_log (engine s') /\
  (exists n a, (n = a \/ n = S a /\ exists p, hopAt m seed a = Some p /\ is_Some (pendings (engine s') !! pTxID p)) /\
    (forall k p, hopAt m seed k = Some p -> (p, true) ∈ e_log (engine s') <-> (k < a)%nat) /\
    (forall k w, tipAt m seed k = Some w -> w ∈ Queue.heap (e_queue e2) <-> k = n /\ Value w <> 0) /\
    (forall k p, hopAt m seed k = Some p -> pendings e2 !! pTxID p = None)) /\
  (e_mode e2 = m -> chains_ready m e2).
Proof.
  intros Hr Hb Hseed Hreach Hst Hne Hstart. pose proof (process_inv m panics fuel cfg reqs sched s s' Hr Hb Hreach) as Ho.
  pose proof (ready_seeds m _ Hr) as Hind. pose proof (ready_values m _ Hr) as Hval.
  destruct (App.start_lanes (chain_lanes m (Queue.heap (e_queue (engine s)))) cfg' (engine s') e2 b) as (Hrec & Hlog & Hres);
    [by eapply chain_lanes_wf|by apply chain_lanes_redo|by eapply only_crash|done..|].
  split_and!; [done|done|by eapply resumed_chain; [..|exact Hres]; eauto|].
  intros Hm. by apply (resumed_ready m _ Hind Hval [] _ e2 Ho Hres).
Qed.

(** C4: a bootstrap stopped anywhere is taken up again without losing an accepted
    transaction or spending an output twice.  If the process starts on the file it left,
    it is with the lock script the file was created for, and nothing is pending.  The
    queue then holds the funding output or, if its fanout was accepted or pending,
    the outputs of that; or, once it was accepted, for every output of it that output or,
    if its own fanout was accepted or pending, the outputs of that; or one tip for
    every chain; and nothing else. *)
Theorem process_bootstrap_restart m panics fuel cfg cfg' reqs sched (s s' : State) seed (b : App.Boot) (e2 : E) :
  funded_engine m seed (engine s) -> rooted m seed -> e_numChains (engine s) < two63 ->
  reaches (par sched (goroutines panics fuel cfg reqs)) s s' ->
  Queue.store (e_queue (engine s')) = Some (App.b_store b) -> tips (engine s') <> ∅ ->
  (run (App.start cfg' (e_log (engine s'))) b).1 = Ok e2 ->
  App.recorded b = ModeScriptHash (e_mode e2) /\ e_log e2 = e_log (engine s') /\ pendings e2 = ∅ /\ NoDup (queued e2) /\
  regrowth m (e_numChains (engine s)) (e_fanoutSize (engine s)) seed (engine s') e2.
Proof.
  intros Hf Hroot Hnc Hreach Hst Hne Hstart.
  pose proof (process_stage m panics fuel cfg reqs sched s s' seed Hf Hroot Hnc Hreach) as Hinv.
  assert (forall lanes, sound lanes -> crash_state lanes (engine s') ->
    App.recorded b = ModeScriptHash (e_mode e2) /\ e_log e2 = e_log (engine s') /\ resumed lanes (engine s') e2) as Hres
    by (intros lanes [? ?] ?; by eapply App.start_lanes).
  destruct (stage_crash m _ _ seed Hroot Hnc _ Hinv) as (lanes & Hs & Hc). destruct (Hres lanes Hs Hc) as (Hrec & Hlog & Hr).
  split_and!; [done|done|by eapply res_pendings|by eapply resumed_NoDup|].
  apply stage_regrowth; [done|done|done|]. intros lanes' Hs' Hc'. by apply Hres.
Qed.

(** C5: the process can always be started again.  Wherever a process is stopped, be it
    while it bootstraps from one output or while it runs its chains, a start on the file it
    left succeeds, provided the file holds an output, is not refused, and does what it is
    asked to, and the transaction mode is configured. *)
Theorem restart_succeeds m panics fuel cfg cfg' reqs sched (s s' : State) (b : App.Boot) (fine : D -> Prop) mode :
  ReliableStore fine ->
  (chains_ready m (engine s) /\ bootstrapped (engine s) \/
   exists seed, funded_engine m seed (engine s) /\ rooted m seed /\ e_numChains (engine s) < two63) ->
  reaches (par sched (goroutines panics fuel cfg reqs)) s s' ->
  Queue.store (e_queue (engine s')) = Some (App.b_store b) -> tips (engine s') <> ∅ -> fine (App.b_store b) ->
  NewMode (Config.PrivateKey cfg') (Config.InstanceID cfg') (Config.SustainFee cfg') = Ok mode -> ~ App.refused mode b ->
  exists e2 : E, (run (App.start cfg' (e_log (engine s'))) b).1 = Ok e2.
Proof.
  intros Hfine Hcase Hreach Hst Hne Hf Hmode Hnr.
  assert (exists lanes, sound lanes /\ crash_state lanes (engine s')) as (lanes & [Hwf _] & Hc).
  { destruct Hcase as [[Hr Hb]|(seed & Hfe & Hroot & Hnc)]; [|by eapply stage_crash, process_stage].
    exists (chain_lanes m (Queue.heap (e_queue (engine s)))). split; [split; [|apply chain_lanes_redo]|].
    - by eapply chain_lanes_wf; [apply (ready_seeds m _ Hr)|].
    - by eapply only_crash, process_inv. }
  pose proof (crash_keyed lanes Hwf _ Hc) as Hk.
  apply (App.start_total fine cfg' _ mode); try done; unfold App.fileTips, App.filePending, tips, pendings in *; by rewrite Hst in *.
Qed.
End whole.
End Process.
