(* ===== verification/Scenario.v ===== *)
(** * Concrete runs

    A scripted outside world, an engine over an in-memory state file, and for each
    property with hypotheses a run in which they hold. *)

From S2P Require Import Prelude Prog Safe Script TxBuilder Backoff Float Metrics Store Heap Queue.
From S2P Require Import Engine Control Wake Lane Chain Liveness Bootstrap Recovery Growth.
Open Scope Z_scope.

Import ToySdk MemStore MemMetrics.

(** ** Transaction ids of the toy SDK *)

Lemma toy_txid (t : Transaction) o : spends t = [o] -> TxIDString t = utxoKey o.1 o.2.
Proof.
  destruct t as [ins outs]. unfold spends. simpl. destruct ins as [|i [|]]; [done| |done].
  by intros [= <-].
Qed.

Lemma string_length_app s s' : String.length (s +:+ s') = (String.length s + String.length s')%nat.
Proof. induction s as [|a s IH]; simpl; [done|]. by rewrite IH. Qed.

Lemma utxoKey_length h (n : N) : (String.length h < String.length (utxoKey h n))%nat.
Proof. unfold utxoKey. rewrite !string_length_app. simpl. lia. Qed.

Lemma toy_txid_nonempty (t : Transaction) : TxIDString t <> ""%string.
Proof.
  destruct t as [[|i [|j ins]] outs]; [done| |done]. simpl. unfold txid, spell. simpl.
  intros Heq. apply (f_equal String.length) in Heq. rewrite !string_length_app in Heq. simpl in Heq. lia.
Qed.

Lemma toy_decode s h : NewHashFromHex s = Ok h -> h = s /\ s <> ""%string.
Proof. simpl. destruct s; simpl; [done|]. by intros [= <-]. Qed.

#[export] Instance toy_txid_laws : TxidLaws.
Proof.
  split.
  - apply toy_txid_nonempty.
  - intros t t' o o' Ho Ho' Heq. rewrite (toy_txid t o Ho), (toy_txid t' o' Ho') in Heq.
    apply utxoKey_inj_pair in Heq as [? ?]. destruct o, o'; simpl in *; congruence.
  - intros t. exists (TxIDString t). pose proof (toy_txid_nonempty t) as Hne. simpl in *.
    by destruct (txid t).
  - intros t t' h [-> _]%toy_decode [? _]%toy_decode. done.
Qed.

(** An id is longer than the hash its transaction spends. *)
Lemma toy_links_length (u : UTXO) (tx : Tx) outs : links u tx outs ->
  (String.length (TxHash u) < String.length (TxID tx))%nat /\ TxHash u <> ""%string.
Proof.
  intros (t & h & <- & [-> Hne]%toy_decode & Hs & _). split; [|done].
  rewrite (toy_txid t _ Hs). apply utxoKey_length.
Qed.

Lemma toy_tip_length m s n u : tipAt m s n = Some u -> (String.length (TxHash s) + n <= String.length (TxHash u))%nat.
Proof.
  revert u. induction n as [|n IH]; intros u Hu; [injection Hu as <-; lia|].
  apply tipAt_S in Hu as (w & tx & Hw & [Hl _]%BuildSustain_links). specialize (IH w Hw).
  destruct (toy_links_length _ _ _ Hl) as [Hlen _]. destruct Hl as (t & h & _ & _ & _ & Hall).
  rewrite Forall_singleton in Hall. rewrite Hall. lia.
Qed.

Lemma toy_same_hash u u' : TxHash u <> ""%string -> spentOutpoint u = spentOutpoint u' -> TxHash u = TxHash u' /\ TxPos u = TxPos u'.
Proof.
  unfold spentOutpoint. simpl. intros Hne [= Hh Hp].
  destruct (TxHash u), (TxHash u'); simpl in *; try done. by injection Hh as -> ->.
Qed.

(** Ids grow along the tree of transactions, so no output is among its descendants. *)
Lemma toy_descendant_length m s u : rtc (child m) s u -> (String.length (TxHash s) <= String.length (TxHash u))%nat.
Proof.
  induction 1 as [|s u w (tx & outs & _ & [Hlt _]%toy_links_length & Hh)%child_links _ IH]; [done|]. rewrite Hh in IH. lia.
Qed.

Lemma toy_rooted m s : rooted m s.
Proof.
  intros u tx Hu%toy_descendant_length [outs [Hlt _]%toy_links_length]%spender_links Heq.
  assert (TxID tx = TxHash s) as Hs; [|rewrite Hs in Hlt; lia].
  simpl in Heq. destruct (TxID tx), (TxHash s); simpl in *; try lia; congruence.
Qed.

(** ** A scripted world *)

Record toyWorld := mkWorld {
  tw_answers : list bool;      (* of Broadcast; then it accepts *)
  tw_select : list nat;        (* of select; then the second case *)
  tw_funding : list (list UTXO);
  tw_schedule : list nat;
  tw_panics : list (option (nat * string));
}.

#[export] Instance toy_world : World toyWorld := {|
  Broadcast _ _ w :=
    match tw_answers w with
    | [] => (None, w)
    | b :: rest => ((if b then None else Some (External "rejected")), mkWorld rest (tw_select w) (tw_funding w) (tw_schedule w) (tw_panics w))
    end;
  FetchUTXOs _ w :=
    match tw_funding w with
    | [] => (Ok [], w)
    | us :: rest => (Ok us, mkWorld (tw_answers w) (tw_select w) rest (tw_schedule w) (tw_panics w))
    end;
  Now w := (1, w);
  CtxErr w := (None, w);
  Select _ _ w :=
    match tw_select w with
    | [] => (1%nat, w)
    | c :: rest => (c, mkWorld (tw_answers w) rest (tw_funding w) (tw_schedule w) (tw_panics w))
    end;
  Rand w := (fun _ => 0, w);
  Schedule w := (tw_schedule w, w);
  Panics w :=
    match tw_panics w with
    | [] => (None, w)
    | x :: rest => (x, mkWorld (tw_answers w) (tw_select w) (tw_funding w) (tw_schedule w) rest)
    end;
|}.

Definition calm_world : toyWorld := mkWorld [] [] [] [] [].

(** ** Engines *)

Abbreviation E := (Engine (D := @DB mem_bolt) (W := toyWorld)).

Definition toy_opts (d : @DB mem_bolt) (numChains : Z) : Options :=
  mkOptions (Some drop_mode) true true (Some d) [] numChains 2 0 Metrics.New.

(** A state file after some operations, with the failures to come. *)
Definition file_after (ops : list store_op) (faults : list bool) : @DB mem_bolt :=
  let d := (run_ops ops (fresh [])).2 in mkMem (mem d) faults.

(** One that holds the given tips. *)
Definition toy_file (us : list UTXO) (faults : list bool) : @DB mem_bolt := file_after (OpSaveUTXO <$> us) faults.

(** An engine over a file, with the tips queued and a rate. *)
Definition engine_over (d : @DB mem_bolt) (us : list UTXO) (numChains : Z) (w : toyWorld) : E :=
  set_tps 5 (set_queue (foldl (fun q u => Queue.push u q) (Queue.newQueue (Some d)) us)
    (newEngine (toy_opts d numChains) drop_mode w [])).

Definition toy_engine (us : list UTXO) (numChains : Z) (faults : list bool) (w : toyWorld) : E :=
  engine_over (toy_file us faults) us numChains w.

Lemma file_after_wf ops faults : wf_of (contents (file_after ops faults)).
Proof.
  destruct (store_refines_ops ops (fresh []) (run_ops ops (fresh [])).1
    (run_ops ops (fresh [])).2 (fresh_wf []) (surjective_pairing _)) as (_ & Hwf & _).
  exact Hwf.
Qed.

Lemma engine_over_durable d us numChains w : wf_of (contents d) -> durable (engine_over d us numChains w).
Proof.
  intros Hd. unfold durable, engine_over. cbn [e_queue set_tps set_queue].
  assert (forall us (q : Queue.queue (@DB mem_bolt)), Queue.wf q ->
    Queue.wf (foldl (fun q u => Queue.push u q) q us) /\ Queue.store (foldl (fun q u => Queue.push u q) q us) = Queue.store q) as Hpush.
  { clear. induction us as [|u us IH]; intros q Hq; [done|]. simpl.
    destruct (IH (Queue.push u q)) as [Hw Hs]; [by apply Queue.push_wf|]. split; [exact Hw|]. etrans; [exact Hs|done]. }
  destruct (Hpush us (Queue.newQueue (Some d))) as [Hw Hs].
  - split; [apply is_heap_nil|exact Hd].
  - split; [done|]. eexists. by rewrite Hs.
Qed.

Lemma toy_durable us numChains faults w : durable (toy_engine us numChains faults w).
Proof. apply engine_over_durable, file_after_wf. Qed.

(** Two funded tips. *)
Definition tipA : UTXO := mkUTXO "aa" 0 300 5.
Definition tipB : UTXO := mkUTXO "bb" 1 400 0.

(** The UTXOs whose hash has two characters. *)
Definition short (us : list UTXO) : Prop :=
  NoDup us /\ (forall u, u ∈ us -> String.length (TxHash u) = 2%nat /\ Value u <> 0) /\
  (forall u u', u ∈ us -> u' ∈ us -> TxHash u = TxHash u' -> TxPos u = TxPos u' -> u = u').

Lemma short_AB : short [tipA; tipB].
Proof.
  split; [apply (bool_decide_unpack _); vm_compute; exact I|]. split.
  - intros u Hu. repeat (apply elem_of_cons in Hu as [->|Hu]; [done|]). by apply elem_of_nil in Hu.
  - intros u u' Hu Hu'.
    apply elem_of_cons in Hu as [->|[->|Hu]%elem_of_cons]; [..|by apply elem_of_nil in Hu];
      (apply elem_of_cons in Hu' as [->|[->|Hu']%elem_of_cons]; [..|by apply elem_of_nil in Hu']); done.
Qed.

Lemma short_independent us : short us -> independent drop_mode us.
Proof.
  intros (Hnd & Hlen & Hinj). split; [done|]. intros s s' n u Hs Hs' Hu Heq.
  destruct (Hlen s Hs) as [Hls _], (Hlen s' Hs') as [Hls' _]. pose proof (toy_tip_length _ _ _ _ Hu) as Hl.
  destruct (toy_same_hash u s') as [Hh Hp]; [by intros Hemp; rewrite Hemp in Hl; simpl in Hl; lia|done|].
  rewrite Hh in Hl. assert (n = O) as -> by lia. injection Hu as <-. split; [|done]. by apply Hinj.
Qed.

(** *** Ready engines *)

Definition tips_AB : gmap string UTXO := <[keyOf tipA := tipA]> {[ keyOf tipB := tipB ]}.

Lemma tips_AB_spec k u : tips_AB !! k = Some u <-> u ∈ [tipA; tipB] /\ k = keyOf u.
Proof.
  unfold tips_AB. rewrite lookup_insert_Some, lookup_singleton_Some, !elem_of_cons.
  assert (keyOf tipA <> keyOf tipB) by (intros [? ?]%utxoKey_inj_pair; done). set_solver.
Qed.

Lemma toy_tips numChains faults w : tips (toy_engine [tipA; tipB] numChains faults w) = tips_AB.
Proof. vm_compute. reflexivity. Qed.

Lemma toy_tips_spec numChains faults w k u :
  tips (toy_engine [tipA; tipB] numChains faults w) !! k = Some u <-> u ∈ [tipA; tipB] /\ k = keyOf u.
Proof. rewrite toy_tips. apply tips_AB_spec. Qed.

Lemma toy_queued numChains faults w : Queue.heap (e_queue (toy_engine [tipA; tipB] numChains faults w)) = [tipA; tipB].
Proof. reflexivity. Qed.

(** An engine over a file that holds these tips and nothing pending. *)
Lemma chains_ready_over d numChains w : wf_of (contents d) ->
  tips (engine_over d [tipA; tipB] numChains w) = tips_AB -> pendings (engine_over d [tipA; tipB] numChains w) = ∅ ->
  chains_ready drop_mode (engine_over d [tipA; tipB] numChains w).
Proof.
  intros Hwf Ht Hp. split.
  - by apply engine_over_durable.
  - done.
  - apply short_independent, short_AB.
  - intros s Hs. by apply short_AB.
  - intros k u. rewrite Ht. apply tips_AB_spec.
  - done.
  - intros s n p _ _. apply not_elem_of_nil.
Qed.

Lemma toy_chains_ready numChains faults w : chains_ready drop_mode (toy_engine [tipA; tipB] numChains faults w).
Proof. apply chains_ready_over; [apply file_after_wf|apply toy_tips|vm_compute; reflexivity]. Qed.

Lemma toy_l2_ready numChains faults w : l2_ready drop_mode (toy_engine [tipA; tipB] numChains faults w).
Proof.
  destruct short_AB as (Hnd & Hlen & Hinj). split.
  - apply toy_durable.
  - done.
  - split; [done|..].
    + intros p p' Hp Hp' [Hh Ht]%toy_same_hash; [by apply Hinj|].
      intros Hemp. apply Hlen in Hp as [Hl _]. by rewrite Hemp in Hl.
    + intros p p' n tx outs Hp Hp' Hl%BuildFanout_links Heq.
      destruct (toy_links_length _ _ _ Hl) as [Hlt _]. apply Hlen in Hp as [Hp _]. apply Hlen in Hp' as [Hp' _].
      simpl in Heq. destruct (TxHash p'), (TxID tx); simpl in *; try lia. injection Heq as <- <-. simpl in *. lia.
  - intros p Hp. by apply toy_tips_spec.
  - intros p n r Hp Hr. split_and!; [|vm_compute; reflexivity|apply not_elem_of_nil].
    intros u Hu. pose proof (fan_output_hash StageL2Partial drop_mode p n r u Hr Hu) as Hh.
    destruct (tips _ !! keyOf u) as [v|] eqn:Hv; [|done]. exfalso.
    apply toy_tips_spec in Hv as [Hin [Hhv _]%utxoKey_inj_pair]. apply Hlen in Hin as [Hlv _]. apply Hlen in Hp as [Hlp _].
    apply fanRecord_Some in Hr as (tx & outs & _ & -> & Hl). destruct (toy_links_length _ _ _ Hl) as [Hlt _].
    simpl in Hh. rewrite <- Hhv, Hh in Hlv. lia.
Qed.

Lemma run_Ok (p : prog E (option err)) (e : E) : (run p e).1 = None -> run p e = (None, (run p e).2).
Proof. intros <-. apply surjective_pairing. Qed.

(** ** A state file that never fails *)

Definition faultless (d : @DB mem_bolt) : Prop := faults d = [] /\ wf_of (contents d).

Lemma mem_update_ok d fn bs : faults d = [] -> fn (mem d) = Ok bs -> mem_update d fn = (None, mkMem bs []).
Proof. intros Hf Hfn. unfold mem_update. by rewrite Hf, Hfn. Qed.

Lemma with_bucket_total name f (tx : buckets) : is_Some (tx !! name) -> (forall b, exists b', f b = Ok b') ->
  exists b', with_bucket name f tx = Ok (<[name := b']> tx).
Proof. intros [b Hb] Hf. unfold with_bucket. rewrite Hb. destruct (Hf b) as [b' ->]. by exists b'. Qed.

Lemma keyOf_nonempty (u : UTXO) : keyOf u <> ""%string.
Proof. unfold utxoKey. by destruct (TxHash u). Qed.

Lemma mem_SavePending t p d : faultless d -> pTxID p <> ""%string ->
  exists d', ds_SavePending t p d = (None, d') /\ faultless d'.
Proof.
  intros [Hf Hwf] Hne. assert (exists bs, SavePending t p d = (None, mkMem bs [])) as [bs Hs].
  { unfold SavePending. rewrite bool_decide_eq_false_2 by done. set (p' := if pSavedAt p =? 0 then _ else p).
    assert (pTxID p' = pTxID p) as Hid by (subst p'; by case_if). simpl.
    destruct (with_bucket_total bucketPending (fun b => Put b (pTxID p') (bits_of (encode p'))) (mem d)) as [b' Hb].
    - apply Hwf.
    - intros b. simpl. rewrite bool_decide_eq_false_2 by (by rewrite Hid). by eexists.
    - eexists. by apply mem_update_ok. }
  exists (mkMem bs []). split; [exact Hs|]. split; [done|].
  exact (proj1 (SavePending_law (D := @DB mem_bolt) t p d None (mkMem bs []) Hwf Hs)).
Qed.

Lemma encodeCreated_total created : exists enc, encodeCreated created = Ok enc.
Proof. apply foldM_total. intros acc u. by case_if; eexists. Qed.

Lemma mem_CommitPending txid spent created d : faultless d -> txid <> ""%string ->
  exists d', ds_CommitPending txid spent created d = (None, d') /\ faultless d'.
Proof.
  intros [Hf Hwf] Hne. assert (exists bs, CommitPending txid spent created d = (None, mkMem bs [])) as [bs Hs].
  { unfold CommitPending. destruct (encodeCreated_total created) as [enc ->]. rewrite bool_decide_eq_true_2 by done.
    destruct (with_bucket_total bucketPending (fun b => Delete b txid) (mem d)) as [b1 Hb1]; [apply Hwf|by eexists|].
    destruct (with_bucket_total bucketUTXOs (fun utxos =>
        utxos ← foldM (fun b u => Delete b (keyOf u)) utxos spent;
        foldM (fun b '(u, enc) => match enc with None => Ok b | Some v => Put b (keyOf u) v end) utxos enc)
      (<[bucketPending := b1]> (mem d))) as [b2 Hb2].
    - rewrite lookup_insert_ne by done. apply Hwf.
    - intros b. destruct (foldM_total (fun b u => Delete b (keyOf u)) b spent) as [b' Hd]; [by eexists|].
      rewrite Hd. apply foldM_total. intros b3 [u [v|]]; [|by eexists]. simpl.
      rewrite bool_decide_eq_false_2 by apply keyOf_nonempty. by eexists.
    - eexists. apply mem_update_ok; [done|]. by rewrite Hb1. }
  exists (mkMem bs []). split; [exact Hs|]. split; [done|].
  exact (proj1 (CommitPending_law (D := @DB mem_bolt) txid spent created Hne d None (mkMem bs []) Hwf Hs)).
Qed.

Lemma mem_update_fine d name f : faultless d -> name = bucketUTXOs \/ name = bucketMeta \/ name = bucketPending ->
  (forall b, exists b', f b = Ok b') -> exists bs, mem_update d (with_bucket name f) = (None, mkMem bs []).
Proof.
  intros [Hf Hwf] Hname Ht. destruct (with_bucket_total name f (mem d)) as [b' Hb]; [|done|eexists; by apply mem_update_ok].
  destruct Hname as [->|[->| ->]]; apply Hwf.
Qed.

Lemma mem_put_total k v (b : bucket) : k <> ""%string -> exists b', Put b k v = Ok b'.
Proof. intros Hk. simpl. rewrite bool_decide_eq_false_2 by done. by eexists. Qed.

Lemma loadAll_total (d : @DB mem_bolt) : wf_of (contents d) -> exists us, ds_LoadAll d = Ok us.
Proof.
  intros ([b Hb] & _ & _ & Hall). unfold bucketOf in Hall. simpl in Hb, Hall |- *. unfold LoadAll. simpl. rewrite Hb in Hall |- *. simpl in Hall.
  apply foldM_total_in. intros acc [k v] Hk%elem_of_map_to_list. destruct (Hall k v Hk) as (u & Hu & _). simpl in Hu |- *.
  rewrite Hu. by eexists.
Qed.

#[export] Instance mem_reliable : ReliableStore faultless.
Proof.
  split.
  - by intros d [_ ?].
  - intros u d Hd. destruct (mem_update_fine d bucketUTXOs (fun b => Put b (keyOf u) (bits_of (encode u)))) as [bs Hs];
      [done|by left|intros b; apply mem_put_total, keyOf_nonempty|].
    exists (mkMem bs []). split; [exact Hs|]. split; [done|].
    exact (proj1 (SaveUTXO_law (D := @DB mem_bolt) u d None (mkMem bs []) (proj2 Hd) Hs)).
  - intros k v d Hd Hk. destruct (mem_update_fine d bucketMeta (fun b => Put b k (String.list_byte_of_string v))) as [bs Hs];
      [done|by right; left|intros b; by apply mem_put_total|].
    exists (mkMem bs []). split; [exact Hs|]. split; [done|].
    exact (proj1 (SetMeta_law (D := @DB mem_bolt) k v d None (mkMem bs []) (proj2 Hd) Hs)).
  - apply mem_SavePending.
  - apply mem_CommitPending.
  - intros d [_ Hwf]. destruct (loadAll_total d Hwf) as [us Hus]. by exists us.
  - intros k d [_ (_ & [b Hb] & _)]. simpl. unfold GetMeta. simpl. simpl in Hb. rewrite Hb. by eexists.
  - intros d [_ (_ & _ & [b Hb] & _)]. simpl. unfold LoadPending. simpl. simpl in Hb. rewrite Hb. apply foldM_total. by eexists.
Qed.

(** ** Panics *)

(** A worker that adds to a counter and one that panics after one step; panics are
    counted too. *)
Definition workers : list (string * prog (Z * Z) (Safe.ended unit)) :=
  let step := modify (fun s : Z * Z => (s.1 + 1, s.2)) in
  [("worker"%string, Safe.mayPanic None (step;; step)); ("chain"%string, Safe.mayPanic (Some (1%nat, "boom"%string)) (step;; step))].

Definition counting : Safe.Runner (S := Z * Z) :=
  Safe.mkRunner (Some (fun _ => modify (fun s : Z * Z => (s.1, s.2 + 1));; Ret (Safe.Returned tt))).

Lemma panics_are_contained_witness :
  let x := run (Safe.GoAll counting [1; 0; 1; 1; 0]%nat workers) (Safe.mkRuntime 0 [] [] false (0, 0)) in
  x.1 = [Safe.Returned tt; Safe.Panicked "boom"] /\ Safe.crashed x.2 = false /\ Safe.wg x.2 = 0 /\
  Safe.records x.2 ≡ₚ [("chain", "boom")]%string /\ Safe.rest x.2 = (3, 1).
Proof.
  intros x.
  assert (forall f name, Safe.OnPanic counting = Some f -> Safe.never_panics (f name)) as Hr
    by (intros f name [= <-] []; exists tt; reflexivity).
  destruct (Safe.panics_are_contained counting Hr [1; 0; 1; 1; 0]%nat workers (Safe.mkRuntime 0 [] [] false (0, 0))) as [Hreach Hrun].
  fold x in Hrun. assert (x.1 = [Safe.Returned tt; Safe.Panicked "boom"%string]) as Hos by (vm_compute; reflexivity).
  assert (Safe.rest x.2 = (3, 1)) as Hrest by (vm_compute; reflexivity).
  pose proof (proj1 (Hreach x.2 (reaches_run _ _))) as Hc. destruct x as [os s']. simpl in Hos, Hrest, Hc. subst os.
  destruct Hrun as (_ & Hwg & Hrec & _). split; [reflexivity|]. split; [exact Hc|]. split; [exact Hwg|]. split; [exact Hrec|exact Hrest].
Defined.

(** ** Controlling the engine *)

Definition idle_engine : E := toy_engine [] 2 [] calm_world.

Lemma ConfigureBootstrap_spec_witness :
  let x := run (ConfigureBootstrap (mkBootstrapUpdate (Some 50) None (Some 3))) idle_engine in
  x.1 = Ok (mkBootstrapConfig 50 2 3) /\ awaiting_funding idle_engine /\ x.2 = with_parameters 50 2 3 idle_engine.
Proof.
  intros x.
  pose proof (ConfigureBootstrap_spec (mkBootstrapUpdate (Some 50) None (Some 3)) idle_engine x.2 x.1
    (surjective_pairing _)) as Hc.
  assert (x.1 = Ok (mkBootstrapConfig 50 2 3)) as Hx by (vm_compute; reflexivity). rewrite Hx in Hc |- *.
  destruct Hc as (_ & Hf & _ & He). split; [reflexivity|]. split; [exact Hf|exact He].
Defined.

Definition locked_engine : E := set_bootstrapLocked true idle_engine.

Definition two_callers : list (list api) :=
  [[ApiConfigure (mkBootstrapUpdate (Some 50) None None); ApiSetTPS 9]; [ApiSetTPS 0; ApiTick]].

Lemma locked_parameters_are_fixed_witness :
  let e' := (run (par [0; 1; 0; 1; 1]%nat ((fun cs => seq_all (api_code <$> cs)) <$> two_callers)) locked_engine).2 in
  same_core locked_engine e' /\ e_numChains e' = 2 /\ e_tps e' = 9.
Proof.
  intros e'. split; [|split; vm_compute; reflexivity].
  apply (locked_parameters_are_fixed two_callers [0; 1; 0; 1; 1]%nat); [reflexivity|apply reaches_run].
Defined.

Definition running_engine : E := set_state (with_lifecycle LifecycleRunning (e_state idle_engine)) idle_engine.

Definition six_failures : list (list activity) :=
  [[Accepted; Failed "arcade" (External "503"); Failed "arcade" (External "503"); Failed "arcade" (External "503")];
   [Failed "arcade" (External "503"); Failed "arcade" (External "503"); Failed "arcade" (External "503")]].

Lemma degraded_only_after_failures_witness :
  let e' := (run (par [0; 1; 0; 1; 1]%nat ((fun w => seq_all (activity_code <$> w)) <$> six_failures)) running_engine).2 in
  lifecycle_ok e' /\ sLifecycle (e_state e') = LifecycleDegraded.
Proof.
  intros e'. split; [|vm_compute; reflexivity].
  apply (degraded_only_after_failures six_failures [0; 1; 0; 1; 1]%nat running_engine).
  - split; [discriminate|left; reflexivity].
  - apply reaches_run.
Defined.

Definition paused_engine : E := set_state (with_lifecycle LifecyclePaused (e_state idle_engine)) idle_engine.

Lemma racing_SetTPS_reports_running_witness :
  let e' := (run (par [0; 1; 1; 1; 1]%nat [SetTPS 7; SetTPS 0]) paused_engine).2 in
  e_tps e' = 0 /\ sLifecycle (e_state e') = LifecycleRunning.
Proof. exact (racing_SetTPS_reports_running paused_engine 7 ltac:(lia) eq_refl). Defined.

Lemma pause_is_undone_by_broadcasts_witness :
  let e' := do_all (Call (ApiSetTPS 0) :: replicate 5 (Failed "arcade" (External "503")) ++ [Accepted]) running_engine in
  e_tps e' = 0 /\ sLifecycle (e_state e') = LifecycleRunning.
Proof. apply (pause_is_undone_by_broadcasts running_engine (External "503")). vm_compute. discriminate. Defined.

(** The waiter takes the channel and sees a rate of 0; only then is the rate set
    and the channel closed. *)
Definition stopped_engine : E := set_tps 0 idle_engine.
Definition resumed_engine : E := (run (SetTPS 5) stopped_engine).2.

Lemma no_lost_wakeup_witness :
  wake_step (resumed_engine, [], [Blocked (e_resume stopped_engine)]) (resumed_engine, [], [Turning activeTurn]).
Proof.
  refine (proj1 (no_lost_wakeup stopped_engine resumed_engine [Blocked (e_resume stopped_engine)] 0 (e_resume stopped_engine) _ eq_refl _));
    [|vm_compute; reflexivity].
  eapply rtc_l; [apply wake_start|]. do 2 (eapply rtc_l; [eapply (wake_turn _ _ _ _ 0); reflexivity|]).
  eapply rtc_l; [apply (wake_block _ _ _ 0 (e_resume stopped_engine)); reflexivity|].
  eapply rtc_l; [apply (wake_call _ _ _ 5)|].
  do 4 (eapply rtc_l; [eapply (wake_act _ _ _ _ 0); reflexivity|]).
  eapply rtc_l; [apply (wake_return _ [] [])|]. apply rtc_refl.
Defined.

(** ** Chains *)

(** The commit of the first hop fails: the chain stops with its hop accepted and
    its record in the store. *)
Definition crashing : E := toy_engine [tipA; tipB] 2 [false; true] calm_world.
Definition crashed : E := (run (runChains 3 100) crashing).2.

Lemma chains_crash_safe_witness : chain_status drop_mode tipA crashed /\ size (pendings crashed) = 1%nat.
Proof.
  split; [|vm_compute; reflexivity].
  refine (chains_crash_safe drop_mode 3 100 crashing crashed tipA (toy_chains_ready _ _ _) _ (reaches_run _ _)).
  unfold crashing. rewrite toy_queued. left.
Defined.

(** Both chains run to their end, interleaved. *)
Definition smooth : E := toy_engine [tipA; tipB] 2 [] (mkWorld [] [] [] [1; 2; 2; 1; 0; 1; 2]%nat []).

Lemma exhausted_chain_is_settled_witness :
  let x := run (runChains 3 100) smooth in
  x.1 = [None; Some (ChainExhausted 43); Some (ChainExhausted 58)] /\
  exists s n u, s ∈ [tipA; tipB] /\ 58 = Z.of_nat n /\ tipAt drop_mode s n = Some u /\ Value u = 0 /\
    forall k w, tipAt drop_mode s k = Some w -> tips x.2 !! keyOf w = None.
Proof.
  intros x. assert (x.1 = [None; Some (ChainExhausted 43); Some (ChainExhausted 58)]) as Hx by (vm_compute; reflexivity).
  split; [exact Hx|].
  destruct (exhausted_chain_is_settled drop_mode 3 100 smooth x.2 x.1 58 (toy_chains_ready _ _ _) (surjective_pairing _))
    as (s & n & u & Hs & Hn & Hu & Hv & Ht & _).
  - rewrite Hx. do 2 right. left.
  - exists s, n, u. split_and!; assumption.
Defined.

(** A world in which every timer fires and every broadcast is accepted. *)
#[export] Instance kind_world : World unit := {|
  Broadcast _ _ w := (None, w);
  FetchUTXOs _ w := (Ok [], w);
  Now w := (1, w);
  CtxErr w := (None, w);
  Select _ _ w := (1%nat, w);
  Rand w := (fun _ => 0, w);
  Schedule w := ([], w);
  Panics w := (None, w);
|}.

Definition kind_engine : Engine (D := @DB mem_bolt) (W := unit) :=
  set_tps 5 (newEngine (toy_opts (fresh []) 2) drop_mode tt []).

Lemma zero_value_chain_never_ends_witness :
  exists e', run (chainLoop 1 1000 (mkUTXO "aa" 0 0 5) 0) kind_engine = (ChainRunning, e') /\ e_log e' = [].
Proof.
  exact (zero_value_chain_never_ends (W := unit) (fun n d w => eq_refl) (mkUTXO "aa" 0 0 5) 0 1000 0 kind_engine
    eq_refl ltac:(vm_compute; reflexivity)).
Defined.

Lemma toy_buildable u : TxHash u <> ""%string -> Value u <> 0 ->
  exists tx next, BuildSustain u (Some drop_mode) = Ok (tx, next) /\ TxHash next <> ""%string.
Proof.
  intros Hh Hv.
  destruct (BuildSustain u (Some drop_mode)) as [[tx next]|x] eqn:Hb.
  - exists tx, next. split; [done|]. apply BuildSustain_links in Hb as [(t & h & Ht & _ & _ & Hall) _].
    rewrite Forall_singleton in Hall. rewrite Hall, <- Ht. apply txid_nonempty.
  - exfalso. unfold BuildSustain in Hb. rewrite (proj2 (Z.eqb_neq _ _) Hv) in Hb.
    destruct u as [[|a h] pos v ht]; done.
Qed.

Lemma chain_exhausts_witness :
  exists e', run (runChain 1 43 tipA) kind_engine = (ChainExhausted 43, e').
Proof.
  refine (chain_exhausts (W := unit) drop_mode faultless (fun u => TxHash u <> ""%string)
    (fun n d w => eq_refl) (fun txid ef w => eq_refl) toy_buildable
    0 43 tipA kind_engine _ _ _ _ _).
  - vm_compute. reflexivity.
  - discriminate.
  - reflexivity.
  - vm_compute. discriminate.
  - split; [reflexivity|]. split; [reflexivity|]. split; [reflexivity|apply (fresh_wf [])].
Defined.

(** ** The L2 fanout *)

(** A network that accepts everything, and one that rejects until the attempts are
    used up. *)
Definition fanning : E := toy_engine [tipA; tipB] 5 [] calm_world.
Definition rejecting : E := toy_engine [tipA; tipB] 5 [] (mkWorld (replicate 20 false) [] [] [1; 0; 1; 1; 1; 0]%nat []).

Lemma bootstrapL2_crash_safe_witness :
  let e' := (run bootstrapL2 rejecting).2 in
  fan_status StageL2Partial drop_mode tipB (l2_size 5 (l2_order rejecting) 1) e'.
Proof.
  refine (bootstrapL2_crash_safe drop_mode rejecting _ 1 tipB (toy_l2_ready _ _ _) _ _ (reaches_run _ _)).
  - vm_compute. reflexivity.
  - vm_compute. reflexivity.
Defined.

Lemma bootstrapL2_complete_witness :
  let e' := (run bootstrapL2 fanning).2 in
  Z.of_nat (length (queued e')) = 5 /\ tips e' !! keyOf tipA = None /\ sBootstrapStage (e_state e') = StageL2Done.
Proof.
  intros e'. assert (run bootstrapL2 fanning = (None, e')) as Hrun.
  { apply run_Ok. vm_compute. reflexivity. }
  destruct (bootstrapL2_complete drop_mode fanning e' (toy_l2_ready _ _ _) ltac:(vm_compute; reflexivity) Hrun)
    as (Hlen & _ & Hp & Hst).
  split_and!; [exact Hlen| |exact Hst]. apply (Hp tipA). left.
Defined.

Lemma bootstrapL2_errors_witness :
  let x := run bootstrapL2 rejecting in
  x.1 = Some (Wrap "L2 fanouts failed" ErrBootstrapIncomplete) /\
  sLifecycle (e_state x.2) = LifecycleFailed /\ sBootstrapStage (e_state x.2) = StageL2Partial.
Proof.
  intros x. assert (x.1 = Some (Wrap "L2 fanouts failed" ErrBootstrapIncomplete)) as Hx by (vm_compute; reflexivity).
  split; [exact Hx|].
  destruct (bootstrapL2_errors drop_mode rejecting x.2 (Wrap "L2 fanouts failed" ErrBootstrapIncomplete)
    (toy_l2_ready _ _ _) ltac:(vm_compute; reflexivity)) as [[Hq _]|[[Hq _]|(_ & _ & Hs)]].
  - rewrite <- Hx. apply surjective_pairing.
  - discriminate Hq.
  - exfalso. revert Hq. vm_compute. discriminate.
  - exact Hs.
Defined.

(** ** Restarting *)

(** A new process on the state file that [e] left. *)
Definition reopened (e : E) : E :=
  match Queue.store (e_queue e) with
  | Some d => newEngine (toy_opts d 2) drop_mode calm_world []
  | None => e
  end.

Lemma reopened_same (e : E) : durable e ->
  durable (reopened e) /\ tips (reopened e) = tips e /\ pendings (reopened e) = pendings e.
Proof.
  intros [[_ Hwf] [d Hst]]. unfold reopened, durable, tips, pendings. rewrite Hst in Hwf |- *.
  split; [|done]. split; [|by exists d]. split; [apply is_heap_nil|exact Hwf].
Qed.

Lemma crashed_durable : durable crashed.
Proof. exact (proj1 (runChains_reaches drop_mode 3 100 crashing crashed (toy_chains_ready _ _ _) (reaches_run _ _))). Qed.

Definition crash_file : E := reopened crashed.

Lemma crash_file_same : durable crash_file /\ tips crash_file = tips crashed /\ pendings crash_file = pendings crashed.
Proof. unfold crash_file. exact (reopened_same crashed crashed_durable). Qed.

Definition restarted : E := (run (restore []) crash_file).2.

Lemma restarted_None : run (restore []) crash_file = (None, restarted).
Proof. apply run_Ok. vm_compute. reflexivity. Qed.

(** The crash left one record, of the first hop of [tipA]. *)
Lemma crash_file_keyed : keyed (pendings crash_file).
Proof.
  rewrite (proj2 (proj2 crash_file_same)).
  apply (crash_keyed (chain_lanes drop_mode [tipA; tipB])); [by eapply chain_lanes_wf; [apply short_independent, short_AB|]|].
  apply chains_crash.
  exact (runChains_reaches drop_mode 3 100 crashing crashed (toy_chains_ready _ _ _) (reaches_run _ _)).
Qed.

Lemma restore_replays_witness :
  tips restarted = replayTips (tips crash_file) (recordsOf (pendings crash_file)) /\
  size (pendings crash_file) = 1%nat /\ size (pendings restarted) = 0%nat.
Proof.
  destruct (restore_replays [] crash_file restarted (proj1 crash_file_same) (or_introl eq_refl)
    crash_file_keyed restarted_None) as (Ht & _).
  split; [exact Ht|]. split; vm_compute; reflexivity.
Defined.

Lemma restarted_durable : durable restarted.
Proof.
  destruct (wpi_run _ _ _ _ _ _ (restore_spec [] crash_file (proj1 crash_file_same) (or_introl eq_refl) crash_file_keyed)
    restarted_None eq_refl) as [[Hd _] _]. exact Hd.
Qed.

(** The second restart finds what the first one left. *)
Definition again_file : E := reopened restarted.

Lemma again_file_same : durable again_file /\ tips again_file = tips restarted /\ pendings again_file = pendings restarted.
Proof. unfold again_file. exact (reopened_same restarted restarted_durable). Qed.

Definition again : E := (run (restore []) again_file).2.

Lemma restore_restartable_witness : tips again = tips restarted /\ pendings again = pendings restarted.
Proof.
  destruct again_file_same as (Hd & Ht & Hp).
  refine (restore_restartable [] [] crash_file restarted again_file restarted again
    (proj1 crash_file_same) (or_introl eq_refl) crash_file_keyed (reaches_run _ _) Hd (or_introl eq_refl) Ht Hp restarted_None _).
  apply run_Ok. vm_compute. reflexivity.
Defined.

(** ** Resuming a stored stage *)

Definition at_stage (stage : string) (e : E) : E := set_state (with_stage stage (e_state e)) e.

Lemma partial_l2_starts_chains_witness :
  exists e', run (bootstrap 0) (at_stage StageL2Partial fanning) = (Finished None, e') /\
    untouched (at_stage StageL2Partial fanning) e' /\ sBootstrapStage (e_state e') = StageL2Done.
Proof.
  apply (partial_l2_starts_chains 0 (at_stage StageL2Partial fanning)).
  - reflexivity.
  - split; vm_compute; reflexivity.
  - vm_compute. discriminate.
Defined.

Lemma unknown_stage_starts_nothing_witness :
  exists x e', run (Run 0 3 100) (at_stage StageUnknown fanning) = (Finished (Some x), e') /\
    errors_is x ErrManualRecovery = true /\ e_log e' = [].
Proof.
  destruct (unknown_stage_starts_nothing 0 3 100 (at_stage StageUnknown fanning) eq_refl)
    as (x & e' & Hrun & Hx & [_ Hlog] & _).
  exists x, e'. split; [exact Hrun|]. split; [exact Hx|exact Hlog].
Defined.

(** A state file at stage [l2_done] with a pending record that has no transition,
    and a disk that refuses the next write. *)
Definition unreadable : PendingBroadcast := mkPending "cc" [] [] [] "" 3.

Definition unknown_file : @DB mem_bolt :=
  let d := (run_ops [OpSaveUTXO tipA; OpSetMeta MetaBootstrapStage StageL2Done; OpSavePending 3 unreadable] (fresh [])).2 in
  mkMem (mem d) [true].

(** When the stage [unknown] cannot be written, [restore] takes the stored stage
    again and reports no error: bootstrap then starts the chains. *)
Example unknown_stage_lost :
  let e := newEngine (toy_opts unknown_file 2) drop_mode calm_world [] in
  let x := run (restore []) e in
  x.1 = None /\ sBootstrapStage (e_state x.2) = StageL2Done /\ (run (bootstrap 0) x.2).1 = Finished None.
Proof. vm_compute. repeat split. Qed.
