(* ===== verification/NetScenario.v ===== *)
(** * Concrete runs of the clients and of the process

    A scripted network, and for each property of the clients, the streams, the
    server and the process that has hypotheses a run in which they hold. *)

From S2P Require Import Prelude Prog Safe Text Sha256 Strconv Json JsonFacts Script TxBuilder Backoff Float Metrics Store Heap Queue Engine Lane Chain Bootstrap Recovery Growth Restart.
From S2P Require Import Config Http Arcade Woc Network Notifier Sse Server App Lifecycle Process Scenario.
Open Scope Z_scope.

Import ToySdk MemStore MemMetrics.

(** ** A scripted network *)

Record toyNet := mkNet {
  tn_answers : list (result Response);   (* then every connection is refused *)
  tn_choices : list nat;                 (* of select; then the first case *)
  tn_time : Z;                           (* one second passes with every reading *)
}.

#[export] Instance toy_net : Net toyNet := {|
  NewRequest _ url := if bool_decide (url = ""%string) then Some (External "no host") else None;
  HttpDo _ n :=
    match tn_answers n with
    | [] => (Err (External "connection refused"), n)
    | a :: rest => (a, mkNet rest (tn_choices n) (tn_time n))
    end;
  Clock n := (tn_time n, mkNet (tn_answers n) (tn_choices n) (tn_time n + Backoff.Second));
  Done n := (None, n);
  Choose _ _ n :=
    match tn_choices n with
    | [] => (O, n)
    | c :: rest => (c, mkNet (tn_answers n) rest (tn_time n))
    end;
  Random n := (fun _ => 0, n);
|}.

#[export] Instance toy_clock : Notifier.MonotonicClock (N := toyNet).
Proof.
  refine {| Notifier.reading := tn_time |}.
  - intros n. simpl. unfold Backoff.Second. lia.
  - intros req n. simpl. by destruct (tn_answers n).
Defined.

Definition answer (status : Z) (body : bytes) : result Response := Ok (mkResponse status body None).

Definition clients (answers : list (result Response)) (choices : list nat) : Clients (N := toyNet) :=
  mkClients 0 Metrics.New (mkNet answers choices 0) [] ∅ ∅.

(** ** The clients *)

(** Two calls, one slot: the first is answered 503, then accepted; the second waits
    for the slot and is rejected. *)
Lemma concurrent_broadcasts_witness :
  let c := Arcade.New (Arcade.mkOptions "https://arcade" "" 0 1 3) in
  let s0 := clients [answer 503 []; answer 202 []; answer 400 []] [0; 0; 1]%nat in
  let '(rs, s) := run (par [0; 1; 0; 1; 0; 0; 1]%nat (imap (fun i ef => Arcade.Broadcast 100 c i ef) [[x01]; [x02]])) s0 in
  length rs = 2%nat /\ c_slots s = 0 /\
  rs = [Arcade.Returned None; Arcade.Returned (Some (Wrap "HTTP" ErrRejected))].
Proof.
  intros c s0.
  pose proof (Arcade.concurrent_broadcasts (Arcade.mkOptions "https://arcade" "" 0 1 3) 100 [[x01]; [x02]]
    [0; 1; 0; 1; 0; 0; 1]%nat s0 eq_refl eq_refl eq_refl eq_refl) as [_ Hrun]. fold c in Hrun.
  destruct (run _ s0) as [rs s] eqn:Heq. destruct Hrun as (Hlen & Hslots & _).
  split; [exact Hlen|]. split; [exact Hslots|]. change rs with (rs, s).1. rewrite <- Heq. vm_compute. reflexivity.
Defined.

(** The same calls, stopped while the second request of the first is under way. *)
Definition one_slot : Arcade.Options := Arcade.mkOptions "https://arcade" "" 0 1 3.

Definition idle_clients : Clients (N := toyNet) := clients [answer 503 []; answer 202 []; answer 400 []] [0; 0; 1]%nat.

Definition stopped_clients : Clients (N := toyNet) :=
  stop 13 (par (replicate 20 0%nat) (imap (fun i ef => Arcade.Broadcast 100 (Arcade.New one_slot) i ef) [[x01]; [x02]])) idle_clients.

Lemma stopped_reached :
  reaches (par (replicate 20 0%nat) (imap (fun i ef => Arcade.Broadcast 100 (Arcade.New one_slot) i ef) [[x01]; [x02]])) idle_clients stopped_clients.
Proof. unfold stopped_clients. apply stop_reaches. Qed.

Lemma stopped_inflight : 0%nat ∈ c_inflight stopped_clients.
Proof. apply (bool_decide_unpack _). vm_compute. exact I. Qed.

Lemma stopped_broadcasts_witness : length (own 0 stopped_clients) = 1%nat /\
  forall j x, own 0 stopped_clients !! j = Some x -> Arcade.retries x.2 = true.
Proof.
  split; [vm_compute; reflexivity|]. intros j x Hj.
  destruct (Arcade.stopped_broadcasts one_slot 100 [[x01]; [x02]] (replicate 20 0%nat) idle_clients stopped_clients
    eq_refl eq_refl eq_refl eq_refl stopped_reached) as [_ Hall].
  destruct (Hall 0%nat [x01] eq_refl) as (_ & _ & _ & Hfly).
  exact (proj1 (proj2 (Hfly stopped_inflight) j x Hj)).
Defined.

Definition listed_tips : list UTXO := [tipA; tipB].

Lemma listing_roundtrip_witness :
  Woc.readAnswer (mkResponse 200 (Json.print (JObj (Woc.listing listed_tips))) None) = (Ok listed_tips, false).
Proof.
  apply Woc.listing_roundtrip.
  - repeat apply Forall_cons_2; [..|apply Forall_nil_2]; split_and!; try (vm_compute; intuition discriminate); vm_compute; reflexivity.
  - vm_compute. reflexivity.
Defined.

(** ** The notifier *)

Definition slack : Notifier.t := Notifier.New (Notifier.mkOptions "https://hooks" "#alerts" "test" "runner").

(** Two goroutines report the same height; one of the reports is let through. *)
Definition reports : list (list Notifier.report) :=
  [[(100, 2, 5, "aa", "bb")%string]; [(100, 4, 5, "bb", "cc")%string; (101, 1, 5, "bb", "cc")%string]].

Definition reported : Notifier.State (N := toyNet) :=
  (run (par [0; 1; 1; 0]%nat ((fun rs => seq_all (Notifier.report_code slack <$> rs)) <$> reports))
     (Notifier.fresh (mkNet [answer 200 []; answer 500 []] [] 0))).2.

Lemma reorgs_deduplicated_witness :
  Notifier.spaced (Notifier.sendings (Notifier.reorgKey 100) reported) /\
  Notifier.sendings (Notifier.reorgKey 100) reported = [0] /\ length (Notifier.n_posts reported) = 2%nat.
Proof.
  split; [|split; vm_compute; reflexivity].
  refine (proj1 (Notifier.reorgs_deduplicated slack reports [0; 1; 1; 0]%nat (mkNet [answer 200 []; answer 500 []] [] 0) reported _) 100).
  exact (reaches_run _ _).
Defined.

Lemma ReportReorg_posts_witness :
  let s := Notifier.fresh (mkNet [answer 200 []] [] 0) in
  let s' := (run (Notifier.ReportReorg slack 100 4 5 "aa" "bb") s).2 in
  length (Notifier.n_posts s') = 1%nat /\ Notifier.n_last s' !! Notifier.reorgKey 100 = Some 0.
Proof.
  intros s s'. pose proof (Notifier.ReportReorg_posts slack 100 4 5 "aa" "bb" s eq_refl) as Hp.
  destruct Hp as (Hposts & Hlast & _). split; [|exact Hlast]. unfold s'. rewrite Hposts. reflexivity.
Defined.

(** ** The streams *)

(** A process, for the streams and the server. *)
Definition toy_cfg : Config.Config :=
  Config.mkConfig "secret" "8080" "state.db" "info" "json" "https://arcade" "" "https://woc" "" "runner" "test"
    2 2 7 100 2 3 (10 * Backoff.Second) Backoff.Second (30 * Backoff.Second) "https://hooks" "#alerts".

Abbreviation Served := (Server.Served (D := @DB mem_bolt) (W := toyWorld) (N := toyNet)).
Abbreviation Proc := (Process.State (D := @DB mem_bolt) (W := toyWorld) (N := toyNet)).

Definition toy_process (e : E) (answers : list (result Response)) : Proc :=
  Process.newProcess toy_cfg "v1" 0 e (mkNet answers [] 0) (mkNet [answer 200 []] [] 0).

Definition toy_server (e : E) (answers : list (result Response)) : Served := Process.a_served (toy_process e answers).

Definition toy_env : StreamEnv Proc toyNet := Process.streamEnv (Process.reporterOf toy_cfg).

Definition tip_payload : bytes := Json.text "{'height': 840000, 'hash': '00ab', 'time': 1700000000}".
Definition tip_stream : bytes := concat (Sse.render <$> [tip_payload; Json.text "{}"]).

Lemma stream_delivers_witness :
  let s := toy_process idle_engine [answer 200 tip_stream] in
  let x := run (Sse.connect (env := toy_env) "https://arcade/tip" "tip" (Sse.handleTip (env := toy_env))) s in
  x.1.2 = EOF /\ 1 <= x.1.1 /\ sseTipHeight (sSSE (e_state (Process.engine x.2))) = 0.
Proof.
  intros s x.
  assert (Forall Sse.deliverable [tip_payload; Json.text "{}"]) as Hd.
  { repeat apply Forall_cons_2; [..|apply Forall_nil_2]; repeat apply Forall_cons_2; try apply Forall_nil_2; split; vm_compute; congruence. }
  pose proof (Sse.stream_delivers (env := toy_env) (Sse.handleTip (env := toy_env)) "https://arcade/tip" "tip" [tip_payload; Json.text "{}"] s Hd eq_refl) as Hx.
  specialize (Hx eq_refl). fold x in Hx. destruct x as [[uptime e] s'] eqn:Hrun. destruct Hx as (-> & Hup & _).
  split; [reflexivity|]. split; [exact Hup|]. change s' with ((uptime, EOF), s').2. rewrite <- Hrun. vm_compute. reflexivity.
Defined.

Lemma reconnects_paced_witness :
  let s := Sse.newSubscriber (Sse.mkOptions 0 0 0 "" "") in
  let attempt := Sse.attemptAfter s ([0; 0] ++ [5]) in
  attempt = 3 /\
  Sse.reconnectMin s <= Backoff.Reconnect (fun _ => 0) (Sse.reconnectMin s) (Sse.reconnectMax s) attempt.
Proof.
  intros s attempt.
  destruct (Sse.reconnects_paced (Sse.mkOptions 0 0 0 "" "") (fun _ => 0) [0; 0] 5) as ([Hmin _] & Hatt & _).
  - intros n Hn. lia.
  - simpl. lia.
  - simpl. lia.
  - split; [|exact Hmin]. apply Hatt. repeat apply Forall_cons_2; try apply Forall_nil_2; vm_compute; reflexivity.
Defined.

Definition reorg_payload : bytes :=
  Json.text "{'orphanedHashes': ['0a', '0b'], 'newTip': {'height': 840002, 'hash': '0c'}, 'depth': 2}".

Lemma reorgHeight_spec_witness : exists r,
  Json.UnmarshalInto (Json.decStruct Sse.reorgFields) reorg_payload Sse.zeroReorg = Some r /\ Sse.reorgHeight r = 840001.
Proof.
  destruct (Json.UnmarshalInto (Json.decStruct Sse.reorgFields) reorg_payload Sse.zeroReorg) as [r|] eqn:Hr; [|vm_compute in Hr; discriminate].
  exists r. split; [reflexivity|]. destruct (Sse.reorgHeight_spec reorg_payload r Hr) as (_ & _ & Htip & _).
  vm_compute in Hr. injection Hr as <-. exact (Htip _ eq_refl eq_refl).
Defined.

(** ** The server *)

Definition config_request (auth : string) (body : bytes) : Server.HttpRequest :=
  Server.mkHttpRequest "POST" "/config" auth "application/json; charset=utf-8" body true.

Lemma unauthorized_changes_nothing_witness :
  let x := run (Server.serve (config_request "Bearer guess" (Json.text "{'tps': 9}"))) (toy_server idle_engine []) in
  Server.hpStatus x.1 = 401 /\ Server.untouched (toy_server idle_engine []) x.2.
Proof.
  intros x.
  pose proof (Server.unauthorized_changes_nothing (config_request "Bearer guess" (Json.text "{'tps': 9}")) (toy_server idle_engine [])) as Hx.
  fold x in Hx. destruct x as [resp s']. destruct Hx as [Hun Hrt].
  - intros token Heq Hsum. exfalso. change (to_bytes "Bearer " ++ to_bytes "guess" = to_bytes "Bearer " ++ token) in Heq.
    apply app_inv_head in Heq. subst token. vm_compute in Hsum. discriminate.
  - vm_compute. discriminate.
  - split; [|exact Hun]. apply (Hrt Server.RConfig); [reflexivity|left|reflexivity].
Defined.

Lemma handleConfig_spec_witness :
  let r := config_request "Bearer secret" (Json.text "{'tps': 9, 'numChains': 50}") in
  let x := run (Server.handleConfig r) (toy_server idle_engine []) in
  Server.hpStatus x.1 = 200 /\ e_numChains (Server.v_engine x.2) = 50 /\ e_tps (Server.v_engine x.2) = 9.
Proof.
  intros r x. pose proof (Server.handleConfig_spec r (toy_server idle_engine []) ltac:(vm_compute; reflexivity)) as Hx.
  fold x in Hx. destruct x as [resp s']. 
  assert (Server.isJSON r = true) as Hj by (vm_compute; reflexivity). rewrite Hj in Hx. cbn [negb] in Hx.
  assert (Server.decodeRequest r = Some (Server.mkConfigRequest (Some 9) (Some 50) None None)) as Hd by (vm_compute; reflexivity).
  rewrite Hd in Hx. destruct Hx as [[Hno _]|[_ Hx]].
  - exfalso. apply Hno. split_and!; try (intros v [= <-]; vm_compute; split; congruence || reflexivity || discriminate); try discriminate; left; discriminate.
  - assert (bool_decide (is_Some (Server.bootstrapUpdate (Server.mkConfigRequest (Some 9) (Some 50) None None))) && funded (Server.v_engine (toy_server idle_engine [])) = false) as Hb
      by (vm_compute; reflexivity).
    rewrite Hb in Hx. destruct Hx as (Hst & (Hcfg & Htps & _) & _). split; [exact Hst|]. split; [|exact Htps].
    exact (f_equal bcNumChains Hcfg).
Defined.

Lemma racing_config_requests_witness :
  let r n := config_request "Bearer secret" (Json.text n) in
  let x := run (par [0; 0; 0; 1; 1; 1; 1; 0]%nat
    [Server.handleConfig (r "{'numChains': 50}"%string); Server.handleConfig (r "{'numChains': 60}"%string)]) (toy_server idle_engine []) in
  (Server.hpStatus <$> x.1) = [200; 200] /\ e_numChains (Server.v_engine x.2) = 60 /\
  Config.NumChains (Server.sCfg (Server.v_server x.2)) = 50.
Proof.
  intros r x.
  pose proof (Server.racing_config_requests (r "{'numChains': 50}"%string) (r "{'numChains': 60}"%string) 50 60 (toy_server idle_engine [])
    ltac:(vm_compute; reflexivity) ltac:(vm_compute; reflexivity) ltac:(vm_compute; reflexivity) ltac:(vm_compute; reflexivity)
    ltac:(vm_compute; reflexivity) ltac:(vm_compute; reflexivity) ltac:(lia) ltac:(lia) ltac:(vm_compute; reflexivity)) as Hx.
  fold x in Hx. destruct x as [resps s']. exact Hx.
Defined.

(** ** The process *)

(** A bootstrapped instance's file: two tips, the lock script and the stage. *)
Definition instance_file (faults : list bool) : @DB mem_bolt :=
  file_after [OpSaveUTXO tipA; OpSaveUTXO tipB; OpSetMeta MetaLockScriptHash (ModeScriptHash drop_mode);
    OpSetMeta MetaBootstrapStage StageL2Done] faults.

Lemma instance_file_wf faults : ds_wf (instance_file faults).
Proof. exact (file_after_wf _ _). Qed.

Lemma state_belongs_to_mode_witness :
  let b := App.mkBoot (instance_file []) calm_world in
  let x := run (App.initialUTXOs drop_mode) b in
  x.1 = Ok [tipA; tipB] /\ App.recorded x.2 = ModeScriptHash drop_mode.
Proof.
  intros b x. destruct (App.state_belongs_to_mode drop_mode b (instance_file_wf [])) as [_ Hx]. fold x in Hx.
  assert (x.1 = Ok [tipA; tipB]) as Hok by (vm_compute; reflexivity). split; [exact Hok|].
  destruct x as [r b']. simpl in Hok. subst r. destruct Hx as [Hus _]. exact (proj1 (proj2 (Hus _ eq_refl))).
Defined.

Definition instance_engine (faults : list bool) (w : toyWorld) : E :=
  let e := engine_over (instance_file faults) [tipA; tipB] 2 w in set_state (with_stage StageL2Done (e_state e)) e.

Lemma instance_ready faults w : chains_ready drop_mode (instance_engine faults w).
Proof.
  apply (ready_quiet _ (engine_over (instance_file faults) [tipA; tipB] 2 w)).
  - apply chains_ready_over; [apply file_after_wf|vm_compute; reflexivity|vm_compute; reflexivity].
  - by intros Hd.
  - reflexivity.
Qed.

Lemma instance_seed faults w : tipA ∈ Queue.heap (e_queue (instance_engine faults w)).
Proof. assert (Queue.heap (e_queue (instance_engine faults w)) = [tipA; tipB]) as -> by reflexivity. left. Qed.

(** The chains run while a tip arrives, the rate is changed and a stranger tries to
    stop them; the commit of the first hop fails. *)
Definition toy_requests : list Server.HttpRequest :=
  [config_request "Bearer secret" (Json.text "{'tps': 9, 'numChains': 50}");
   Server.mkHttpRequest "POST" "/stop" "Bearer guess" "application/json" [] true].

(** The reorg stream and the second request panic. *)
Definition toy_panics (i : nat) : option (nat * string) :=
  match i with 3%nat => Some (1%nat, "boom"%string) | 5%nat => Some (0%nat, "boom"%string) | _ => None end.

Definition toy_fuel : Process.Fuel := Process.mkFuel 0 3 100 1 1.
Definition toy_schedule : list nat := [0; 2; 4; 0; 0; 5; 0; 2; 0; 4; 1; 0; 0; 2; 0; 4; 5; 0; 3; 0; 0]%nat.

(** The second chain panics in its first hop. *)
Definition one_panic : toyWorld := mkWorld [] [] [] [] [None; Some (8%nat, "boom"%string)].

Definition instance : Proc := toy_process (instance_engine [false; true] one_panic) [answer 200 tip_stream].
Definition stopped_instance : Proc := (run (par toy_schedule (Process.goroutines toy_panics toy_fuel toy_cfg toy_requests)) instance).2.

Lemma process_crash_safe_witness :
  chain_status drop_mode tipA (Process.engine stopped_instance) /\ size (pendings (Process.engine stopped_instance)) = 1%nat.
Proof.
  split; [|vm_compute; reflexivity].
  refine (Process.process_crash_safe drop_mode toy_panics toy_fuel toy_cfg toy_requests toy_schedule instance stopped_instance tipA
    (instance_ready _ _) eq_refl (instance_seed _ _) (reaches_run _ _)).
Defined.

Definition file_of (e : E) : @DB mem_bolt := default (fresh []) (Queue.store (e_queue e)).
(** The goroutine of the engine panics at its ninth action. *)
Lemma engine_panic_unnoticed_witness :
  let x := run (Safe.mayPanic (Some (8%nat, "boom"%string)) (Process.onServed (Process.engineGoroutine 0 3 100))) instance in
  x.1 = Safe.Panicked "boom" /\ Process.flags (Server.v_server (Process.a_served x.2)) = (true, false).
Proof.
  intros x. assert (x.1 = Safe.Panicked "boom"%string) as Hx by (vm_compute; reflexivity). split; [exact Hx|].
  refine (Process.engine_panic_unnoticed 7 "boom" "boom" 0 3 100 instance x.2 _).
  etransitivity; [apply surjective_pairing|]. rewrite <- Hx. reflexivity.
Defined.

Definition left_file : @DB mem_bolt := file_of (Process.engine stopped_instance).

Definition boot_again : App.Boot (D := @DB mem_bolt) (W := toyWorld) := App.mkBoot left_file calm_world.

Definition started (r : result E) : bool := match r with Ok _ => true | Err _ => false end.

Lemma left_file_store : Queue.store (e_queue (Process.engine stopped_instance)) = Some (App.b_store boot_again).
Proof. vm_compute. reflexivity. Qed.

Lemma left_tips : tips (Process.engine stopped_instance) <> ∅.
Proof. intros Hn. apply (f_equal size) in Hn. vm_compute in Hn. discriminate. Qed.

Lemma started_Ok (r : result E) : started r = true -> exists e2, r = Ok e2.
Proof. destruct r as [e2|x]; [by exists e2|done]. Qed.

Lemma start_again_Ok : exists e2, (run (App.start toy_cfg (e_log (Process.engine stopped_instance))) boot_again).1 = Ok e2.
Proof. apply started_Ok. vm_compute. reflexivity. Qed.

Lemma process_restart_witness : exists e2,
  (run (App.start toy_cfg (e_log (Process.engine stopped_instance))) boot_again).1 = Ok e2 /\ e_log e2 = e_log (Process.engine stopped_instance).
Proof.
  destruct start_again_Ok as [e2 Hs]. exists e2. split; [exact Hs|].
  exact (proj1 (proj2 (Process.process_restart drop_mode toy_panics toy_fuel toy_cfg toy_cfg toy_requests toy_schedule instance stopped_instance tipA
    boot_again e2 (instance_ready _ _) eq_refl (instance_seed _ _) (reaches_run _ _) left_file_store left_tips Hs))).
Defined.

(** A funded instance: one output, to be fanned out into three chains, two to a
    fanout.  The commit of the second fanout fails. *)
Definition funding : UTXO := mkUTXO "ff" 0 100000 7.

Definition funded_file : @DB mem_bolt :=
  file_after [OpSaveUTXO funding; OpSetMeta MetaLockScriptHash (ModeScriptHash drop_mode)] (replicate 6 false ++ [true]).

Definition funded_instance : Proc := toy_process (engine_over funded_file [funding] 3 calm_world) [answer 200 tip_stream].

Lemma funded_instance_ready : funded_engine drop_mode funding (Process.engine funded_instance).
Proof. split; try reflexivity; [apply engine_over_durable, file_after_wf|vm_compute; reflexivity..]. Qed.

Definition stopped_bootstrap : Proc := (run (par toy_schedule (Process.goroutines toy_panics toy_fuel toy_cfg toy_requests)) funded_instance).2.

Lemma process_bootstrap_crash_safe_witness :
  growth drop_mode 3 2 funding (Process.engine stopped_bootstrap) /\
  (snd <$> e_log (Process.engine stopped_bootstrap)) = [true; true; true] /\ size (pendings (Process.engine stopped_bootstrap)) = 1%nat.
Proof.
  split; [|split; vm_compute; reflexivity].
  refine (Process.process_bootstrap_crash_safe drop_mode toy_panics toy_fuel toy_cfg toy_requests toy_schedule funded_instance stopped_bootstrap funding
    funded_instance_ready (toy_rooted _ _) _ (reaches_run _ _)).
  vm_compute. reflexivity.
Defined.

(** It is restarted on the file it left, with the commit of the second fanout pending. *)
Definition boot_bootstrap : App.Boot (D := @DB mem_bolt) (W := toyWorld) :=
  App.mkBoot (file_of (Process.engine stopped_bootstrap)) calm_world.

Lemma bootstrap_file_store : Queue.store (e_queue (Process.engine stopped_bootstrap)) = Some (App.b_store boot_bootstrap).
Proof. vm_compute. reflexivity. Qed.

Lemma bootstrap_tips : tips (Process.engine stopped_bootstrap) <> ∅.
Proof. intros Hn. apply (f_equal size) in Hn. vm_compute in Hn. discriminate. Qed.

Lemma boot_bootstrap_Ok : exists e2, (run (App.start toy_cfg (e_log (Process.engine stopped_bootstrap))) boot_bootstrap).1 = Ok e2.
Proof. apply started_Ok. vm_compute. reflexivity. Qed.

Lemma process_bootstrap_restart_witness : exists e2,
  (run (App.start toy_cfg (e_log (Process.engine stopped_bootstrap))) boot_bootstrap).1 = Ok e2 /\
  regrowth drop_mode 3 2 funding (Process.engine stopped_bootstrap) e2.
Proof.
  destruct boot_bootstrap_Ok as [e2 Hs]. exists e2. split; [exact Hs|].
  refine (proj2 (proj2 (proj2 (proj2 (Process.process_bootstrap_restart drop_mode toy_panics toy_fuel toy_cfg toy_cfg toy_requests toy_schedule
    funded_instance stopped_bootstrap funding boot_bootstrap e2 funded_instance_ready (toy_rooted _ _) _ (reaches_run _ _)
    bootstrap_file_store bootstrap_tips Hs))))).
  vm_compute. reflexivity.
Defined.

Lemma bootstrap_file_fine : faultless (App.b_store boot_bootstrap).
Proof.
  split; [vm_compute; reflexivity|].
  pose proof (Process.process_stage drop_mode toy_panics toy_fuel toy_cfg toy_requests toy_schedule funded_instance stopped_bootstrap funding
    funded_instance_ready (toy_rooted _ _) ltac:(vm_compute; reflexivity) (reaches_run _ _)) as Hs.
  apply stage_crash in Hs as (lanes & _ & [[_ Hwf] _] & _); [|apply toy_rooted|vm_compute; reflexivity].
  by rewrite bootstrap_file_store in Hwf.
Qed.

Lemma restart_succeeds_witness : exists e2, (run (App.start toy_cfg (e_log (Process.engine stopped_bootstrap))) boot_bootstrap).1 = Ok e2.
Proof.
  refine (Process.restart_succeeds drop_mode toy_panics toy_fuel toy_cfg toy_cfg toy_requests toy_schedule funded_instance stopped_bootstrap
    boot_bootstrap faultless drop_mode mem_reliable (or_intror (ex_intro _ funding (conj funded_instance_ready (conj (toy_rooted _ _) _))))
    (reaches_run _ _) bootstrap_file_store bootstrap_tips bootstrap_file_fine _ _).
  - vm_compute. reflexivity.
  - vm_compute. reflexivity.
  - unfold App.refused. assert (App.recorded boot_bootstrap = ModeScriptHash drop_mode) as -> by (vm_compute; reflexivity).
    intros [[_ Hn]|[Hn _]]; [by apply Hn|vm_compute in Hn; discriminate].
Defined.

(** ** Starting and returning *)

(** On a new file the process starts, cannot listen, and returns that error. *)
Definition toy_begin : Lifecycle.beginning E := Lifecycle.begin (fun _ => None) toy_cfg [] calm_world.

Lemma toy_begins : exists eng, toy_begin = Lifecycle.Begun eng.
Proof.
  assert (match toy_begin with Lifecycle.Begun _ => true | _ => false end = true) as Hb by (vm_compute; reflexivity).
  destruct toy_begin as [|eng]; [done|by exists eng].
Qed.

Lemma Run_result_witness :
  Lifecycle.servingFailed Lifecycle.failing (Wrap "listen on" (External "address in use")).
Proof.
  pose proof (Lifecycle.Run_result (fun _ => None) toy_cfg [] calm_world 2 Lifecycle.failing Lifecycle.failed true
    (Some (Wrap "listen on" (External "address in use")))) as Hr.
  fold toy_begin in Hr. destruct toy_begins as [eng Hb]. rewrite Hb in Hr. apply Hr; reflexivity.
Defined.
